(** * Ultra KSM (mm/ksm.c): a shallow embedding of the merge engine

    Part I embeds the code, in the order of [mm/ksm.c]:

    - [Hash]: [random_sample_hash] and [delta_hash];
    - [InterTab]: the area table and the inter-vma table;
    - [Ladder]: the scan ladder, [cal_dedup_ratio], [round_update_ladder];
    - [Engine]: pages, rmap items, the stable and the unstable tree, the
      stable graph and its counters, [cmp_and_merge_page];
    - [Scan]: the end of a round in [ksm_do_scan];
    - [Examples]: concrete states;
    - [Rshash]: the tuning of the hash strength, [rshash_adjust];
    - [Sampling]: [init_random_sampling];
    - [RmapList]: the pool of rmap list entries and the tag of an entry
      that holds an address;
    - [Twins]: more concrete states.

    Part II holds the lemmas and theorems, one module of facts for each
    module of code ([HashFacts], [InterTabFacts], [LadderFacts],
    [ScanFacts], and [EngineFacts], [CostFacts], [GraphFacts] for the
    engine), then [RshashFacts], [DeltaHashFacts], [PairFacts],
    [SamplingFacts], [MergeFacts], [StableGraphFacts], [RoundResetFacts],
    [RmapListFacts] and [PublishFacts].

    Conventions.  A [u32] is a [Z] in [0, 2^32) with the wrap-around written
    out ([u32]); [unsigned long] and [u64] are 64-bit ([u64]).  The [int]
    loop indices and hash strengths of the hash functions are plain [Z]: for
    strengths in [[0, HASH_STRENGTH_MAX]] no conversion between [int] and
    [unsigned long] changes a value.  [PAGE_SIZE] comes from the architecture
    headers, so [HASH_STRENGTH_FULL = PAGE_SIZE / sizeof(u32)] is a section
    variable. *)

From Stdlib Require Import ZArith Lia List Bool.
From stdpp Require Import base option list gmap.

Local Open Scope Z_scope.

(** ** Machine integers *)

Definition u32 (z : Z) : Z := z mod 2 ^ 32.
Definition u64 (z : Z) : Z := z mod 2 ^ 64.

(** ** The random sampling hash *)

Module Hash.

(** [#define shiftl 8] and [#define shiftr 12]. *)
Definition shiftl : Z := 8.
Definition shiftr : Z := 12.

Section WithPage.

(** [HASH_STRENGTH_FULL], the number of 32-bit words of a page. *)
Variable HASH_STRENGTH_FULL : Z.

(** [random_nums]: the table of random offsets, as the map from an index
    to the word position stored there. *)
Variable random_nums : Z -> Z.

(** [key]: the mapped page, read as an array of 32-bit words. *)
Variable key : Z -> Z.

Definition HASH_STRENGTH_MAX : Z := HASH_STRENGTH_FULL + 10.

(** The body of [HASH_FROM_TO]. *)
Definition hash_up (index hash : Z) : Z :=
    let pos := random_nums index in
    let hash := u32 (hash + key pos) in
    let hash := u32 (hash + u32 (Z.shiftl hash shiftl)) in
    let hash := Z.lxor hash (Z.shiftr hash shiftr) in
    hash.

(** The body of [HASH_FROM_DOWN_TO]. *)
Definition hash_down (index hash : Z) : Z :=
    let hash := Z.lxor hash (Z.shiftr hash shiftr) in
    let hash := Z.lxor hash (Z.shiftr hash (shiftr * 2)) in
    let hash := u32 (hash - u32 (Z.shiftl hash shiftl)) in
    let hash := u32 (hash + u32 (Z.shiftl hash (shiftl * 2))) in
    let pos := random_nums index in
    let hash := u32 (hash - key pos) in
    hash.

(** [for (index = from; index < to; index++)], [n] iterations left. *)
Fixpoint up_loop (n : nat) (index hash : Z) : Z :=
    match n with
    | O => hash
    | S n' => up_loop n' (index + 1) (hash_up index hash)
    end.

(** [for (index = from - 1; index >= to; index--)], [n] iterations left. *)
Fixpoint down_loop (n : nat) (index hash : Z) : Z :=
    match n with
    | O => hash
    | S n' => down_loop n' (index - 1) (hash_down index hash)
    end.

Definition HASH_FROM_TO (from to hash : Z) : Z :=
    up_loop (Z.to_nat (to - from)) from hash.

Definition HASH_FROM_DOWN_TO (from to hash : Z) : Z :=
    down_loop (Z.to_nat (from - to)) (from - 1) hash.

Definition random_sample_hash (hash_strength : Z) : Z :=
    let hash := 3735928559 (* 0xdeadbeef *) in
    let loop := hash_strength in
    let loop := if loop >? HASH_STRENGTH_FULL then HASH_STRENGTH_FULL else loop in
    let hash := HASH_FROM_TO 0 loop hash in
    if hash_strength >? HASH_STRENGTH_FULL then
      let loop := hash_strength - HASH_STRENGTH_FULL in
      HASH_FROM_TO 0 loop hash
    else hash.

Definition delta_hash (from to hash : Z) : Z :=
    if to >? from then
      if from >=? HASH_STRENGTH_FULL then
        let from := from - HASH_STRENGTH_FULL in
        let to := to - HASH_STRENGTH_FULL in
        HASH_FROM_TO from to hash
      else if to <=? HASH_STRENGTH_FULL then
        HASH_FROM_TO from to hash
      else
        let hash := HASH_FROM_TO from HASH_STRENGTH_FULL hash in
        HASH_FROM_TO 0 (to - HASH_STRENGTH_FULL) hash
    else
      if from <=? HASH_STRENGTH_FULL then
        HASH_FROM_DOWN_TO from to hash
      else if to >=? HASH_STRENGTH_FULL then
        let from := from - HASH_STRENGTH_FULL in
        let to := to - HASH_STRENGTH_FULL in
        HASH_FROM_DOWN_TO from to hash
      else
        let hash := HASH_FROM_DOWN_TO (from - HASH_STRENGTH_FULL) 0 hash in
        HASH_FROM_DOWN_TO HASH_STRENGTH_FULL to hash.

End WithPage.

End Hash.


(** ** Outcomes of kernel code

    [BUG()] and a failed [BUG_ON] stop the thread; an array access outside
    the allocation and a division by zero are kept apart from them. *)

Inductive result (A : Type) : Type :=
| Ok (a : A)
| Bug
| OutOfBounds
| DivByZero.

Arguments Ok {A} a.
Arguments Bug {A}.
Arguments OutOfBounds {A}.
Arguments DivByZero {A}.

Definition bind {A B : Type} (r : result A) (f : A -> result B) : result B :=
  match r with
  | Ok a => f a
  | Bug => Bug
  | OutOfBounds => OutOfBounds
  | DivByZero => DivByZero
  end.

Notation "'do' x <- r ;; k" := (bind r (fun x => k))
  (at level 10, x name, r at level 99, k at level 200).

Definition BUG_ON (cond : bool) : result unit :=
  if cond then Bug else Ok tt.

(** ** The inter-vma duplication table *)

Module InterTab.

(** [#define KSM_DUP_VMA_MAX 2048] and [ksm_vma_table_size = 2048]. *)
Definition KSM_DUP_VMA_MAX : Z := 2048.
Definition ksm_vma_table_size : Z := 2048.

(** Number of [unsigned int] entries of [ksm_inter_vma_table]: [ksm_init]
    allocates [KSM_DUP_VMA_MAX * KSM_DUP_VMA_MAX * sizeof(unsigned int) / 2]
    bytes. *)
Definition inter_vma_table_len : Z :=
  KSM_DUP_VMA_MAX * KSM_DUP_VMA_MAX * 4 / 2 / 4.

(** The table state.  A [vma_slot] is named by a number; [ksm_index] holds
    [slot->ksm_index], which [alloc_vma_slot] sets to [-1]; the counters of
    [ksm_inter_vma_table] start at zero. *)
Record state : Type := mkState {
  ksm_vma_table : list (option nat);
  ksm_vma_table_num : Z;
  ksm_vma_table_index_end : Z;
  ksm_inter_vma_table : gmap Z Z;
  ksm_index : gmap nat Z;
}.

Definition slot_ksm_index (st : state) (slot : nat) : Z :=
  default (-1) (ksm_index st !! slot).

(** State after [ksm_init]: both tables zeroed. *)
Definition init : state :=
  {| ksm_vma_table := replicate (Z.to_nat ksm_vma_table_size) None;
     ksm_vma_table_num := 0;
     ksm_vma_table_index_end := 0;
     ksm_inter_vma_table := ∅;
     ksm_index := ∅ |}.

(** [ksm_vma_table[i]] read, inside the allocation or not. *)
Definition vma_table_read (st : state) (i : Z) : result (option nat) :=
  if (0 <=? i) && (i <? ksm_vma_table_size) then
    match ksm_vma_table st !! Z.to_nat i with
    | Some e => Ok e
    | None => OutOfBounds
    end
  else OutOfBounds.

(** [ksm_vma_table[i] = e]. *)
Definition vma_table_write (st : state) (i : Z) (e : option nat) : result state :=
  if (0 <=? i) && (i <? ksm_vma_table_size)
     && (i <? Z.of_nat (length (ksm_vma_table st))) then
    Ok {| ksm_vma_table := <[Z.to_nat i := e]> (ksm_vma_table st);
          ksm_vma_table_num := ksm_vma_table_num st;
          ksm_vma_table_index_end := ksm_vma_table_index_end st;
          ksm_inter_vma_table := ksm_inter_vma_table st;
          ksm_index := ksm_index st |}
  else OutOfBounds.

(** [ksm_inter_vma_table[offset]] read and write. *)
Definition inter_read (st : state) (offset : Z) : result Z :=
  if (0 <=? offset) && (offset <? inter_vma_table_len) then
    Ok (default 0 (ksm_inter_vma_table st !! offset))
  else OutOfBounds.

Definition inter_write (st : state) (offset v : Z) : result state :=
  if (0 <=? offset) && (offset <? inter_vma_table_len) then
    Ok {| ksm_vma_table := ksm_vma_table st;
          ksm_vma_table_num := ksm_vma_table_num st;
          ksm_vma_table_index_end := ksm_vma_table_index_end st;
          ksm_inter_vma_table := <[offset := v]> (ksm_inter_vma_table st);
          ksm_index := ksm_index st |}
  else OutOfBounds.

Definition set_ksm_index (st : state) (slot : nat) (i : Z) : state :=
  {| ksm_vma_table := ksm_vma_table st;
     ksm_vma_table_num := ksm_vma_table_num st;
     ksm_vma_table_index_end := ksm_vma_table_index_end st;
     ksm_inter_vma_table := ksm_inter_vma_table st;
     ksm_index := <[slot := i]> (ksm_index st) |}.

Definition set_num_end (st : state) (num index_end : Z) : state :=
  {| ksm_vma_table := ksm_vma_table st;
     ksm_vma_table_num := num;
     ksm_vma_table_index_end := index_end;
     ksm_inter_vma_table := ksm_inter_vma_table st;
     ksm_index := ksm_index st |}.

(** The search loop of [enter_inter_vma_table]:
    [for (i = 0; i <= ksm_vma_table_size; i++) if (!ksm_vma_table[i]) break;]
    with [fuel] iterations left before [i <= ksm_vma_table_size] fails. *)
Fixpoint find_free (fuel : nat) (st : state) (i : Z) : result Z :=
  match fuel with
  | O => Ok i
  | S fuel' =>
      do e <- vma_table_read st i ;;
      match e with
      | None => Ok i
      | Some _ => find_free fuel' st (i + 1)
      end
  end.

Definition enter_inter_vma_table (st : state) (slot : nat) : result state :=
  do i <- find_free (Z.to_nat (ksm_vma_table_size + 1)) st 0 ;;
  do e <- vma_table_read st i ;;
  do _ <- BUG_ON (bool_decide (e <> None)) ;;
  let st := set_ksm_index st slot i in
  do st <- vma_table_write st i (Some slot) ;;
  let st := set_num_end st (u64 (ksm_vma_table_num st + 1))
                        (ksm_vma_table_index_end st) in
  do _ <- BUG_ON (i >? ksm_vma_table_index_end st) ;;
  let st := if i =? ksm_vma_table_index_end st
            then set_num_end st (ksm_vma_table_num st)
                             (u64 (ksm_vma_table_index_end st + 1))
            else st in
  do _ <- BUG_ON (ksm_vma_table_index_end st >? ksm_vma_table_size - 1) ;;
  Ok st.

(** [intertab_vma_offset(int i, int j)]; the indices are far from the
    [int] limits, [/] is C's truncating division. *)
Definition intertab_vma_offset (i j : Z) : Z :=
  let '(i, j) := if i <? j then (j, i) else (i, j) in
  Z.quot (i * (i + 1)) 2 + j.

Definition inc_vma_intertab_pair (st : state) (slot1 slot2 : nat) : result state :=
  do st <- (if slot_ksm_index st slot1 =? -1
         then enter_inter_vma_table st slot1 else Ok st) ;;
  do st <- (if slot_ksm_index st slot2 =? -1
         then enter_inter_vma_table st slot2 else Ok st) ;;
  let offset := intertab_vma_offset (slot_ksm_index st slot1)
                                    (slot_ksm_index st slot2) in
  do v <- inter_read st offset ;;
  do st <- inter_write st offset (u32 (v + 1)) ;;
  do v <- inter_read st offset ;;
  do _ <- BUG_ON (v =? 0) ;;
  Ok st.

Definition dec_vma_intertab_pair (st : state) (slot1 slot2 : nat) : result state :=
  do _ <- BUG_ON ((slot_ksm_index st slot1 =? -1)
               || (slot_ksm_index st slot2 =? -1)) ;;
  let offset := intertab_vma_offset (slot_ksm_index st slot1)
                                    (slot_ksm_index st slot2) in
  do v <- inter_read st offset ;;
  do _ <- BUG_ON (v =? 0) ;;
  inter_write st offset (u32 (v - 1)).

(** One loop of [ksm_intertab_clear]: the entries of the pairs
    [(slot->ksm_index, i)] for [i] in [idxs] are zeroed. *)
Definition clear_entries (st : state) (index : Z) (idxs : list Z) : result state :=
  foldl (fun r i => do st <- r ;; inter_write st (intertab_vma_offset index i) 0)
        (Ok st) idxs.

Definition ksm_intertab_clear (st : state) (slot : nat) : result state :=
  let index := slot_ksm_index st slot in
  do st <- clear_entries st index (seqZ 0 (index + 1)) ;;
  clear_entries st index
    (seqZ (index + 1) (ksm_vma_table_index_end st - (index + 1))).

(** A run of duplicate observations, each a pair of areas. *)
Definition observe (st : state) (pairs : list (nat * nat)) : result state :=
  foldl (fun r p => do st <- r ;; inc_vma_intertab_pair st p.1 p.2) (Ok st) pairs.

(** Number of areas in [ksm_vma_table]. *)
Definition tracked (st : state) : nat :=
  length (filter (fun e : option nat => e <> None) (ksm_vma_table st)).

End InterTab.


(** ** The scan ladder and the round boundary *)

Module Ladder.

Definition KSM_DEDUP_RATIO_SCALE : Z := 100.
Definition KSM_SCAN_RATIO_MAX : Z := 125.

(** The fields of [struct vma_slot] the ladder reads and writes
    ([ksm_index] is kept by [InterTab.state]); the counters are
    [unsigned long], [rung] is the index of the rung pointed to. *)
Record vma_slot : Type := mkSlot {
  pages : Z;
  pages_scanned : Z;
  last_scanned : Z;
  pages_merged : Z;
  pages_cowed : Z;
  dedup_ratio : Z;
  rung : Z;
  pages_to_scan : Z;
  slot_scanned : bool;
  fully_scanned : bool;
}.

(** A [struct list_head *] into a rung's list: not set yet, the list head
    [&rung->vma_list], or the node [&slot->ksm_list] of an area. *)
Inductive scan_ptr : Type :=
| PNull
| PHead
| PSlot (slot : nat).

Global Instance scan_ptr_eq_dec : EqDecision scan_ptr.
Proof. solve_decision. Defined.

(** [struct scan_rung]; [vma_list] lists the areas from [vma_list.next]
    on. *)
Record scan_rung : Type := mkRung {
  scan_ratio : Z;
  vma_list : list nat;
  current_scan : scan_ptr;
  vma_num : Z;
  fully_scanned_slots : Z;
  round_finished : bool;
  rung_pages_to_scan : Z;
}.

Record state : Type := mkState {
  tab : InterTab.state;
  slots : gmap nat vma_slot;
  ksm_scan_ladder : list scan_rung;
  ksm_vma_slot_num : Z;
  ksm_thrash_threshold : Z;
}.

Definition ksm_scan_ladder_size (st : state) : Z :=
  Z.of_nat (length (ksm_scan_ladder st)).

Definition set_tab (st : state) (t : InterTab.state) : state :=
  mkState t (slots st) (ksm_scan_ladder st) (ksm_vma_slot_num st)
          (ksm_thrash_threshold st).

Definition set_slots (st : state) (m : gmap nat vma_slot) : state :=
  mkState (tab st) m (ksm_scan_ladder st) (ksm_vma_slot_num st)
          (ksm_thrash_threshold st).

Definition set_ladder (st : state) (l : list scan_rung) : state :=
  mkState (tab st) (slots st) l (ksm_vma_slot_num st)
          (ksm_thrash_threshold st).

(** Dereferencing an area or a rung that is not there is a memory error. *)
Definition get_slot (st : state) (slot : nat) : result vma_slot :=
  match slots st !! slot with
  | Some s => Ok s
  | None => OutOfBounds
  end.

Definition get_rung (st : state) (k : Z) : result scan_rung :=
  if 0 <=? k then
    match ksm_scan_ladder st !! Z.to_nat k with
    | Some r => Ok r
    | None => OutOfBounds
    end
  else OutOfBounds.

Definition put_slot (st : state) (slot : nat) (s : vma_slot) : state :=
  set_slots st (<[slot := s]> (slots st)).

Definition put_rung (st : state) (k : Z) (r : scan_rung) : state :=
  set_ladder st (<[Z.to_nat k := r]> (ksm_scan_ladder st)).

(** Unsigned division. *)
Definition udiv (a b : Z) : result Z :=
  if b =? 0 then DivByZero else Ok (a / b).

(** [get_vma_random_scan_num]. *)
Definition get_vma_random_scan_num (s : vma_slot) (scan_ratio : Z) : Z :=
  u64 (pages s * scan_ratio) / KSM_SCAN_RATIO_MAX.

(** [list_empty(&slot->ksm_list)]: the area is on no rung. *)
Definition ksm_list_empty (st : state) (slot : nat) : bool :=
  negb (existsb (fun r => bool_decide (slot ∈ vma_list r)) (ksm_scan_ladder st)).

(** [slot->ksm_list.next] within the list [l] of its rung. *)
Fixpoint list_next (l : list nat) (slot : nat) : scan_ptr :=
  match l with
  | [] => PHead
  | x :: l' =>
      if decide (x = slot)
      then match l' with [] => PHead | y :: _ => PSlot y end
      else list_next l' slot
  end.

(** [list->next] of a list head. *)
Definition list_first (l : list nat) : scan_ptr :=
  match l with [] => PHead | x :: _ => PSlot x end.

Definition list_del (l : list nat) (slot : nat) : list nat :=
  filter (fun x => x <> slot) l.

(** The loop of [vma_rung_enter] that looks for a rung giving the area a
    non-zero quota, [fuel] rungs left above [k]. *)
Fixpoint find_rung (fuel : nat) (st : state) (s : vma_slot) (k : Z)
  : result (Z * Z) :=
  do r <- get_rung st k ;;
  let pages_to_scan := get_vma_random_scan_num s (scan_ratio r) in
  if pages_to_scan =? 0 then
    match fuel with
    | O => Bug
    | S fuel' =>
        do _ <- BUG_ON (k + 1 >? ksm_scan_ladder_size st - 1) ;;
        find_rung fuel' st s (k + 1)
    end
  else Ok (k, pages_to_scan).

Definition vma_rung_enter (st : state) (slot : nat) (k : Z) : result state :=
  do s <- get_slot st slot ;;
  let old := rung s in
  do old_rung <- get_rung st old ;;
  (* leave the old rung it was in *)
  do _ <- BUG_ON (ksm_list_empty st slot) ;;
  let cur := if decide (current_scan old_rung = PSlot slot)
             then list_next (vma_list old_rung) slot
             else current_scan old_rung in
  let l := list_del (vma_list old_rung) slot in
  let num := u64 (vma_num old_rung - 1) in
  let fss := if fully_scanned s then u64 (fully_scanned_slots old_rung - 1)
             else fully_scanned_slots old_rung in
  do old_rung' <-
    (if decide (cur = PHead) then
       (* This rung finishes a round *)
       let cur := list_first l in
       do _ <- BUG_ON (bool_decide (cur = PHead) && negb (bool_decide (l = []))) ;;
       Ok (mkRung (scan_ratio old_rung) l cur num fss true
                  (rung_pages_to_scan old_rung))
     else
       Ok (mkRung (scan_ratio old_rung) l cur num fss
                  (round_finished old_rung) (rung_pages_to_scan old_rung))) ;;
  let st := put_rung st old old_rung' in
  (* enter the new rung *)
  do kq <- find_rung (length (ksm_scan_ladder st)) st s k ;;
  let '(k, pages_to_scan) := kq in
  do new_rung <- get_rung st k ;;
  let cur := if bool_decide (vma_list new_rung = []) then PSlot slot
             else current_scan new_rung in
  let l := slot :: vma_list new_rung in
  let s := mkSlot (pages s) (pages_scanned s) (last_scanned s)
                  (pages_merged s) (pages_cowed s) (dedup_ratio s)
                  k pages_to_scan (slot_scanned s) (fully_scanned s) in
  let num := u64 (vma_num new_rung + 1) in
  let fss := if fully_scanned s then u64 (fully_scanned_slots new_rung + 1)
             else fully_scanned_slots new_rung in
  let new_rung' := mkRung (scan_ratio new_rung) l cur num fss
                          (round_finished new_rung)
                          (rung_pages_to_scan new_rung) in
  let st := put_rung (put_slot st slot s) k new_rung' in
  do _ <- BUG_ON (bool_decide (cur = PHead) && negb (bool_decide (l = []))) ;;
  Ok st.

Definition vma_rung_up (st : state) (slot : nat) : result state :=
  do s <- get_slot st slot ;;
  if rung s =? ksm_scan_ladder_size st - 1 then Ok st
  else vma_rung_enter st slot (rung s + 1).

Definition vma_rung_down (st : state) (slot : nat) : result state :=
  do s <- get_slot st slot ;;
  if rung s =? 0 then Ok st
  else vma_rung_enter st slot (rung s - 1).

(** The body of the loop of [cal_dedup_ratio] over the area table. *)
Definition cal_dedup_step (st : state) (slot : nat) (pages1 scanned1 : Z)
    (acc : result Z) (i : Z) : result Z :=
  do dedup_num <- acc ;;
  do e <- InterTab.vma_table_read (tab st) i ;;
  match e with
  | None => Ok dedup_num
  | Some slot2 =>
      if i =? InterTab.slot_ksm_index (tab st) slot then Ok dedup_num
      else
      do s2 <- get_slot st slot2 ;;
      if pages_scanned s2 =? 0 then Ok dedup_num
      else
        let pages2 := pages s2 in
        let scanned2 := u64 (pages_scanned s2 - last_scanned s2) in
        do _ <- BUG_ON (scanned2 >? pages_scanned s2) ;;
        let index := InterTab.intertab_vma_offset
                       (InterTab.slot_ksm_index (tab st) slot) i in
        do v <- InterTab.inter_read (tab st) index ;;
        do _ <- BUG_ON (negb (v =? 0)
                        && ((scanned1 =? 0) || (scanned2 =? 0))) ;;
        if negb (v =? 0) then
          do a <- udiv (u64 (v * pages1)) scanned1 ;;
          do b <- udiv (u64 (a * pages2)) scanned2 ;;
          Ok (u64 (dedup_num + b))
        else Ok dedup_num
  end.

(** The thrashing-area filter at the end of [cal_dedup_ratio]. *)
Definition thrash_filter (st : state) (s : vma_slot) (ret : Z) : result Z :=
  if negb (ksm_thrash_threshold st =? 0) then
    do t <- udiv (u64 (pages_cowed s * 100)) (pages_merged s) ;;
    if t >? ksm_thrash_threshold st then Ok 0
    else udiv (u64 (ret * u64 (pages_merged s - pages_cowed s)))
              (pages_merged s)
  else Ok ret.

Definition cal_dedup_ratio (st : state) (slot : nat) : result Z :=
  do s <- get_slot st slot ;;
  let pages1 := pages s in
  if pages_scanned s =? 0 then Ok 0
  else
    let scanned1 := u64 (pages_scanned s - last_scanned s) in
    do _ <- BUG_ON (scanned1 >? pages_scanned s) ;;
    do dedup_num <-
      foldl (cal_dedup_step st slot pages1 scanned1) (Ok 0)
            (seqZ 0 (InterTab.ksm_vma_table_index_end (tab st))) ;;
    let index := InterTab.intertab_vma_offset
                   (InterTab.slot_ksm_index (tab st) slot)
                   (InterTab.slot_ksm_index (tab st) slot) in
    do v <- InterTab.inter_read (tab st) index ;;
    do _ <- BUG_ON (negb (v =? 0) && (scanned1 =? 0)) ;;
    do dedup_num <-
      (if negb (v =? 0) then
         do a <- udiv (u64 (v * pages1)) scanned1 ;;
         Ok (u64 (dedup_num + a))
       else Ok dedup_num) ;;
    do ret <- udiv (u64 (dedup_num * KSM_DEDUP_RATIO_SCALE)) pages1 ;;
    (* Thrashing area filtering *)
    thrash_filter st s ret.

(** First loop of [round_update_ladder]: the ratio of every area of the
    table, their maximum and their sum. *)
Definition ratio_step (acc : result (state * Z * Z)) (i : Z)
  : result (state * Z * Z) :=
  do a <- acc ;;
  let '(st, dedup_ratio_max, dedup_ratio_mean) := a in
  do e <- InterTab.vma_table_read (tab st) i ;;
  match e with
  | None => Ok a
  | Some slot =>
      do d <- cal_dedup_ratio st slot ;;
      do s <- get_slot st slot ;;
      let st := put_slot st slot
                  (mkSlot (pages s) (pages_scanned s) (last_scanned s)
                          (pages_merged s) (pages_cowed s) d (rung s)
                          (pages_to_scan s) (slot_scanned s)
                          (fully_scanned s)) in
      let dedup_ratio_max :=
        if dedup_ratio_max <? d then d else dedup_ratio_max in
      Ok (st, dedup_ratio_max, u64 (dedup_ratio_mean + d))
  end.

(** Second loop: every area of the table changes rung and leaves the
    table. *)
Definition move_step (threshold : Z) (acc : result state) (i : Z)
  : result state :=
  do st <- acc ;;
  do e <- InterTab.vma_table_read (tab st) i ;;
  match e with
  | None => Ok st
  | Some slot =>
      do s <- get_slot st slot ;;
      do st <- (if negb (dedup_ratio s =? 0) && (dedup_ratio s >=? threshold)
                then vma_rung_up st slot
                else vma_rung_down st slot) ;;
      do t <- InterTab.ksm_intertab_clear (tab st) slot ;;
      let t := InterTab.set_num_end t
                 (u64 (InterTab.ksm_vma_table_num t - 1))
                 (InterTab.ksm_vma_table_index_end t) in
      do t <- InterTab.vma_table_write t i None ;;
      let t := InterTab.set_ksm_index t slot (-1) in
      let st := set_tab st t in
      do s <- get_slot st slot ;;
      Ok (put_slot st slot
            (mkSlot (pages s) (pages_scanned s) (last_scanned s)
                    (pages_merged s) (pages_cowed s) 0 (rung s)
                    (pages_to_scan s) false (fully_scanned s)))
  end.

(** Third loop, the body of [list_for_each_entry_safe]: an area that was
    scanned but is not in the table goes down. *)
Definition demote_step (acc : result state) (slot : nat) : result state :=
  do st <- acc ;;
  do s <- get_slot st slot ;;
  do st <- (if slot_scanned s then
              do _ <- BUG_ON (negb (dedup_ratio s =? 0)) ;;
              vma_rung_down st slot
            else Ok st) ;;
  do s <- get_slot st slot ;;
  Ok (put_slot st slot
        (mkSlot (pages s) (pages_scanned s) (last_scanned s)
                (pages_merged s) (pages_cowed s) 0 (rung s)
                (pages_to_scan s) (slot_scanned s) (fully_scanned s))).

(** The areas of rung [k], as the safe iteration meets them: moving the
    area at hand leaves the saved next one where it was. *)
Definition demote_rung (acc : result state) (k : Z) : result state :=
  do st <- acc ;;
  do r <- get_rung st k ;;
  foldl demote_step (Ok st) (vma_list r).

(** Fourth loop, the body of [list_for_each_entry]: the round counters of
    an area are reset. *)
Definition reset_step (k : Z) (acc : result state) (slot : nat)
  : result state :=
  do st <- acc ;;
  do s <- get_slot st slot ;;
  let st := put_slot st slot
              (mkSlot (pages s) (pages_scanned s) (pages_scanned s)
                      0 0 (dedup_ratio s) (rung s)
                      (pages_to_scan s) false false) in
  do st <- (if fully_scanned s then
              do r <- get_rung st k ;;
              Ok (put_rung st k
                    (mkRung (scan_ratio r) (vma_list r) (current_scan r)
                            (vma_num r) (u64 (fully_scanned_slots r - 1))
                            (round_finished r) (rung_pages_to_scan r)))
            else Ok st) ;;
  do _ <- BUG_ON (negb (InterTab.slot_ksm_index (tab st) slot =? -1)) ;;
  Ok st.

Definition reset_rung (acc : result state) (k : Z) : result state :=
  do st <- acc ;;
  do r <- get_rung st k ;;
  let st := put_rung st k
              (mkRung (scan_ratio r) (vma_list r) (current_scan r)
                      (vma_num r) (fully_scanned_slots r)
                      false (rung_pages_to_scan r)) in
  do st <- foldl (reset_step k) (Ok st) (vma_list r) ;;
  do r <- get_rung st k ;;
  do _ <- BUG_ON (negb (fully_scanned_slots r =? 0)) ;;
  Ok st.

(** The ratios of the round and their mean, the rung threshold. *)
Definition round_ratios (st : state) : result (state * Z) :=
  do a <- foldl ratio_step (Ok (st, 0, 0))
            (seqZ 0 (InterTab.ksm_vma_table_index_end (tab st))) ;;
  let '(st, _, dedup_ratio_mean) := a in
  do dedup_ratio_mean <- udiv dedup_ratio_mean (ksm_vma_slot_num st) ;;
  Ok (st, dedup_ratio_mean).

(** [round_update_ladder], up to the call of [rshash_adjust]: the hash
    controller touches neither the ladder nor the tables. *)
Definition round_update_ladder (st : state) : result state :=
  do a <- round_ratios st ;;
  let '(st, threshold) := a in
  do st <- foldl (move_step threshold) (Ok st)
             (seqZ 0 (InterTab.ksm_vma_table_index_end (tab st))) ;;
  do st <- foldl demote_rung (Ok st) (seqZ 0 (ksm_scan_ladder_size st)) ;;
  do _ <- BUG_ON (negb (InterTab.ksm_vma_table_num (tab st) =? 0)) ;;
  let st := set_tab st (InterTab.set_num_end (tab st)
                          (InterTab.ksm_vma_table_num (tab st)) 0) in
  foldl reset_rung (Ok st) (seqZ 0 (ksm_scan_ladder_size st)).

End Ladder.


(** ** The merge engine: pages, rmap items, the two trees *)

Module Engine.

(** [#define UNSTABLE_FLAG 0x1] and [#define STABLE_FLAG 0x2]. *)
Definition UNSTABLE_FLAG : Z := 1.
Definition STABLE_FLAG : Z := 2.

Definition MERGE_ERR_PGERR : Z := 1.
Definition MERGE_ERR_COLLI : Z := 2.
Definition MERGE_ERR_CHANGED : Z := 3.

Definition EBUSY : Z := 16.
Definition EINVAL : Z := 22.

(** A search tree of [struct rb_node]s.  New nodes are linked where the
    descent of the caller ends ([rb_link_node]); the recolouring and the
    rotations of [rb_insert_color] and [rb_erase] (lib/rbtree.c) keep the
    in-order sequence of the nodes and are left out. *)
Inductive rb (A : Type) : Type :=
| Leaf
| Node (rb_left : rb A) (entry : A) (rb_right : rb A).

Arguments Leaf {A}.
Arguments Node {A} rb_left entry rb_right.

(** [struct tree_node]: a first-level node and the sub-tree of the stable
    nodes, or rmap items, that share its hash value. *)
Record tree_node : Type := mkTreeNode {
  hash : Z;
  count : Z;
  sub_root : rb nat;
}.

(** [page->mapping]: nothing, an anon_vma with [PAGE_MAPPING_ANON], or a
    stable node with [PAGE_MAPPING_ANON | PAGE_MAPPING_KSM]. *)
Inductive page_mapping : Type :=
| MapNull
| MapAnon (anon_vma : nat)
| MapKsm (stable_node : option nat).

Global Instance page_mapping_eq_dec : EqDecision page_mapping.
Proof. solve_decision. Defined.

(** [struct page]: the words of the frame, [mapping] and the reference
    count [_count]. *)
Record page : Type := mkPage {
  content : Z -> Z;
  mapping : page_mapping;
  _count : Z;
}.

(** [struct node_vma]: the rmap items of one area under a stable node;
    [key] is the address of the area, here its number. *)
Record node_vma : Type := mkNodeVma {
  key : nat;
  last_update : Z;
  rmap_hlist : list nat;
}.

(** [struct stable_node]; [sn_tree_node] is the hash of the tree node it
    hangs under, if any. *)
Record stable_node : Type := mkStableNode {
  kpfn : nat;
  sn_hash_max : Z;
  sn_tree_node : option Z;
  hlist : list node_vma;
}.

(** [struct rmap_item]; [head] names the [node_vma] of a stable item by its
    stable node and area, [tree_node] the tree node of an unstable item by
    its hash. *)
Record rmap_item : Type := mkItem {
  slot : nat;
  address : Z;
  item_page : nat;
  hash_max : Z;
  append_round : Z;
  tree_node_of : Z;
  head : nat * nat;
}.

Record state : Type := mkState {
  hash_strength : Z;
  rshash_pos : Z;
  rshash_neg : Z;
  memcmp_cost : Z;
  ksm_scan_round : Z;
  ksm_pages_scanned : Z;
  ksm_pages_shared : Z;
  ksm_pages_sharing : Z;
  ksm_pages_unshared : Z;
  pages : gmap nat page;
  items : gmap nat rmap_item;
  stable_nodes : gmap nat stable_node;
  root_stable_tree : rb tree_node;
  root_unstable_tree : rb tree_node;
  intertab : InterTab.state;
  pages_merged : gmap nat Z;
  anon_vma_refs : gmap nat Z;
}.

Definition set_cost (st : state) (pos neg : Z) : state :=
  mkState (hash_strength st) pos neg (memcmp_cost st) (ksm_scan_round st)
    (ksm_pages_scanned st) (ksm_pages_shared st) (ksm_pages_sharing st)
    (ksm_pages_unshared st) (pages st) (items st) (stable_nodes st)
    (root_stable_tree st) (root_unstable_tree st) (intertab st)
    (pages_merged st) (anon_vma_refs st).

Definition set_counters (st : state) (scanned shared sharing unshared : Z)
  : state :=
  mkState (hash_strength st) (rshash_pos st) (rshash_neg st) (memcmp_cost st)
    (ksm_scan_round st) scanned shared sharing unshared (pages st) (items st)
    (stable_nodes st) (root_stable_tree st) (root_unstable_tree st)
    (intertab st) (pages_merged st) (anon_vma_refs st).

Definition set_pages (st : state) (m : gmap nat page) : state :=
  mkState (hash_strength st) (rshash_pos st) (rshash_neg st) (memcmp_cost st)
    (ksm_scan_round st) (ksm_pages_scanned st) (ksm_pages_shared st)
    (ksm_pages_sharing st) (ksm_pages_unshared st) m (items st)
    (stable_nodes st) (root_stable_tree st) (root_unstable_tree st)
    (intertab st) (pages_merged st) (anon_vma_refs st).

Definition set_items (st : state) (m : gmap nat rmap_item) : state :=
  mkState (hash_strength st) (rshash_pos st) (rshash_neg st) (memcmp_cost st)
    (ksm_scan_round st) (ksm_pages_scanned st) (ksm_pages_shared st)
    (ksm_pages_sharing st) (ksm_pages_unshared st) (pages st) m
    (stable_nodes st) (root_stable_tree st) (root_unstable_tree st)
    (intertab st) (pages_merged st) (anon_vma_refs st).

Definition set_stable_nodes (st : state) (m : gmap nat stable_node) : state :=
  mkState (hash_strength st) (rshash_pos st) (rshash_neg st) (memcmp_cost st)
    (ksm_scan_round st) (ksm_pages_scanned st) (ksm_pages_shared st)
    (ksm_pages_sharing st) (ksm_pages_unshared st) (pages st) (items st) m
    (root_stable_tree st) (root_unstable_tree st) (intertab st)
    (pages_merged st) (anon_vma_refs st).

Definition set_root_stable_tree (st : state) (t : rb tree_node) : state :=
  mkState (hash_strength st) (rshash_pos st) (rshash_neg st) (memcmp_cost st)
    (ksm_scan_round st) (ksm_pages_scanned st) (ksm_pages_shared st)
    (ksm_pages_sharing st) (ksm_pages_unshared st) (pages st) (items st)
    (stable_nodes st) t (root_unstable_tree st) (intertab st)
    (pages_merged st) (anon_vma_refs st).

Definition set_root_unstable_tree (st : state) (t : rb tree_node) : state :=
  mkState (hash_strength st) (rshash_pos st) (rshash_neg st) (memcmp_cost st)
    (ksm_scan_round st) (ksm_pages_scanned st) (ksm_pages_shared st)
    (ksm_pages_sharing st) (ksm_pages_unshared st) (pages st) (items st)
    (stable_nodes st) (root_stable_tree st) t (intertab st)
    (pages_merged st) (anon_vma_refs st).

Definition set_intertab (st : state) (t : InterTab.state) : state :=
  mkState (hash_strength st) (rshash_pos st) (rshash_neg st) (memcmp_cost st)
    (ksm_scan_round st) (ksm_pages_scanned st) (ksm_pages_shared st)
    (ksm_pages_sharing st) (ksm_pages_unshared st) (pages st) (items st)
    (stable_nodes st) (root_stable_tree st) (root_unstable_tree st) t
    (pages_merged st) (anon_vma_refs st).

Definition set_area_counts (st : state) (merged refs : gmap nat Z) : state :=
  mkState (hash_strength st) (rshash_pos st) (rshash_neg st) (memcmp_cost st)
    (ksm_scan_round st) (ksm_pages_scanned st) (ksm_pages_shared st)
    (ksm_pages_sharing st) (ksm_pages_unshared st) (pages st) (items st)
    (stable_nodes st) (root_stable_tree st) (root_unstable_tree st)
    (intertab st) merged refs.

(** Dereferencing a pointer that names nothing is a memory error. *)
Definition get_page_of (st : state) (p : nat) : result page :=
  match pages st !! p with Some x => Ok x | None => OutOfBounds end.

Definition get_item (st : state) (i : nat) : result rmap_item :=
  match items st !! i with Some x => Ok x | None => OutOfBounds end.

Definition get_stable_node (st : state) (n : nat) : result stable_node :=
  match stable_nodes st !! n with Some x => Ok x | None => OutOfBounds end.

Definition put_item (st : state) (i : nat) (x : rmap_item) : state :=
  set_items st (<[i := x]> (items st)).

Definition put_page_of (st : state) (p : nat) (x : page) : state :=
  set_pages st (<[p := x]> (pages st)).

Definition put_stable_node (st : state) (n : nat) (x : stable_node) : state :=
  set_stable_nodes st (<[n := x]> (stable_nodes st)).

Definition set_address (x : rmap_item) (a : Z) : rmap_item :=
  mkItem (slot x) a (item_page x) (hash_max x) (append_round x)
         (tree_node_of x) (head x).

Definition set_hash_max (x : rmap_item) (h : Z) : rmap_item :=
  mkItem (slot x) (address x) (item_page x) h (append_round x)
         (tree_node_of x) (head x).

(** [rmap_item->address & STABLE_FLAG] and [& UNSTABLE_FLAG]. *)
Definition in_stable_tree (x : rmap_item) : bool :=
  negb (Z.land (address x) STABLE_FLAG =? 0).

Definition in_unstable_tree (x : rmap_item) : bool :=
  negb (Z.land (address x) UNSTABLE_FLAG =? 0).

Section WithPageSize.

(** [PAGE_SHIFT] of the architecture and [random_nums]. *)
Variable PAGE_SHIFT : Z.
Variable random_nums : Z -> Z.

Definition PAGE_SIZE : Z := 2 ^ PAGE_SHIFT.
Definition PAGE_MASK : Z := Z.lnot (PAGE_SIZE - 1).
Definition HASH_STRENGTH_FULL : Z := PAGE_SIZE / 4.
Definition HASH_STRENGTH_MAX : Z := HASH_STRENGTH_FULL + 10.

(** [page_hash]: the sampled hash of a page, with the saving credited to
    [rshash_pos] when [cost_accounting] is set. *)
Definition page_hash (st : state) (p : nat) (hash_strength : Z)
    (cost_accounting : bool) : result (Z * state) :=
  do pg <- get_page_of st p ;;
  let val := Hash.random_sample_hash HASH_STRENGTH_FULL random_nums
               (content pg) (u32 hash_strength) in
  if cost_accounting then
    let tmp := rshash_pos st in
    let st := set_cost st
                (u64 (rshash_pos st + u64 (HASH_STRENGTH_FULL - hash_strength)))
                (rshash_neg st) in
    do _ <- BUG_ON (tmp >? rshash_pos st) ;;
    Ok (val, st)
  else Ok (val, st).

(** [memcmp] over the [PAGE_SIZE] bytes of two frames: [true] when they
    differ. *)
Definition memcmp (c1 c2 : Z -> Z) : bool :=
  negb (forallb (fun i => u32 (c1 i) =? u32 (c2 i)) (seqZ 0 HASH_STRENGTH_FULL)).

Definition memcmp_pages (st : state) (page1 page2 : nat)
    (cost_accounting : bool) : result (bool * state) :=
  do p1 <- get_page_of st page1 ;;
  do p2 <- get_page_of st page2 ;;
  let ret := memcmp (content p1) (content p2) in
  let st := if cost_accounting
            then set_cost st (rshash_pos st)
                          (u64 (rshash_neg st + memcmp_cost st))
            else st in
  Ok (ret, st).

Definition pages_identical (st : state) (page1 page2 : nat)
  : result (bool * state) :=
  do r <- memcmp_pages st page1 page2 false ;;
  Ok (negb r.1, r.2).

(** [page_hash_max]: the hash at [HASH_STRENGTH_MAX], never zero. *)
Definition page_hash_max (st : state) (p : nat) (hash_old : Z)
  : result (Z * state) :=
  do pg <- get_page_of st p ;;
  let hash_max := Hash.delta_hash HASH_STRENGTH_FULL random_nums (content pg)
                    (hash_strength st) HASH_STRENGTH_MAX hash_old in
  let hash_max := if hash_max =? 0 then 1 else hash_max in
  let st := set_cost st (rshash_pos st)
              (u64 (rshash_neg st + u64 (HASH_STRENGTH_MAX - hash_strength st))) in
  Ok (hash_max, st).

Definition rmap_item_hash_max (st : state) (item : nat) (hash : Z)
  : result (Z * state) :=
  do x <- get_item st item ;;
  if hash_max x =? 0 then
    do r <- page_hash_max st (item_page x) hash ;;
    let '(hash_max, st) := r in
    do x <- get_item st item ;;
    Ok (hash_max, put_item st item (set_hash_max x hash_max))
  else Ok (hash_max x, st).

Definition check_collision (st : state) (rmap_item : nat) (hash : Z)
  : result (Z * state) :=
  do x <- get_item st rmap_item ;;
  if negb (hash_max x =? 0) then
    let tmp := rshash_neg st in
    let st := set_cost st (rshash_pos st)
                (u64 (rshash_neg st + memcmp_cost st)) in
    let st := set_cost st (rshash_pos st)
                (u64 (rshash_neg st + u64 (HASH_STRENGTH_MAX - hash_strength st))) in
    do _ <- BUG_ON (tmp >? rshash_neg st) ;;
    do r <- page_hash_max st (item_page x) hash ;;
    Ok (if hash_max x =? r.1 then MERGE_ERR_COLLI else MERGE_ERR_CHANGED, r.2)
  else
    let tmp := rshash_neg st in
    let st := set_cost st (rshash_pos st)
                (u64 (rshash_neg st + u64 (memcmp_cost st + hash_strength st))) in
    do _ <- BUG_ON (tmp >? rshash_neg st) ;;
    do r <- page_hash st (item_page x) (hash_strength st) false ;;
    Ok (if r.1 =? hash then MERGE_ERR_COLLI else MERGE_ERR_CHANGED, r.2).

(** *** The trees *)

(** [hash_cmp]. *)
Definition hash_cmp (new_val node_val : Z) : Z :=
  if new_val >? node_val then 1
  else if new_val <? node_val then -1
  else 0.

(** The first-level descent: the tree node with this hash, if any. *)
Fixpoint find_tree_node (t : rb tree_node) (hash_val : Z) : option tree_node :=
  match t with
  | Leaf => None
  | Node l tn r =>
      let cmp := hash_cmp hash_val (hash tn) in
      if cmp <? 0 then find_tree_node l hash_val
      else if cmp >? 0 then find_tree_node r hash_val
      else Some tn
  end.

(** A write through a [struct tree_node *]: the node with the hash of [tn]
    becomes [tn]. *)
Fixpoint put_tree_node (t : rb tree_node) (tn : tree_node) : rb tree_node :=
  match t with
  | Leaf => Leaf
  | Node l x r =>
      let cmp := hash_cmp (hash tn) (hash x) in
      if cmp <? 0 then Node (put_tree_node l tn) x r
      else if cmp >? 0 then Node l x (put_tree_node r tn)
      else Node l tn r
  end.

(** [rb_link_node] of a new tree node where the first-level descent
    ended. *)
Fixpoint link_tree_node (t : rb tree_node) (tn : tree_node) : rb tree_node :=
  match t with
  | Leaf => Node Leaf tn Leaf
  | Node l x r =>
      let cmp := hash_cmp (hash tn) (hash x) in
      if cmp <? 0 then Node (link_tree_node l tn) x r
      else if cmp >? 0 then Node l x (link_tree_node r tn)
      else Node l x r
  end.

(** The leftmost node of a tree and the tree without it. *)
Fixpoint take_min {A : Type} (t : rb A) : option (A * rb A) :=
  match t with
  | Leaf => None
  | Node l x r =>
      match take_min l with
      | None => Some (x, r)
      | Some (m, l') => Some (m, Node l' x r)
      end
  end.

(** [rb_erase]: the nodes picked by [is_it] leave, the in-order sequence of
    the others stays. *)
Fixpoint rb_erase {A : Type} (is_it : A -> bool) (t : rb A) : rb A :=
  match t with
  | Leaf => Leaf
  | Node l x r =>
      let l := rb_erase is_it l in
      let r := rb_erase is_it r in
      if is_it x then
        match take_min r with
        | None => l
        | Some (m, r') => Node l m r'
        end
      else Node l x r
  end.

(** [RB_EMPTY_ROOT]. *)
Definition RB_EMPTY_ROOT {A : Type} (t : rb A) : bool :=
  match t with Leaf => true | Node _ _ _ => false end.

(** [rb_entry(root->rb_node, ...)]: the node at the root. *)
Definition rb_root_entry {A : Type} (t : rb A) : option A :=
  match t with Leaf => None | Node _ x _ => Some x end.

(** A second-level descent by [hash_max]; [key_of] reads the [hash_max] of
    a node.  [inl] is the node with an equal key, [inr] the tree with
    [new] linked where the descent ended. *)
Fixpoint sub_descend (key_of : nat -> Z) (t : rb nat) (hash_max_val : Z)
    (new : nat) : nat + rb nat :=
  match t with
  | Leaf => inr (Node Leaf new Leaf)
  | Node l x r =>
      let cmp := hash_cmp hash_max_val (key_of x) in
      if cmp <? 0 then
        match sub_descend key_of l hash_max_val new with
        | inl found => inl found
        | inr l' => inr (Node l' x r)
        end
      else if cmp >? 0 then
        match sub_descend key_of r hash_max_val new with
        | inl found => inl found
        | inr r' => inr (Node l x r')
        end
      else inl x
  end.

(** [rb_link_node(new, parent, &parent->rb_left)] (or [rb_right]): the
    link of [parent] is overwritten. *)
Fixpoint link_under (t : rb nat) (parent : nat) (left : bool) (new : nat)
  : rb nat :=
  match t with
  | Leaf => Leaf
  | Node l x r =>
      if decide (x = parent) then
        if left then Node (Node Leaf new Leaf) x r
        else Node l x (Node Leaf new Leaf)
      else Node (link_under l parent left new) x
                (link_under r parent left new)
  end.

Definition get_unstable_tree_node (st : state) (h : Z) : result tree_node :=
  match find_tree_node (root_unstable_tree st) h with
  | Some tn => Ok tn
  | None => OutOfBounds
  end.

Definition get_stable_tree_node (st : state) (h : Z) : result tree_node :=
  match find_tree_node (root_stable_tree st) h with
  | Some tn => Ok tn
  | None => OutOfBounds
  end.

(** *** The stable graph *)

(** [drop_anon_vma]: the external reference on the anon_vma of the area
    of the item is given back. *)
Definition drop_anon_vma (st : state) (x : rmap_item) : state :=
  set_area_counts st (pages_merged st)
    (<[slot x := u64 (default 0 (anon_vma_refs st !! slot x) - 1)]>
       (anon_vma_refs st)).

(** [hold_anon_vma]. *)
Definition hold_anon_vma (st : state) (x : rmap_item) : state :=
  set_area_counts st (pages_merged st)
    (<[slot x := u64 (default 0 (anon_vma_refs st !! slot x) + 1)]>
       (anon_vma_refs st)).

(** The inner loop body of [remove_node_from_stable_tree]. *)
Definition unshare_item (acc : result state) (item : nat) : result state :=
  do st <- acc ;;
  let st := set_counters st (ksm_pages_scanned st) (ksm_pages_shared st)
              (u64 (ksm_pages_sharing st - 1)) (ksm_pages_unshared st) in
  do x <- get_item st item ;;
  let st := drop_anon_vma st x in
  Ok (put_item st item (set_address x (Z.land (address x) PAGE_MASK))).

Definition unshare_node_vma (acc : result state) (nv : node_vma)
  : result state :=
  foldl unshare_item acc (rmap_hlist nv).

Definition remove_node_from_stable_tree (st : state) (node : nat)
    (unlink_rb remove_tree_node : bool) : result state :=
  do sn <- get_stable_node st node ;;
  do st <-
    (if negb (bool_decide (hlist sn = [])) then
       do st <- foldl unshare_node_vma (Ok st) (hlist sn) ;;
       (* the last one is counted as shared *)
       let st := set_counters st (ksm_pages_scanned st)
                   (u64 (ksm_pages_shared st - 1)) (ksm_pages_sharing st)
                   (ksm_pages_unshared st) in
       Ok (set_counters st (ksm_pages_scanned st) (ksm_pages_shared st)
             (u64 (ksm_pages_sharing st + 1)) (ksm_pages_unshared st))
     else Ok st) ;;
  do st <-
    (match sn_tree_node sn with
     | Some h =>
         if unlink_rb then
           do tn <- get_stable_tree_node st h ;;
           let sub := rb_erase (fun n => bool_decide (n = node)) (sub_root tn) in
           if RB_EMPTY_ROOT sub && remove_tree_node then
             Ok (set_root_stable_tree st
                   (rb_erase (fun x => hash x =? h) (root_stable_tree st)))
           else
             Ok (set_root_stable_tree st
                   (put_tree_node (root_stable_tree st)
                      (mkTreeNode (hash tn) (u64 (count tn - 1)) sub)))
         else Ok st
     | None => Ok st
     end) ;;
  Ok (set_stable_nodes st (delete node (stable_nodes st))).

(** [get_ksm_page]: the page of a stable node, with a reference taken, if
    it still points back at the node; else the stale node is removed. *)
Definition get_ksm_page (st : state) (node : nat)
    (unlink_rb remove_tree_node : bool) : result (option nat * state) :=
  do sn <- get_stable_node st node ;;
  do pg <- get_page_of st (kpfn sn) ;;
  let expected_mapping := MapKsm (Some node) in
  if bool_decide (mapping pg = expected_mapping) && negb (_count pg =? 0) then
    Ok (Some (kpfn sn),
        put_page_of st (kpfn sn)
          (mkPage (content pg) (mapping pg) (_count pg + 1)))
  else
    do st <- remove_node_from_stable_tree st node unlink_rb remove_tree_node ;;
    Ok (None, st).

(** [put_page]; giving the frame back at zero is the host's business. *)
Definition put_page (st : state) (p : nat) : result state :=
  do pg <- get_page_of st p ;;
  Ok (put_page_of st p (mkPage (content pg) (mapping pg) (_count pg - 1))).

(** [hlist_del] of an item and, if that empties it, of its [node_vma]. *)
Definition unlink_item (l : list node_vma) (area item : nat) : list node_vma :=
  omap (fun nv =>
          if decide (key nv = area) then
            let h := filter (fun i => i <> item) (rmap_hlist nv) in
            if bool_decide (h = []) then None
            else Some (mkNodeVma (key nv) (last_update nv) h)
          else Some nv) l.

Definition remove_rmap_item_from_tree (st : state) (item : nat)
  : result state :=
  do x <- get_item st item ;;
  if in_stable_tree x then
    let '(node, area) := head x in
    do r <- get_ksm_page st node true true ;;
    let '(pg, st) := r in
    match pg with
    | None => Ok st
    | Some pg =>
        do sn <- get_stable_node st node ;;
        let l := unlink_item (hlist sn) area item in
        let st := put_stable_node st node
                    (mkStableNode (kpfn sn) (sn_hash_max sn)
                                  (sn_tree_node sn) l) in
        do st <- put_page st pg ;;
        let st :=
          if bool_decide (l = []) then
            set_counters st (ksm_pages_scanned st)
              (u64 (ksm_pages_shared st - 1)) (ksm_pages_sharing st)
              (ksm_pages_unshared st)
          else
            set_counters st (ksm_pages_scanned st) (ksm_pages_shared st)
              (u64 (ksm_pages_sharing st - 1)) (ksm_pages_unshared st) in
        do x <- get_item st item ;;
        let st := drop_anon_vma st x in
        Ok (put_item st item
              (set_hash_max (set_address x (Z.land (address x) PAGE_MASK)) 0))
    end
  else if in_unstable_tree x then
    do st <-
      (if append_round x =? ksm_scan_round st then
         do tn <- get_unstable_tree_node st (tree_node_of x) ;;
         let sub := rb_erase (fun n => bool_decide (n = item)) (sub_root tn) in
         if RB_EMPTY_ROOT sub then
           Ok (set_root_unstable_tree st
                 (rb_erase (fun y => hash y =? hash tn)
                           (root_unstable_tree st)))
         else
           Ok (set_root_unstable_tree st
                 (put_tree_node (root_unstable_tree st)
                    (mkTreeNode (hash tn) (u64 (count tn - 1)) sub)))
       else Ok st) ;;
    let st := set_counters st (ksm_pages_scanned st) (ksm_pages_shared st)
                (ksm_pages_sharing st) (u64 (ksm_pages_unshared st - 1)) in
    Ok (put_item st item
          (set_hash_max (set_address x (Z.land (address x) PAGE_MASK)) 0))
  else
    Ok (put_item st item
          (set_hash_max (set_address x (Z.land (address x) PAGE_MASK)) 0)).

(** The walk of [stable_tree_append] over the [node_vma]s of a stable
    node: those before the first one whose key is not below [key_val], and
    that one with what follows it, if there is one. *)
Fixpoint split_ge (key_val : nat) (l : list node_vma)
  : list node_vma * option (node_vma * list node_vma) :=
  match l with
  | [] => ([], None)
  | nv :: l' =>
      if (key_val <=? key nv)%nat then ([], Some (nv, l'))
      else let '(before, rest) := split_ge key_val l' in (nv :: before, rest)
  end.

(** [inc_vma_intertab_pair] of the area with those of the [node_vma]s that
    were updated this round. *)
Definition count_pairs (round : Z) (area : nat) (t : result InterTab.state)
    (l : list node_vma) : result InterTab.state :=
  foldl (fun t nv =>
           do t <- t ;;
           if last_update nv =? round
           then InterTab.inc_vma_intertab_pair t area (key nv)
           else Ok t) t l.

(** The cancelling loop for an inner duplicate. *)
Definition uncount_pairs (round : Z) (area : nat) (t : result InterTab.state)
    (l : list node_vma) : result InterTab.state :=
  foldl (fun t nv =>
           do t <- t ;;
           if last_update nv =? round
           then InterTab.dec_vma_intertab_pair t area (key nv)
           else Ok t) t l.

(** [stable_tree_append]; [alloc_ok] tells whether [alloc_node_vma]
    succeeds. *)
Definition stable_tree_append (alloc_ok : bool) (st : state)
    (rmap_item node : nat) : result state :=
  do x <- get_item st rmap_item ;;
  let key_val := slot x in
  let round := ksm_scan_round st in
  let x := mkItem (slot x) (Z.lor (address x) STABLE_FLAG) (item_page x)
                  (hash_max x) round (tree_node_of x) (node, key_val) in
  let st := put_item st rmap_item x in
  do sn <- get_stable_node st node ;;
  let new_node_vma := mkNodeVma key_val round [rmap_item] in
  do r <-
    (if bool_decide (hlist sn = []) then
       let st := set_counters st (ksm_pages_scanned st)
                   (u64 (ksm_pages_shared st + 1)) (ksm_pages_sharing st)
                   (ksm_pages_unshared st) in
       do _ <- BUG_ON (negb alloc_ok) ;;
       Ok (st, [new_node_vma])
     else
       let st := set_counters st (ksm_pages_scanned st) (ksm_pages_shared st)
                   (u64 (ksm_pages_sharing st + 1)) (ksm_pages_unshared st) in
       let '(before, rest) := split_ge key_val (hlist sn) in
       match rest with
       | Some (node_vma, after) =>
           do t <- count_pairs round key_val (Ok (intertab st))
                     (before ++ [node_vma]) ;;
           if decide (key node_vma = key_val) then
             do t <- (if last_update node_vma =? round
                      then uncount_pairs round key_val (Ok t) before
                      else count_pairs round key_val (Ok t) after) ;;
             Ok (set_intertab st t,
                 before ++ mkNodeVma (key node_vma) round
                             (rmap_item :: rmap_hlist node_vma) :: after)
           else
             do _ <- BUG_ON (negb alloc_ok) ;;
             do t <- count_pairs round key_val (Ok t) after ;;
             Ok (set_intertab st t,
                 before ++ new_node_vma :: node_vma :: after)
       | None =>
           do t <- count_pairs round key_val (Ok (intertab st)) before ;;
           do _ <- BUG_ON (negb alloc_ok) ;;
           Ok (set_intertab st t, before ++ [new_node_vma])
       end) ;;
  let '(st, l) := r in
  let st := put_stable_node st node
              (mkStableNode (kpfn sn) (sn_hash_max sn) (sn_tree_node sn) l) in
  let st := hold_anon_vma st x in
  Ok (set_area_counts st
        (<[slot x := u64 (default 0 (pages_merged st !! slot x) + 1)]>
           (pages_merged st))
        (anon_vma_refs st)).

(** *** What the host memory manager answers

    The page-table primitives, the locks and the allocators belong to the
    host; the engine sees their outcomes only. *)
Record host : Type := mkHost {
  ksm_test_exit : nat -> bool;          (* by area: its mm is exiting *)
  trylock_page : nat -> bool;           (* by page *)
  write_protect_page : nat -> bool;     (* by page: returned 0 *)
  replace_page : nat -> nat -> bool;    (* page, kpage: returned 0 *)
  restore_ksm_page_pte : nat -> bool;   (* by page: returned 0 *)
  get_mergeable_page_lock_mmap : nat -> Z;  (* by item: 0, -EBUSY, -EINVAL *)
  merge_with_stable : nat -> nat -> bool * bool;
                                        (* by items: ptes repointed *)
  alloc_tree_node_ok : bool;
  alloc_stable_node_ok : bool;
  alloc_node_vma_ok : bool;
}.

Variable h : host.

Definition PageAnon (pg : page) : bool :=
  match mapping pg with MapNull => false | _ => true end.

Definition PageKsm (pg : page) : bool :=
  match mapping pg with MapKsm _ => true | _ => false end.

(** [page_stable_node]. *)
Definition page_stable_node (pg : page) : option nat :=
  match mapping pg with MapKsm n => n | _ => None end.

(** [get_page]. *)
Definition get_page (st : state) (p : nat) : result state :=
  do pg <- get_page_of st p ;;
  Ok (put_page_of st p (mkPage (content pg) (mapping pg) (_count pg + 1))).

(** [set_page_stable_node]. *)
Definition set_page_stable_node (st : state) (p : nat) (n : option nat)
  : result state :=
  do pg <- get_page_of st p ;;
  Ok (put_page_of st p (mkPage (content pg) (MapKsm n) (_count pg))).

(** The [hash_max] of a stable node, for the second-level descent. *)
Definition stable_key (st : state) (n : nat) : Z :=
  default 0 (sn_hash_max <$> stable_nodes st !! n).

(** The [hash_max] of an rmap item, for the second-level descent. *)
Definition item_key (st : state) (i : nat) : Z :=
  default 0 (hash_max <$> items st !! i).

(** A second-level search. *)
Definition sub_find (key_of : nat -> Z) (t : rb nat) (hash_max_val : Z)
  : option nat :=
  match sub_descend key_of t hash_max_val 0%nat with
  | inl found => Some found
  | inr _ => None
  end.

(** [stable_tree_search]. *)
Definition stable_tree_search (st : state) (item : nat) (hash_val : Z)
  : result (option nat * state) :=
  do x <- get_item st item ;;
  do pg <- get_page_of st (item_page x) ;;
  match page_stable_node pg with
  | Some _ =>
      (* ksm page forked *)
      do st <- get_page st (item_page x) ;;
      Ok (Some (item_page x), st)
  | None =>
      match find_tree_node (root_stable_tree st) hash_val with
      | None => Ok (None, st)
      | Some tree_node =>
          if count tree_node =? 1 then
            match rb_root_entry (sub_root tree_node) with
            | None => Bug
            | Some stable_node => get_ksm_page st stable_node true true
            end
          else
            do _ <- BUG_ON (RB_EMPTY_ROOT (sub_root tree_node)) ;;
            do r <- rmap_item_hash_max st item hash_val ;;
            let '(hash_max_val, st) := r in
            match sub_find (stable_key st) (sub_root tree_node) hash_max_val with
            | Some stable_node => get_ksm_page st stable_node true true
            | None => Ok (None, st)
            end
      end
  end.

(** The work of [replace_page] on the two frames when it succeeds. *)
Definition replace_page_counts (st : state) (pg kpage : nat) : result state :=
  do st <- get_page st kpage ;;
  put_page st pg.

(** [try_to_merge_with_ksm_page]; returns [err]. *)
Definition try_to_merge_with_ksm_page (st : state) (rmap_item : nat)
    (kpage : option nat) (hash_val : Z) : result (Z * state) :=
  do x <- get_item st rmap_item ;;
  if ksm_test_exit h (slot x) then Ok (MERGE_ERR_PGERR, st)
  else
    let pg := item_page x in
    if bool_decide (Some pg = kpage) then Ok (0, st)
    else
      do p <- get_page_of st pg ;;
      do kp_is_ksm <-
        (match kpage with
         | Some k => do kp <- get_page_of st k ;; Ok (PageKsm kp)
         | None => OutOfBounds
         end) ;;
      if negb (PageAnon p) || negb kp_is_ksm then Ok (MERGE_ERR_PGERR, st)
      else if negb (trylock_page h pg) then Ok (MERGE_ERR_PGERR, st)
      else if write_protect_page h pg then
        match kpage with
        | None =>
            do st <- set_page_stable_node st pg None ;;
            Ok (0, st)
        | Some k =>
            do r <- pages_identical st pg k ;;
            let '(same, st) := r in
            if same then
              if replace_page h pg k then
                do st <- replace_page_counts st pg k ;;
                Ok (0, st)
              else Ok (MERGE_ERR_PGERR, st)
            else check_collision st rmap_item hash_val
        end
      else Ok (MERGE_ERR_PGERR, st).

(** [try_to_merge_two_pages]; returns [err]. *)
Definition try_to_merge_two_pages (st : state) (rmap_item tree_rmap_item : nat)
    (hash_val : Z) : result (Z * state) :=
  do x <- get_item st rmap_item ;;
  do tx <- get_item st tree_rmap_item ;;
  let pg := item_page x in
  let tree_page := item_page tx in
  if bool_decide (pg = tree_page) then Ok (MERGE_ERR_PGERR, st)
  else
    do p <- get_page_of st pg ;;
    do tp <- get_page_of st tree_page ;;
    if negb (PageAnon p) || negb (PageAnon tp) then Ok (MERGE_ERR_PGERR, st)
    else if negb (trylock_page h pg) then Ok (MERGE_ERR_PGERR, st)
    else if negb (write_protect_page h pg) then Ok (MERGE_ERR_PGERR, st)
    else
      let saved_mapping := mapping p in
      do st <- set_page_stable_node st pg None ;;
      (* [restore_out]: the first pte and mapping are put back *)
      let restore_out (err : Z) (st : state) : result (Z * state) :=
        if restore_ksm_page_pte h pg then
          do p <- get_page_of st pg ;;
          Ok (err, put_page_of st pg
                     (mkPage (content p) saved_mapping (_count p)))
        else Ok (err, st) in
      if negb (trylock_page h tree_page) then restore_out MERGE_ERR_PGERR st
      else if negb (write_protect_page h tree_page)
      then restore_out MERGE_ERR_PGERR st
      else
        do r <- pages_identical st pg tree_page ;;
        let '(same, st) := r in
        if same then
          if replace_page h tree_page pg then
            do st <- replace_page_counts st tree_page pg ;;
            Ok (0, st)
          else restore_out MERGE_ERR_PGERR st
        else
          do r1 <- page_hash st pg (hash_strength st) false ;;
          do r2 <- page_hash r1.2 tree_page (hash_strength st) false ;;
          let st := r2.2 in
          if r1.1 =? r2.1 then
            let st := set_cost st (rshash_pos st)
                        (u64 (rshash_neg st
                              + u64 (memcmp_cost st
                                     + u64 (hash_strength st * 2)))) in
            restore_out MERGE_ERR_COLLI st
          else restore_out MERGE_ERR_CHANGED st.

(** [get_tree_rmap_item_page]. *)
Definition get_tree_rmap_item_page (st : state) (tree_rmap_item : nat)
  : result (Z * state) :=
  let err := get_mergeable_page_lock_mmap h tree_rmap_item in
  if err =? - EINVAL then
    (* its page map has been changed, remove it *)
    do st <- remove_rmap_item_from_tree st tree_rmap_item ;;
    Ok (err, st)
  else if err =? 0 then
    (* The page is gotten and mmap_sem is locked now. *)
    do tx <- get_item st tree_rmap_item ;;
    do st <- get_page st (item_page tx) ;;
    Ok (err, st)
  else Ok (err, st).

(** The end of [unstable_tree_search_insert] at [get_page_out]. *)
Definition get_page_out (st : state) (rmap_item tree_rmap_item : nat)
  : result (option nat * state) :=
  do x <- get_item st rmap_item ;;
  do tx <- get_item st tree_rmap_item ;;
  if bool_decide (item_page tx = item_page x) then Ok (None, st)
  else
    do r <- get_tree_rmap_item_page st tree_rmap_item ;;
    if negb (r.1 =? 0) then Ok (None, r.2)
    else Ok (Some tree_rmap_item, r.2).

(** The end of [unstable_tree_search_insert] when nothing was found: the
    item is linked under [tree_node], whose sub-tree becomes [sub]. *)
Definition install (st : state) (rmap_item : nat) (tree_node : tree_node)
    (sub : rb nat) : result (option nat * state) :=
  do x <- get_item st rmap_item ;;
  let x := mkItem (slot x) (Z.lor (address x) UNSTABLE_FLAG) (item_page x)
                  (hash_max x) (ksm_scan_round st) (hash tree_node) (head x) in
  let st := put_item st rmap_item x in
  let st := set_root_unstable_tree st
              (put_tree_node (root_unstable_tree st)
                 (mkTreeNode (hash tree_node) (count tree_node) sub)) in
  let st := set_counters st (ksm_pages_scanned st) (ksm_pages_shared st)
              (ksm_pages_sharing st) (u64 (ksm_pages_unshared st + 1)) in
  Ok (None, st).

(** [unstable_tree_search_insert]. *)
Definition unstable_tree_search_insert (st : state) (rmap_item : nat)
    (hash_val : Z) : result (option nat * state) :=
  match find_tree_node (root_unstable_tree st) hash_val with
  | Some tree_node =>
      (* got the tree_node *)
      if count tree_node =? 1 then
        match rb_root_entry (sub_root tree_node) with
        | None => Bug
        | Some tree_rmap_item => get_page_out st rmap_item tree_rmap_item
        end
      else
        (* well, search the collision subtree *)
        do _ <- BUG_ON (RB_EMPTY_ROOT (sub_root tree_node)) ;;
        do r <- rmap_item_hash_max st rmap_item hash_val ;;
        let '(hash_max_val, st) := r in
        match sub_descend (item_key st) (sub_root tree_node) hash_max_val
                rmap_item with
        | inl tree_rmap_item => get_page_out st rmap_item tree_rmap_item
        | inr sub =>
            (* did not found even in sub-tree *)
            install st rmap_item tree_node sub
        end
  | None =>
      (* alloc a new tree_node *)
      if alloc_tree_node_ok h then
        let tree_node := mkTreeNode hash_val 0 Leaf in
        let st := set_root_unstable_tree st
                    (link_tree_node (root_unstable_tree st) tree_node) in
        install st rmap_item tree_node (Node Leaf rmap_item Leaf)
      else Ok (None, st)
  end.

(** *** Publishing a merged page in the stable tree *)

(** [try_merge_with_stable]: the two items are repointed to the page found
    in the stable tree, as far as their ptes still allow. *)
Definition try_merge_with_stable (st : state) (item1 item2 : nat)
    (oldpage tree_page : nat) : result (bool * bool * state) :=
  if bool_decide (oldpage = tree_page) then Ok (true, true, st)
  else
    do op <- get_page_of st oldpage ;;
    if negb (PageAnon op) || negb (PageKsm op) then Ok (false, false, st)
    else
      let '(success1, success2) := merge_with_stable h item1 item2 in
      if negb success1 then Ok (false, false, st)
      else
        do st <- replace_page_counts st oldpage tree_page ;;
        if negb success2 then Ok (true, false, st)
        else
          do st <- replace_page_counts st oldpage tree_page ;;
          Ok (true, true, st).

(** [stable_node_hash_max]. *)
Definition stable_node_hash_max (st : state) (node pg : nat) (hash_val : Z)
  : result state :=
  do sn <- get_stable_node st node ;;
  if sn_hash_max sn =? 0 then
    do r <- page_hash_max st pg hash_val ;;
    let '(hash_max_val, st) := r in
    do sn <- get_stable_node st node ;;
    Ok (put_stable_node st node
          (mkStableNode (kpfn sn) hash_max_val (sn_tree_node sn) (hlist sn)))
  else Ok st.

(** [new_stable_node]; the new node gets a number not in use. *)
Definition new_stable_node (st : state) (tree_node_hash : Z) (kpage : nat)
    (hash_max_val : Z) : result (option nat * state) :=
  if alloc_stable_node_ok h then
    let n := fresh (dom (stable_nodes st)) in
    let st := put_stable_node st n
                (mkStableNode kpage hash_max_val (Some tree_node_hash) []) in
    do st <- set_page_stable_node st kpage (Some n) ;;
    Ok (Some n, st)
  else Ok (None, st).

(** The end of the three insert functions: the new stable node is linked
    into the sub-tree ([link]) of the tree node and counted. *)
Definition link_stable_node (st : state) (tree_node_hash : Z) (kpage : nat)
    (hash_max_val : Z) (link : rb nat -> nat -> rb nat)
  : result (option nat * bool * bool * state) :=
  do r <- new_stable_node st tree_node_hash kpage hash_max_val ;;
  let '(new_snode, st) := r in
  match new_snode with
  | None => Ok (None, false, false, st)
  | Some n =>
      do tn <- get_stable_tree_node st tree_node_hash ;;
      let st := set_root_stable_tree st
                  (put_tree_node (root_stable_tree st)
                     (mkTreeNode (hash tn) (u64 (count tn + 1))
                                 (link (sub_root tn) n))) in
      Ok (Some n, true, true, st)
  end.

(** [first_level_insert]. *)
Definition first_level_insert (st : state) (tree_node_hash : Z)
    (rmap_item tree_rmap_item kpage : nat) (hash_val : Z)
  : result (option nat * bool * bool * state) :=
  do tn <- get_stable_tree_node st tree_node_hash ;;
  (* this tree node contains no sub-tree yet *)
  match rb_root_entry (sub_root tn) with
  | None => OutOfBounds
  | Some stable_node =>
      do r <- get_ksm_page st stable_node true false ;;
      let '(tree_page, st) := r in
      match tree_page with
      | Some tree_page =>
          do r <- memcmp_pages st kpage tree_page true ;;
          let '(cmp, st) := r in
          if negb cmp then
            do r <- try_merge_with_stable st rmap_item tree_rmap_item
                      kpage tree_page ;;
            let '(success1, success2, st) := r in
            do st <- put_page st tree_page ;;
            if negb success1 && negb success2
            then Ok (None, success1, success2, st)
            else Ok (Some stable_node, success1, success2, st)
          else
            (* collision in first level try to create a subtree *)
            do st <- put_page st tree_page ;;
            do st <- stable_node_hash_max st stable_node tree_page
                       tree_node_hash ;;
            do r <- rmap_item_hash_max st rmap_item hash_val ;;
            let '(hash_max_val, st) := r in
            let cmp := hash_cmp hash_max_val (stable_key st stable_node) in
            if cmp <? 0 then
              link_stable_node st tree_node_hash kpage hash_max_val
                (fun sub n => link_under sub stable_node true n)
            else if cmp >? 0 then
              link_stable_node st tree_node_hash kpage hash_max_val
                (fun sub n => link_under sub stable_node false n)
            else Ok (None, false, false, st)
      | None =>
          (* the only stable_node deleted, we reuse its tree_node *)
          link_stable_node st tree_node_hash kpage 0
            (fun _ n => Node Leaf n Leaf)
      end
  end.

(** [stable_subtree_insert]; [fuel] bounds the [research] restarts, each of
    which has removed a stale stable node. *)
Fixpoint stable_subtree_insert (fuel : nat) (st : state) (tree_node_hash : Z)
    (rmap_item tree_rmap_item kpage : nat) (hash_val : Z)
  : result (option nat * bool * bool * state) :=
  do tn <- get_stable_tree_node st tree_node_hash ;;
  do _ <- BUG_ON (RB_EMPTY_ROOT (sub_root tn)) ;;
  do r <- rmap_item_hash_max st rmap_item hash_val ;;
  let '(hash_max_val, st) := r in
  match sub_descend (stable_key st) (sub_root tn) hash_max_val 0%nat with
  | inl stable_node =>
      do r <- get_ksm_page st stable_node true false ;;
      let '(tree_page, st) := r in
      match tree_page with
      | Some tree_page =>
          do r <- memcmp_pages st kpage tree_page true ;;
          let '(cmp, st) := r in
          if negb cmp then
            do r <- try_merge_with_stable st rmap_item tree_rmap_item
                      kpage tree_page ;;
            let '(success1, success2, st) := r in
            do st <- put_page st tree_page ;;
            if negb success1 && negb success2
            then Ok (None, success1, success2, st)
            else Ok (Some stable_node, success1, success2, st)
          else
            do st <- put_page st tree_page ;;
            Ok (None, false, false, st)
      | None =>
          (* stable node may be deleted, and subtree maybe restructed *)
          do tn <- get_stable_tree_node st tree_node_hash ;;
          if negb (count tn =? 0) then
            match fuel with
            | O => Bug
            | S fuel' =>
                stable_subtree_insert fuel' st tree_node_hash rmap_item
                  tree_rmap_item kpage hash_val
            end
          else
            (* reuse the tree node *)
            link_stable_node st tree_node_hash kpage hash_max_val
              (fun _ n => Node Leaf n Leaf)
      end
  | inr _ =>
      link_stable_node st tree_node_hash kpage hash_max_val
        (fun sub n =>
           match sub_descend (stable_key st) sub hash_max_val n with
           | inr sub' => sub'
           | inl _ => sub
           end)
  end.

(** The number of nodes of a tree. *)
Fixpoint rb_size {A : Type} (t : rb A) : nat :=
  match t with
  | Leaf => O
  | Node l _ r => S (rb_size l + rb_size r)
  end.

(** [stable_tree_insert]. *)
Definition stable_tree_insert (st : state) (kpage : nat) (hash_val : Z)
    (rmap_item tree_rmap_item : nat)
  : result (option nat * bool * bool * state) :=
  match find_tree_node (root_stable_tree st) hash_val with
  | Some tree_node =>
      if count tree_node =? 1 then
        first_level_insert st hash_val rmap_item tree_rmap_item kpage hash_val
      else
        stable_subtree_insert (rb_size (sub_root tree_node)) st hash_val
          rmap_item tree_rmap_item kpage hash_val
  | None =>
      (* no tree node found *)
      if alloc_tree_node_ok h then
        do r <- new_stable_node st hash_val kpage 0 ;;
        let '(stable_node, st) := r in
        match stable_node with
        | None => Ok (None, false, false, st)
        | Some n =>
            let st := set_root_stable_tree st
                        (link_tree_node (root_stable_tree st)
                           (mkTreeNode hash_val 1 (Node Leaf n Leaf))) in
            Ok (Some n, true, true, st)
        end
      else Ok (None, false, false, st)
  end.

(** [break_cow]: a write fault is forced on the address of the item; the
    fault is the host's. *)
Definition break_cow (st : state) (rmap_item : nat) : result state := Ok st.

(** [cmp_and_merge_page]. *)
Definition cmp_and_merge_page (st : state) (rmap_item : nat) : result state :=
  do st <- remove_rmap_item_from_tree st rmap_item ;;
  do x <- get_item st rmap_item ;;
  let pg := item_page x in
  do r <- page_hash st pg (hash_strength st) true ;;
  let '(hash_val, st) := r in
  let st := set_counters st (u64 (ksm_pages_scanned st + 1))
              (ksm_pages_shared st) (ksm_pages_sharing st)
              (ksm_pages_unshared st) in
  (* We first start with searching the page inside the stable tree *)
  do r <- stable_tree_search st rmap_item hash_val ;;
  let '(kpage, st) := r in
  do r <-
    (match kpage with
     | Some k =>
         do r <- try_to_merge_with_ksm_page st rmap_item (Some k) hash_val ;;
         let '(err, st) := r in
         if err =? 0 then
           do kp <- get_page_of st k ;;
           do st <- (match page_stable_node kp with
                     | Some n => stable_tree_append (alloc_node_vma_ok h) st
                                   rmap_item n
                     | None => Bug
                     end) ;;
           do st <- put_page st k ;;
           Ok (true, st)
         else
           do st <- put_page st k ;;
           do x <- get_item st rmap_item ;;
           Ok ((err =? MERGE_ERR_COLLI) && negb (hash_max x =? 0), st)
     | None => Ok (false, st)
     end) ;;
  let '(done, st) := r in
  if done then Ok st
  else
    do r <- unstable_tree_search_insert st rmap_item hash_val ;;
    let '(tree_rmap_item, st) := r in
    match tree_rmap_item with
    | None => Ok st
    | Some tree_rmap_item =>
        do r <- try_to_merge_two_pages st rmap_item tree_rmap_item hash_val ;;
        let '(err, st) := r in
        do st <-
          (if err =? 0 then
             let kpage := pg in
             do st <- remove_rmap_item_from_tree st tree_rmap_item ;;
             do r <- stable_tree_insert st kpage hash_val rmap_item
                       tree_rmap_item ;;
             let '(snode, success1, success2, st) := r in
             do st <- (if success1 then
                         match snode with
                         | Some n => stable_tree_append (alloc_node_vma_ok h)
                                       st rmap_item n
                         | None => Bug
                         end
                       else break_cow st rmap_item) ;;
             (if success2 then
                match snode with
                | Some n => stable_tree_append (alloc_node_vma_ok h) st
                              tree_rmap_item n
                | None => Bug
                end
              else break_cow st tree_rmap_item)
           else if err =? MERGE_ERR_COLLI then
             do tx <- get_item st tree_rmap_item ;;
             do tn <- get_unstable_tree_node st (tree_node_of tx) ;;
             do st <-
               (if count tn =? 1 then
                  do r <- rmap_item_hash_max st tree_rmap_item (hash tn) ;;
                  Ok r.2
                else
                  do _ <- BUG_ON (hash_max tx =? 0) ;;
                  Ok st) ;;
             do r <- rmap_item_hash_max st rmap_item hash_val ;;
             let '(hash_max_val, st) := r in
             let cmp := hash_cmp hash_max_val (item_key st tree_rmap_item) in
             if cmp =? 0 then Ok st
             else
               do x <- get_item st rmap_item ;;
               do tn <- get_unstable_tree_node st (tree_node_of tx) ;;
               let x := mkItem (slot x) (Z.lor (address x) UNSTABLE_FLAG)
                          (item_page x) (hash_max x) (ksm_scan_round st)
                          (hash tn) (head x) in
               let st := put_item st rmap_item x in
               Ok (set_root_unstable_tree st
                     (put_tree_node (root_unstable_tree st)
                        (mkTreeNode (hash tn) (count tn)
                           (link_under (sub_root tn) tree_rmap_item
                                       (cmp <? 0) rmap_item))))
           else Ok st) ;;
        do tx <- get_item st tree_rmap_item ;;
        put_page st (item_page tx)
    end.

End WithPageSize.

(** *** Vocabulary of the statements about the engine *)

(** The in-order sequence of the nodes of a tree. *)
Fixpoint rb_elements {A : Type} (t : rb A) : list A :=
  match t with
  | Leaf => []
  | Node l x r => rb_elements l ++ x :: rb_elements r
  end.

(** The rmap items under the unstable tree node of a hash value, in
    order. *)
Definition unstable_items (st : state) (hash_val : Z) : list nat :=
  match find_tree_node (root_unstable_tree st) hash_val with
  | Some tn => rb_elements (sub_root tn)
  | None => []
  end.

(** The two descents of [unstable_tree_search_insert] end without an item
    to go to [get_page_out] with: no tree node has the hash value, or its
    [count] is not 1 and no item of its sub-tree has the [hash_max] of the
    new one. *)
Definition no_terminal_match (PAGE_SHIFT : Z) (random_nums : Z -> Z)
    (st : state) (rmap_item : nat) (hash_val : Z) : Prop :=
  match find_tree_node (root_unstable_tree st) hash_val with
  | None => True
  | Some tn =>
      count tn <> 1 /\ sub_root tn <> Leaf /\
      exists r,
        rmap_item_hash_max PAGE_SHIFT random_nums st rmap_item hash_val
        = Ok r /\
        sub_find (item_key r.2) (sub_root tn) r.1 = None
  end.

(** The sub-tree under the unstable tree node of a hash value; it is empty
    when no tree node has the hash value. *)
Definition unstable_sub (st : state) (hash_val : Z) : rb nat :=
  match find_tree_node (root_unstable_tree st) hash_val with
  | Some tn => sub_root tn
  | None => Leaf
  end.

(** The insertion point of a second-level descent by [hash_max_val]: the
    free link reached by going left at every node whose [hash_max] is
    larger and right at every node whose [hash_max] is smaller.
    [linked_at key_of hash_max_val new t t'] says that [t'] is [t] with the
    node [new] linked there, and nothing else changed. *)
Inductive linked_at (key_of : nat -> Z) (hash_max_val : Z) (new : nat)
  : rb nat -> rb nat -> Prop :=
| linked_here :
    linked_at key_of hash_max_val new Leaf (Node Leaf new Leaf)
| linked_left l l' x r :
    hash_max_val < key_of x ->
    linked_at key_of hash_max_val new l l' ->
    linked_at key_of hash_max_val new (Node l x r) (Node l' x r)
| linked_right l x r r' :
    key_of x < hash_max_val ->
    linked_at key_of hash_max_val new r r' ->
    linked_at key_of hash_max_val new (Node l x r) (Node l x r').

(** The item is in the unstable tree of [st'], which was [st]: flagged,
    stamped with the round, and linked under the tree node of its hash
    value at the insertion point of its [hash_max]; the tree nodes of the
    other hash values are as they were, and the in-order sequence of the
    sub-tree has gained the item and nothing else. *)
Definition installed (st st' : state) (rmap_item : nat) (hash_val : Z)
  : Prop :=
  (exists x, items st' !! rmap_item = Some x /\
             in_unstable_tree x = true /\
             append_round x = ksm_scan_round st /\
             tree_node_of x = hash_val) /\
  linked_at (item_key st') (item_key st' rmap_item) rmap_item
    (unstable_sub st hash_val) (unstable_sub st' hash_val) /\
  (forall hv, hv <> hash_val ->
     find_tree_node (root_unstable_tree st') hv
     = find_tree_node (root_unstable_tree st) hv) /\
  exists l1 l2, unstable_items st hash_val = l1 ++ l2 /\
                unstable_items st' hash_val = l1 ++ rmap_item :: l2.

(** The keyhole check of [get_ksm_page]: the page of the stable node
    points back at the node and is still referenced. *)
Definition keyhole (st : state) (node k : nat) : Prop :=
  exists sn kp,
    stable_nodes st !! node = Some sn /\ kpfn sn = k /\
    pages st !! k = Some kp /\
    mapping kp = MapKsm (Some node) /\ _count kp <> 0.

(** The two numbers that steer the hash: what was saved and the
    strength. *)
Definition same_hash (st st' : state) : Prop :=
  rshash_pos st' = rshash_pos st /\ hash_strength st' = hash_strength st.

(** The number of rmap items whose address carries [STABLE_FLAG]. *)
Definition stable_items (m : gmap nat rmap_item) : nat :=
  size (filter (fun kv => in_stable_tree kv.2 = true) m).

Definition flag_weight (x : rmap_item) : nat :=
  if in_stable_tree x then 1%nat else 0%nat.

(** The rmap items that hang under a stable node, with the area of their
    [node_vma]. *)
Definition entries (l : list node_vma) : list (nat * nat) :=
  l ≫= (fun nv => (fun i => (key nv, i)) <$> rmap_hlist nv).

Definition listed (l : list node_vma) : list nat := (entries l).*2.

(** No item is listed twice under a stable node; every listed item
    exists, carries the flag and points back at its place; every item
    that carries the flag is listed at the place it points to. *)
Record graph_ok (st : state) : Prop := {
  listed_once : forall n sn,
    stable_nodes st !! n = Some sn -> NoDup (listed (hlist sn));
  listed_flagged : forall n sn k i,
    stable_nodes st !! n = Some sn -> (k, i) ∈ entries (hlist sn) ->
    exists x, items st !! i = Some x /\ in_stable_tree x = true /\
              head x = (n, k);
  flagged_listed : forall i x,
    items st !! i = Some x -> in_stable_tree x = true ->
    exists sn, stable_nodes st !! (head x).1 = Some sn /\
               ((head x).2, i) ∈ entries (hlist sn);
}.

(** [ksm_pages_shared + ksm_pages_sharing], as [unsigned long]s, is the
    number of flagged items. *)
Definition counters_ok (st : state) : Prop :=
  u64 (ksm_pages_shared st + ksm_pages_sharing st)
  = u64 (Z.of_nat (stable_items (items st))).

(** The part of the state that [graph_ok] and [counters_ok] read. *)
Definition same_graph (st st' : state) : Prop :=
  items st' = items st /\ stable_nodes st' = stable_nodes st /\
  ksm_pages_shared st' = ksm_pages_shared st /\
  ksm_pages_sharing st' = ksm_pages_sharing st.

(** The operations that put an rmap item into the stable graph or take
    items out of it.  [stable_tree_append] is called for an item that is
    not in the graph: [cmp_and_merge_page] has removed it from its tree
    first. *)
Inductive graph_step (PAGE_SHIFT : Z) : state -> state -> Prop :=
| step_append alloc_ok st rmap_item node x st' :
    items st !! rmap_item = Some x ->
    in_stable_tree x = false ->
    stable_tree_append alloc_ok st rmap_item node = Ok st' ->
    graph_step PAGE_SHIFT st st'
| step_remove_item st rmap_item st' :
    remove_rmap_item_from_tree PAGE_SHIFT st rmap_item = Ok st' ->
    graph_step PAGE_SHIFT st st'
| step_remove_node st node unlink_rb remove_tree_node st' :
    remove_node_from_stable_tree PAGE_SHIFT st node unlink_rb
      remove_tree_node = Ok st' ->
    graph_step PAGE_SHIFT st st'
| step_get_ksm_page st node unlink_rb remove_tree_node pg st' :
    get_ksm_page PAGE_SHIFT st node unlink_rb remove_tree_node
    = Ok (pg, st') ->
    graph_step PAGE_SHIFT st st'.

End Engine.


(** ** The end of a scan round *)

Module Scan.

(** [free_all_tree_nodes]: every tree node of the list is unlinked from it
    and freed. *)
Fixpoint free_all_tree_nodes (nodes : list Engine.tree_node)
  : list Engine.tree_node :=
  match nodes with
  | [] => []
  | _ :: nodes' => free_all_tree_nodes nodes'
  end.

(** The tree nodes on [unstable_tree_node_list]: those of the tree. *)
Fixpoint tree_nodes (t : Engine.rb Engine.tree_node) : list Engine.tree_node :=
  match t with
  | Engine.Leaf => []
  | Engine.Node l x r => tree_nodes l ++ x :: tree_nodes r
  end.

(** The [if (round_finished) { ... }] block of [ksm_do_scan].  The ladder
    and the engine share [ksm_vma_table] and [ksm_inter_vma_table]. *)
Definition round_finished_block (l : Ladder.state) (e : Engine.state)
  : result (Ladder.state * Engine.state * list Engine.tree_node) :=
  do l <- Ladder.round_update_ladder l ;;
  let e := Engine.set_intertab e (Ladder.tab l) in
  (* sync with ksm_remove_vma for rb_erase *)
  let unstable_tree_node_list := tree_nodes (Engine.root_unstable_tree e) in
  let e := Engine.mkState (Engine.hash_strength e) (Engine.rshash_pos e)
             (Engine.rshash_neg e) (Engine.memcmp_cost e)
             (u64 (Engine.ksm_scan_round e + 1))
             (Engine.ksm_pages_scanned e) (Engine.ksm_pages_shared e)
             (Engine.ksm_pages_sharing e) (Engine.ksm_pages_unshared e)
             (Engine.pages e) (Engine.items e) (Engine.stable_nodes e)
             (Engine.root_stable_tree e) Engine.Leaf (Engine.intertab e)
             (Engine.pages_merged e) (Engine.anon_vma_refs e) in
  Ok (l, e, free_all_tree_nodes unstable_tree_node_list).

End Scan.


(** ** Concrete states *)

Module Examples.

Definition from_ok {A : Type} (d : A) (r : result A) : A :=
  match r with Ok a => a | _ => d end.

(** The tables after areas 1 and 2 were seen with three identical pages. *)
Definition tab12 : InterTab.state :=
  from_ok InterTab.init
    (InterTab.observe InterTab.init [(1, 2); (1, 2); (1, 2)]%nat).

(** A small area and a large one, both on the second rung and both
    scanned by half this round. *)
Definition area1 : Ladder.vma_slot :=
  Ladder.mkSlot 200 100 0 3 0 0 1 8 true false.

Definition area2 : Ladder.vma_slot :=
  Ladder.mkSlot 20000 10000 0 3 0 0 1 800 true false.

Definition ladder12 : Ladder.state :=
  Ladder.mkState tab12
    (<[1%nat := area1]> (<[2%nat := area2]> ∅))
    [ Ladder.mkRung 1 [] Ladder.PNull 0 0 false 0;
      Ladder.mkRung 5 [1; 2]%nat (Ladder.PSlot 1) 2 0 false 0;
      Ladder.mkRung 25 [] Ladder.PNull 0 0 false 0;
      Ladder.mkRung 125 [] Ladder.PNull 0 0 false 0 ]
    2 0.

(** The same round with thrash filtering at 10% and an area that merged
    no page. *)
Definition ladder_thrash : Ladder.state :=
  Ladder.mkState tab12
    (<[1%nat := Ladder.mkSlot 200 100 0 0 0 0 1 8 true false]>
       (<[2%nat := area2]> ∅))
    (Ladder.ksm_scan_ladder ladder12) 2 10.

(** An engine with one unstable tree node that holds one rmap item. *)
Definition engine1 : Engine.state :=
  Engine.mkState 1 0 0 3 1 0 0 0 1
    (<[7%nat := Engine.mkPage (fun _ => 90) (Engine.MapAnon 1) 1]> ∅)
    (<[4%nat := Engine.mkItem 1 4097 7 0 1 5 (0, 0)%nat]> ∅)
    ∅ Engine.Leaf
    (Engine.Node Engine.Leaf
       (Engine.mkTreeNode 5 0 (Engine.Node Engine.Leaf 4%nat Engine.Leaf))
       Engine.Leaf)
    tab12 ∅ ∅.

(** A host on which every primitive succeeds, and one on which tree nodes
    cannot be allocated. *)
Definition host_ok : Engine.host :=
  Engine.mkHost (fun _ => false) (fun _ => true) (fun _ => true)
    (fun _ _ => true) (fun _ => true) (fun _ => 0) (fun _ _ => (true, true))
    true true true.

Definition host_nomem : Engine.host :=
  Engine.mkHost (fun _ => false) (fun _ => true) (fun _ => true)
    (fun _ _ => true) (fun _ => true) (fun _ => 0) (fun _ _ => (true, true))
    false true true.

(** 4 KiB pages, sampled in the order of their words. *)
Definition page_shift : Z := 12.
Definition sample_order : Z -> Z := fun i => i.

(** Two frames that agree on the first word and differ on the second. *)
Definition frame_a : Z -> Z := fun i => if i =? 0 then 90 else 0.
Definition frame_b : Z -> Z :=
  fun i => if i =? 0 then 90 else if i =? 1 then 1 else 0.

(** The engine at strength 1 with empty trees: item 4 maps frame 7 in
    area 1, item 5 maps frame 8 in area 2. *)
Definition engine0 : Engine.state :=
  Engine.mkState 1 0 0 3 1 0 0 0 0
    (<[7%nat := Engine.mkPage frame_a (Engine.MapAnon 1) 1]>
       (<[8%nat := Engine.mkPage frame_b (Engine.MapAnon 2) 1]> ∅))
    (<[4%nat := Engine.mkItem 1 4096 7 0 0 0 (0, 0)%nat]>
       (<[5%nat := Engine.mkItem 2 8192 8 0 0 0 (0, 0)%nat]> ∅))
    ∅ Engine.Leaf Engine.Leaf InterTab.init ∅ ∅.

(** The hash of both frames at strength 1. *)
Definition hash_a1 : Z :=
  Eval vm_compute in Hash.random_sample_hash 1024 sample_order frame_a 1.

(** Frame 9 is a merged page with the words [c], published under the
    hash of strength 1 by stable node 0; item 6 of area 3 maps it. *)
Definition stable_with (c : Z -> Z) : Engine.state :=
  Engine.mkState 1 0 0 3 1 0 1 0 0
    (<[7%nat := Engine.mkPage frame_a (Engine.MapAnon 1) 1]>
       (<[9%nat := Engine.mkPage c (Engine.MapKsm (Some 0%nat)) 1]> ∅))
    (<[4%nat := Engine.mkItem 1 4096 7 0 0 0 (0, 0)%nat]>
       (<[6%nat := Engine.mkItem 3 12290 9 0 1 0 (0, 3)%nat]> ∅))
    (<[0%nat := Engine.mkStableNode 9 0 (Some hash_a1)
                  [Engine.mkNodeVma 3 1 [6%nat]]]> ∅)
    (Engine.Node Engine.Leaf
       (Engine.mkTreeNode hash_a1 1
          (Engine.Node Engine.Leaf 0%nat Engine.Leaf))
       Engine.Leaf)
    Engine.Leaf InterTab.init ∅ ∅.

(** The merged page differs from frame 7 behind the sampled word, or is
    equal to it. *)
Definition engine_stable : Engine.state := stable_with frame_b.
Definition engine_same : Engine.state := stable_with frame_a.

(** The merged page was freed: [mapping] is reset and no reference is
    left, while stable node 0 still names the frame. *)
Definition engine_stale : Engine.state :=
  Engine.put_page_of engine_same 9 (Engine.mkPage frame_a Engine.MapNull 0).

(** The engine after item 4 was scanned from [engine0], and after item 5
    was scanned then. *)
Definition engine_a : Engine.state :=
  from_ok engine0
    (Engine.cmp_and_merge_page page_shift sample_order host_ok engine0 4).

Definition engine_ab : Engine.state :=
  from_ok engine_a
    (Engine.cmp_and_merge_page page_shift sample_order host_ok engine_a 5).

(** [engine_a] with item 4 counted by its tree node, as an insertion into
    the stable tree counts a stable node. *)
Definition engine_counted : Engine.state :=
  Engine.set_root_unstable_tree engine_a
    (Engine.put_tree_node (Engine.root_unstable_tree engine_a)
       (Engine.mkTreeNode hash_a1 1 (Engine.Node Engine.Leaf 4%nat Engine.Leaf))).

(** A stable node that was just published: nothing hangs under it yet. *)
Definition engine_pub : Engine.state :=
  Engine.mkState 1 0 0 3 1 0 0 0 0
    (<[7%nat := Engine.mkPage frame_a (Engine.MapAnon 1) 1]>
       (<[9%nat := Engine.mkPage frame_a (Engine.MapKsm (Some 0%nat)) 2]> ∅))
    (<[4%nat := Engine.mkItem 1 4096 7 0 0 0 (0, 0)%nat]>
       (<[6%nat := Engine.mkItem 3 12288 9 0 0 0 (0, 0)%nat]> ∅))
    (<[0%nat := Engine.mkStableNode 9 0 (Some hash_a1) []]> ∅)
    (Engine.Node Engine.Leaf
       (Engine.mkTreeNode hash_a1 1
          (Engine.Node Engine.Leaf 0%nat Engine.Leaf))
       Engine.Leaf)
    Engine.Leaf InterTab.init ∅ ∅.

(** Items 6 and 4 are appended to the node, then item 6 is removed. *)
Definition graph_run : result Engine.state :=
  do st <- Engine.stable_tree_append true engine_pub 6 0 ;;
  do st <- Engine.stable_tree_append true st 4 0 ;;
  Engine.remove_rmap_item_from_tree page_shift st 6.

End Examples.

(** ** The tuning of the hash strength *)

Module Rshash.

(** [enum rshash_states] and [enum rshash_direct]. *)
Inductive rshash_states : Type :=
| RSHASH_STILL
| RSHASH_TRYUP
| RSHASH_TRYDOWN
| RSHASH_NEW
| RSHASH_PRE_STILL.

Inductive rshash_direct : Type :=
| GO_UP
| GO_DOWN
| OBSCURE
| STILL.

Global Instance rshash_direct_eq_dec : EqDecision rshash_direct.
Proof. solve_decision. Defined.

(** [#define HASH_STRENGTH_DELTA_MAX 5]. *)
Definition HASH_STRENGTH_DELTA_MAX : Z := 5.

Definition u8 (z : Z) : Z := z mod 2 ^ 8.

(** The anonymous struct [rshash_state]. *)
Record machine : Type := mkMachine {
  state : rshash_states;
  pre_direct : rshash_direct;
  below_count : Z;
  lookup_window_index : Z;
  stable_benefit : Z;
  turn_point_down : Z;
  turn_benefit_down : Z;
  turn_point_up : Z;
  turn_benefit_up : Z;
  stable_point : Z;
}.

(** The globals that [rshash_adjust] reads and writes. *)
Record globals : Type := mkGlobals {
  hash_strength : Z;
  hash_strength_delta : Z;
  rshash_pos : Z;
  rshash_neg : Z;
  ksm_pages_scanned : Z;
  ksm_pages_scanned_last : Z;
  ksm_scan_round : Z;
  rshash_neg_cont_zero : Z;
  rshash_cont_obscure : Z;
  rshash_state : machine;
}.

Definition set_hash_strength (g : globals) (v : Z) : globals :=
  mkGlobals v (hash_strength_delta g) (rshash_pos g) (rshash_neg g)
    (ksm_pages_scanned g) (ksm_pages_scanned_last g) (ksm_scan_round g)
    (rshash_neg_cont_zero g) (rshash_cont_obscure g) (rshash_state g).

Definition set_hash_strength_delta (g : globals) (v : Z) : globals :=
  mkGlobals (hash_strength g) v (rshash_pos g) (rshash_neg g)
    (ksm_pages_scanned g) (ksm_pages_scanned_last g) (ksm_scan_round g)
    (rshash_neg_cont_zero g) (rshash_cont_obscure g) (rshash_state g).

Definition set_pos_neg (g : globals) (pos neg : Z) : globals :=
  mkGlobals (hash_strength g) (hash_strength_delta g) pos neg
    (ksm_pages_scanned g) (ksm_pages_scanned_last g) (ksm_scan_round g)
    (rshash_neg_cont_zero g) (rshash_cont_obscure g) (rshash_state g).

Definition set_neg_cont_zero (g : globals) (v : Z) : globals :=
  mkGlobals (hash_strength g) (hash_strength_delta g) (rshash_pos g)
    (rshash_neg g) (ksm_pages_scanned g) (ksm_pages_scanned_last g)
    (ksm_scan_round g) v (rshash_cont_obscure g) (rshash_state g).

Definition set_cont_obscure (g : globals) (v : Z) : globals :=
  mkGlobals (hash_strength g) (hash_strength_delta g) (rshash_pos g)
    (rshash_neg g) (ksm_pages_scanned g) (ksm_pages_scanned_last g)
    (ksm_scan_round g) (rshash_neg_cont_zero g) v (rshash_state g).

Definition set_machine (g : globals) (m : machine) : globals :=
  mkGlobals (hash_strength g) (hash_strength_delta g) (rshash_pos g)
    (rshash_neg g) (ksm_pages_scanned g) (ksm_pages_scanned_last g)
    (ksm_scan_round g) (rshash_neg_cont_zero g) (rshash_cont_obscure g) m.

Definition set_state (m : machine) (s : rshash_states) : machine :=
  mkMachine s (pre_direct m) (below_count m) (lookup_window_index m)
    (stable_benefit m) (turn_point_down m) (turn_benefit_down m)
    (turn_point_up m) (turn_benefit_up m) (stable_point m).

Definition set_pre_direct (m : machine) (d : rshash_direct) : machine :=
  mkMachine (state m) d (below_count m) (lookup_window_index m)
    (stable_benefit m) (turn_point_down m) (turn_benefit_down m)
    (turn_point_up m) (turn_benefit_up m) (stable_point m).

Definition set_below_count (m : machine) (v : Z) : machine :=
  mkMachine (state m) (pre_direct m) v (lookup_window_index m)
    (stable_benefit m) (turn_point_down m) (turn_benefit_down m)
    (turn_point_up m) (turn_benefit_up m) (stable_point m).

Definition set_lookup_window_index (m : machine) (v : Z) : machine :=
  mkMachine (state m) (pre_direct m) (below_count m) v
    (stable_benefit m) (turn_point_down m) (turn_benefit_down m)
    (turn_point_up m) (turn_benefit_up m) (stable_point m).

Definition set_stable_benefit (m : machine) (v : Z) : machine :=
  mkMachine (state m) (pre_direct m) (below_count m) (lookup_window_index m)
    v (turn_point_down m) (turn_benefit_down m)
    (turn_point_up m) (turn_benefit_up m) (stable_point m).

Definition set_turn_down (m : machine) (point benefit : Z) : machine :=
  mkMachine (state m) (pre_direct m) (below_count m) (lookup_window_index m)
    (stable_benefit m) point benefit
    (turn_point_up m) (turn_benefit_up m) (stable_point m).

Definition set_turn_up (m : machine) (point benefit : Z) : machine :=
  mkMachine (state m) (pre_direct m) (below_count m) (lookup_window_index m)
    (stable_benefit m) (turn_point_down m) (turn_benefit_down m)
    point benefit (stable_point m).

Definition set_stable_point (m : machine) (v : Z) : machine :=
  mkMachine (state m) (pre_direct m) (below_count m) (lookup_window_index m)
    (stable_benefit m) (turn_point_down m) (turn_benefit_down m)
    (turn_point_up m) (turn_benefit_up m) v.

(** [div64_u64]. *)
Definition div64_u64 (dividend divisor : Z) : result Z :=
  if divisor =? 0 then DivByZero else Ok (dividend / divisor).

(** What the scan writes between two adjustments: the two costs, the
    count of scanned pages and the round. *)
Definition set_scan_counters (g : globals) (pos neg scanned round : Z)
  : globals :=
  mkGlobals (hash_strength g) (hash_strength_delta g) pos neg
    scanned (ksm_pages_scanned_last g) round
    (rshash_neg_cont_zero g) (rshash_cont_obscure g) (rshash_state g).

Definition set_pages_scanned_last (g : globals) (v : Z) : globals :=
  mkGlobals (hash_strength g) (hash_strength_delta g) (rshash_pos g)
    (rshash_neg g) (ksm_pages_scanned g) v (ksm_scan_round g)
    (rshash_neg_cont_zero g) (rshash_cont_obscure g) (rshash_state g).

Section WithPage.

(** [HASH_STRENGTH_FULL], which comes from [PAGE_SIZE]. *)
Variable HASH_STRENGTH_FULL : Z.

Local Abbreviation HASH_STRENGTH_MAX := (Hash.HASH_STRENGTH_MAX HASH_STRENGTH_FULL).

(** [inc_hash_strength]; [1 << delta] is an [int]. *)
Definition inc_hash_strength (g : globals) (delta : Z) : globals :=
  let g := set_hash_strength g (u64 (hash_strength g + Z.shiftl 1 delta)) in
  if hash_strength g >? HASH_STRENGTH_MAX
  then set_hash_strength g HASH_STRENGTH_MAX
  else g.

(** [dec_hash_strength]. *)
Definition dec_hash_strength (g : globals) (delta : Z) : globals :=
  let change := Z.shiftl 1 delta in
  if hash_strength g <=? u64 (change + 1)
  then set_hash_strength g 1
  else set_hash_strength g (u64 (hash_strength g - change)).

(** [inc_hash_strength_delta]. *)
Definition inc_hash_strength_delta (g : globals) : globals :=
  let g := set_hash_strength_delta g (u64 (hash_strength_delta g + 1)) in
  if hash_strength_delta g >? HASH_STRENGTH_DELTA_MAX
  then set_hash_strength_delta g HASH_STRENGTH_DELTA_MAX
  else g.

(** [get_current_neg_ratio]. *)
Definition get_current_neg_ratio (g : globals) : result Z :=
  if (rshash_pos g =? 0) || (rshash_neg g >? rshash_pos g) then Ok 100
  else div64_u64 (u64 (100 * rshash_neg g)) (rshash_pos g).

(** [get_current_benefit]. *)
Definition get_current_benefit (g : globals) : result Z :=
  if rshash_neg g >? rshash_pos g then Ok 0
  else div64_u64 (u64 (rshash_pos g - rshash_neg g))
         (u64 (ksm_pages_scanned g - ksm_pages_scanned_last g)).

(** [judge_rshash_direction].  At the label [out] the function answers
    [STILL], whatever was stored in [ret]. *)
Definition judge_rshash_direction (g : globals)
  : result (rshash_direct * globals) :=
  do current_neg_ratio <- get_current_neg_ratio g ;;
  if current_neg_ratio =? 0 then
    let g := set_neg_cont_zero g (u64 (rshash_neg_cont_zero g + 1)) in
    if rshash_neg_cont_zero g >? 2 then Ok (GO_DOWN, g) else Ok (STILL, g)
  else
    let g := set_neg_cont_zero g 0 in
    let out (ret : option rshash_direct) (g : globals)
      : result (rshash_direct * globals) :=
      Ok (STILL, set_cont_obscure g 0) in
    if current_neg_ratio >? 90 then out (Some GO_UP) g
    else if ksm_scan_round g mod 1024 =? 3 then
      (* In case the system are still for a long time. *)
      out (Some OBSCURE) g
    else
      do current_benefit <- get_current_benefit g ;;
      let stable_benefit := stable_benefit (rshash_state g) in
      if stable_benefit =? 0 then out (Some OBSCURE) g
      else
        let delta :=
          if current_benefit >? stable_benefit
          then u64 (current_benefit - stable_benefit)
          else if current_benefit <? stable_benefit
               then u64 (stable_benefit - current_benefit)
               else 0 in
        do delta <- div64_u64 (u64 (100 * delta)) stable_benefit ;;
        if delta >? 50 then
          let g := set_cont_obscure g (u64 (rshash_cont_obscure g + 1)) in
          if rshash_cont_obscure g >? 2 then Ok (OBSCURE, g)
          else Ok (STILL, g)
        else out None g.

(** The head of the cases [RSHASH_TRYDOWN] and [RSHASH_TRYUP]: the lookup
    window and the new turn point, which [turn] reads and [set_turn]
    writes. *)
Definition try_window (g : globals) (turn_benefit : machine -> Z)
    (set_turn : machine -> Z -> Z -> machine) : result globals :=
  let m := rshash_state g in
  let index := lookup_window_index m in
  let m := set_lookup_window_index m (u8 (index + 1)) in
  let m := if index mod 5 =? 0 then set_below_count m 0 else m in
  let g := set_machine g m in
  do benefit <- get_current_benefit g ;;
  if benefit <? stable_benefit m then
    Ok (set_machine g (set_below_count m (u8 (below_count m + 1))))
  else if benefit >? turn_benefit m then
    Ok (set_machine g (set_turn m (hash_strength g) benefit))
  else Ok g.

(** [rshash_adjust], up to its last statement: the answer holds the
    strength to give to [stable_tree_delta_hash] if the strength has
    changed. *)
Definition rshash_adjust (g : globals) : result (globals * option Z) :=
  let prev_hash_strength := hash_strength g in
  if ksm_pages_scanned g =? ksm_pages_scanned_last g then Ok (g, None)
  else
    do g <-
      (match state (rshash_state g) with
       | RSHASH_STILL =>
           do r <- judge_rshash_direction g ;;
           let '(direction, g) := r in
           match direction with
           | GO_UP =>
               let g := if bool_decide (pre_direct (rshash_state g) = GO_DOWN)
                        then set_hash_strength_delta g 0 else g in
               let g := inc_hash_strength g (hash_strength_delta g) in
               let g := inc_hash_strength_delta g in
               do benefit <- get_current_benefit g ;;
               Ok (set_machine g
                     (set_pre_direct
                        (set_stable_benefit (rshash_state g) benefit) GO_UP))
           | GO_DOWN =>
               let g := if bool_decide (pre_direct (rshash_state g) = GO_UP)
                        then set_hash_strength_delta g 0 else g in
               let g := dec_hash_strength g (hash_strength_delta g) in
               let g := inc_hash_strength_delta g in
               do benefit <- get_current_benefit g ;;
               Ok (set_machine g
                     (set_pre_direct
                        (set_stable_benefit (rshash_state g) benefit)
                        GO_DOWN))
           | OBSCURE =>
               let m := rshash_state g in
               let m := set_stable_point m (hash_strength g) in
               do benefit_down <- get_current_benefit g ;;
               let m := set_turn_down m (hash_strength g) benefit_down in
               do benefit_up <- get_current_benefit g ;;
               let m := set_turn_up m (hash_strength g) benefit_up in
               let m := set_lookup_window_index m 0 in
               let m := set_state m RSHASH_TRYDOWN in
               let g := set_machine g m in
               let g := dec_hash_strength g (hash_strength_delta g) in
               Ok (inc_hash_strength_delta g)
           | STILL => Ok g
           end
       | RSHASH_TRYDOWN =>
           do g <- try_window g turn_benefit_down set_turn_down ;;
           do r <-
             (if below_count (rshash_state g) >=? 3 then Ok (true, g)
              else
                do r <- judge_rshash_direction g ;;
                Ok (bool_decide (r.1 = GO_UP), r.2)) ;;
           let '(turn, g) := r in
           if turn then
             let g := set_hash_strength g (stable_point (rshash_state g)) in
             let g := set_hash_strength_delta g 0 in
             let g := inc_hash_strength g (hash_strength_delta g) in
             let g := inc_hash_strength_delta g in
             let m := set_lookup_window_index (rshash_state g) 0 in
             let g := set_machine g (set_state m RSHASH_TRYUP) in
             Ok (set_hash_strength_delta g 0)
           else
             let g := dec_hash_strength g (hash_strength_delta g) in
             Ok (inc_hash_strength_delta g)
       | RSHASH_TRYUP =>
           do g <- try_window g turn_benefit_up set_turn_up ;;
           do r <-
             (if below_count (rshash_state g) >=? 3 then Ok (true, g)
              else
                do r <- judge_rshash_direction g ;;
                Ok (bool_decide (r.1 = GO_DOWN), r.2)) ;;
           let '(turn, g) := r in
           if turn then
             let m := rshash_state g in
             let g := set_hash_strength g
                        (if turn_benefit_up m >? turn_benefit_down m
                         then turn_point_up m else turn_point_down m) in
             Ok (set_machine g (set_state m RSHASH_PRE_STILL))
           else
             let g := inc_hash_strength g (hash_strength_delta g) in
             Ok (inc_hash_strength_delta g)
       | RSHASH_NEW | RSHASH_PRE_STILL =>
           do benefit <- get_current_benefit g ;;
           let m := set_stable_benefit (rshash_state g) benefit in
           let g := set_machine g (set_state m RSHASH_STILL) in
           Ok (set_hash_strength_delta g 0)
       end) ;;
    let g := set_pos_neg g 0 0 in
    Ok (g, if hash_strength g =? prev_hash_strength then None
           else Some prev_hash_strength).

(** The globals when the module is loaded: the initialisers of the
    statics (zero where there is none; [GO_UP] is the enumerator 0) and the
    three fields that [init_random_sampling] writes. *)
Definition initial : globals :=
  {| hash_strength := Z.shiftr HASH_STRENGTH_FULL 4;
     hash_strength_delta := 0;
     rshash_pos := 0;
     rshash_neg := 0;
     ksm_pages_scanned := 0;
     ksm_pages_scanned_last := 0;
     ksm_scan_round := 1;
     rshash_neg_cont_zero := 0;
     rshash_cont_obscure := 0;
     rshash_state :=
       {| state := RSHASH_NEW;
          pre_direct := GO_UP;
          below_count := 0;
          lookup_window_index := 0;
          stable_benefit := 0;
          turn_point_down := 0;
          turn_benefit_down := 0;
          turn_point_up := 0;
          turn_benefit_up := 0;
          stable_point := 0 |} |}.

(** The end of [round_update_ladder]: [rshash_adjust()], then
    [ksm_pages_scanned_last = ksm_pages_scanned]. *)
Definition round_end_adjust (g : globals) : result (globals * option Z) :=
  do r <- rshash_adjust g ;;
  Ok (set_pages_scanned_last r.1 (ksm_pages_scanned r.1), r.2).

(** The life of these globals: the scan writes its counters, and the end
    of a round adjusts the strength. *)
Inductive tuning_step : globals -> globals -> Prop :=
| step_scan g pos neg scanned round :
    tuning_step g (set_scan_counters g pos neg scanned round)
| step_round_end g g' r :
    round_end_adjust g = Ok (g', r) -> tuning_step g g'.

(** *** Vocabulary of the statements about the tuning *)

(** Pages were scanned since the last adjustment: the two counters are
    64-bit values that differ. *)
Definition scanned_since (g : globals) : Prop :=
  0 <= ksm_pages_scanned g < 2 ^ 64 /\
  0 <= ksm_pages_scanned_last g < 2 ^ 64 /\
  ksm_pages_scanned g <> ksm_pages_scanned_last g.

(** The three strengths that the machine returns to. *)
Definition points_ok (m : machine) : Prop :=
  1 <= stable_point m <= HASH_STRENGTH_MAX /\
  1 <= turn_point_up m <= HASH_STRENGTH_MAX /\
  1 <= turn_point_down m <= HASH_STRENGTH_MAX.

Definition trying (m : machine) : Prop :=
  state m = RSHASH_TRYDOWN \/ state m = RSHASH_TRYUP.

(** The strength is a strength, the step is at most
    [HASH_STRENGTH_DELTA_MAX], and a machine that is trying has points to
    return to. *)
Definition strength_ok (g : globals) : Prop :=
  1 <= hash_strength g <= HASH_STRENGTH_MAX /\
  0 <= hash_strength_delta g <= HASH_STRENGTH_DELTA_MAX /\
  (trying (rshash_state g) -> points_ok (rshash_state g)).

End WithPage.

(** *** Sample values *)

(** A machine of 4096-byte pages that has scanned 100 pages. *)
Definition sample : globals :=
  set_scan_counters (initial 1024) 5000 40 100 1.

(** The same in [RSHASH_STILL], after two adjustments that saw no
    negative cost. *)
Definition sample_still : globals :=
  set_neg_cont_zero
    (set_machine sample (set_state (rshash_state sample) RSHASH_STILL)) 2.

(** The globals that an adjustment leaves. *)
Definition from_adjust (g : globals) : globals :=
  match rshash_adjust 1024 g with
  | Ok r => r.1
  | _ => g
  end.

(** The sample after the end of its round. *)
Definition sample_next : globals :=
  match round_end_adjust 1024 sample with
  | Ok r => r.1
  | _ => sample
  end.

End Rshash.

(** ** The table of sampled positions *)

Module Sampling.

Section WithPage.

(** [HASH_STRENGTH_FULL], the number of [u32] that [kmalloc(PAGE_SIZE)]
    gives to [random_nums]. *)
Variable HASH_STRENGTH_FULL : Z.

(** [random32()]: the value drawn in the iteration [i] of the second
    loop. *)
Variable random32 : Z -> Z.

(** [random_nums[i]] read and written, inside the allocation or not. *)
Definition nums_read (nums : list Z) (i : Z) : result Z :=
  if (0 <=? i) && (i <? HASH_STRENGTH_FULL) then
    match nums !! Z.to_nat i with
    | Some v => Ok v
    | None => OutOfBounds
    end
  else OutOfBounds.

Definition nums_write (nums : list Z) (i v : Z) : result (list Z) :=
  if (0 <=? i) && (i <? HASH_STRENGTH_FULL)
     && (i <? Z.of_nat (length nums)) then
    Ok (<[Z.to_nat i := u32 v]> nums)
  else OutOfBounds.

(** [random_nums[i] = i]. *)
Definition fill_step (acc : result (list Z)) (i : Z) : result (list Z) :=
  do nums <- acc ;;
  nums_write nums i i.

(** The body of the second loop. *)
Definition swap_step (acc : result (list Z)) (i : Z) : result (list Z) :=
  do nums <- acc ;;
  let rand_range := u64 (HASH_STRENGTH_FULL - i) in
  do swap_index <-
    (if rand_range =? 0 then DivByZero
     else Ok (u32 (random32 i) mod rand_range)) ;;
  do tmp <- nums_read nums i ;;
  do v <- nums_read nums swap_index ;;
  do nums <- nums_write nums i v ;;
  nums_write nums swap_index tmp.

(** [init_random_sampling], up to the call of
    [cal_positive_negative_costs] that gives its answer: [mem] is what
    [kmalloc] returns, nothing or a page with whatever it holds; the answer
    [None] is [-ENOMEM]. *)
Definition init_random_sampling (mem : option (list Z)) (m : Rshash.machine)
  : result (option (list Z * Rshash.machine)) :=
  match mem with
  | None => Ok None
  | Some page =>
      do nums <- foldl fill_step (Ok page) (seqZ 0 HASH_STRENGTH_FULL) ;;
      do nums <- foldl swap_step (Ok nums) (seqZ 0 HASH_STRENGTH_FULL) ;;
      let m := Rshash.set_state m Rshash.RSHASH_NEW in
      let m := Rshash.set_below_count m 0 in
      let m := Rshash.set_lookup_window_index m 0 in
      Ok (Some (nums, m))
  end.

End WithPage.

(** The table as [Hash] reads it. *)
Definition as_table (nums : list Z) : Z -> Z :=
  fun i => default 0 (nums !! Z.to_nat i).

End Sampling.

(** ** The pool of rmap list entries *)

Module RmapList.

(** [#define IS_ADDR_FLAG 1] and the helpers of an entry that holds an
    address, on [unsigned long]. *)
Definition IS_ADDR_FLAG : Z := 1.

Definition is_addr (ptr : Z) : Z := Z.land ptr IS_ADDR_FLAG.

Definition set_is_addr (ptr : Z) : Z := Z.lor ptr IS_ADDR_FLAG.

Definition get_clean_addr (ptr : Z) : Z :=
  Z.land ptr (u64 (Z.lnot IS_ADDR_FLAG)).

(** The size of a pointer to a [struct rmap_list_entry], where
    [unsigned long] has 64 bits. *)
Definition entry_size : Z := 8.

Section WithPageSize.

Variable PAGE_SHIFT : Z.

Local Abbreviation PAGE_SIZE := (Engine.PAGE_SIZE PAGE_SHIFT).
Local Abbreviation PAGE_MASK := (Engine.PAGE_MASK PAGE_SHIFT).

(** [get_rmap_addr]. *)
Definition get_rmap_addr (x : Engine.rmap_item) : Z :=
  Z.land (Engine.address x) PAGE_MASK.

(** [offset_in_page]. *)
Definition offset_in_page (p : Z) : Z := Z.land p (u64 (Z.lnot PAGE_MASK)).

(** [get_pool_index]; [pool_size] is [slot->pool_size]. *)
Definition get_pool_index (pool_size index : Z) : result Z :=
  let pool_index := Z.shiftr (u64 (entry_size * index)) PAGE_SHIFT in
  if pool_index >=? pool_size then Bug else Ok pool_index.

(** [index_page_offset]. *)
Definition index_page_offset (index : Z) : Z :=
  offset_in_page (u64 (entry_size * index)).

(** [pool_entry_boundary]. *)
Definition pool_entry_boundary (index : Z) : bool :=
  let linear_addr := u64 (entry_size * index) in
  negb (index =? 0) && (offset_in_page linear_addr =? 0).

End WithPageSize.

End RmapList.

(** ** More concrete states *)

Module Twins.
Import Examples.

(** [engine0] with the words of frame 7 in frame 8 as well. *)
Definition engine_twins : Engine.state :=
  Engine.set_pages engine0
    (<[8%nat := Engine.mkPage frame_a (Engine.MapAnon 2) 1]>
       (Engine.pages engine0)).

(** Items 6 and 4 hang under the stable node of [engine_pub]. *)
Definition engine_two : Engine.state :=
  from_ok engine_pub
    (do st <- Engine.stable_tree_append true engine_pub 6 0 ;;
     Engine.stable_tree_append true st 4 0).

(** The state that a run leaves, or the state it started from. *)
Definition after {A : Type} (st : Engine.state)
    (r : result (A * Engine.state)) : Engine.state :=
  match r with
  | Ok (_, st') => st'
  | _ => st
  end.

End Twins.


(** * Part II: properties *)

(** ** Machine integers *)

Lemma u32_range z : 0 <= u32 z < 2 ^ 32.
Proof. unfold u32. apply Z.mod_pos_bound. lia. Qed.

Lemma u64_range z : 0 <= u64 z < 2 ^ 64.
Proof. unfold u64. apply Z.mod_pos_bound. lia. Qed.

Lemma u32_small z : 0 <= z < 2 ^ 32 -> u32 z = z.
Proof. intros H. unfold u32. apply Z.mod_small. exact H. Qed.

Lemma u64_small z : 0 <= z < 2 ^ 64 -> u64 z = z.
Proof. intros H. unfold u64. apply Z.mod_small. exact H. Qed.

Lemma lxor_u32_range a b :
  0 <= a < 2 ^ 32 -> 0 <= b < 2 ^ 32 -> 0 <= Z.lxor a b < 2 ^ 32.
Proof.
  intros Ha Hb.
  assert (Hn : 0 <= Z.lxor a b) by (apply Z.lxor_nonneg; lia).
  split; [exact Hn|].
  destruct (Z.eq_dec (Z.lxor a b) 0) as [->|Hz]; [lia|].
  apply Z.log2_lt_pow2; [lia|].
  pose proof (Z.log2_lxor a b ltac:(lia) ltac:(lia)) as Hl.
  assert (La : a = 0 \/ Z.log2 a < 32).
  { destruct (Z.eq_dec a 0); [left; assumption|right; apply Z.log2_lt_pow2; lia]. }
  assert (Lb : b = 0 \/ Z.log2 b < 32).
  { destruct (Z.eq_dec b 0); [left; assumption|right; apply Z.log2_lt_pow2; lia]. }
  destruct La as [->|La], Lb as [->|Lb]; cbn in Hl; lia.
Qed.

Lemma shiftr_u32_range a n :
  0 <= n -> 0 <= a < 2 ^ 32 -> 0 <= Z.shiftr a n < 2 ^ 32.
Proof.
  intros Hn Ha. rewrite Z.shiftr_div_pow2 by exact Hn.
  assert (0 < 2 ^ n) by (apply Z.pow_pos_nonneg; lia).
  split; [apply Z.div_pos; lia|].
  apply Z.le_lt_trans with a; [|lia].
  apply Z.div_le_upper_bound; nia.
Qed.

(** The xor-shift of the mixing step is undone by two xor-shifts. *)
Lemma unxorshift b :
  0 <= b < 2 ^ 32 ->
  let c := Z.lxor b (Z.shiftr b 12) in
  let x := Z.lxor c (Z.shiftr c 12) in
  Z.lxor x (Z.shiftr x 24) = b.
Proof.
  intros Hb c x. subst x c.
  rewrite !Z.shiftr_lxor, !Z.shiftr_shiftr by lia.
  change (12 + 12) with 24. change (12 + 24) with 36.
  change (24 + 24) with 48.
  assert (H48 : Z.shiftr b 48 = 0).
  { rewrite Z.shiftr_div_pow2 by lia. apply Z.div_small. lia. }
  assert (H36 : Z.shiftr b 36 = 0).
  { rewrite Z.shiftr_div_pow2 by lia. apply Z.div_small. lia. }
  rewrite H48, H36, !Z.lxor_0_r.
  generalize (Z.shiftr b 12) (Z.shiftr b 24). intros s t.
  apply Z.bits_inj'. intros n _. rewrite !Z.lxor_spec.
  destruct (Z.testbit b n), (Z.testbit s n), (Z.testbit t n); reflexivity.
Qed.

(** Multiplying by [1 + 2^8] is undone by [(1 - 2^8) * (1 + 2^16)]. *)
Lemma unmulshift a :
  0 <= a < 2 ^ 32 ->
  let b := u32 (a + u32 (Z.shiftl a 8)) in
  let x := u32 (b - u32 (Z.shiftl b 8)) in
  u32 (x + u32 (Z.shiftl x 16)) = a.
Proof.
  intros Ha b x. subst x b. unfold u32.
  rewrite !Z.shiftl_mul_pow2 by lia.
  rewrite Zplus_mod_idemp_r.
  rewrite Zminus_mod_idemp_r.
  rewrite Zplus_mod_idemp_r.
  set (b := (a + a * 2 ^ 8) mod 2 ^ 32).
  set (x := (b - b * 2 ^ 8) mod 2 ^ 32).
  replace (x + x * 2 ^ 16) with (x * 65537) by lia.
  subst x. rewrite Zmult_mod_idemp_l.
  replace ((b - b * 2 ^ 8) * 65537) with (b * (-16711935)) by lia.
  subst b. rewrite Zmult_mod_idemp_l.
  replace ((a + a * 2 ^ 8) * -16711935) with (a + (- a) * 2 ^ 32) by lia.
  rewrite Z.mod_add by lia. apply Z.mod_small. exact Ha.
Qed.

Module HashFacts.
Import Hash.

Section WithPage.

Variable HASH_STRENGTH_FULL : Z.
Variable random_nums : Z -> Z.
Variable key : Z -> Z.

Local Abbreviation hash_up := (hash_up random_nums key).
Local Abbreviation hash_down := (hash_down random_nums key).
Local Abbreviation up_loop := (up_loop random_nums key).
Local Abbreviation down_loop := (down_loop random_nums key).
Local Abbreviation HASH_FROM_TO := (HASH_FROM_TO random_nums key).
Local Abbreviation HASH_FROM_DOWN_TO := (HASH_FROM_DOWN_TO random_nums key).
Local Abbreviation random_sample_hash :=
  (random_sample_hash HASH_STRENGTH_FULL random_nums key).
Local Abbreviation delta_hash := (delta_hash HASH_STRENGTH_FULL random_nums key).
Local Abbreviation HASH_STRENGTH_MAX := (HASH_STRENGTH_MAX HASH_STRENGTH_FULL).

Lemma hash_up_range index h : 0 <= hash_up index h < 2 ^ 32.
Proof.
  unfold Hash.hash_up. cbv zeta.
  apply lxor_u32_range; [apply u32_range|].
  apply shiftr_u32_range; [unfold shiftr; lia|apply u32_range].
Qed.

Lemma hash_down_up index h :
  0 <= h < 2 ^ 32 -> hash_down index (hash_up index h) = h.
Proof.
  intros Hh. unfold Hash.hash_down, Hash.hash_up, shiftl, shiftr. cbv zeta.
  change (12 * 2) with 24. change (8 * 2) with 16.
  set (a := u32 (h + key (random_nums index))).
  assert (Ha : 0 <= a < 2 ^ 32) by apply u32_range.
  set (b := u32 (a + u32 (Z.shiftl a 8))).
  assert (Hb : 0 <= b < 2 ^ 32) by apply u32_range.
  rewrite (unxorshift b Hb).
  subst b. rewrite (unmulshift a Ha).
  subst a. unfold u32. rewrite Zminus_mod_idemp_l.
  replace (h + key (random_nums index) - key (random_nums index)) with h by lia.
  apply Z.mod_small. exact Hh.
Qed.

Lemma up_loop_range n : forall index h,
  0 <= h < 2 ^ 32 -> 0 <= up_loop n index h < 2 ^ 32.
Proof.
  induction n as [|n IH]; intros index h Hh; cbn; [exact Hh|].
  apply IH. apply hash_up_range.
Qed.

Lemma up_loop_app n m : forall index h,
  up_loop (n + m) index h = up_loop m (index + Z.of_nat n) (up_loop n index h).
Proof.
  induction n as [|n IH]; intros index h; cbn [Nat.add Hash.up_loop].
  - rewrite Z.add_0_r. reflexivity.
  - rewrite IH. f_equal. lia.
Qed.

Lemma down_loop_app n m : forall index h,
  down_loop (n + m) index h
  = down_loop m (index - Z.of_nat n) (down_loop n index h).
Proof.
  induction n as [|n IH]; intros index h; cbn [Nat.add Hash.down_loop].
  - rewrite Z.sub_0_r. reflexivity.
  - rewrite IH. f_equal. lia.
Qed.

(** Walking down over the positions just walked up gives the hash back. *)
Lemma up_loop_S n index h :
  up_loop (S n) index h = up_loop n (index + 1) (hash_up index h).
Proof. reflexivity. Qed.

Lemma down_loop_S n index h :
  down_loop (S n) index h = down_loop n (index - 1) (hash_down index h).
Proof. reflexivity. Qed.

Lemma up_loop_snoc n index h :
  up_loop (S n) index h = hash_up (index + Z.of_nat n) (up_loop n index h).
Proof.
  replace (S n) with (n + 1)%nat by lia. rewrite up_loop_app.
  rewrite up_loop_S. reflexivity.
Qed.

Lemma down_up_loop n : forall index h,
  0 <= h < 2 ^ 32 ->
  down_loop n (index + Z.of_nat n - 1) (up_loop n index h) = h.
Proof.
  induction n as [|n IH]; intros index h Hh; [reflexivity|].
  rewrite up_loop_snoc, down_loop_S.
  replace (index + Z.of_nat (S n) - 1) with (index + Z.of_nat n) by lia.
  rewrite hash_down_up by (apply up_loop_range; exact Hh).
  apply IH. exact Hh.
Qed.

Lemma HASH_FROM_TO_range from to h :
  0 <= h < 2 ^ 32 -> 0 <= HASH_FROM_TO from to h < 2 ^ 32.
Proof. apply up_loop_range. Qed.

Lemma HASH_FROM_TO_split a b c h :
  a <= b <= c ->
  HASH_FROM_TO a c h = HASH_FROM_TO b c (HASH_FROM_TO a b h).
Proof.
  intros H. unfold Hash.HASH_FROM_TO.
  replace (Z.to_nat (c - a)) with (Z.to_nat (b - a) + Z.to_nat (c - b))%nat
    by lia.
  rewrite up_loop_app. f_equal. lia.
Qed.

Lemma HASH_FROM_DOWN_TO_split a b c h :
  a <= b <= c ->
  HASH_FROM_DOWN_TO c a h = HASH_FROM_DOWN_TO b a (HASH_FROM_DOWN_TO c b h).
Proof.
  intros H. unfold Hash.HASH_FROM_DOWN_TO.
  replace (Z.to_nat (c - a)) with (Z.to_nat (c - b) + Z.to_nat (b - a))%nat
    by lia.
  rewrite down_loop_app. f_equal. lia.
Qed.

Lemma HASH_FROM_DOWN_TO_undo a b h :
  a <= b -> 0 <= h < 2 ^ 32 ->
  HASH_FROM_DOWN_TO b a (HASH_FROM_TO a b h) = h.
Proof.
  intros H Hh. unfold Hash.HASH_FROM_DOWN_TO, Hash.HASH_FROM_TO.
  replace (b - 1) with (a + Z.of_nat (Z.to_nat (b - a)) - 1) by lia.
  apply down_up_loop. exact Hh.
Qed.

Lemma HASH_FROM_TO_nil a b h : b <= a -> HASH_FROM_TO a b h = h.
Proof.
  intros H. unfold Hash.HASH_FROM_TO.
  replace (Z.to_nat (b - a)) with 0%nat by lia. reflexivity.
Qed.

(** The sampled hash below and above the loop-back point. *)
Lemma random_sample_hash_low s :
  s <= HASH_STRENGTH_FULL ->
  random_sample_hash s = HASH_FROM_TO 0 s 3735928559.
Proof.
  intros H. unfold Hash.random_sample_hash. cbv zeta.
  destruct (Z.gtb_spec s HASH_STRENGTH_FULL); [lia|reflexivity].
Qed.

Lemma random_sample_hash_high s :
  HASH_STRENGTH_FULL <= s ->
  random_sample_hash s
  = HASH_FROM_TO 0 (s - HASH_STRENGTH_FULL)
      (HASH_FROM_TO 0 HASH_STRENGTH_FULL 3735928559).
Proof.
  intros H. unfold Hash.random_sample_hash. cbv zeta.
  destruct (Z.gtb_spec s HASH_STRENGTH_FULL) as [Hgt|Hle]; [reflexivity|].
  assert (s = HASH_STRENGTH_FULL) as -> by lia.
  rewrite Z.sub_diag. rewrite (HASH_FROM_TO_nil 0 0) by lia. reflexivity.
Qed.

Lemma random_sample_hash_range s : 0 <= random_sample_hash s < 2 ^ 32.
Proof.
  unfold Hash.random_sample_hash. cbv zeta.
  destruct (_ >? _); repeat apply HASH_FROM_TO_range; lia.
Qed.

(** C1. For every page [key], every table [random_nums] and all strengths
    [from] and [to] in [[1, HASH_STRENGTH_MAX]], [delta_hash] applied to the
    hash of the page at strength [from] returns exactly the hash of the page
    at strength [to]: extending and reversing, below, above and across
    [HASH_STRENGTH_FULL]. *)
Theorem delta_hash_exact (from to : Z) :
  1 <= from <= HASH_STRENGTH_MAX ->
  1 <= to <= HASH_STRENGTH_MAX ->
  delta_hash from to (random_sample_hash from) = random_sample_hash to.
Proof.
  intros Hf Ht. unfold Hash.delta_hash, Hash.HASH_STRENGTH_MAX in *. cbv zeta.
  set (h0 := HASH_FROM_TO 0 HASH_STRENGTH_FULL 3735928559).
  assert (Hh0 : 0 <= h0 < 2 ^ 32) by (apply HASH_FROM_TO_range; lia).
  destruct (Z.gtb_spec to from) as [Hup|Hdown].
  - destruct (Z.geb_spec from HASH_STRENGTH_FULL) as [Hff|Hff].
    + (* extending inside the loop-back region *)
      rewrite (random_sample_hash_high from), (random_sample_hash_high to)
        by lia.
      fold h0. symmetry. apply HASH_FROM_TO_split. lia.
    + destruct (Z.leb_spec to HASH_STRENGTH_FULL) as [Htf|Htf].
      * (* extending below the full strength *)
        rewrite (random_sample_hash_low from), (random_sample_hash_low to)
          by lia.
        symmetry. apply HASH_FROM_TO_split. lia.
      * (* extending across the full strength *)
        rewrite (random_sample_hash_low from), (random_sample_hash_high to)
          by lia.
        rewrite (HASH_FROM_TO_split 0 from HASH_STRENGTH_FULL) by lia.
        reflexivity.
  - destruct (Z.leb_spec from HASH_STRENGTH_FULL) as [Hff|Hff].
    + (* reversing below the full strength *)
      rewrite (random_sample_hash_low from), (random_sample_hash_low to)
        by lia.
      rewrite (HASH_FROM_TO_split 0 to from) by lia.
      apply HASH_FROM_DOWN_TO_undo; [lia|apply HASH_FROM_TO_range; lia].
    + destruct (Z.geb_spec to HASH_STRENGTH_FULL) as [Htf|Htf].
      * (* reversing inside the loop-back region *)
        rewrite (random_sample_hash_high from), (random_sample_hash_high to)
          by lia.
        fold h0.
        rewrite (HASH_FROM_TO_split 0 (to - HASH_STRENGTH_FULL)
                   (from - HASH_STRENGTH_FULL)) by lia.
        apply HASH_FROM_DOWN_TO_undo; [lia|apply HASH_FROM_TO_range; lia].
      * (* reversing across the full strength *)
        rewrite (random_sample_hash_high from), (random_sample_hash_low to)
          by lia.
        fold h0.
        rewrite HASH_FROM_DOWN_TO_undo by lia.
        unfold h0. rewrite (HASH_FROM_TO_split 0 to HASH_STRENGTH_FULL) by lia.
        apply HASH_FROM_DOWN_TO_undo; [lia|apply HASH_FROM_TO_range; lia].
Qed.

End WithPage.

(** The delta-rehash scenario: a 4 KiB page hashed at strength 4 and
    re-hashed to strength 16. *)
Lemma delta_hash_exact_witness :
  delta_hash 1024 (fun i => (i * 37 + 5) mod 1024) (fun p => u32 (p * 2654435761))
    4 16
    (random_sample_hash 1024 (fun i => (i * 37 + 5) mod 1024)
       (fun p => u32 (p * 2654435761)) 4)
  = random_sample_hash 1024 (fun i => (i * 37 + 5) mod 1024)
      (fun p => u32 (p * 2654435761)) 16.
Proof.
  apply (delta_hash_exact 1024 (fun i => (i * 37 + 5) mod 1024)
           (fun p => u32 (p * 2654435761)) 4 16);
    unfold HASH_STRENGTH_MAX; lia.
Defined.

End HashFacts.

Lemma bind_Ok {A B : Type} (r : result A) (f : A -> result B) (b : B) :
  bind r f = Ok b -> exists a, r = Ok a /\ f a = Ok b.
Proof. destruct r as [a| | |]; cbn; intros H; try discriminate. eauto. Qed.

Lemma bind_DivByZero {A B : Type} (r : result A) (f : A -> result B) :
  bind r f = DivByZero ->
  r = DivByZero \/ exists a, r = Ok a /\ f a = DivByZero.
Proof. destruct r as [a| | |]; cbn; intros H; try discriminate; eauto. Qed.

Lemma BUG_ON_not_DivByZero c : BUG_ON c <> DivByZero.
Proof. destruct c; discriminate. Qed.

(** *** Loops over [result]

    A loop body of the form [do st <- acc ;; ...] passes an error on, so a
    loop that ends in [Ok] went through [Ok] states only. *)

Definition passes_errors {S X : Type} (step : result S -> X -> result S) : Prop :=
  forall x r, (forall s, r <> Ok s) -> forall s, step r x <> Ok s.

Lemma foldl_error {S X : Type} (step : result S -> X -> result S) :
  passes_errors step ->
  forall xs r, (forall s, r <> Ok s) -> forall s, foldl step r xs <> Ok s.
Proof.
  intros Hp xs. induction xs as [|x xs IH]; intros r Hr s; cbn [foldl].
  - apply Hr.
  - apply IH. apply Hp. exact Hr.
Qed.

Lemma foldl_result_inv {S X : Type} (step : result S -> X -> result S)
    (I : list X -> S -> Prop) :
  passes_errors step ->
  (forall x xs s s', I (x :: xs) s -> step (Ok s) x = Ok s' -> I xs s') ->
  forall xs s s', I xs s -> foldl step (Ok s) xs = Ok s' -> I [] s'.
Proof.
  intros Hp Hstep xs. induction xs as [|x xs IH]; intros s s' Hi H.
  - cbn in H. injection H as <-. exact Hi.
  - cbn [foldl] in H. destruct (step (Ok s) x) as [s1| | |] eqn:E.
    + apply (IH s1 s'); [|exact H]. apply (Hstep x xs s s1); assumption.
    + exfalso. apply (foldl_error step Hp xs Bug) in H; [exact H|discriminate].
    + exfalso. apply (foldl_error step Hp xs OutOfBounds) in H;
        [exact H|discriminate].
    + exfalso. apply (foldl_error step Hp xs DivByZero) in H;
        [exact H|discriminate].
Qed.

(** A property kept by every iteration holds after the loop. *)
Lemma foldl_result_keeps {S X : Type} (step : result S -> X -> result S)
    (P : S -> Prop) (xs : list X) :
  passes_errors step ->
  (forall x s s', x ∈ xs -> P s -> step (Ok s) x = Ok s' -> P s') ->
  forall s s', P s -> foldl step (Ok s) xs = Ok s' -> P s'.
Proof.
  intros Hp Hstep s s' Hs H.
  pose (I := fun (rest : list X) (s : S) =>
               P s /\ forall x, x ∈ rest -> x ∈ xs).
  assert (HI : I [] s'); [|exact (proj1 HI)].
  apply (foldl_result_inv step I Hp) with (xs := xs) (s := s); [| |exact H].
  - intros x rest s1 s2 [H1 Hin] E. split.
    + apply (Hstep x s1 s2); [apply Hin; left|exact H1|exact E].
    + intros y Hy. apply Hin. right. exact Hy.
  - split; [exact Hs|]. intros x Hx. exact Hx.
Qed.

(** A [for (i = lo; i < lo + n; i++)] loop with an invariant on [i]. *)
Lemma foldl_seqZ_inv {S : Type} (step : result S -> Z -> result S)
    (P : Z -> S -> Prop) (lo n : Z) :
  passes_errors step ->
  (forall k s s', lo <= k < lo + n -> P k s -> step (Ok s) k = Ok s' ->
                  P (k + 1) s') ->
  forall s s', 0 <= n -> P lo s ->
    foldl step (Ok s) (seqZ lo n) = Ok s' -> P (lo + n) s'.
Proof.
  intros Hp Hstep s s' Hn Hs H.
  pose (I := fun (rest : list Z) (s : S) =>
               exists k, lo <= k <= lo + n /\ rest = seqZ k (lo + n - k) /\ P k s).
  assert (HI : I [] s').
  { apply (foldl_result_inv step I Hp) with (xs := seqZ lo n) (s := s);
      [| |exact H].
    - intros x rest s1 s2 (k & Hk & Hrest & Hk1) E.
      destruct (Z.eq_dec k (lo + n)) as [->|Hne].
      { rewrite Z.sub_diag in Hrest. discriminate. }
      rewrite seqZ_cons in Hrest by lia. injection Hrest as -> ->.
      exists (k + 1). split; [lia|]. split.
      + f_equal; lia.
      + apply (Hstep k s1 s2); [lia|exact Hk1|exact E].
    - exists lo. split; [lia|]. split; [f_equal; lia|exact Hs]. }
  destruct HI as (k & Hk & Hrest & Hk1).
  destruct (Z.eq_dec k (lo + n)) as [->|Hne]; [exact Hk1|].
  rewrite seqZ_cons in Hrest by lia. discriminate.
Qed.

Lemma bind_passes_errors {S X : Type} (body : S -> X -> result S) :
  passes_errors (fun acc x => do st <- acc ;; body st x).
Proof.
  intros x r Hr s. destruct r as [a| | |]; cbn; try discriminate.
  exfalso. apply (Hr a). reflexivity.
Qed.

(** ** The inter-vma table stays inside its allocations *)

Module InterTabFacts.
Import InterTab.

(** What [enter_inter_vma_table], [round_update_ladder] and
    [ksm_del_vma_slot] keep true of the area table: entries at and above
    [ksm_vma_table_index_end] are empty, and an area's [ksm_index] names the
    entry that holds it. *)
Record wf (st : state) : Prop := mkWf {
  wf_len : length (ksm_vma_table st) = 2048%nat;
  wf_end : 0 <= ksm_vma_table_index_end st <= 2047;
  wf_tab : forall (n : nat) (s : nat),
      ksm_vma_table st !! n = Some (Some s) ->
      Z.of_nat n < ksm_vma_table_index_end st /\
      slot_ksm_index st s = Z.of_nat n;
  wf_idx : forall s : nat,
      slot_ksm_index st s <> -1 ->
      exists n : nat, slot_ksm_index st s = Z.of_nat n /\
                      ksm_vma_table st !! n = Some (Some s);
}.

(** A run is safe when it stays inside the allocations: it ends in a state
    that is well formed again, or in [BUG()]. *)
Definition safe (r : result state) : Prop :=
  match r with
  | Ok st => wf st
  | Bug => True
  | OutOfBounds | DivByZero => False
  end.

Lemma init_wf : wf init.
Proof.
  split; cbn.
  - rewrite length_replicate. reflexivity.
  - lia.
  - intros n s H. apply lookup_replicate in H as [H _]. discriminate.
  - intros s H. unfold slot_ksm_index in H. cbn in H.
    rewrite lookup_empty in H. cbn in H. congruence.
Qed.

Lemma vma_table_read_ok st i :
  length (ksm_vma_table st) = 2048%nat -> 0 <= i < 2048 ->
  exists e, vma_table_read st i = Ok e /\
            ksm_vma_table st !! Z.to_nat i = Some e.
Proof.
  intros Hl Hi. unfold vma_table_read, ksm_vma_table_size.
  destruct (Z.leb_spec 0 i); [|lia]. destruct (Z.ltb_spec i 2048); [|lia].
  cbn. destruct (ksm_vma_table st !! Z.to_nat i) as [e|] eqn:E.
  - exists e. split; reflexivity.
  - apply lookup_ge_None in E. lia.
Qed.

Lemma wf_above_end st i :
  wf st -> ksm_vma_table_index_end st <= i < 2048 ->
  ksm_vma_table st !! Z.to_nat i = Some None.
Proof.
  intros W Hi.
  destruct (ksm_vma_table st !! Z.to_nat i) as [[s|]|] eqn:E.
  - apply (wf_tab _ W) in E as [E _]. lia.
  - reflexivity.
  - apply lookup_ge_None in E. pose proof (wf_len _ W). pose proof (wf_end _ W). lia.
Qed.

(** The search stops at an empty entry no later than
    [ksm_vma_table_index_end], which is inside the table. *)
Lemma find_free_spec st : wf st -> forall fuel i,
  0 <= i <= ksm_vma_table_index_end st ->
  ksm_vma_table_index_end st < i + Z.of_nat fuel ->
  exists j, find_free fuel st i = Ok j /\
            i <= j <= ksm_vma_table_index_end st /\
            ksm_vma_table st !! Z.to_nat j = Some None.
Proof.
  intros W. pose proof (wf_end _ W) as He. pose proof (wf_len _ W) as Hl.
  induction fuel as [|fuel IH]; intros i Hi Hf; [lia|].
  cbn [find_free].
  destruct (vma_table_read_ok st i Hl ltac:(lia)) as (e & -> & E). cbn.
  destruct e as [s|].
  - assert (i <> ksm_vma_table_index_end st).
    { intros ->. rewrite (wf_above_end st _ W) in E by lia. discriminate. }
    destruct (IH (i + 1) ltac:(lia) ltac:(lia)) as (j & Hj & Hr & Hn).
    exists j. repeat split; try assumption; lia.
  - exists i. repeat split; try assumption; lia.
Qed.

Lemma slot_ksm_index_set st slot i s :
  slot_ksm_index (set_ksm_index st slot i) s
  = if decide (slot = s) then i else slot_ksm_index st s.
Proof.
  unfold slot_ksm_index, set_ksm_index. cbn.
  destruct (decide (slot = s)) as [->|Hne].
  - rewrite lookup_insert_eq. reflexivity.
  - rewrite lookup_insert_ne by exact Hne. reflexivity.
Qed.

(** The state [enter_inter_vma_table] leaves when it passes its checks. *)
Definition entered (st : state) (slot : nat) (i : Z) : state :=
  {| ksm_vma_table := <[Z.to_nat i := Some slot]> (ksm_vma_table st);
     ksm_vma_table_num := u64 (ksm_vma_table_num st + 1);
     ksm_vma_table_index_end :=
       if i =? ksm_vma_table_index_end st
       then ksm_vma_table_index_end st + 1
       else ksm_vma_table_index_end st;
     ksm_inter_vma_table := ksm_inter_vma_table st;
     ksm_index := <[slot := i]> (ksm_index st) |}.

Lemma enter_inter_vma_table_eq st slot :
  wf st ->
  exists i, 0 <= i <= ksm_vma_table_index_end st /\
    ksm_vma_table st !! Z.to_nat i = Some None /\
    enter_inter_vma_table st slot
    = if ksm_vma_table_index_end (entered st slot i) >? 2047
      then Bug else Ok (entered st slot i).
Proof.
  intros W. pose proof (wf_end _ W) as He. pose proof (wf_len _ W) as Hl.
  unfold enter_inter_vma_table.
  destruct (find_free_spec st W (Z.to_nat (ksm_vma_table_size + 1)) 0)
    as (i & -> & Hi & Hfree); [lia|unfold ksm_vma_table_size; lia|].
  exists i. split; [lia|]. split; [exact Hfree|].
  cbn [bind].
  destruct (vma_table_read_ok st i Hl ltac:(lia)) as (e & -> & E).
  rewrite Hfree in E. injection E as <-. cbn [bind BUG_ON].
  rewrite bool_decide_eq_false_2 by (intros H; apply H; reflexivity).
  unfold vma_table_write, ksm_vma_table_size. cbn.
  destruct (Z.leb_spec 0 i); [|lia]. destruct (Z.ltb_spec i 2048); [|lia].
  destruct (Z.ltb_spec i (Z.of_nat (length (ksm_vma_table st)))); [|lia].
  cbn.
  destruct (Z.gtb_spec i (ksm_vma_table_index_end st)); [lia|]. cbn.
  unfold entered.
  destruct (i =? ksm_vma_table_index_end st) eqn:Ei; cbn.
  - rewrite (u64_small (ksm_vma_table_index_end st + 1)) by lia.
    change (2048 - 1) with 2047.
    destruct (_ >? 2047); reflexivity.
  - change (2048 - 1) with 2047.
    destruct (_ >? 2047); reflexivity.
Qed.

Lemma entered_wf st slot i :
  wf st -> slot_ksm_index st slot = -1 ->
  0 <= i <= ksm_vma_table_index_end st ->
  ksm_vma_table st !! Z.to_nat i = Some None ->
  ksm_vma_table_index_end (entered st slot i) <= 2047 ->
  wf (entered st slot i).
Proof.
  intros W Hs Hi Hfree Hend.
  pose proof (wf_end _ W) as He. pose proof (wf_len _ W) as Hl.
  assert (Hend' : ksm_vma_table_index_end st
                  <= ksm_vma_table_index_end (entered st slot i)
                  /\ i < ksm_vma_table_index_end (entered st slot i)).
  { cbn. destruct (Z.eqb_spec i (ksm_vma_table_index_end st)); lia. }
  split.
  - cbn. rewrite length_insert. exact Hl.
  - lia.
  - intros n s Hn. cbn [entered ksm_vma_table] in Hn.
    unfold slot_ksm_index. cbn [entered ksm_index].
    destruct (decide (n = Z.to_nat i)) as [->|Hne].
    + rewrite list_lookup_insert_eq in Hn by lia. injection Hn as <-.
      rewrite lookup_insert_eq. split; [lia|cbn; lia].
    + rewrite list_lookup_insert_ne in Hn by congruence.
      destruct (wf_tab _ W n s Hn) as [Hlt Hix].
      rewrite lookup_insert_ne by (intros ->; lia).
      split; [lia|exact Hix].
  - intros s Hn. unfold slot_ksm_index in Hn |- *.
    cbn [entered ksm_index ksm_vma_table] in Hn |- *.
    destruct (decide (s = slot)) as [->|Hne].
    + exists (Z.to_nat i). rewrite lookup_insert_eq. cbn.
      split; [lia|apply list_lookup_insert_eq; lia].
    + rewrite lookup_insert_ne in Hn |- * by congruence.
      destruct (wf_idx _ W s Hn) as (n & Hix & Hn').
      exists n. split; [exact Hix|].
      rewrite list_lookup_insert_ne; [exact Hn'|].
      intros <-. rewrite Hfree in Hn'. discriminate.
Qed.

(** Entering an area that has no index yet. *)
Lemma enter_inter_vma_table_safe st slot :
  wf st -> slot_ksm_index st slot = -1 ->
  match enter_inter_vma_table st slot with
  | Ok st' =>
      wf st' /\ slot_ksm_index st' slot <> -1 /\
      (forall s, s <> slot -> slot_ksm_index st' s = slot_ksm_index st s)
  | Bug => True
  | OutOfBounds | DivByZero => False
  end.
Proof.
  intros W Hs.
  destruct (enter_inter_vma_table_eq st slot W) as (i & Hi & Hfree & ->).
  destruct (Z.gtb_spec (ksm_vma_table_index_end (entered st slot i)) 2047)
    as [Hgt|Hle]; [exact I|].
  split; [apply entered_wf; assumption|]. split.
  - unfold slot_ksm_index. cbn. rewrite lookup_insert_eq. cbn. lia.
  - intros s Hne. unfold slot_ksm_index. cbn.
    rewrite lookup_insert_ne by congruence. reflexivity.
Qed.

Lemma wf_index_range st s :
  wf st -> slot_ksm_index st s <> -1 ->
  0 <= slot_ksm_index st s < ksm_vma_table_index_end st.
Proof.
  intros W H. destruct (wf_idx _ W s H) as (n & Hn & Ht).
  destruct (wf_tab _ W n s Ht) as [Hlt _]. lia.
Qed.

Lemma wf_same_table st st' :
  ksm_vma_table st' = ksm_vma_table st ->
  ksm_vma_table_index_end st' = ksm_vma_table_index_end st ->
  ksm_index st' = ksm_index st ->
  wf st -> wf st'.
Proof.
  intros Ht He Hi W. destruct W as [Wl We Wt Wi].
  split; unfold slot_ksm_index in *; rewrite ?Ht, ?He, ?Hi; assumption.
Qed.

(** The offset of a pair of indices below the last table entry lies inside
    [ksm_inter_vma_table]. *)
Lemma intertab_vma_offset_range i j :
  0 <= i <= 2046 -> 0 <= j <= 2046 ->
  0 <= intertab_vma_offset i j < inter_vma_table_len.
Proof.
  intros Hi Hj. unfold intertab_vma_offset, inter_vma_table_len, KSM_DUP_VMA_MAX.
  change (2048 * 2048 * 4 / 2 / 4) with 2097152.
  assert (Hq : forall a b, 0 <= b <= a -> a <= 2046 ->
                 0 <= Z.quot (a * (a + 1)) 2 + b < 2097152).
  { intros a b Hb Ha. rewrite Z.quot_div_nonneg by nia.
    assert (0 <= a * (a + 1) / 2) by (apply Z.div_pos; nia).
    assert (a * (a + 1) / 2 <= 2094081).
    { apply Z.div_le_upper_bound; nia. }
    lia. }
  destruct (Z.ltb_spec i j); apply Hq; lia.
Qed.

Lemma inter_read_ok st offset :
  0 <= offset < inter_vma_table_len ->
  inter_read st offset = Ok (default 0 (ksm_inter_vma_table st !! offset)).
Proof.
  intros H. unfold inter_read.
  destruct (Z.leb_spec 0 offset); [|lia].
  destruct (Z.ltb_spec offset inter_vma_table_len); [|lia]. reflexivity.
Qed.

Lemma inter_write_ok st offset v :
  0 <= offset < inter_vma_table_len ->
  exists st', inter_write st offset v = Ok st' /\
    ksm_vma_table st' = ksm_vma_table st /\
    ksm_vma_table_index_end st' = ksm_vma_table_index_end st /\
    ksm_index st' = ksm_index st /\
    ksm_inter_vma_table st' = <[offset := v]> (ksm_inter_vma_table st).
Proof.
  intros H. unfold inter_write.
  destruct (Z.leb_spec 0 offset); [|lia].
  destruct (Z.ltb_spec offset inter_vma_table_len); [|lia].
  eexists. split; [reflexivity|]. cbn. repeat split.
Qed.

(** An area gets an index, if it has none. *)
Lemma ensure_entered_safe st slot :
  wf st ->
  match (if slot_ksm_index st slot =? -1
         then enter_inter_vma_table st slot else Ok st) with
  | Ok st' =>
      wf st' /\ slot_ksm_index st' slot <> -1 /\
      (forall s, slot_ksm_index st s <> -1 -> slot_ksm_index st' s <> -1)
  | Bug => True
  | OutOfBounds | DivByZero => False
  end.
Proof.
  intros W. destruct (Z.eqb_spec (slot_ksm_index st slot) (-1)) as [E|E].
  - pose proof (enter_inter_vma_table_safe st slot W E) as H.
    destruct (enter_inter_vma_table st slot) as [st'| | |]; try exact H.
    destruct H as (W' & Hn & Hk). split; [exact W'|]. split; [exact Hn|].
    intros s Hs. rewrite Hk; [exact Hs|]. intros ->. contradiction.
  - split; [exact W|]. split; [exact E|]. intros s Hs; exact Hs.
Qed.

Lemma inc_vma_intertab_pair_safe st slot1 slot2 :
  wf st -> safe (inc_vma_intertab_pair st slot1 slot2).
Proof.
  intros W. unfold inc_vma_intertab_pair.
  pose proof (ensure_entered_safe st slot1 W) as H1.
  destruct (if slot_ksm_index st slot1 =? -1 then _ else _)
    as [st1| | |]; try exact H1.
  destruct H1 as (W1 & Hn1 & _). cbn [bind].
  pose proof (ensure_entered_safe st1 slot2 W1) as H2.
  destruct (if slot_ksm_index st1 slot2 =? -1 then _ else _)
    as [st2| | |]; try exact H2.
  destruct H2 as (W2 & Hn2 & Hk2). cbn [bind].
  apply Hk2 in Hn1.
  pose proof (wf_index_range st2 slot1 W2 Hn1) as R1.
  pose proof (wf_index_range st2 slot2 W2 Hn2) as R2.
  pose proof (wf_end _ W2) as He.
  set (offset := intertab_vma_offset _ _).
  assert (Ho : 0 <= offset < inter_vma_table_len)
    by (apply intertab_vma_offset_range; lia).
  rewrite (inter_read_ok st2 offset Ho). cbn [bind].
  destruct (inter_write_ok st2 offset
              (u32 (default 0 (ksm_inter_vma_table st2 !! offset) + 1)) Ho)
    as (st3 & -> & Ht & Hend & Hidx & _).
  cbn [bind]. rewrite (inter_read_ok st3 offset Ho). cbn [bind].
  destruct (_ =? 0); cbn; [exact I|].
  apply (wf_same_table st2); assumption.
Qed.

Lemma observe_safe pairs : forall r, safe r ->
  safe (foldl (fun r p => do st <- r ;; inc_vma_intertab_pair st p.1 p.2)
              r pairs).
Proof.
  induction pairs as [|p pairs IH]; intros r Hr; [exact Hr|].
  cbn [foldl]. apply IH.
  destruct r as [st| | |]; cbn [bind]; try exact Hr.
  apply inc_vma_intertab_pair_safe. exact Hr.
Qed.

Lemma tracked_le st : (tracked st <= length (ksm_vma_table st))%nat.
Proof. unfold tracked. apply length_filter. Qed.

(** C9. From a well-formed table (as [ksm_init] leaves it, see [init_wf]),
    any run of duplicate observations never reads or writes
    [ksm_vma_table] or [ksm_inter_vma_table] outside its allocation: the
    run ends in [BUG()] or in a well-formed state, where every entry of the
    area table in use has an index below 2048 and at most 2048 areas are
    tracked. *)
Theorem observe_in_bounds (st : state) (pairs : list (nat * nat)) :
  wf st ->
  observe st pairs <> OutOfBounds /\
  forall st', observe st pairs = Ok st' ->
    wf st' /\
    (tracked st' <= Z.to_nat KSM_DUP_VMA_MAX)%nat /\
    (forall (n s : nat), ksm_vma_table st' !! n = Some (Some s) ->
       Z.of_nat n < ksm_vma_table_size).
Proof.
  intros W. pose proof (observe_safe pairs (Ok st) W) as H.
  fold (observe st pairs) in H. split.
  - intros E. rewrite E in H. exact H.
  - intros st' E. rewrite E in H. cbn in H. split; [exact H|]. split.
    + pose proof (tracked_le st'). rewrite (wf_len _ H) in *.
      unfold KSM_DUP_VMA_MAX. lia.
    + intros n s Hn. destruct (wf_tab _ H n s Hn) as [Hlt _].
      pose proof (wf_end _ H). unfold ksm_vma_table_size. lia.
Qed.

(** Three areas observed pairwise after start-up. *)
Lemma observe_in_bounds_witness :
  observe init [(1, 2); (2, 3); (1, 3)]%nat <> OutOfBounds /\
  forall st', observe init [(1, 2); (2, 3); (1, 3)]%nat = Ok st' ->
    wf st' /\
    (tracked st' <= Z.to_nat KSM_DUP_VMA_MAX)%nat /\
    (forall (n s : nat), ksm_vma_table st' !! n = Some (Some s) ->
       Z.of_nat n < ksm_vma_table_size).
Proof. apply (observe_in_bounds init _ init_wf). Defined.

(** *** Counters and tracked areas *)

(** A counter of [ksm_inter_vma_table] is non-zero only for a pair of
    entries of the area table that hold an area. *)
Definition counted (st : state) : Prop :=
  forall offset v,
    ksm_inter_vma_table st !! offset = Some v -> v <> 0 ->
    exists (a b : nat) (sa sb : nat),
      ksm_vma_table st !! a = Some (Some sa) /\
      ksm_vma_table st !! b = Some (Some sb) /\
      offset = intertab_vma_offset (Z.of_nat a) (Z.of_nat b).

Lemma init_counted : counted init.
Proof. intros offset v H. cbn in H. rewrite lookup_empty in H. discriminate. Qed.

Lemma intertab_vma_offset_comm i j :
  intertab_vma_offset i j = intertab_vma_offset j i.
Proof.
  unfold intertab_vma_offset.
  destruct (Z.ltb_spec i j), (Z.ltb_spec j i); try reflexivity; try lia.
  assert (i = j) as -> by lia. reflexivity.
Qed.

Lemma entered_counted st slot i :
  ksm_vma_table st !! Z.to_nat i = Some None ->
  counted st -> counted (entered st slot i).
Proof.
  intros Hfree C offset v Hv Hnz. cbn in Hv.
  destruct (C offset v Hv Hnz) as (a & b & sa & sb & Ha & Hb & ->).
  exists a, b, sa, sb. cbn. repeat split.
  - rewrite list_lookup_insert_ne; [exact Ha|]. intros <-. congruence.
  - rewrite list_lookup_insert_ne; [exact Hb|]. intros <-. congruence.
Qed.

Lemma ensure_entered_counted st slot st' :
  wf st -> counted st ->
  (if slot_ksm_index st slot =? -1
   then enter_inter_vma_table st slot else Ok st) = Ok st' ->
  counted st'.
Proof.
  intros W C. destruct (_ =? -1).
  - destruct (enter_inter_vma_table_eq st slot W) as (i & Hi & Hfree & ->).
    destruct (_ >? 2047); intros H; [discriminate|]. injection H as <-.
    apply entered_counted; assumption.
  - intros H. injection H as <-. exact C.
Qed.

Lemma counted_write st st' offset v (a b sa sb : nat) :
  counted st ->
  ksm_vma_table st' = ksm_vma_table st ->
  ksm_inter_vma_table st' = <[offset := v]> (ksm_inter_vma_table st) ->
  ksm_vma_table st !! a = Some (Some sa) ->
  ksm_vma_table st !! b = Some (Some sb) ->
  offset = intertab_vma_offset (Z.of_nat a) (Z.of_nat b) ->
  counted st'.
Proof.
  intros C Ht Hi Ha Hb Ho offset' v' Hv Hnz. rewrite Ht, Hi in *.
  destruct (decide (offset = offset')) as [<-|Hne].
  - exists a, b, sa, sb. repeat split; assumption.
  - rewrite lookup_insert_ne in Hv by exact Hne. exact (C offset' v' Hv Hnz).
Qed.

(** Counting a duplicate keeps the counters on tracked pairs. *)
Lemma inc_vma_intertab_pair_counted st slot1 slot2 st' :
  wf st -> counted st ->
  inc_vma_intertab_pair st slot1 slot2 = Ok st' -> counted st'.
Proof.
  intros W C H. unfold inc_vma_intertab_pair in H.
  apply bind_Ok in H as (st1 & H1 & H).
  pose proof (ensure_entered_safe st slot1 W) as S1. rewrite H1 in S1.
  destruct S1 as (W1 & Hn1 & _).
  pose proof (ensure_entered_counted st slot1 st1 W C H1) as C1.
  apply bind_Ok in H as (st2 & H2 & H).
  pose proof (ensure_entered_safe st1 slot2 W1) as S2. rewrite H2 in S2.
  destruct S2 as (W2 & Hn2 & Hk2).
  pose proof (ensure_entered_counted st1 slot2 st2 W1 C1 H2) as C2.
  apply Hk2 in Hn1.
  destruct (wf_idx _ W2 slot1 Hn1) as (a & Ha & Hta).
  destruct (wf_idx _ W2 slot2 Hn2) as (b & Hb & Htb).
  pose proof (wf_index_range st2 slot1 W2 Hn1) as R1.
  pose proof (wf_index_range st2 slot2 W2 Hn2) as R2.
  pose proof (wf_end _ W2) as He.
  set (offset := intertab_vma_offset _ _) in H.
  assert (Ho : 0 <= offset < inter_vma_table_len)
    by (apply intertab_vma_offset_range; lia).
  apply bind_Ok in H as (v & _ & H).
  apply bind_Ok in H as (st3 & H3 & H).
  destruct (inter_write_ok st2 offset (u32 (v + 1)) Ho)
    as (st3' & E3 & Ht & _ & _ & Hi).
  rewrite E3 in H3. injection H3 as E. subst st3'.
  apply bind_Ok in H as (v' & _ & H). apply bind_Ok in H as (u & _ & H).
  injection H as E. subst st'.
  apply (counted_write st2 st3 offset (u32 (v + 1)) a b slot1 slot2);
    try assumption.
  unfold offset. rewrite Ha, Hb. reflexivity.
Qed.

(** The entries a loop of [ksm_intertab_clear] zeroes. *)
Lemma clear_entries_spec index idxs : forall st st',
  clear_entries st index idxs = Ok st' ->
  ksm_vma_table st' = ksm_vma_table st /\
  ksm_vma_table_num st' = ksm_vma_table_num st /\
  ksm_vma_table_index_end st' = ksm_vma_table_index_end st /\
  ksm_index st' = ksm_index st /\
  forall offset,
    default 0 (ksm_inter_vma_table st' !! offset) <> 0 ->
    default 0 (ksm_inter_vma_table st' !! offset)
    = default 0 (ksm_inter_vma_table st !! offset) /\
    forall i, i ∈ idxs -> offset <> intertab_vma_offset index i.
Proof.
  unfold clear_entries.
  induction idxs as [|i idxs IH] using rev_ind; intros st st' H.
  - cbn in H. injection H as <-.
    do 4 (split; [reflexivity|]). intros offset _. split; [reflexivity|].
    intros i Hi. inversion Hi.
  - rewrite foldl_app in H. cbn [foldl] in H.
    apply bind_Ok in H as (st1 & H1 & H).
    apply IH in H1 as (Ht & Hn & He & Hi & Hc).
    unfold inter_write in H. destruct (_ && _); [|discriminate].
    injection H as <-. cbn.
    do 4 (split; [assumption|]). intros offset Hnz.
    destruct (decide (intertab_vma_offset index i = offset)) as [<-|Hne].
    { rewrite lookup_insert_eq in Hnz. cbn in Hnz. congruence. }
    rewrite lookup_insert_ne in Hnz |- * by exact Hne.
    destruct (Hc offset Hnz) as [Heq Hno]. split; [exact Heq|].
    intros j Hj. apply elem_of_app in Hj as [Hj|Hj].
    + apply Hno. exact Hj.
    + apply list_elem_of_singleton in Hj as ->. congruence.
Qed.

Lemma ksm_intertab_clear_spec st slot st' :
  ksm_intertab_clear st slot = Ok st' ->
  0 <= slot_ksm_index st slot ->
  ksm_vma_table st' = ksm_vma_table st /\
  ksm_vma_table_num st' = ksm_vma_table_num st /\
  ksm_vma_table_index_end st' = ksm_vma_table_index_end st /\
  ksm_index st' = ksm_index st /\
  forall offset,
    default 0 (ksm_inter_vma_table st' !! offset) <> 0 ->
    default 0 (ksm_inter_vma_table st' !! offset)
    = default 0 (ksm_inter_vma_table st !! offset) /\
    forall i, 0 <= i < ksm_vma_table_index_end st ->
              offset <> intertab_vma_offset (slot_ksm_index st slot) i.
Proof.
  unfold ksm_intertab_clear. intros H Hidx.
  apply bind_Ok in H as (st1 & H1 & H2).
  apply clear_entries_spec in H1 as (Ht1 & Hn1 & He1 & Hi1 & Hc1).
  apply clear_entries_spec in H2 as (Ht2 & Hn2 & He2 & Hi2 & Hc2).
  rewrite Ht2, Hn2, He2, Hi2, Ht1, Hn1, He1, Hi1.
  do 4 (split; [reflexivity|]). intros offset Hnz.
  destruct (Hc2 offset Hnz) as [E2 N2]. rewrite E2 in Hnz |- *.
  destruct (Hc1 offset Hnz) as [E1 N1]. split; [exact E1|].
  intros i Hi.
  destruct (Z.le_gt_cases i (slot_ksm_index st slot)).
  - apply N1. apply elem_of_seqZ. lia.
  - apply N2. apply elem_of_seqZ. rewrite He1. lia.
Qed.

Lemma observe_keeps st pairs st' :
  wf st -> counted st -> observe st pairs = Ok st' -> wf st' /\ counted st'.
Proof.
  intros W C H. unfold observe in H.
  apply (foldl_result_keeps
           (fun r p => do st <- r ;; inc_vma_intertab_pair st p.1 p.2)
           (fun x => wf x /\ counted x) pairs
           (bind_passes_errors (fun st p => inc_vma_intertab_pair st p.1 p.2)))
    with (s := st); [|split; assumption|exact H].
  intros p sa sb _ [Wa Ca] E. cbn [bind] in E. split.
  - pose proof (inc_vma_intertab_pair_safe sa p.1 p.2 Wa) as S.
    rewrite E in S. exact S.
  - apply (inc_vma_intertab_pair_counted sa p.1 p.2); assumption.
Qed.

(** *** Emptying the table at the end of a round

    While the second loop of [round_update_ladder] has handled the entries
    below [k] of the table it started from ([st0]), the entries from [k] on
    are as they were. *)
Record draining (st0 st : state) (k : Z) : Prop := mkDraining {
  dr_end : ksm_vma_table_index_end st = ksm_vma_table_index_end st0;
  dr_len : length (ksm_vma_table st) = length (ksm_vma_table st0);
  dr_tab : forall j : nat, k <= Z.of_nat j ->
      ksm_vma_table st !! j = ksm_vma_table st0 !! j;
  dr_idx : forall (j s : nat), k <= Z.of_nat j ->
      ksm_vma_table st0 !! j = Some (Some s) ->
      slot_ksm_index st s = Z.of_nat j;
}.

(** A counter is then non-zero only for a pair of entries from [k] on. *)
Definition live_counters (st0 st : state) (k : Z) : Prop :=
  forall offset,
    default 0 (ksm_inter_vma_table st !! offset) <> 0 ->
    exists (a b sa sb : nat),
      k <= Z.of_nat a /\ k <= Z.of_nat b /\
      ksm_vma_table st0 !! a = Some (Some sa) /\
      ksm_vma_table st0 !! b = Some (Some sb) /\
      offset = intertab_vma_offset (Z.of_nat a) (Z.of_nat b).

Lemma draining_start st : wf st -> draining st st 0.
Proof.
  intros W. split; try reflexivity.
  intros j s _ H. apply (wf_tab _ W j s H).
Qed.

Lemma live_counters_start st : counted st -> live_counters st st 0.
Proof.
  intros C offset H.
  destruct (ksm_inter_vma_table st !! offset) as [v|] eqn:E;
    [|cbn in H; congruence].
  cbn in H. destruct (C offset v E H) as (a & b & sa & sb & Ha & Hb & Ho).
  exists a, b, sa, sb. repeat split; try assumption; lia.
Qed.

Lemma draining_skip st0 st k :
  draining st0 st k -> draining st0 st (k + 1).
Proof.
  intros [De Dl Dt Di]. split; try assumption.
  - intros j Hj. apply Dt. lia.
  - intros j s Hj. apply Di. lia.
Qed.

Lemma live_counters_skip st0 st k :
  0 <= k -> draining st0 st k -> live_counters st0 st k ->
  ksm_vma_table st !! Z.to_nat k = Some None ->
  live_counters st0 st (k + 1).
Proof.
  intros Hk [De Dl Dt Di] Dc Hnone offset H.
  destruct (Dc offset H) as (a & b & sa & sb & Ha & Hb & Hta & Htb & Ho).
  exists a, b, sa, sb.
  assert (Z.of_nat a <> k).
  { intros <-. rewrite <- Dt in Hta by lia. rewrite Nat2Z.id in Hnone.
    congruence. }
  assert (Z.of_nat b <> k).
  { intros <-. rewrite <- Dt in Htb by lia. rewrite Nat2Z.id in Hnone.
    congruence. }
  repeat split; try assumption; lia.
Qed.

(** An area leaves the table: its counters are zeroed, its entry and its
    index are reset. *)
Lemma draining_step st0 st k slot t1 t2 :
  wf st0 -> 0 <= k -> draining st0 st k ->
  ksm_vma_table st !! Z.to_nat k = Some (Some slot) ->
  ksm_intertab_clear st slot = Ok t1 ->
  vma_table_write
    (set_num_end t1 (u64 (ksm_vma_table_num t1 - 1))
                 (ksm_vma_table_index_end t1)) k None = Ok t2 ->
  draining st0 (set_ksm_index t2 slot (-1)) (k + 1) /\
  (live_counters st0 st k ->
   live_counters st0 (set_ksm_index t2 slot (-1)) (k + 1)).
Proof.
  intros W Hk D Hslot Hclear Hwrite. destruct D as [De Dl Dt Di].
  assert (Hslot0 : ksm_vma_table st0 !! Z.to_nat k = Some (Some slot))
    by (rewrite <- Dt by lia; exact Hslot).
  assert (Hidx : slot_ksm_index st slot = k).
  { rewrite (Di (Z.to_nat k) slot) by (lia || assumption). lia. }
  apply ksm_intertab_clear_spec in Hclear as (Ht1 & Hn1 & He1 & Hi1 & Hc1);
    [|lia].
  unfold vma_table_write in Hwrite. destruct (_ && _); [|discriminate].
  injection Hwrite as <-.
  split; [split|];
    cbn [ksm_vma_table ksm_vma_table_index_end ksm_inter_vma_table
         set_ksm_index set_num_end].
  - rewrite He1. exact De.
  - rewrite length_insert, Ht1. exact Dl.
  - intros j Hj. rewrite list_lookup_insert_ne by lia. rewrite Ht1.
    apply Dt. lia.
  - intros j s Hj Hs. rewrite slot_ksm_index_set.
    pose proof (Di j s ltac:(lia) Hs) as Hjs.
    destruct (decide (slot = s)) as [<-|Hne]; [lia|].
    unfold slot_ksm_index in Hjs |- *. cbn. rewrite Hi1. exact Hjs.
  - intros Dc offset H.
    cbn [ksm_inter_vma_table set_ksm_index set_num_end] in H.
    destruct (Hc1 offset H) as [Heq Hno].
    rewrite Heq in H.
    destruct (Dc offset H) as (a & b & sa & sb & Ha & Hb & Hta & Htb & Ho).
    exists a, b, sa, sb. rewrite Hidx in Hno.
    destruct (wf_tab _ W a sa Hta) as [Hae _].
    destruct (wf_tab _ W b sb Htb) as [Hbe _].
    assert (Z.of_nat a <> k).
    { intros <-. apply (Hno (Z.of_nat b)); [rewrite De; lia|exact Ho]. }
    assert (Z.of_nat b <> k).
    { intros <-. apply (Hno (Z.of_nat a)); [rewrite De; lia|].
      rewrite intertab_vma_offset_comm. exact Ho. }
    repeat split; try assumption; lia.
Qed.

(** Once every entry is handled no counter is left. *)
Lemma live_counters_done st0 st :
  wf st0 -> live_counters st0 st (ksm_vma_table_index_end st0) ->
  forall offset, default 0 (ksm_inter_vma_table st !! offset) = 0.
Proof.
  intros W D offset.
  destruct (Z.eq_dec (default 0 (ksm_inter_vma_table st !! offset)) 0)
    as [E|E]; [exact E|].
  destruct (D offset E) as (a & b & sa & sb & Ha & _ & Hta & _).
  destruct (wf_tab _ W a sa Hta) as [Hae _]. lia.
Qed.

End InterTabFacts.

(** ** The dedup ratio of an area *)

Module LadderFacts.
Import Ladder.

Definition set_thrash_threshold (st : state) (t : Z) : state :=
  mkState (tab st) (slots st) (ksm_scan_ladder st) (ksm_vma_slot_num st) t.

Lemma get_slot_Ok st slot s : slots st !! slot = Some s -> get_slot st slot = Ok s.
Proof. intros H. unfold get_slot. rewrite H. reflexivity. Qed.

Lemma udiv_DivByZero a b : udiv a b = DivByZero <-> b = 0.
Proof.
  unfold udiv. destruct (Z.eqb_spec b 0); split; intros H;
    try reflexivity; try discriminate; try assumption. contradiction.
Qed.

Lemma vma_table_read_not_DivByZero t i : InterTab.vma_table_read t i <> DivByZero.
Proof.
  unfold InterTab.vma_table_read.
  destruct (_ && _); [destruct (_ !! _)|]; discriminate.
Qed.

Lemma inter_read_not_DivByZero t i : InterTab.inter_read t i <> DivByZero.
Proof. unfold InterTab.inter_read. destruct (_ && _); discriminate. Qed.

Lemma get_slot_not_DivByZero st slot : get_slot st slot <> DivByZero.
Proof. unfold get_slot. destruct (_ !! _); discriminate. Qed.

(** A division of the loop is reached only past the [BUG_ON] that checks
    its divisor. *)
Lemma cal_dedup_step_not_DivByZero st slot pages1 scanned1 acc i :
  acc <> DivByZero ->
  cal_dedup_step st slot pages1 scanned1 acc i <> DivByZero.
Proof.
  intros Hacc H. unfold cal_dedup_step in H.
  apply bind_DivByZero in H as [H|(dedup_num & _ & H)]; [contradiction|].
  apply bind_DivByZero in H as [H|(e & _ & H)];
    [exact (vma_table_read_not_DivByZero _ _ H)|].
  destruct e as [slot2|]; [|discriminate].
  destruct (_ =? InterTab.slot_ksm_index _ _); [discriminate|].
  apply bind_DivByZero in H as [H|(s2 & _ & H)];
    [exact (get_slot_not_DivByZero _ _ H)|].
  destruct (pages_scanned s2 =? 0); [discriminate|].
  apply bind_DivByZero in H as [H|(_ & _ & H)];
    [exact (BUG_ON_not_DivByZero _ H)|].
  apply bind_DivByZero in H as [H|(v & _ & H)];
    [exact (inter_read_not_DivByZero _ _ H)|].
  destruct (Z.eqb_spec v 0) as [Hv|Hv]; cbn in H; [discriminate|].
  destruct (Z.eqb_spec scanned1 0) as [H1|H1]; cbn in H; [discriminate|].
  destruct (Z.eqb_spec (u64 (pages_scanned s2 - last_scanned s2)) 0)
    as [H2|H2]; cbn in H; [discriminate|].
  apply bind_DivByZero in H as [H|(a & _ & H)];
    [apply udiv_DivByZero in H; contradiction|].
  apply bind_DivByZero in H as [H|(b & _ & H)];
    [apply udiv_DivByZero in H; contradiction|discriminate].
Qed.

Lemma cal_dedup_loop_not_DivByZero st slot pages1 scanned1 idxs : forall acc,
  acc <> DivByZero ->
  foldl (cal_dedup_step st slot pages1 scanned1) acc idxs <> DivByZero.
Proof.
  induction idxs as [|i idxs IH]; intros acc Hacc; [exact Hacc|].
  cbn [foldl]. apply IH. apply cal_dedup_step_not_DivByZero. exact Hacc.
Qed.

Lemma thrash_filter_disabled st s ret :
  ksm_thrash_threshold st = 0 -> thrash_filter st s ret = Ok ret.
Proof. intros H. unfold thrash_filter. rewrite H. reflexivity. Qed.

Lemma thrash_filter_DivByZero st s ret :
  thrash_filter st s ret = DivByZero <->
  ksm_thrash_threshold st <> 0 /\ pages_merged s = 0.
Proof.
  unfold thrash_filter.
  destruct (Z.eqb_spec (ksm_thrash_threshold st) 0) as [Ht|Ht]; cbn.
  - split; [discriminate|]. intros [H _]. contradiction.
  - unfold udiv. destruct (Z.eqb_spec (pages_merged s) 0) as [Hm|Hm]; cbn.
    + split; [intros _; split; assumption|reflexivity].
    + split; [|intros [_ H]; contradiction].
      destruct (_ >? _); discriminate.
Qed.

(** [cal_dedup_ratio] is the same computation up to the thrash filter,
    whatever the threshold. *)
Lemma cal_dedup_ratio_filter st slot s :
  slots st !! slot = Some s -> pages_scanned s <> 0 ->
  exists pre : result Z,
    (forall t, cal_dedup_ratio (set_thrash_threshold st t) slot
               = do ret <- pre ;; thrash_filter (set_thrash_threshold st t) s ret) /\
    (pages s <> 0 -> pre <> DivByZero).
Proof.
  intros Hs Hsc.
  set (scanned1 := u64 (pages_scanned s - last_scanned s)).
  set (index := InterTab.intertab_vma_offset
                  (InterTab.slot_ksm_index (tab st) slot)
                  (InterTab.slot_ksm_index (tab st) slot)).
  exists (do _ <- BUG_ON (scanned1 >? pages_scanned s) ;;
          do dedup_num <-
            foldl (cal_dedup_step st slot (pages s) scanned1) (Ok 0)
                  (seqZ 0 (InterTab.ksm_vma_table_index_end (tab st))) ;;
          do v <- InterTab.inter_read (tab st) index ;;
          do _ <- BUG_ON (negb (v =? 0) && (scanned1 =? 0)) ;;
          do dedup_num <-
            (if negb (v =? 0) then
               do a <- udiv (u64 (v * pages s)) scanned1 ;;
               Ok (u64 (dedup_num + a))
             else Ok dedup_num) ;;
          udiv (u64 (dedup_num * KSM_DEDUP_RATIO_SCALE)) (pages s)).
  split.
  - intros t. unfold cal_dedup_ratio.
    rewrite (get_slot_Ok _ slot s) by exact Hs. cbn [bind].
    destruct (Z.eqb_spec (pages_scanned s) 0) as [E|_]; [contradiction|].
    fold scanned1.
    change (tab (set_thrash_threshold st t)) with (tab st). fold index.
    destruct (BUG_ON (scanned1 >? pages_scanned s)); cbn [bind]; try reflexivity.
    change (cal_dedup_step (set_thrash_threshold st t))
      with (cal_dedup_step st).
    destruct (foldl _ _ _); cbn [bind]; try reflexivity.
    destruct (InterTab.inter_read _ _); cbn [bind]; try reflexivity.
    destruct (BUG_ON _); cbn [bind]; try reflexivity.
    destruct (if negb _ then _ else _); cbn [bind]; try reflexivity.
  - intros Hp H.
    apply bind_DivByZero in H as [H|(_ & _ & H)];
      [exact (BUG_ON_not_DivByZero _ H)|].
    apply bind_DivByZero in H as [H|(dedup_num & _ & H)].
    { revert H. apply cal_dedup_loop_not_DivByZero. discriminate. }
    apply bind_DivByZero in H as [H|(v & _ & H)];
      [exact (inter_read_not_DivByZero _ _ H)|].
    apply bind_DivByZero in H as [H|(u & Hb & H)];
      [exact (BUG_ON_not_DivByZero _ H)|].
    apply bind_DivByZero in H as [H|(d & _ & H)].
    + destruct (Z.eqb_spec v 0) as [Hv|Hv]; cbn in H, Hb; [discriminate|].
      destruct (Z.eqb_spec scanned1 0) as [H1|H1]; cbn in Hb; [discriminate|].
      apply bind_DivByZero in H as [H|(a & _ & H)]; [|discriminate].
      apply udiv_DivByZero in H. contradiction.
    + apply udiv_DivByZero in H. contradiction.
Qed.

Lemma set_thrash_threshold_id st :
  set_thrash_threshold st (ksm_thrash_threshold st) = st.
Proof. destruct st; reflexivity. Qed.

(** C10. For an area that was scanned, [cal_dedup_ratio] divides by
    [pages_merged] without a guard: with thrash filtering enabled and
    [pages_merged = 0] it returns no value, and it reaches the division by
    zero whenever the same computation returns with filtering disabled; with
    filtering disabled or [pages_merged > 0] (and a non-empty area) no
    division by zero is reached. *)
Theorem cal_dedup_ratio_needs_pages_merged (st : state) (slot : nat) (s : vma_slot) :
  slots st !! slot = Some s ->
  pages_scanned s <> 0 ->
  (ksm_thrash_threshold st <> 0 -> pages_merged s = 0 ->
     (forall v, cal_dedup_ratio st slot <> Ok v) /\
     (forall ret, cal_dedup_ratio (set_thrash_threshold st 0) slot = Ok ret ->
                  cal_dedup_ratio st slot = DivByZero)) /\
  (pages s <> 0 -> ksm_thrash_threshold st = 0 \/ pages_merged s <> 0 ->
     cal_dedup_ratio st slot <> DivByZero).
Proof.
  intros Hs Hsc.
  destruct (cal_dedup_ratio_filter st slot s Hs Hsc) as (pre & Heq & Hpre).
  pose proof (Heq (ksm_thrash_threshold st)) as Hst.
  rewrite set_thrash_threshold_id in Hst.
  split.
  - intros Ht Hm. split.
    + intros v Hv. rewrite Hst in Hv.
      apply bind_Ok in Hv as (ret & _ & Hv).
      assert (thrash_filter st s ret = DivByZero) as E
        by (apply thrash_filter_DivByZero; split; assumption).
      rewrite E in Hv. discriminate.
    + intros ret Hret. rewrite (Heq 0) in Hret.
      apply bind_Ok in Hret as (r & Hr & _).
      rewrite Hst, Hr. cbn [bind].
      apply thrash_filter_DivByZero; split; assumption.
  - intros Hp Hor H. rewrite Hst in H.
    apply bind_DivByZero in H as [H|(ret & _ & H)]; [exact (Hpre Hp H)|].
    apply thrash_filter_DivByZero in H as [Ht Hm].
    destruct Hor; contradiction.
Qed.

(** *** Moving an area between rungs *)

Definition ratios (st : state) : list Z := scan_ratio <$> ksm_scan_ladder st.

(** What a rung change leaves of the state: only the record of the area
    that moves changes, and only in [rung] and [pages_to_scan]; the tables,
    the scan ratios and the tunables stay. *)
Definition moved (st st' : state) (x : nat) (rx rx' : vma_slot) : Prop :=
  slots st !! x = Some rx /\
  slots st' = <[x := rx']> (slots st) /\
  tab st' = tab st /\
  ratios st' = ratios st /\
  ksm_vma_slot_num st' = ksm_vma_slot_num st /\
  ksm_thrash_threshold st' = ksm_thrash_threshold st /\
  rx' = mkSlot (pages rx) (pages_scanned rx) (last_scanned rx)
               (pages_merged rx) (pages_cowed rx) (dedup_ratio rx)
               (rung rx') (pages_to_scan rx')
               (slot_scanned rx) (fully_scanned rx).

Lemma get_slot_inv st slot s : get_slot st slot = Ok s -> slots st !! slot = Some s.
Proof. unfold get_slot. destruct (_ !! _); intros H; congruence. Qed.

Lemma get_rung_inv st k r :
  get_rung st k = Ok r -> 0 <= k /\ ksm_scan_ladder st !! Z.to_nat k = Some r.
Proof.
  unfold get_rung. destruct (Z.leb_spec 0 k) as [Hk|Hk]; [|discriminate].
  destruct (_ !! _) eqn:E; intros Hr; [|discriminate].
  injection Hr as ->. split; [assumption|reflexivity].
Qed.

Lemma ratios_lookup st k r :
  ksm_scan_ladder st !! k = Some r -> ratios st !! k = Some (scan_ratio r).
Proof. intros H. unfold ratios. rewrite list_lookup_fmap, H. reflexivity. Qed.

Lemma put_rung_ratios st k r0 r :
  ksm_scan_ladder st !! Z.to_nat k = Some r0 ->
  scan_ratio r = scan_ratio r0 ->
  ratios (put_rung st k r) = ratios st.
Proof.
  intros H0 Hr. unfold ratios, put_rung, set_ladder. cbn.
  rewrite list_fmap_insert. apply list_insert_id.
  rewrite list_lookup_fmap, H0, Hr. reflexivity.
Qed.

Lemma put_rung_length st k r :
  length (ksm_scan_ladder (put_rung st k r)) = length (ksm_scan_ladder st).
Proof. cbn. apply length_insert. Qed.

(** The rung search stops at the first rung from [k] on whose quota for the
    area is not zero. *)
Lemma find_rung_spec fuel : forall st rx k k' q,
  find_rung fuel st rx k = Ok (k', q) ->
  k <= k' /\
  (exists r', ksm_scan_ladder st !! Z.to_nat k' = Some r' /\
              q = get_vma_random_scan_num rx (scan_ratio r')) /\
  (forall r, ksm_scan_ladder st !! Z.to_nat k = Some r ->
             get_vma_random_scan_num rx (scan_ratio r) <> 0 -> k' = k).
Proof.
  induction fuel as [|fuel IH]; intros st rx k k' q H; cbn [find_rung] in H;
    apply bind_Ok in H as (r & Hr & H); apply get_rung_inv in Hr as [Hk Hr];
    destruct (Z.eqb_spec (get_vma_random_scan_num rx (scan_ratio r)) 0)
      as [E|E]; try discriminate.
  - injection H as <- <-. split; [lia|]. split; [eauto|]. reflexivity.
  - apply bind_Ok in H as (_ & _ & H). apply IH in H as (Hle & Hex & _).
    split; [lia|]. split; [exact Hex|].
    intros r0 Hr0 Hq. rewrite Hr in Hr0. injection Hr0 as <-. contradiction.
  - injection H as <- <-. split; [lia|]. split; [eauto|]. reflexivity.
Qed.

Lemma vma_rung_enter_spec st x k st' :
  vma_rung_enter st x k = Ok st' ->
  exists rx rx',
    moved st st' x rx rx' /\
    0 <= k < ksm_scan_ladder_size st /\
    (forall ratio, ratios st !! Z.to_nat k = Some ratio ->
                   get_vma_random_scan_num rx ratio <> 0 -> rung rx' = k).
Proof.
  unfold vma_rung_enter. intros H.
  apply bind_Ok in H as (rx & Hrx & H). apply get_slot_inv in Hrx.
  apply bind_Ok in H as (old_rung & Hold & H).
  apply get_rung_inv in Hold as [Hold0 Hold].
  apply bind_Ok in H as (_ & _ & H).
  apply bind_Ok in H as (old' & Hold' & H).
  assert (Hsr : scan_ratio old' = scan_ratio old_rung).
  { destruct (decide _) in Hold'.
    - apply bind_Ok in Hold' as (_ & _ & Hold'). injection Hold' as <-.
      reflexivity.
    - injection Hold' as <-. reflexivity. }
  clear Hold'.
  set (st1 := put_rung st (rung rx) old') in *.
  assert (Hr1 : ratios st1 = ratios st)
    by (apply (put_rung_ratios st _ old_rung); assumption).
  apply bind_Ok in H as ([k' q] & Hfind & H).
  assert (Hk : 0 <= k < ksm_scan_ladder_size st).
  { destruct (length (ksm_scan_ladder st1)); cbn [find_rung] in Hfind;
      apply bind_Ok in Hfind as (r & Hr & _);
      apply get_rung_inv in Hr as [Hk0 Hr];
      apply lookup_lt_Some in Hr; unfold st1 in Hr;
      rewrite put_rung_length in Hr;
      unfold ksm_scan_ladder_size; lia. }
  apply find_rung_spec in Hfind as (Hle & (r' & Hr' & Hq) & Hfirst).
  apply bind_Ok in H as (new_rung & Hnew & H).
  apply get_rung_inv in Hnew as [Hnew0 Hnew].
  apply bind_Ok in H as (_ & _ & H). injection H as <-.
  eexists rx, _. split; [|split].
  - unfold moved. split; [exact Hrx|]. split; [reflexivity|].
    split; [reflexivity|]. split.
    + rewrite <- Hr1.
      apply (put_rung_ratios (put_slot st1 x _) _ new_rung);
        [exact Hnew|reflexivity].
    + split; [reflexivity|]. split; reflexivity.
  - exact Hk.
  - cbn [rung]. intros ratio Hratio Hquota. rewrite <- Hr1 in Hratio.
    unfold ratios in Hratio. rewrite list_lookup_fmap in Hratio.
    destruct (ksm_scan_ladder st1 !! Z.to_nat k) as [r|] eqn:Er;
      [|discriminate].
    injection Hratio as <-. apply (Hfirst r); [reflexivity|exact Hquota].
Qed.

Lemma moved_refl st x rx : slots st !! x = Some rx -> moved st st x rx rx.
Proof.
  intros H. unfold moved. split; [exact H|]. split.
  - symmetry. apply insert_id. exact H.
  - repeat split; try reflexivity. destruct rx; reflexivity.
Qed.

Lemma moved_self st st' x rx rx' :
  moved st st' x rx rx' -> slots st' !! x = Some rx'.
Proof. intros (_ & -> & _). apply lookup_insert_eq. Qed.

Lemma moved_other st st' x rx rx' y :
  moved st st' x rx rx' -> y <> x -> slots st' !! y = slots st !! y.
Proof. intros (_ & -> & _) Hne. apply lookup_insert_ne. congruence. Qed.

Lemma ratios_size st st' :
  ratios st' = ratios st -> ksm_scan_ladder_size st' = ksm_scan_ladder_size st.
Proof.
  intros H. unfold ksm_scan_ladder_size.
  rewrite <- (length_fmap scan_ratio (ksm_scan_ladder st')).
  rewrite <- (length_fmap scan_ratio (ksm_scan_ladder st)).
  fold (ratios st') (ratios st). rewrite H. reflexivity.
Qed.

(** An area with a non-zero quota on every rung; the next rung up, capped
    at the top, and the next rung down, floored at the bottom. *)
Definition quota_everywhere (st : state) (rx : vma_slot) : Prop :=
  forall ratio, ratio ∈ ratios st -> get_vma_random_scan_num rx ratio <> 0.

Lemma vma_rung_up_spec st x st' :
  vma_rung_up st x = Ok st' ->
  exists rx rx', moved st st' x rx rx' /\
    (quota_everywhere st rx ->
     rung rx' = Z.min (rung rx + 1) (ksm_scan_ladder_size st - 1)).
Proof.
  unfold vma_rung_up. intros H.
  apply bind_Ok in H as (rx & Hrx & H). apply get_slot_inv in Hrx.
  destruct (Z.eqb_spec (rung rx) (ksm_scan_ladder_size st - 1)) as [E|E].
  - injection H as <-. exists rx, rx. split; [apply moved_refl; exact Hrx|].
    intros _. lia.
  - apply vma_rung_enter_spec in H as (rx0 & rx' & Hm & Hk & Hq).
    assert (rx0 = rx) as -> by (destruct Hm as (Hx & _); congruence).
    exists rx, rx'. split; [exact Hm|]. intros Hall.
    destruct (ratios st !! Z.to_nat (rung rx + 1)) as [ratio|] eqn:Er.
    + rewrite (Hq ratio eq_refl); [lia|].
      apply Hall. apply list_elem_of_lookup. eauto.
    + apply lookup_ge_None in Er. unfold ratios in Er.
      rewrite length_fmap in Er. unfold ksm_scan_ladder_size in Hk. lia.
Qed.

Lemma vma_rung_down_spec st x st' :
  vma_rung_down st x = Ok st' ->
  exists rx rx', moved st st' x rx rx' /\
    (quota_everywhere st rx ->
     rung rx' = Z.max (rung rx - 1) 0).
Proof.
  unfold vma_rung_down. intros H.
  apply bind_Ok in H as (rx & Hrx & H). apply get_slot_inv in Hrx.
  destruct (Z.eqb_spec (rung rx) 0) as [E|E].
  - injection H as <-. exists rx, rx. split; [apply moved_refl; exact Hrx|].
    intros _. lia.
  - apply vma_rung_enter_spec in H as (rx0 & rx' & Hm & Hk & Hq).
    assert (rx0 = rx) as -> by (destruct Hm as (Hx & _); congruence).
    exists rx, rx'. split; [exact Hm|]. intros Hall.
    destruct (ratios st !! Z.to_nat (rung rx - 1)) as [ratio|] eqn:Er.
    + rewrite (Hq ratio eq_refl); [lia|].
      apply Hall. apply list_elem_of_lookup. eauto.
    + apply lookup_ge_None in Er. unfold ratios in Er.
      rewrite length_fmap in Er. unfold ksm_scan_ladder_size in Hk. lia.
Qed.

(** *** The loops of [round_update_ladder] *)

Lemma vma_table_read_inv t k e :
  InterTab.vma_table_read t k = Ok e ->
  0 <= k /\ InterTab.ksm_vma_table t !! Z.to_nat k = Some e.
Proof.
  unfold InterTab.vma_table_read.
  destruct (Z.leb_spec 0 k) as [Hk|Hk]; cbn; [|discriminate].
  destruct (_ <? _); [|discriminate].
  destruct (_ !! _); intros H; [|discriminate].
  injection H as ->. split; [exact Hk|reflexivity].
Qed.

(** The first loop only stores the ratios. *)
Lemma ratio_step_frame st mx sum i st' mx' sum' :
  ratio_step (Ok (st, mx, sum)) i = Ok (st', mx', sum') ->
  tab st' = tab st /\ ksm_scan_ladder st' = ksm_scan_ladder st /\
  ksm_vma_slot_num st' = ksm_vma_slot_num st /\
  (0 <= sum -> 0 <= sum').
Proof.
  unfold ratio_step. cbn [bind]. intros H.
  apply bind_Ok in H as (e & _ & H). destruct e as [slot|].
  - apply bind_Ok in H as (d & _ & H). apply bind_Ok in H as (rs & _ & H).
    injection H as <- <- <-. repeat split. intros _. apply u64_range.
  - injection H as <- <- <-. repeat split. intros H; exact H.
Qed.

Lemma round_ratios_frame st st1 mean :
  round_ratios st = Ok (st1, mean) ->
  tab st1 = tab st /\ ksm_scan_ladder st1 = ksm_scan_ladder st /\
  ksm_vma_slot_num st1 = ksm_vma_slot_num st /\
  (0 <= ksm_vma_slot_num st -> 0 <= mean).
Proof.
  unfold round_ratios. intros H.
  apply bind_Ok in H as ([[st2 mx] sum] & Hloop & H).
  apply bind_Ok in H as (m & Hdiv & H). injection H as <- <-.
  pose (P := fun a : state * Z * Z =>
               tab a.1.1 = tab st /\
               ksm_scan_ladder a.1.1 = ksm_scan_ladder st /\
               ksm_vma_slot_num a.1.1 = ksm_vma_slot_num st /\ 0 <= a.2).
  assert (HP : P (st2, mx, sum)).
  { apply (foldl_result_keeps ratio_step P
             (seqZ 0 (InterTab.ksm_vma_table_index_end (tab st)))
             (bind_passes_errors _)) with (s := (st, 0, 0)).
    - intros i [[sa ma] suma] [[sb mb] sumb] _ (Ha & Hb & Hc & Hd) E.
      apply ratio_step_frame in E as (E1 & E2 & E3 & E4). unfold P. cbn in *.
      repeat split; try congruence. apply E4. exact Hd.
    - unfold P. cbn. repeat split. lia.
    - exact Hloop. }
  destruct HP as (H1 & H2 & H3 & H4). cbn in *.
  repeat split; try assumption.
  intros Hn. unfold udiv in Hdiv.
  destruct (Z.eqb_spec (ksm_vma_slot_num st2) 0) as [E|E]; [discriminate|].
  injection Hdiv as <-. apply Z.div_pos; [exact H4|]. lia.
Qed.

(** The test of the second loop: [slot->dedup_ratio &&
    slot->dedup_ratio >= threshold]. *)
Definition goes_up (threshold : Z) (rx : vma_slot) : bool :=
  negb (dedup_ratio rx =? 0) && (dedup_ratio rx >=? threshold).

Definition rung_move (threshold : Z) (st : state) (x : nat) (rx : vma_slot)
  : result state :=
  if goes_up threshold rx then vma_rung_up st x else vma_rung_down st x.

Lemma rung_move_spec threshold st x rx0 st' :
  slots st !! x = Some rx0 ->
  rung_move threshold st x rx0 = Ok st' ->
  exists rx', moved st st' x rx0 rx' /\
    (quota_everywhere st rx0 ->
     rung rx' = if goes_up threshold rx0
                then Z.min (rung rx0 + 1) (ksm_scan_ladder_size st - 1)
                else Z.max (rung rx0 - 1) 0).
Proof.
  intros Hx H. unfold rung_move in H. destruct (goes_up threshold rx0).
  - apply vma_rung_up_spec in H as (rx & rx' & Hm & Hr).
    assert (rx = rx0) as -> by (destruct Hm as (E & _); congruence).
    eauto.
  - apply vma_rung_down_spec in H as (rx & rx' & Hm & Hr).
    assert (rx = rx0) as -> by (destruct Hm as (E & _); congruence).
    eauto.
Qed.

(** One iteration of the second loop taken apart. *)
Lemma move_step_inv threshold st k st' :
  move_step threshold (Ok st) k = Ok st' ->
  0 <= k /\
  ((InterTab.ksm_vma_table (tab st) !! Z.to_nat k = Some None /\ st' = st) \/
   exists (y : nat) (ry : vma_slot) (st1 : state) (t1 t2 : InterTab.state)
          (rz : vma_slot),
     InterTab.ksm_vma_table (tab st) !! Z.to_nat k = Some (Some y) /\
     slots st !! y = Some ry /\
     rung_move threshold st y ry = Ok st1 /\
     InterTab.ksm_intertab_clear (tab st1) y = Ok t1 /\
     InterTab.vma_table_write
       (InterTab.set_num_end t1 (u64 (InterTab.ksm_vma_table_num t1 - 1))
                             (InterTab.ksm_vma_table_index_end t1)) k None
     = Ok t2 /\
     slots st1 !! y = Some rz /\
     st' = put_slot (set_tab st1 (InterTab.set_ksm_index t2 y (-1))) y
             (mkSlot (pages rz) (pages_scanned rz) (last_scanned rz)
                     (pages_merged rz) (pages_cowed rz) 0 (rung rz)
                     (pages_to_scan rz) false (fully_scanned rz))).
Proof.
  unfold move_step. cbn [bind]. intros H.
  apply bind_Ok in H as (e & He & H).
  apply vma_table_read_inv in He as [Hk He]. split; [exact Hk|].
  destruct e as [y|].
  - right. apply bind_Ok in H as (ry & Hry & H). apply get_slot_inv in Hry.
    apply bind_Ok in H as (st1 & Hmove & H).
    apply bind_Ok in H as (t1 & Hclear & H).
    apply bind_Ok in H as (t2 & Hwrite & H).
    apply bind_Ok in H as (rz & Hrz & H). apply get_slot_inv in Hrz.
    injection H as <-.
    exists y, ry, st1, t1, t2, rz. repeat split; assumption.
  - left. injection H as <-. split; [exact He|reflexivity].
Qed.

(** The second loop on the tables: the area of entry [k] leaves, the
    others stay. *)
Lemma move_step_tab t0 threshold st k st' :
  InterTabFacts.wf t0 ->
  InterTabFacts.draining t0 (tab st) k ->
  move_step threshold (Ok st) k = Ok st' ->
  InterTabFacts.draining t0 (tab st') (k + 1) /\
  (InterTabFacts.live_counters t0 (tab st) k ->
   InterTabFacts.live_counters t0 (tab st') (k + 1)) /\
  ratios st' = ratios st.
Proof.
  intros W D H. apply move_step_inv in H as [Hk [[Hnone ->]|H]].
  - split; [apply InterTabFacts.draining_skip; exact D|].
    split; [|reflexivity]. intros L.
    apply InterTabFacts.live_counters_skip; assumption.
  - destruct H as (y & ry & st1 & t1 & t2 & rz & Hy & Hry & Hmove & Hclear
                   & Hwrite & Hrz & ->).
    apply (rung_move_spec _ _ _ _ _ Hry) in Hmove as (ry' & Hm & _).
    destruct Hm as (_ & _ & Htab & Hrat & _).
    rewrite Htab in Hclear.
    destruct (InterTabFacts.draining_step t0 (tab st) k y t1 t2 W Hk D Hy
                Hclear Hwrite) as [D' L'].
    split; [exact D'|]. split; [exact L'|]. exact Hrat.
Qed.

(** The third and fourth loops leave the tables alone. *)
Lemma demote_step_frame st y st' :
  demote_step (Ok st) y = Ok st' ->
  tab st' = tab st /\ ratios st' = ratios st /\
  (forall x, x <> y -> slots st' !! x = slots st !! x) /\
  (forall ry, slots st !! y = Some ry -> slot_scanned ry = false ->
     exists ry', slots st' !! y = Some ry' /\ rung ry' = rung ry /\
                 slot_scanned ry' = false).
Proof.
  unfold demote_step. cbn [bind]. intros H.
  apply bind_Ok in H as (ry & Hry & H). apply get_slot_inv in Hry.
  apply bind_Ok in H as (st1 & Hmove & H).
  apply bind_Ok in H as (rz & Hrz & H). apply get_slot_inv in Hrz.
  injection H as <-. cbn [tab put_slot set_slots slots].
  assert (Hst1 : tab st1 = tab st /\ ratios st1 = ratios st /\
                 (forall x, x <> y -> slots st1 !! x = slots st !! x) /\
                 (slot_scanned ry = false -> st1 = st)).
  { destruct (slot_scanned ry).
    - apply bind_Ok in Hmove as (_ & _ & Hmove).
      apply vma_rung_down_spec in Hmove as (rx & rx' & Hm & _).
      destruct Hm as (_ & Hs & Ht & Hr & _).
      repeat split; try assumption; try discriminate.
      intros x Hx. rewrite Hs. apply lookup_insert_ne. congruence.
    - injection Hmove as <-. repeat split. }
  destruct Hst1 as (Ht & Hr & Ho & Hsame).
  split; [exact Ht|]. split; [exact Hr|]. split.
  - intros x Hx. rewrite lookup_insert_ne by congruence. apply Ho. exact Hx.
  - intros ry0 Hry0 Hsc. assert (ry0 = ry) as -> by congruence.
    rewrite (Hsame Hsc) in Hrz. assert (rz = ry) as -> by congruence.
    eexists. rewrite lookup_insert_eq. split; [reflexivity|].
    split; [reflexivity|exact Hsc].
Qed.

Lemma reset_step_frame k st y st' :
  reset_step k (Ok st) y = Ok st' ->
  tab st' = tab st /\
  (forall x rx, slots st !! x = Some rx ->
     exists rx', slots st' !! x = Some rx' /\ rung rx' = rung rx).
Proof.
  unfold reset_step. cbn [bind]. intros H.
  apply bind_Ok in H as (ry & Hry & H). apply get_slot_inv in Hry.
  apply bind_Ok in H as (st1 & Hst1 & H).
  apply bind_Ok in H as (_ & _ & H). injection H as <-.
  assert (E : tab st1 = tab st /\
              slots st1 = <[y := mkSlot (pages ry) (pages_scanned ry)
                                   (pages_scanned ry) 0 0 (dedup_ratio ry)
                                   (rung ry) (pages_to_scan ry) false false]>
                            (slots st)).
  { destruct (fully_scanned ry).
    - apply bind_Ok in Hst1 as (r & _ & Hst1). injection Hst1 as <-.
      split; reflexivity.
    - injection Hst1 as <-. split; reflexivity. }
  destruct E as [Et Es]. split; [exact Et|].
  intros x rx Hx. rewrite Es. destruct (decide (x = y)) as [->|Hne].
  - rewrite lookup_insert_eq. eexists. split; [reflexivity|].
    cbn. congruence.
  - rewrite lookup_insert_ne by congruence. eauto.
Qed.

(** What the third loop keeps of a state [st]: the tables, the ratios, and
    the rung of every area that is not marked as scanned. *)
Definition demote_keeps (st st' : state) : Prop :=
  tab st' = tab st /\ ratios st' = ratios st /\
  forall s rs, slots st !! s = Some rs -> slot_scanned rs = false ->
    exists rs', slots st' !! s = Some rs' /\ rung rs' = rung rs /\
                slot_scanned rs' = false.

Lemma demote_keeps_refl st : demote_keeps st st.
Proof. repeat split. intros s rs H Hs. eauto. Qed.

Lemma demote_keeps_step st st1 y st2 :
  demote_keeps st st1 -> demote_step (Ok st1) y = Ok st2 ->
  demote_keeps st st2.
Proof.
  intros (Ht & Hr & Hk) H.
  apply demote_step_frame in H as (Ht' & Hr' & Ho & Hy).
  split; [congruence|]. split; [congruence|].
  intros s rs Hs Hsc. destruct (Hk s rs Hs Hsc) as (rs1 & Hs1 & Hr1 & Hsc1).
  destruct (decide (s = y)) as [->|Hne].
  - destruct (Hy rs1 Hs1 Hsc1) as (rs2 & Hs2 & Hr2 & Hsc2).
    exists rs2. repeat split; congruence.
  - exists rs1. rewrite Ho by exact Hne. repeat split; assumption.
Qed.

Lemma demote_rung_keeps st st1 k st2 :
  demote_keeps st st1 -> demote_rung (Ok st1) k = Ok st2 ->
  demote_keeps st st2.
Proof.
  intros Hk H. unfold demote_rung in H. cbn [bind] in H.
  apply bind_Ok in H as (r & _ & H).
  apply (foldl_result_keeps demote_step (demote_keeps st) (vma_list r)
           (bind_passes_errors _)) with (s := st1); [|exact Hk|exact H].
  intros y sa sb _ Ha E. apply (demote_keeps_step st sa y sb); assumption.
Qed.

Lemma demote_loop_keeps st idxs st' :
  foldl demote_rung (Ok st) idxs = Ok st' -> demote_keeps st st'.
Proof.
  intros H.
  apply (foldl_result_keeps demote_rung (demote_keeps st) idxs
           (bind_passes_errors _)) with (s := st);
    [|apply demote_keeps_refl|exact H].
  intros k sa sb _ Ha E. apply (demote_rung_keeps st sa k sb); assumption.
Qed.

(** What the fourth loop keeps: the tables and every rung. *)
Definition reset_keeps (st st' : state) : Prop :=
  tab st' = tab st /\
  forall x rx, slots st !! x = Some rx ->
    exists rx', slots st' !! x = Some rx' /\ rung rx' = rung rx.

Lemma reset_keeps_trans st st1 st2 :
  reset_keeps st st1 -> reset_keeps st1 st2 -> reset_keeps st st2.
Proof.
  intros [Ht1 H1] [Ht2 H2]. split; [congruence|].
  intros x rx Hx. destruct (H1 x rx Hx) as (rx1 & Hx1 & Hr1).
  destruct (H2 x rx1 Hx1) as (rx2 & Hx2 & Hr2).
  exists rx2. split; [exact Hx2|congruence].
Qed.

Lemma reset_keeps_refl st : reset_keeps st st.
Proof. split; [reflexivity|]. intros x rx H. eauto. Qed.

Lemma reset_rung_keeps st st1 k st2 :
  reset_keeps st st1 -> reset_rung (Ok st1) k = Ok st2 -> reset_keeps st st2.
Proof.
  intros Hk H. unfold reset_rung in H. cbn [bind] in H.
  apply bind_Ok in H as (r & _ & H).
  apply bind_Ok in H as (st3 & Hloop & H).
  apply bind_Ok in H as (r' & _ & H). apply bind_Ok in H as (_ & _ & H).
  injection H as <-.
  apply (foldl_result_keeps (reset_step k) (reset_keeps st) (vma_list r)
           (bind_passes_errors _)) in Hloop; [exact Hloop| |].
  - intros y sa sb _ Ha E. apply (reset_keeps_trans st sa sb Ha).
    apply reset_step_frame in E. exact E.
  - apply (reset_keeps_trans st st1 _ Hk). split; [reflexivity|].
    intros x rx Hx. cbn. eauto.
Qed.

Lemma reset_loop_keeps st idxs st' :
  foldl reset_rung (Ok st) idxs = Ok st' -> reset_keeps st st'.
Proof.
  intros H.
  apply (foldl_result_keeps reset_rung (reset_keeps st) idxs
           (bind_passes_errors _)) with (s := st);
    [|apply reset_keeps_refl|exact H].
  intros k sa sb _ Ha E. apply (reset_rung_keeps st sa k sb); assumption.
Qed.

(** [round_update_ladder] taken apart into its loops. *)
Lemma round_update_ladder_inv st st' :
  round_update_ladder st = Ok st' ->
  exists st1 threshold st2 st3,
    round_ratios st = Ok (st1, threshold) /\
    foldl (move_step threshold) (Ok st1)
          (seqZ 0 (InterTab.ksm_vma_table_index_end (tab st1))) = Ok st2 /\
    demote_keeps st2 st3 /\
    reset_keeps
      (set_tab st3 (InterTab.set_num_end (tab st3)
                      (InterTab.ksm_vma_table_num (tab st3)) 0)) st'.
Proof.
  unfold round_update_ladder. intros H.
  apply bind_Ok in H as ([st1 threshold] & H1 & H).
  apply bind_Ok in H as (st2 & H2 & H).
  apply bind_Ok in H as (st3 & H3 & H).
  apply bind_Ok in H as (_ & _ & H).
  exists st1, threshold, st2, st3. split; [exact H1|]. split; [exact H2|].
  split; [exact (demote_loop_keeps _ _ _ H3)|].
  exact (reset_loop_keeps _ _ _ H).
Qed.

(** After the second loop every entry of the table was handled. *)
Lemma move_loop_tab threshold st1 st2 :
  InterTabFacts.wf (tab st1) ->
  foldl (move_step threshold) (Ok st1)
        (seqZ 0 (InterTab.ksm_vma_table_index_end (tab st1))) = Ok st2 ->
  InterTabFacts.draining (tab st1) (tab st2)
    (InterTab.ksm_vma_table_index_end (tab st1)) /\
  (InterTabFacts.counted (tab st1) ->
   InterTabFacts.live_counters (tab st1) (tab st2)
     (InterTab.ksm_vma_table_index_end (tab st1))) /\
  ratios st2 = ratios st1.
Proof.
  intros W H.
  pose (P := fun (k : Z) (s : state) =>
               InterTabFacts.draining (tab st1) (tab s) k /\
               (InterTabFacts.counted (tab st1) ->
                InterTabFacts.live_counters (tab st1) (tab s) k) /\
               ratios s = ratios st1).
  pose proof (InterTabFacts.wf_end _ W) as He.
  apply (foldl_seqZ_inv (move_step threshold) P 0 _ (bind_passes_errors _))
    in H; [exact H| | lia |].
  - intros k sa sb Hk (D & L & R) E.
    destruct (move_step_tab (tab st1) threshold sa k sb W D E)
      as (D' & L' & R').
    split; [exact D'|]. split; [|congruence].
    intros C. apply L'. apply L. exact C.
  - split; [apply InterTabFacts.draining_start; exact W|].
    split; [|reflexivity]. apply InterTabFacts.live_counters_start.
Qed.

(** The second loop on one area [s], held by entry [i] of the table the
    loop started from. *)
Lemma move_step_slot t0 threshold st k st' (s i : nat) (rec1 : vma_slot) :
  InterTabFacts.wf t0 ->
  InterTabFacts.draining t0 (tab st) k ->
  InterTab.ksm_vma_table t0 !! i = Some (Some s) ->
  move_step threshold (Ok st) k = Ok st' ->
  (k <> Z.of_nat i -> slots st' !! s = slots st !! s) /\
  (k = Z.of_nat i -> slots st !! s = Some rec1 ->
   quota_everywhere st rec1 ->
   exists rec2, slots st' !! s = Some rec2 /\
     rung rec2 = (if goes_up threshold rec1
                  then Z.min (rung rec1 + 1) (ksm_scan_ladder_size st - 1)
                  else Z.max (rung rec1 - 1) 0) /\
     slot_scanned rec2 = false).
Proof.
  intros W D Hi H. apply move_step_inv in H as [Hk [[Hnone ->]|H]].
  - split; [reflexivity|]. intros -> _ _.
    rewrite (InterTabFacts.dr_tab _ _ _ D) in Hnone by lia.
    rewrite Nat2Z.id in Hnone. congruence.
  - destruct H as (y & ry & st1 & t1 & t2 & rz & Hy & Hry & Hmove & _ & _
                   & Hrz & ->).
    rewrite (InterTabFacts.dr_tab _ _ _ D) in Hy by lia.
    destruct (InterTabFacts.wf_tab _ W _ _ Hy) as [_ Hiy].
    destruct (InterTabFacts.wf_tab _ W _ _ Hi) as [_ His].
    apply (rung_move_spec _ _ _ _ _ Hry) in Hmove as (ry' & Hm & Hrung).
    cbn [put_slot set_slots slots set_tab]. split.
    + intros Hne. assert (s <> y) by (intros ->; lia).
      rewrite lookup_insert_ne by congruence.
      apply (moved_other _ _ _ _ _ _ Hm). assumption.
    + intros -> Hs Hq. rewrite Nat2Z.id in Hy.
      assert (y = s) as -> by congruence.
      assert (ry = rec1) as -> by congruence.
      rewrite (moved_self _ _ _ _ _ Hm) in Hrz.
      assert (rz = ry') as -> by congruence.
      eexists. rewrite lookup_insert_eq. split; [reflexivity|].
      split; [|reflexivity]. cbn [rung]. apply Hrung. exact Hq.
Qed.

Lemma quota_everywhere_ratios st st' rx :
  ratios st' = ratios st -> quota_everywhere st rx -> quota_everywhere st' rx.
Proof. intros H Hq ratio Hr. apply Hq. rewrite <- H. exact Hr. Qed.

(** The rung named by the record of an area of the table after the round:
    one up, capped at the top rung, when its ratio is above the mean; one
    down, floored at the bottom rung, when it is below. *)
Lemma round_rungs (st st1 st' : state) (mean : Z)
    (i s : nat) (rec1 : vma_slot) :
  InterTabFacts.wf (tab st) ->
  0 <= ksm_vma_slot_num st ->
  round_ratios st = Ok (st1, mean) ->
  round_update_ladder st = Ok st' ->
  InterTab.ksm_vma_table (tab st) !! i = Some (Some s) ->
  slots st1 !! s = Some rec1 ->
  quota_everywhere st rec1 ->
  exists rec', slots st' !! s = Some rec' /\
    (mean < dedup_ratio rec1 ->
     rung rec' = Z.min (rung rec1 + 1) (ksm_scan_ladder_size st - 1)) /\
    (dedup_ratio rec1 < mean -> rung rec' = Z.max (rung rec1 - 1) 0).
Proof.
  intros W Hnum Hratios Hround Hi Hs Hq.
  apply round_update_ladder_inv in Hround
    as (st1' & threshold & st2 & st3 & Hr' & Hloop & Hdem & Hres).
  rewrite Hratios in Hr'. injection Hr' as <- <-.
  apply round_ratios_frame in Hratios as (Ht1 & Hl1 & _ & Hmean).
  specialize (Hmean Hnum).
  assert (Hrat1 : ratios st1 = ratios st) by (unfold ratios; congruence).
  assert (Hsize1 : ksm_scan_ladder_size st1 = ksm_scan_ladder_size st)
    by (apply ratios_size; exact Hrat1).
  rewrite <- Ht1 in W, Hi.
  set (target := if goes_up mean rec1
                 then Z.min (rung rec1 + 1) (ksm_scan_ladder_size st - 1)
                 else Z.max (rung rec1 - 1) 0).
  pose (P := fun (k : Z) (x : state) =>
               InterTabFacts.draining (tab st1) (tab x) k /\
               ratios x = ratios st1 /\
               (k <= Z.of_nat i -> slots x !! s = Some rec1) /\
               (Z.of_nat i < k ->
                exists rec2, slots x !! s = Some rec2 /\
                  rung rec2 = target /\ slot_scanned rec2 = false)).
  pose proof (InterTabFacts.wf_end _ W) as He.
  destruct (InterTabFacts.wf_tab _ W _ _ Hi) as [Hie _].
  apply (foldl_seqZ_inv (move_step mean) P 0 _ (bind_passes_errors _))
    in Hloop; [| | lia |].
  - destruct Hloop as (_ & _ & _ & Hdone).
    destruct (Hdone ltac:(lia)) as (rec2 & Hs2 & Hr2 & Hsc2).
    destruct Hdem as (_ & _ & Hdem).
    destruct (Hdem s rec2 Hs2 Hsc2) as (rec3 & Hs3 & Hr3 & _).
    destruct Hres as (_ & Hres).
    destruct (Hres s rec3 Hs3) as (rec4 & Hs4 & Hr4).
    exists rec4. split; [exact Hs4|].
    rewrite Hr4, Hr3, Hr2. unfold target, goes_up. split.
    + intros Hgt.
      destruct (Z.eqb_spec (dedup_ratio rec1) 0); [lia|].
      destruct (Z.geb_spec (dedup_ratio rec1) mean); [reflexivity|lia].
    + intros Hlt.
      destruct (Z.geb_spec (dedup_ratio rec1) mean); [lia|].
      rewrite andb_false_r. reflexivity.
  - intros k sa sb Hk (D & R & Hbefore & Hafter) E.
    destruct (move_step_tab (tab st1) mean sa k sb W D E) as (D' & _ & R').
    destruct (move_step_slot (tab st1) mean sa k sb s i rec1 W D Hi E)
      as (Hother & Hself).
    split; [exact D'|]. split; [congruence|]. split.
    + intros Hle. rewrite Hother by lia. apply Hbefore. lia.
    + intros Hlt. destruct (Z.eq_dec k (Z.of_nat i)) as [Heq|Hne].
      * destruct (Hself Heq (Hbefore ltac:(lia))) as (rec2 & Hs2 & Hr2 & Hsc2).
        { apply (quota_everywhere_ratios st); [congruence|exact Hq]. }
        exists rec2. split; [exact Hs2|]. split; [|exact Hsc2].
        rewrite Hr2. unfold target.
        rewrite (ratios_size st sa) by congruence. reflexivity.
      * rewrite Hother by exact Hne. apply Hafter. lia.
  - split; [apply InterTabFacts.draining_start; exact W|].
    split; [reflexivity|]. split; [intros _; exact Hs|]. lia.
Qed.

(** *** The lists of the rungs *)

(** The rung at index [j] is in order: no area is twice on its list, every
    area on the list points back at the rung, [vma_num] counts the list (as
    an [unsigned long]) and the scan cursor of a rung that is not empty
    stands on an area of its list. *)
Definition rung_ok (m : gmap nat vma_slot) (j : nat) (r : scan_rung) : Prop :=
  NoDup (vma_list r) /\
  (forall x, x ∈ vma_list r ->
     exists rx, m !! x = Some rx /\ rung rx = Z.of_nat j) /\
  vma_num r = u64 (Z.of_nat (length (vma_list r))) /\
  (vma_list r = [] \/ exists y, current_scan r = PSlot y /\ y ∈ vma_list r).

Definition ladder_ok (st : state) : Prop :=
  forall j r, ksm_scan_ladder st !! j = Some r -> rung_ok (slots st) j r.

(** The area [x] is on the list of some rung. *)
Definition on_ladder (st : state) (x : nat) : Prop :=
  exists j r, ksm_scan_ladder st !! j = Some r /\ x ∈ vma_list r.

(** The area [x] is on the list of rung [k] and on the list of no other
    rung. *)
Definition only_on (st : state) (x : nat) (k : Z) : Prop :=
  0 <= k /\
  (exists r, ksm_scan_ladder st !! Z.to_nat k = Some r /\ x ∈ vma_list r) /\
  forall j r, ksm_scan_ladder st !! j = Some r -> x ∈ vma_list r ->
              Z.of_nat j = k.

Lemma listed_only_on st x :
  ladder_ok st -> on_ladder st x ->
  exists rx, slots st !! x = Some rx /\ only_on st x (rung rx).
Proof.
  intros Hok (j & r & Hj & Hx).
  destruct (Hok j r Hj) as (_ & Hb & _).
  destruct (Hb x Hx) as (rx & Hrx & Hrung).
  exists rx. split; [exact Hrx|]. split; [lia|]. split.
  - exists r. rewrite Hrung, Nat2Z.id. split; assumption.
  - intros j' r' Hj' Hx'. destruct (Hok j' r' Hj') as (_ & Hb' & _).
    destruct (Hb' x Hx') as (rx' & Hrx' & Hrung'). congruence.
Qed.

Lemma ksm_list_empty_false st x :
  ksm_list_empty st x = false -> on_ladder st x.
Proof.
  unfold ksm_list_empty. intros H. apply negb_false_iff in H.
  apply existsb_exists in H as (r & Hr & Hx).
  apply bool_decide_eq_true in Hx. apply list_elem_of_In in Hr.
  apply list_elem_of_lookup in Hr as [j Hj]. exists j, r. split; assumption.
Qed.

(** [slot->ksm_list.next] is the list head or the area behind [slot]. *)
Lemma list_next_PSlot l x y :
  NoDup l -> list_next l x = PSlot y -> y ∈ l /\ y <> x.
Proof.
  induction l as [|a l IH]; intros Hnd H; cbn [list_next] in H;
    [discriminate|].
  apply NoDup_cons in Hnd as [Ha Hnd]. destruct (decide (a = x)) as [->|Hne].
  - destruct l as [|b l]; [discriminate|]. injection H as ->. split.
    + right. left.
    + intros ->. apply Ha. left.
  - destruct (IH Hnd H) as [Hy Hyx]. split; [right; exact Hy|exact Hyx].
Qed.

Lemma list_next_not_PNull l x : list_next l x <> PNull.
Proof.
  induction l as [|a l IH]; cbn [list_next]; [discriminate|].
  destruct (decide (a = x)); [destruct l; discriminate|exact IH].
Qed.

Lemma list_del_elem l x y : y ∈ list_del l x <-> y ∈ l /\ y <> x.
Proof. unfold list_del. rewrite list_elem_of_filter. tauto. Qed.

Lemma list_del_NoDup l x : NoDup l -> NoDup (list_del l x).
Proof. apply NoDup_filter. Qed.

(** [list_del] takes one node off the list. *)
Lemma list_del_length l x :
  NoDup l -> x ∈ l ->
  Z.of_nat (length (list_del l x)) = Z.of_nat (length l) - 1.
Proof.
  unfold list_del. induction l as [|a l IH]; intros Hnd Hx.
  - inversion Hx.
  - apply NoDup_cons in Hnd as [Ha Hnd]. rewrite filter_cons.
    destruct (decide (a <> x)) as [Hne|He].
    + cbn [length]. apply elem_of_cons in Hx as [->|Hx]; [contradiction|].
      rewrite !Nat2Z.inj_succ, (IH Hnd Hx). lia.
    + assert (a = x) as -> by (destruct (decide (a = x)); tauto).
      assert (E : filter (fun y => y <> x) l = l).
      { clear IH Hnd Hx He. induction l as [|b l IH]; [reflexivity|].
        rewrite filter_cons. destruct (decide (b <> x)) as [_|Hb].
        - f_equal. apply IH. intros H. apply Ha. right. exact H.
        - exfalso. apply Ha. destruct (decide (x = b)) as [->|Hxb]; [left|].
          exfalso. apply Hb. congruence. }
      rewrite E. cbn [length]. lia.
Qed.

Lemma u64_pred n : u64 (u64 n - 1) = u64 (n - 1).
Proof. unfold u64. apply Zminus_mod_idemp_l. Qed.

Lemma u64_succ n : u64 (u64 n + 1) = u64 (n + 1).
Proof. unfold u64. apply Zplus_mod_idemp_l. Qed.

(** A rung stays in order when the records of the areas on its list keep
    their [rung]. *)
Lemma rung_ok_slots m m' j r :
  (forall x rx, x ∈ vma_list r -> m !! x = Some rx ->
     exists rx', m' !! x = Some rx' /\ rung rx' = rung rx) ->
  rung_ok m j r -> rung_ok m' j r.
Proof.
  intros Hm (Hnd & Hb & Hc & Hd). split; [exact Hnd|].
  split; [|split; assumption].
  intros x Hx. destruct (Hb x Hx) as (rx & Hrx & Hrung).
  destruct (Hm x rx Hx Hrx) as (rx' & Hrx' & Hrung').
  exists rx'. split; [exact Hrx'|congruence].
Qed.

(** The lists, the cursors and the counts of the rungs, and the rung of
    every area: what [ladder_ok] and [on_ladder] are about. *)
Definition shape (st : state) : list (list nat * scan_ptr * Z) :=
  (fun r => (vma_list r, current_scan r, vma_num r)) <$> ksm_scan_ladder st.

Definition keeps_ladder (st st' : state) : Prop :=
  shape st' = shape st /\
  forall x rx, slots st !! x = Some rx ->
    exists rx', slots st' !! x = Some rx' /\ rung rx' = rung rx.

Lemma keeps_ladder_refl st : keeps_ladder st st.
Proof. split; [reflexivity|]. intros x rx H. eauto. Qed.

Lemma keeps_ladder_trans st st1 st2 :
  keeps_ladder st st1 -> keeps_ladder st1 st2 -> keeps_ladder st st2.
Proof.
  intros [Hs1 Hr1] [Hs2 Hr2]. split; [congruence|].
  intros x rx Hx. destruct (Hr1 x rx Hx) as (rx1 & Hx1 & E1).
  destruct (Hr2 x rx1 Hx1) as (rx2 & Hx2 & E2).
  exists rx2. split; [exact Hx2|congruence].
Qed.

Lemma shape_lookup st st' j r' :
  shape st' = shape st -> ksm_scan_ladder st' !! j = Some r' ->
  exists r, ksm_scan_ladder st !! j = Some r /\
    vma_list r' = vma_list r /\ current_scan r' = current_scan r /\
    vma_num r' = vma_num r.
Proof.
  intros Hs Hj.
  assert (E : shape st' !! j = shape st !! j) by (rewrite Hs; reflexivity).
  unfold shape in E. rewrite !list_lookup_fmap, Hj in E. cbn in E.
  destruct (ksm_scan_ladder st !! j) as [r|]; [|discriminate].
  injection E as E1 E2 E3. exists r. repeat split; congruence.
Qed.

Lemma keeps_ladder_ok st st' :
  keeps_ladder st st' -> ladder_ok st -> ladder_ok st'.
Proof.
  intros [Hs Hr] Hok j r' Hj.
  destruct (shape_lookup st st' j r' Hs Hj) as (r & Hj0 & El & Ec & En).
  destruct (Hok j r Hj0) as (Hnd & Hb & Hc & Hd).
  split; [rewrite El; exact Hnd|]. split; [|split].
  - intros x Hx. rewrite El in Hx. destruct (Hb x Hx) as (rx & Hrx & Hrung).
    destruct (Hr x rx Hrx) as (rx' & Hrx' & Hrung').
    exists rx'. split; [exact Hrx'|congruence].
  - rewrite En, El. exact Hc.
  - rewrite El, Ec. exact Hd.
Qed.

Lemma keeps_ladder_listed st st' x :
  keeps_ladder st st' -> on_ladder st x -> on_ladder st' x.
Proof.
  intros [Hs _] (j & r & Hj & Hx).
  assert (E : shape st' !! j = shape st !! j) by (rewrite Hs; reflexivity).
  unfold shape in E. rewrite !list_lookup_fmap, Hj in E. cbn in E.
  destruct (ksm_scan_ladder st' !! j) as [r'|] eqn:Hj'; [|discriminate].
  injection E as E1 E2 E3. exists j, r'. split; [exact Hj'|]. congruence.
Qed.

Lemma put_slot_keeps st x rx rx' :
  slots st !! x = Some rx -> rung rx' = rung rx ->
  keeps_ladder st (put_slot st x rx').
Proof.
  intros Hx Hr. split; [reflexivity|]. intros y ry Hy. cbn.
  destruct (decide (y = x)) as [->|Hne].
  - rewrite lookup_insert_eq. exists rx'. split; [reflexivity|congruence].
  - rewrite lookup_insert_ne by congruence. eauto.
Qed.

Lemma put_rung_keeps st k r r' :
  ksm_scan_ladder st !! Z.to_nat k = Some r ->
  vma_list r' = vma_list r -> current_scan r' = current_scan r ->
  vma_num r' = vma_num r ->
  keeps_ladder st (put_rung st k r').
Proof.
  intros Hk El Ec En. split; [|intros x rx H; cbn; eauto].
  unfold shape, put_rung, set_ladder. cbn. rewrite list_fmap_insert.
  apply list_insert_id. rewrite list_lookup_fmap, Hk. cbn. congruence.
Qed.

Lemma set_tab_keeps st t : keeps_ladder st (set_tab st t).
Proof. split; [reflexivity|]. intros x rx H. cbn. eauto. Qed.

(** What [vma_rung_enter] makes of the rung the area leaves: the area is
    taken off its list, the count goes down by one and the cursor stays
    on the list. *)
Lemma leave_rung_ok st x rx old_rung old' :
  ladder_ok st ->
  slots st !! x = Some rx -> 0 <= rung rx ->
  ksm_scan_ladder st !! Z.to_nat (rung rx) = Some old_rung ->
  x ∈ vma_list old_rung ->
  (let cur := if decide (current_scan old_rung = PSlot x)
              then list_next (vma_list old_rung) x
              else current_scan old_rung in
   let l := list_del (vma_list old_rung) x in
   let num := u64 (vma_num old_rung - 1) in
   let fss := if fully_scanned rx then u64 (fully_scanned_slots old_rung - 1)
              else fully_scanned_slots old_rung in
   (if decide (cur = PHead) then
      let cur := list_first l in
      do _ <- BUG_ON (bool_decide (cur = PHead) && negb (bool_decide (l = []))) ;;
      Ok (mkRung (scan_ratio old_rung) l cur num fss true
                 (rung_pages_to_scan old_rung))
    else
      Ok (mkRung (scan_ratio old_rung) l cur num fss
                 (round_finished old_rung) (rung_pages_to_scan old_rung)))
   = Ok old') ->
  vma_list old' = list_del (vma_list old_rung) x /\
  rung_ok (slots st) (Z.to_nat (rung rx)) old'.
Proof.
  intros Hok Hrx Hpos Hold Hx H. cbv zeta in H.
  destruct (Hok _ _ Hold) as (Hnd & Hb & Hc & Hd).
  set (L := vma_list old_rung) in *.
  set (cur0 := if decide (current_scan old_rung = PSlot x)
               then list_next L x else current_scan old_rung) in *.
  assert (Hcur : cur0 = PHead \/ list_del L x = [] \/
                 exists y, cur0 = PSlot y /\ y ∈ list_del L x).
  { unfold cur0. destruct (decide (current_scan old_rung = PSlot x)) as [E|E].
    - destruct (list_next L x) as [| |y] eqn:En.
      + exfalso. exact (list_next_not_PNull _ _ En).
      + left. reflexivity.
      + right. right. exists y. split; [reflexivity|].
        apply list_del_elem. apply list_next_PSlot; assumption.
    - right. destruct Hd as [Hd|(y & Hy & Hin)].
      + left. rewrite Hd. reflexivity.
      + right. exists y. split; [exact Hy|]. apply list_del_elem.
        split; [exact Hin|]. intros ->. contradiction. }
  assert (E : vma_list old' = list_del L x /\
              vma_num old' = u64 (vma_num old_rung - 1) /\
              (vma_list old' = [] \/
               exists y, current_scan old' = PSlot y /\ y ∈ vma_list old')).
  { destruct (decide (cur0 = PHead)) as [Eh|Eh].
    - apply bind_Ok in H as (_ & _ & H). injection H as <-. cbn.
      split; [reflexivity|]. split; [reflexivity|].
      destruct (list_del L x) as [|y l']; [left; reflexivity|].
      right. exists y. split; [reflexivity|left].
    - injection H as <-. cbn. split; [reflexivity|]. split; [reflexivity|].
      destruct Hcur as [Hc0|[Hc0|Hc0]]; [contradiction|left|right]; assumption. }
  destruct E as (El & En & Ec). split; [exact El|].
  split; [rewrite El; apply list_del_NoDup; exact Hnd|]. split; [|split].
  - intros y Hy. rewrite El in Hy. apply list_del_elem in Hy as [Hy _].
    rewrite Z2Nat.id by exact Hpos.
    destruct (Hb y Hy) as (ry & Hry & Hrung). exists ry.
    split; [exact Hry|]. rewrite Hrung. apply Z2Nat.id. exact Hpos.
  - rewrite En, El, Hc, u64_pred. f_equal. symmetry.
    apply list_del_length; assumption.
  - exact Ec.
Qed.

(** Entering a rung: the area is put at the head of the list of the rung the
    search stopped at and counted there. *)
Lemma vma_rung_enter_ladder st x k st' :
  ladder_ok st -> vma_rung_enter st x k = Ok st' ->
  ladder_ok st' /\ forall y, on_ladder st y -> on_ladder st' y.
Proof.
  unfold vma_rung_enter. intros Hok H.
  apply bind_Ok in H as (rx & Hrx & H). apply get_slot_inv in Hrx.
  apply bind_Ok in H as (old_rung & Hold & H).
  apply get_rung_inv in Hold as [Hold0 Hold].
  apply bind_Ok in H as (u & Hbug & H).
  assert (Hlisted : on_ladder st x).
  { apply ksm_list_empty_false. unfold BUG_ON in Hbug.
    destruct (ksm_list_empty st x); [discriminate|reflexivity]. }
  destruct (listed_only_on st x Hok Hlisted)
    as (rx0 & Hrx0 & Hpos & (r0 & Hr0 & Hx0) & Honly).
  assert (rx0 = rx) as -> by congruence.
  assert (r0 = old_rung) as -> by congruence.
  apply bind_Ok in H as (old' & Hold' & H).
  destruct (leave_rung_ok st x rx old_rung old' Hok Hrx Hpos Hold Hx0 Hold')
    as [El Hok'].
  set (st1 := put_rung st (rung rx) old') in *.
  assert (Hlen : (Z.to_nat (rung rx) < length (ksm_scan_ladder st))%nat)
    by (apply lookup_lt_Some in Hold; exact Hold).
  assert (H1 : forall j r, ksm_scan_ladder st1 !! j = Some r ->
                 rung_ok (slots st) j r /\ x ∉ vma_list r).
  { intros j r Hj. unfold st1 in Hj. cbn in Hj.
    destruct (decide (j = Z.to_nat (rung rx))) as [->|Hne].
    - rewrite list_lookup_insert_eq in Hj by exact Hlen. injection Hj as <-.
      split; [exact Hok'|]. rewrite El. intros Hin.
      apply list_del_elem in Hin as [_ Hin]. congruence.
    - rewrite list_lookup_insert_ne in Hj by congruence.
      split; [apply Hok; exact Hj|]. intros Hin.
      apply Hne. rewrite <- (Honly j r Hj Hin). symmetry. apply Nat2Z.id. }
  assert (H1l : forall y, y <> x -> on_ladder st y -> on_ladder st1 y).
  { intros y Hy (j & r & Hj & Hin).
    destruct (decide (j = Z.to_nat (rung rx))) as [->|Hne].
    - exists (Z.to_nat (rung rx)), old'. split.
      + unfold st1. cbn. apply list_lookup_insert_eq. exact Hlen.
      + rewrite El. apply list_del_elem. split; [|exact Hy]. congruence.
    - exists j, r. split; [|exact Hin]. unfold st1. cbn.
      rewrite list_lookup_insert_ne by congruence. exact Hj. }
  apply bind_Ok in H as ([k' q] & Hfind & H).
  apply bind_Ok in H as (new_rung & Hnew & H).
  apply get_rung_inv in Hnew as [Hnew0 Hnew].
  apply bind_Ok in H as (_ & _ & H). injection H as <-.
  destruct (H1 _ _ Hnew) as ((Hnd1 & Hb1 & Hc1 & Hd1) & Hx1).
  assert (Hlen1 : (Z.to_nat k' < length (ksm_scan_ladder st1))%nat)
    by (apply lookup_lt_Some in Hnew; exact Hnew).
  split.
  - intros j r Hj. cbn in Hj.
    destruct (decide (j = Z.to_nat k')) as [->|Hne].
    + rewrite list_lookup_insert_eq in Hj by exact Hlen1. injection Hj as <-.
      split; [|split; [|split]]; cbn.
      * apply NoDup_cons. split; assumption.
      * intros y Hy. apply elem_of_cons in Hy as [->|Hy].
        -- rewrite lookup_insert_eq. eexists. split; [reflexivity|].
           cbn. symmetry. apply Z2Nat.id. exact Hnew0.
        -- rewrite lookup_insert_ne by (intros ->; contradiction).
           apply Hb1. exact Hy.
      * rewrite Hc1, u64_succ. f_equal. lia.
      * right. destruct (bool_decide (vma_list new_rung = [])) eqn:Hempty.
        -- exists x. split; [reflexivity|left].
        -- apply bool_decide_eq_false in Hempty.
           destruct Hd1 as [Hd1|(y & Hy & Hin)]; [contradiction|].
           exists y. split; [exact Hy|right; exact Hin].
    + rewrite list_lookup_insert_ne in Hj by congruence.
      destruct (H1 _ _ Hj) as [Hr Hxr].
      apply (rung_ok_slots (slots st)); [|exact Hr].
      intros y ry Hy Hry. cbn.
      rewrite lookup_insert_ne by (intros ->; contradiction). eauto.
  - intros y Hy. destruct (decide (y = x)) as [->|Hne].
    + eexists (Z.to_nat k'), _. split.
      * cbn. apply list_lookup_insert_eq. exact Hlen1.
      * cbn. left.
    + destruct (H1l y Hne Hy) as (j & r & Hj & Hin).
      destruct (decide (j = Z.to_nat k')) as [->|Hnej].
      * eexists (Z.to_nat k'), _. split.
        -- cbn. apply list_lookup_insert_eq. exact Hlen1.
        -- cbn. right. congruence.
      * exists j, r. split; [|exact Hin]. cbn.
        rewrite list_lookup_insert_ne by congruence. exact Hj.
Qed.

Lemma vma_rung_up_ladder st x st' :
  ladder_ok st -> vma_rung_up st x = Ok st' ->
  ladder_ok st' /\ forall y, on_ladder st y -> on_ladder st' y.
Proof.
  unfold vma_rung_up. intros Hok H. apply bind_Ok in H as (rx & _ & H).
  destruct (_ =? _).
  - injection H as <-. split; [exact Hok|]. intros y Hy; exact Hy.
  - apply vma_rung_enter_ladder in H; assumption.
Qed.

Lemma vma_rung_down_ladder st x st' :
  ladder_ok st -> vma_rung_down st x = Ok st' ->
  ladder_ok st' /\ forall y, on_ladder st y -> on_ladder st' y.
Proof.
  unfold vma_rung_down. intros Hok H. apply bind_Ok in H as (rx & _ & H).
  destruct (_ =? _).
  - injection H as <-. split; [exact Hok|]. intros y Hy; exact Hy.
  - apply vma_rung_enter_ladder in H; assumption.
Qed.

(** *** The lists of the rungs through the loops of a round *)

(** The ladder is in order and the area [s] is on a list. *)
Definition placed (s : nat) (st : state) : Prop :=
  ladder_ok st /\ on_ladder st s.

Lemma keeps_ladder_placed s st st' :
  keeps_ladder st st' -> placed s st -> placed s st'.
Proof.
  intros Hk [Hok Hl]. split.
  - apply (keeps_ladder_ok st); assumption.
  - apply (keeps_ladder_listed st); assumption.
Qed.

Lemma ratio_step_keeps st mx sum i st' mx' sum' :
  ratio_step (Ok (st, mx, sum)) i = Ok (st', mx', sum') -> keeps_ladder st st'.
Proof.
  unfold ratio_step. cbn [bind]. intros H.
  apply bind_Ok in H as (e & _ & H). destruct e as [slot|].
  - apply bind_Ok in H as (d & _ & H). apply bind_Ok in H as (rs & Hrs & H).
    apply get_slot_inv in Hrs. injection H as <- <- <-.
    apply (put_slot_keeps st slot rs); [exact Hrs|reflexivity].
  - injection H as <- <- <-. apply keeps_ladder_refl.
Qed.

Lemma round_ratios_keeps st st1 mean :
  round_ratios st = Ok (st1, mean) -> keeps_ladder st st1.
Proof.
  unfold round_ratios. intros H.
  apply bind_Ok in H as ([[st2 mx] sum] & Hloop & H).
  apply bind_Ok in H as (m & _ & H). injection H as <- <-.
  apply (foldl_result_keeps ratio_step
           (fun a : state * Z * Z => keeps_ladder st a.1.1)
           (seqZ 0 (InterTab.ksm_vma_table_index_end (tab st)))
           (bind_passes_errors _)) with (s := (st, 0, 0)) in Hloop;
    [exact Hloop| |apply keeps_ladder_refl].
  intros i [[sa ma] suma] [[sb mb] sumb] _ Ha E. cbn in *.
  apply (keeps_ladder_trans st sa sb Ha).
  apply ratio_step_keeps in E. exact E.
Qed.

Lemma rung_move_ladder threshold st x rx st' :
  ladder_ok st -> rung_move threshold st x rx = Ok st' ->
  ladder_ok st' /\ forall y, on_ladder st y -> on_ladder st' y.
Proof.
  unfold rung_move. intros Hok H. destruct (goes_up threshold rx).
  - apply vma_rung_up_ladder in H; assumption.
  - apply vma_rung_down_ladder in H; assumption.
Qed.

Lemma move_step_placed s threshold st k st' :
  placed s st -> move_step threshold (Ok st) k = Ok st' -> placed s st'.
Proof.
  intros [Hok Hl] H. apply move_step_inv in H as [_ [[_ ->]|H]];
    [split; assumption|].
  destruct H as (y & ry & st1 & t1 & t2 & rz & _ & _ & Hmove & _ & _ & Hrz & ->).
  apply rung_move_ladder in Hmove as [Hok1 Hl1]; [|exact Hok].
  apply (keeps_ladder_placed s st1); [|split; [exact Hok1|apply Hl1; exact Hl]].
  apply (keeps_ladder_trans st1 (set_tab st1 (InterTab.set_ksm_index t2 y (-1))));
    [apply set_tab_keeps|].
  apply (put_slot_keeps _ y rz); [exact Hrz|reflexivity].
Qed.

Lemma demote_step_placed s st y st' :
  placed s st -> demote_step (Ok st) y = Ok st' -> placed s st'.
Proof.
  unfold demote_step. cbn [bind]. intros [Hok Hl] H.
  apply bind_Ok in H as (ry & _ & H).
  apply bind_Ok in H as (st1 & Hmove & H).
  apply bind_Ok in H as (rz & Hrz & H). apply get_slot_inv in Hrz.
  injection H as <-.
  assert (H1 : placed s st1).
  { destruct (slot_scanned ry).
    - apply bind_Ok in Hmove as (_ & _ & Hmove).
      apply vma_rung_down_ladder in Hmove as [Hok1 Hl1]; [|exact Hok].
      split; [exact Hok1|apply Hl1; exact Hl].
    - injection Hmove as <-. split; assumption. }
  apply (keeps_ladder_placed s st1); [|exact H1].
  apply (put_slot_keeps _ y rz); [exact Hrz|reflexivity].
Qed.

Lemma demote_rung_placed s st k st' :
  placed s st -> demote_rung (Ok st) k = Ok st' -> placed s st'.
Proof.
  intros Hp H. unfold demote_rung in H. cbn [bind] in H.
  apply bind_Ok in H as (r & _ & H).
  apply (foldl_result_keeps demote_step (placed s) (vma_list r)
           (bind_passes_errors _)) with (s := st); [|exact Hp|exact H].
  intros y sa sb _ Ha E. apply (demote_step_placed s sa y sb); assumption.
Qed.

Lemma reset_step_keeps k st y st' :
  reset_step k (Ok st) y = Ok st' -> keeps_ladder st st'.
Proof.
  unfold reset_step. cbn [bind]. intros H.
  apply bind_Ok in H as (ry & Hry & H). apply get_slot_inv in Hry.
  apply bind_Ok in H as (st1 & Hst1 & H).
  apply bind_Ok in H as (_ & _ & H). injection H as <-.
  match type of Hst1 with
  | (if _ then bind (get_rung ?st0 _) _ else _) = _ =>
      apply (keeps_ladder_trans st st0);
        [apply (put_slot_keeps st y ry); [exact Hry|reflexivity]|]
  end.
  destruct (fully_scanned ry).
  - apply bind_Ok in Hst1 as (r & Hr & Hst1). injection Hst1 as <-.
    apply get_rung_inv in Hr as [_ Hr].
    apply (put_rung_keeps _ k r); [exact Hr|reflexivity..].
  - injection Hst1 as <-. apply keeps_ladder_refl.
Qed.

Lemma reset_rung_keeps_ladder st k st' :
  reset_rung (Ok st) k = Ok st' -> keeps_ladder st st'.
Proof.
  intros H. unfold reset_rung in H. cbn [bind] in H.
  apply bind_Ok in H as (r & Hr & H). apply get_rung_inv in Hr as [_ Hr].
  apply bind_Ok in H as (st3 & Hloop & H).
  apply bind_Ok in H as (r' & _ & H). apply bind_Ok in H as (_ & _ & H).
  injection H as <-.
  apply (foldl_result_keeps (reset_step k) (keeps_ladder st) (vma_list r)
           (bind_passes_errors _)) in Hloop; [exact Hloop| |].
  - intros y sa sb _ Ha E. apply (keeps_ladder_trans st sa sb Ha).
    apply reset_step_keeps in E. exact E.
  - apply (put_rung_keeps st k r); [exact Hr|reflexivity..].
Qed.

(** A round keeps the ladder in order and every listed area on a list. *)
Lemma round_update_ladder_placed s st st' :
  placed s st -> round_update_ladder st = Ok st' -> placed s st'.
Proof.
  unfold round_update_ladder. intros Hp H.
  apply bind_Ok in H as ([st1 threshold] & H1 & H).
  apply bind_Ok in H as (st2 & H2 & H).
  apply bind_Ok in H as (st3 & H3 & H).
  apply bind_Ok in H as (_ & _ & H).
  apply round_ratios_keeps in H1.
  apply (keeps_ladder_placed s _ _ H1) in Hp.
  apply (foldl_result_keeps (move_step threshold) (placed s) _
           (bind_passes_errors _)) with (s := st1) in H2; [|clear H2|exact Hp].
  2:{ intros k sa sb _ Ha E. apply (move_step_placed s threshold sa k sb);
        assumption. }
  apply (foldl_result_keeps demote_rung (placed s) _
           (bind_passes_errors _)) with (s := st2) in H3; [|clear H3|exact H2].
  2:{ intros k sa sb _ Ha E. apply (demote_rung_placed s sa k sb); assumption. }
  apply (foldl_result_keeps reset_rung
           (keeps_ladder (set_tab st3 (InterTab.set_num_end (tab st3)
                            (InterTab.ksm_vma_table_num (tab st3)) 0))) _
           (bind_passes_errors _)) in H.
  - apply (keeps_ladder_placed s _ _ H).
    apply (keeps_ladder_placed s st3); [apply set_tab_keeps|exact H3].
  - intros k sa sb _ Ha E. apply (keeps_ladder_trans _ sa sb Ha).
    apply reset_rung_keeps_ladder in E. exact E.
  - apply keeps_ladder_refl.
Qed.

(** C8. At a round boundary, an area of the table ([s], at entry [i]) whose
    stored ratio is above the mean of the round moves one rung up, capped at
    the top rung; one whose ratio is below the mean moves one rung down,
    floored at the bottom rung.  Moving means that the area, which was on the
    list of the rung of its record and on no other, is afterwards on the list
    of the new rung and on no other, that its record names the new rung, and
    that the ladder is in order again: no area is twice on a list, every
    listed area names the rung that lists it, [vma_num] counts each list and
    each cursor stands on its list.  The area has a non-zero scan quota on
    every rung, as [ksm_vma_enter] requires on the lowest rung before it
    admits an area. *)
Theorem round_update_ladder_moves (st st1 st' : state) (mean : Z)
    (i s : nat) (rec1 : vma_slot) :
  InterTabFacts.wf (tab st) ->
  0 <= ksm_vma_slot_num st ->
  ladder_ok st ->
  on_ladder st s ->
  round_ratios st = Ok (st1, mean) ->
  round_update_ladder st = Ok st' ->
  InterTab.ksm_vma_table (tab st) !! i = Some (Some s) ->
  slots st1 !! s = Some rec1 ->
  quota_everywhere st rec1 ->
  only_on st s (rung rec1) /\
  exists rec', slots st' !! s = Some rec' /\
    (mean < dedup_ratio rec1 ->
     rung rec' = Z.min (rung rec1 + 1) (ksm_scan_ladder_size st - 1)) /\
    (dedup_ratio rec1 < mean -> rung rec' = Z.max (rung rec1 - 1) 0) /\
    only_on st' s (rung rec') /\
    ladder_ok st'.
Proof.
  intros W Hnum Hok Hl Hratios Hround Hi Hs Hq. split.
  - destruct (listed_only_on st s Hok Hl) as (rec0 & Hs0 & Honly).
    destruct (round_ratios_keeps _ _ _ Hratios) as [_ Hk].
    destruct (Hk s rec0 Hs0) as (rec1' & Hs1 & Hr1).
    assert (rec1' = rec1) as -> by congruence. rewrite Hr1. exact Honly.
  - destruct (round_rungs st st1 st' mean i s rec1 W Hnum Hratios Hround Hi Hs Hq)
      as (rec' & Hs' & Hup & Hdown).
    destruct (round_update_ladder_placed s st st' (conj Hok Hl) Hround)
      as [Hok' Hl'].
    destruct (listed_only_on st' s Hok' Hl') as (rec2 & Hs2 & Honly').
    assert (rec2 = rec') as -> by congruence.
    exists rec'. split; [exact Hs'|]. split; [exact Hup|]. split; [exact Hdown|].
    split; [exact Honly'|exact Hok'].
Qed.

End LadderFacts.

(** ** The end of a round *)

Module ScanFacts.
Import Scan.

Lemma free_all_tree_nodes_nil nodes : free_all_tree_nodes nodes = [].
Proof. induction nodes as [|n nodes IH]; [reflexivity|exact IH]. Qed.

(** C2. When the round-finished block of [ksm_do_scan] completes, from a
    state whose area table is well formed and whose counters belong to
    tracked pairs (what [ksm_init] sets up and counting duplicates keeps),
    the unstable tree has no node, no tree node is left on its list, and
    every entry of [ksm_inter_vma_table] reads zero. *)
Theorem round_end_clean (l l' : Ladder.state) (e e' : Engine.state)
    (nodes : list Engine.tree_node) :
  InterTabFacts.wf (Ladder.tab l) ->
  InterTabFacts.counted (Ladder.tab l) ->
  round_finished_block l e = Ok (l', e', nodes) ->
  Engine.root_unstable_tree e' = Engine.Leaf /\
  nodes = [] /\
  Engine.intertab e' = Ladder.tab l' /\
  forall offset, 0 <= offset < InterTab.inter_vma_table_len ->
    InterTab.inter_read (Ladder.tab l') offset = Ok 0.
Proof.
  intros W C H. unfold round_finished_block in H.
  apply bind_Ok in H as (l1 & Hround & H). injection H as <- <- <-.
  split; [reflexivity|]. split; [apply free_all_tree_nodes_nil|].
  split; [reflexivity|].
  intros offset Ho. rewrite (InterTabFacts.inter_read_ok _ _ Ho). f_equal.
  apply LadderFacts.round_update_ladder_inv in Hround
    as (st1 & threshold & st2 & st3 & Hratios & Hloop & Hdem & Hres).
  apply LadderFacts.round_ratios_frame in Hratios as (Ht1 & _).
  rewrite <- Ht1 in W, C.
  apply LadderFacts.move_loop_tab in Hloop as (_ & L & _); [|exact W].
  destruct Hdem as (Ht3 & _). destruct Hres as (Ht4 & _).
  rewrite Ht4. cbn. rewrite Ht3.
  apply (InterTabFacts.live_counters_done (Ladder.tab st1)); [exact W|].
  apply L. exact C.
Qed.

End ScanFacts.

(** ** The merge engine *)

(** Inversion of a chain of [do]s that ended in [Ok]. *)
Ltac inv_bind H :=
  let a := fresh "a" in
  let E := fresh "E" in
  apply bind_Ok in H as (a & E & H).

(** One step of the inversion of a run that ended in [Ok]. *)
Ltac run_step :=
  match goal with
  | H : Bug = Ok _ |- _ => discriminate H
  | H : OutOfBounds = Ok _ |- _ => discriminate H
  | H : DivByZero = Ok _ |- _ => discriminate H
  | H : Ok _ = Ok _ |- _ => inversion H; subst; clear H
  | H : bind _ _ = Ok _ |- _ => inv_bind H
  | H : BUG_ON _ = Ok _ |- _ => clear H
  | H : Engine.get_item _ _ = Ok _ |- _ => clear H
  | H : Engine.get_page_of _ _ = Ok _ |- _ => clear H
  | H : Engine.get_stable_node _ _ = Ok _ |- _ => clear H
  | H : Engine.get_stable_tree_node _ _ = Ok _ |- _ => clear H
  | H : Engine.get_unstable_tree_node _ _ = Ok _ |- _ => clear H
  | H : (let '(_, _) := ?p in _) = Ok _ |- _ => destruct p
  | H : (if ?c then _ else _) = Ok _ |- _ => destruct c
  | H : match ?x with _ => _ end = Ok _ |- _ => destruct x
  end.

Module EngineFacts.
Import Engine.

(** *** Flags in the low bits of [address] *)

Lemma lor_flag_1 a : Z.land (Z.lor a 1) 1 = 1.
Proof.
  apply Z.bits_inj'. intros n Hn.
  rewrite Z.land_spec, Z.lor_spec.
  destruct (Z.eq_dec n 0) as [->|Hne].
  - cbn. rewrite orb_true_r. reflexivity.
  - replace (Z.testbit 1 n) with false; [apply andb_false_r|].
    symmetry. apply (Z.bits_above_log2 1 n); cbn; lia.
Qed.

(** *** The first level of a tree *)

Lemma hash_cmp_cases a b :
  (a < b /\ hash_cmp a b = -1) \/ (a = b /\ hash_cmp a b = 0)
  \/ (b < a /\ hash_cmp a b = 1).
Proof.
  unfold hash_cmp.
  destruct (Z.gtb_spec a b); [right; right; split; [lia|reflexivity]|].
  destruct (Z.ltb_spec a b); [left; split; [lia|reflexivity]|].
  right; left. split; [lia|reflexivity].
Qed.

Ltac cmp_cases a b :=
  let H := fresh "Hc" in
  let E := fresh "Ec" in
  destruct (hash_cmp_cases a b) as [[H E]|[[H E]|[H E]]];
  rewrite ?E in *; cbn [Z.ltb Z.gtb Z.compare] in *.

Lemma find_tree_node_hash t hv tn :
  find_tree_node t hv = Some tn -> hash tn = hv.
Proof.
  induction t as [|l IHl x r IHr]; cbn; [discriminate|].
  cmp_cases hv (hash x); intros H; auto.
  injection H as <-. congruence.
Qed.

Lemma find_put_tree_node t tn :
  is_Some (find_tree_node t (hash tn)) ->
  find_tree_node (put_tree_node t tn) (hash tn) = Some tn.
Proof.
  induction t as [|l IHl x r IHr]; cbn.
  - intros [? H]. discriminate.
  - cmp_cases (hash tn) (hash x); intros H; cbn; rewrite ?Ec; cbn; auto.
    unfold hash_cmp. rewrite Z.gtb_ltb, !Z.ltb_irrefl. reflexivity.
Qed.

Lemma find_link_tree_node t tn :
  find_tree_node t (hash tn) = None ->
  find_tree_node (link_tree_node t tn) (hash tn) = Some tn.
Proof.
  induction t as [|l IHl x r IHr]; cbn.
  - intros _. unfold hash_cmp. rewrite Z.gtb_ltb, !Z.ltb_irrefl. reflexivity.
  - cmp_cases (hash tn) (hash x); intros H; cbn; rewrite ?Ec; cbn; auto.
    discriminate.
Qed.

(** A second-level descent that ends at a free link gives the tree whose
    in-order sequence has gained the new node, and nothing else. *)
Lemma sub_descend_elements key_of t hm new t' :
  sub_descend key_of t hm new = inr t' ->
  exists l1 l2, rb_elements t = l1 ++ l2 /\ rb_elements t' = l1 ++ new :: l2.
Proof.
  revert t'. induction t as [|l IHl x r IHr]; cbn; intros t' H.
  - injection H as <-. exists [], []. split; reflexivity.
  - cmp_cases hm (key_of x).
    + destruct (sub_descend key_of l hm new) as [f|l'] eqn:E; [discriminate|].
      injection H as <-. destruct (IHl l' eq_refl) as (l1 & l2 & H1 & H2).
      exists l1, (l2 ++ x :: rb_elements r). cbn. rewrite H1, H2.
      rewrite <- !app_assoc. split; reflexivity.
    + discriminate.
    + destruct (sub_descend key_of r hm new) as [f|r'] eqn:E; [discriminate|].
      injection H as <-. destruct (IHr r' eq_refl) as (l1 & l2 & H1 & H2).
      exists (rb_elements l ++ x :: l1), l2. cbn. rewrite H1, H2.
      rewrite <- !app_assoc. split; reflexivity.
Qed.

(** The result of a descent does not depend on the node to link when it
    ends on a node. *)
Lemma sub_descend_found key_of t hm new new' :
  match sub_descend key_of t hm new, sub_descend key_of t hm new' with
  | inl a, inl b => a = b
  | inr _, inr _ => True
  | _, _ => False
  end.
Proof.
  induction t as [|l IHl x r IHr]; cbn; [exact I|].
  cmp_cases hm (key_of x).
  - destruct (sub_descend key_of l hm new), (sub_descend key_of l hm new');
      auto.
  - reflexivity.
  - destruct (sub_descend key_of r hm new), (sub_descend key_of r hm new');
      auto.
Qed.

(** [rb_erase] leaves only nodes of the tree that were not picked. *)
Lemma take_min_elements {A : Type} (t : rb A) :
  match take_min t with
  | Some (m, t') => rb_elements t = m :: rb_elements t'
  | None => t = Leaf
  end.
Proof.
  induction t as [|l IHl x r _]; cbn; [reflexivity|].
  destruct (take_min l) as [[m l']|].
  - cbn. rewrite IHl. reflexivity.
  - subst l. reflexivity.
Qed.

Lemma rb_erase_elements {A : Type} (is_it : A -> bool) (t : rb A) (y : A) :
  y ∈ rb_elements (rb_erase is_it t) ->
  y ∈ rb_elements t /\ is_it y = false.
Proof.
  induction t as [|l IHl x r IHr]; cbn; intros H; [inversion H|].
  assert (Hl : y ∈ rb_elements (rb_erase is_it l) ->
               y ∈ rb_elements l ++ x :: rb_elements r /\ is_it y = false).
  { intros Hy. destruct (IHl Hy) as [H1 H2]. split; [|exact H2].
    apply elem_of_app. left. exact H1. }
  assert (Hr : y ∈ rb_elements (rb_erase is_it r) ->
               y ∈ rb_elements l ++ x :: rb_elements r /\ is_it y = false).
  { intros Hy. destruct (IHr Hy) as [H1 H2]. split; [|exact H2].
    apply elem_of_app. right. right. exact H1. }
  destruct (is_it x) eqn:Ex.
  - pose proof (take_min_elements (rb_erase is_it r)) as Hmin.
    destruct (take_min (rb_erase is_it r)) as [[m r']|].
    + cbn in H. apply elem_of_app in H as [H|H]; [exact (Hl H)|].
      apply Hr. rewrite Hmin. exact H.
    + exact (Hl H).
  - cbn in H. apply elem_of_app in H as [H|H]; [exact (Hl H)|].
    apply elem_of_cons in H as [->|H]; [|exact (Hr H)].
    split; [|exact Ex]. apply elem_of_app. right. left.
Qed.

Lemma find_tree_node_elem t hv tn :
  find_tree_node t hv = Some tn -> tn ∈ rb_elements t.
Proof.
  induction t as [|l IHl x r IHr]; cbn; [discriminate|].
  cmp_cases hv (hash x); intros H; apply elem_of_app.
  - left. apply IHl. exact H.
  - injection H as <-. right. left.
  - right. right. apply IHr. exact H.
Qed.

(** A tree node erased from the first level is not found again, and a
    node erased from a sub-tree is not under its tree node any more. *)
Lemma erased_tree_node_gone t hv tn' :
  find_tree_node (rb_erase (fun x => hash x =? hv) t) hv = Some tn' -> False.
Proof.
  intros H. pose proof (find_tree_node_hash _ _ _ H) as Hh.
  apply find_tree_node_elem in H. apply rb_erase_elements in H as [_ H].
  apply Z.eqb_neq in H. contradiction.
Qed.

Lemma erased_node_gone t tn c node tn' :
  find_tree_node t (hash tn) = Some tn ->
  find_tree_node
    (put_tree_node t
       (mkTreeNode (hash tn) c
          (rb_erase (fun n => bool_decide (n = node)) (sub_root tn))))
    (hash tn) = Some tn' ->
  node ∉ rb_elements (sub_root tn').
Proof.
  intros Hf H.
  set (new := mkTreeNode (hash tn) c
                (rb_erase (fun n => bool_decide (n = node)) (sub_root tn))) in *.
  change (hash tn) with (hash new) in H.
  rewrite find_put_tree_node in H by (cbn; rewrite Hf; eauto).
  injection H as <-. cbn. intros Hin.
  apply rb_erase_elements in Hin as [_ Hin].
  apply bool_decide_eq_false in Hin. contradiction.
Qed.

(** A second-level descent that ends at a free link has linked the new
    node at the insertion point. *)
Lemma sub_descend_linked key_of t hm new t' :
  sub_descend key_of t hm new = inr t' -> linked_at key_of hm new t t'.
Proof.
  revert t'. induction t as [|l IHl x r IHr]; cbn; intros t' H.
  - injection H as <-. apply linked_here.
  - cmp_cases hm (key_of x).
    + destruct (sub_descend key_of l hm new) as [f|l'] eqn:E; [discriminate|].
      injection H as <-. apply linked_left; [exact Hc|].
      apply IHl. reflexivity.
    + discriminate.
    + destruct (sub_descend key_of r hm new) as [f|r'] eqn:E; [discriminate|].
      injection H as <-. apply linked_right; [exact Hc|].
      apply IHr. reflexivity.
Qed.

Lemma linked_at_ext key_of key_of' hm new t t' :
  (forall x, key_of' x = key_of x) ->
  linked_at key_of hm new t t' -> linked_at key_of' hm new t t'.
Proof.
  intros He H. induction H as [|l l' x r Hlt _ IH|l x r r' Hlt _ IH].
  - apply linked_here.
  - apply linked_left; [rewrite He; exact Hlt|exact IH].
  - apply linked_right; [rewrite He; exact Hlt|exact IH].
Qed.

(** A write to a tree node, and the link of a new one, leave the tree
    nodes of the other hash values where they are. *)
Lemma find_put_tree_node_ne t tn hv :
  hv <> hash tn ->
  find_tree_node (put_tree_node t tn) hv = find_tree_node t hv.
Proof.
  intros Hne. induction t as [|l IHl x r IHr]; cbn; [reflexivity|].
  cmp_cases (hash tn) (hash x); cbn.
  - rewrite IHl. reflexivity.
  - rewrite Hc. cmp_cases hv (hash x); try reflexivity. congruence.
  - rewrite IHr. reflexivity.
Qed.

Lemma find_link_tree_node_ne t tn hv :
  hv <> hash tn ->
  find_tree_node (link_tree_node t tn) hv = find_tree_node t hv.
Proof.
  intros Hne. induction t as [|l IHl x r IHr]; cbn.
  - cmp_cases hv (hash tn); try reflexivity. congruence.
  - cmp_cases (hash tn) (hash x); cbn.
    + rewrite IHl. reflexivity.
    + reflexivity.
    + rewrite IHr. reflexivity.
Qed.

Section WithPageSize.

Variable PAGE_SHIFT : Z.
Variable random_nums : Z -> Z.

Local Abbreviation page_hash := (page_hash PAGE_SHIFT random_nums).
Local Abbreviation page_hash_max := (page_hash_max PAGE_SHIFT random_nums).
Local Abbreviation rmap_item_hash_max :=
  (rmap_item_hash_max PAGE_SHIFT random_nums).
Local Abbreviation FULL := (HASH_STRENGTH_FULL PAGE_SHIFT).
Local Abbreviation MAX := (HASH_STRENGTH_MAX PAGE_SHIFT).

(** *** What the hash functions change *)

Lemma page_hash_max_spec st p hash_old r :
  page_hash_max st p hash_old = Ok r ->
  r.1 <> 0 /\
  r.2 = set_cost st (rshash_pos st)
          (u64 (rshash_neg st + u64 (MAX - hash_strength st))).
Proof.
  unfold Engine.page_hash_max. intros H. inv_bind H.
  injection H as <-. cbn. split; [|reflexivity].
  destruct (Z.eqb_spec
    (Hash.delta_hash FULL random_nums (content a) (hash_strength st) MAX
       hash_old) 0); [lia|assumption].
Qed.

Lemma rmap_item_hash_max_spec st item hv r :
  rmap_item_hash_max st item hv = Ok r ->
  exists x, items st !! item = Some x /\
    ((hash_max x <> 0 /\ r = (hash_max x, st)) \/
     (hash_max x = 0 /\ r.1 <> 0 /\
      r.2 = put_item
              (set_cost st (rshash_pos st)
                 (u64 (rshash_neg st + u64 (MAX - hash_strength st))))
              item (set_hash_max x r.1))).
Proof.
  unfold Engine.rmap_item_hash_max, get_item. intros H.
  destruct (items st !! item) as [x|] eqn:Ex; [|discriminate].
  cbn in H. exists x. split; [reflexivity|].
  destruct (Z.eqb_spec (hash_max x) 0) as [Hz|Hz].
  - right. inv_bind H. destruct a as [hm st1].
    apply page_hash_max_spec in E. cbn in E. destruct E as [Hnz ->].
    cbn in H. rewrite Ex in H. cbn in H. injection H as <-. auto.
  - left. injection H as <-. auto.
Qed.


Lemma rmap_item_hash_max_frame st item hv r :
  rmap_item_hash_max st item hv = Ok r ->
  is_Some (items r.2 !! item) /\
  root_unstable_tree r.2 = root_unstable_tree st /\
  root_stable_tree r.2 = root_stable_tree st /\
  ksm_scan_round r.2 = ksm_scan_round st /\
  stable_nodes r.2 = stable_nodes st /\
  pages r.2 = pages st.
Proof.
  intros H. apply rmap_item_hash_max_spec in H as (x & Hx & [[_ ->]|(_ & _ & ->)]).
  - cbn. rewrite Hx. eauto 10.
  - cbn. rewrite lookup_insert_eq. eauto 10.
Qed.

(** *** Searching and inserting in the unstable tree *)

Variable h : host.

Local Abbreviation unstable_tree_search_insert :=
  (unstable_tree_search_insert PAGE_SHIFT random_nums h).
Local Abbreviation no_terminal_match :=
  (no_terminal_match PAGE_SHIFT random_nums).

Lemma item_key_put st item x x' y :
  items st !! item = Some x -> hash_max x' = hash_max x ->
  item_key (put_item st item x') y = item_key st y.
Proof.
  intros Hx Hh. unfold item_key. cbn.
  destruct (decide (y = item)) as [->|Hne].
  - rewrite lookup_insert_eq, Hx. cbn. exact Hh.
  - rewrite lookup_insert_ne by congruence. reflexivity.
Qed.

Lemma install_installed st0 st item tn sub l1 l2 :
  is_Some (items st !! item) ->
  find_tree_node (root_unstable_tree st) (hash tn) = Some tn ->
  ksm_scan_round st = ksm_scan_round st0 ->
  linked_at (item_key st) (item_key st item) item
    (unstable_sub st0 (hash tn)) sub ->
  (forall hv, hv <> hash tn ->
     find_tree_node (root_unstable_tree st) hv
     = find_tree_node (root_unstable_tree st0) hv) ->
  unstable_items st0 (hash tn) = l1 ++ l2 ->
  rb_elements sub = l1 ++ item :: l2 ->
  exists st', install st item tn sub = Ok (None, st') /\
              installed st0 st' item (hash tn) /\
              rshash_pos st' = rshash_pos st /\
              rshash_neg st' = rshash_neg st.
Proof.
  intros [x Hx] Hf Hround Hlink Hothers Hold Hsub. unfold install, get_item.
  rewrite Hx. cbn [bind]. eexists. split; [reflexivity|].
  split; [|split; reflexivity].
  assert (Hfind : find_tree_node
                    (put_tree_node (root_unstable_tree st)
                       (mkTreeNode (hash tn) (count tn) sub)) (hash tn)
                  = Some (mkTreeNode (hash tn) (count tn) sub)).
  { change (hash tn) with (hash (mkTreeNode (hash tn) (count tn) sub)) at 2.
    apply find_put_tree_node. cbn. rewrite Hf. eauto. }
  split; [|split; [|split]].
  - eexists. split; [cbn; apply lookup_insert_eq|].
    cbn. unfold in_unstable_tree. cbn.
    unfold UNSTABLE_FLAG. rewrite lor_flag_1. auto.
  - unfold unstable_sub at 2. cbn. rewrite Hfind. cbn.
    apply (linked_at_ext (item_key st)).
    + intros y. apply (item_key_put st item x); [exact Hx|reflexivity].
    + replace (item_key _ item) with (item_key st item); [exact Hlink|].
      symmetry. apply (item_key_put st item x); [exact Hx|reflexivity].
  - intros hv Hne. cbn. rewrite <- (Hothers hv Hne).
    apply find_put_tree_node_ne. exact Hne.
  - exists l1, l2. split; [exact Hold|].
    unfold unstable_items. cbn. rewrite Hfind. exact Hsub.
Qed.

(** The [hash_max] that [rmap_item_hash_max] answers is the one the item
    holds afterwards. *)
Lemma rmap_item_hash_max_key st item hv r :
  rmap_item_hash_max st item hv = Ok r -> item_key r.2 item = r.1.
Proof.
  intros H. apply rmap_item_hash_max_spec in H
    as (x & Hx & [[_ ->]|(_ & _ & ->)]); unfold item_key; cbn.
  - rewrite Hx. reflexivity.
  - rewrite lookup_insert_eq. reflexivity.
Qed.

(** What a call without a terminal match does. *)
Lemma search_insert_miss st rmap_item hash_val :
  is_Some (items st !! rmap_item) ->
  no_terminal_match st rmap_item hash_val ->
  alloc_tree_node_ok h = true
  \/ is_Some (find_tree_node (root_unstable_tree st) hash_val) ->
  exists st',
    unstable_tree_search_insert st rmap_item hash_val = Ok (None, st') /\
    installed st st' rmap_item hash_val /\
    rshash_pos st' = rshash_pos st /\
    rshash_neg st' =
      match find_tree_node (root_unstable_tree st) hash_val,
            items st !! rmap_item with
      | Some _, Some x =>
          if hash_max x =? 0
          then u64 (rshash_neg st + u64 (MAX - hash_strength st))
          else rshash_neg st
      | _, _ => rshash_neg st
      end.
Proof.
  intros Hitem Hno Hnode.
  unfold Engine.unstable_tree_search_insert.
  unfold Engine.no_terminal_match in Hno.
  destruct (find_tree_node (root_unstable_tree st) hash_val) as [tn|] eqn:Ef.
  - destruct Hno as (Hcount & Hsub & r & Hr & Hfind).
    pose proof (find_tree_node_hash _ _ _ Ef) as Hh.
    destruct (Z.eqb_spec (count tn) 1) as [|_]; [contradiction|].
    destruct (sub_root tn) as [|l y rt] eqn:Esub; [contradiction|].
    cbn [RB_EMPTY_ROOT BUG_ON bind]. rewrite Hr. cbn [bind].
    pose proof (rmap_item_hash_max_key _ _ _ _ Hr) as Hkey.
    destruct r as [hm st1]. cbn [fst snd] in Hfind, Hkey.
    pose proof (rmap_item_hash_max_frame _ _ _ _ Hr)
      as (Hit1 & Hroot & _ & Hround & _).
    cbn [fst snd] in Hit1, Hroot, Hround.
    unfold sub_find in Hfind.
    pose proof (sub_descend_found (item_key st1) (Node l y rt) hm
                  0%nat rmap_item) as Hd.
    destruct (sub_descend (item_key st1) (Node l y rt) hm 0%nat) as [f|s0];
      [discriminate|].
    destruct (sub_descend (item_key st1) (Node l y rt) hm rmap_item)
      as [f|sub] eqn:Ed; [contradiction|].
    pose proof (sub_descend_linked _ _ _ _ _ Ed) as Hlink.
    apply sub_descend_elements in Ed as (l1 & l2 & H1 & H2).
    subst hash_val.
    destruct (install_installed st st1 rmap_item tn sub l1 l2)
      as (st' & Hrun & Hin & Hpos & Hneg); auto.
    { rewrite Hroot. exact Ef. }
    { unfold unstable_sub. rewrite Ef, Esub, Hkey. exact Hlink. }
    { intros hv _. rewrite Hroot. reflexivity. }
    { unfold unstable_items. rewrite Ef, Esub. exact H1. }
    exists st'. split; [exact Hrun|]. split; [exact Hin|].
    rewrite Hpos, Hneg.
    apply rmap_item_hash_max_spec in Hr
      as (x & Hx & [[Hnz E]|(Hz & _ & E)]); rewrite Hx.
    + injection E as _ <-.
      destruct (Z.eqb_spec (hash_max x) 0); [contradiction|]. auto.
    + cbn [fst snd] in E. subst st1. rewrite Hz. cbn. auto.
  - destruct Hnode as [Halloc|[tn Htn]]; [|discriminate].
    rewrite Halloc.
    set (tn := mkTreeNode hash_val 0 Leaf).
    destruct (install_installed st
                (set_root_unstable_tree st
                   (link_tree_node (root_unstable_tree st) tn))
                rmap_item tn (Node Leaf rmap_item Leaf) [] [])
      as (st' & Hrun & Hin & Hpos & Hneg); auto.
    { cbn. apply (find_link_tree_node _ tn). exact Ef. }
    { unfold unstable_sub. cbn. rewrite Ef. apply linked_here. }
    { intros hv Hne. cbn. apply find_link_tree_node_ne. exact Hne. }
    { unfold unstable_items. cbn. rewrite Ef. reflexivity. }
    exists st'. auto.
Qed.

(** C7, as amended.  A call of [unstable_tree_search_insert] whose
    descents end without a terminal match, and which gets the tree node it
    needs (there is one with this hash value already, or the allocation of
    a new one succeeds), returns none and leaves the item installed: its
    address carries [UNSTABLE_FLAG], [append_round] is the current scan
    round, and the item is linked under the tree node of its hash value at
    the insertion point of the descent by [hash_max], left of every node
    with a larger [hash_max] it met and right of every node with a smaller
    one, the rest of the tree being as it was.  When no tree node has the
    hash value and [alloc_tree_node] fails, the call returns none and the
    state is the one it was called in: nothing is installed, flagged or
    stamped. *)
Theorem unstable_insert_installs st rmap_item hash_val :
  is_Some (items st !! rmap_item) ->
  no_terminal_match st rmap_item hash_val ->
  (alloc_tree_node_ok h = true
   \/ is_Some (find_tree_node (root_unstable_tree st) hash_val) ->
   exists st',
     unstable_tree_search_insert st rmap_item hash_val = Ok (None, st') /\
     installed st st' rmap_item hash_val) /\
  (alloc_tree_node_ok h = false ->
   find_tree_node (root_unstable_tree st) hash_val = None ->
   unstable_tree_search_insert st rmap_item hash_val = Ok (None, st)).
Proof.
  intros Hitem Hno. split.
  - intros Hnode.
    destruct (search_insert_miss st rmap_item hash_val Hitem Hno Hnode)
      as (st' & Hrun & Hin & _).
    exists st'. split; assumption.
  - intros Halloc Hnone. unfold Engine.unstable_tree_search_insert.
    rewrite Hnone, Halloc. reflexivity.
Qed.

(** *** Searching the stable tree *)

Local Abbreviation stable_tree_search :=
  (stable_tree_search PAGE_SHIFT random_nums).
Local Abbreviation try_to_merge_with_ksm_page :=
  (try_to_merge_with_ksm_page PAGE_SHIFT random_nums h).
Local Abbreviation try_to_merge_two_pages :=
  (try_to_merge_two_pages PAGE_SHIFT random_nums h).
Local Abbreviation get_ksm_page := (get_ksm_page PAGE_SHIFT).
Local Abbreviation memcmp := (memcmp PAGE_SHIFT).
Local Abbreviation check_collision :=
  (check_collision PAGE_SHIFT random_nums).

Lemma get_ksm_page_hit st node unlink_rb remove_tree_node k st1 :
  get_ksm_page st node unlink_rb remove_tree_node = Ok (Some k, st1) ->
  keyhole st node k /\
  exists kp, pages st !! k = Some kp /\
    st1 = put_page_of st k (mkPage (content kp) (mapping kp) (_count kp + 1)).
Proof.
  unfold Engine.get_ksm_page, get_stable_node, get_page_of. intros H.
  destruct (stable_nodes st !! node) as [sn|] eqn:Esn; [|discriminate].
  cbn [bind] in H.
  destruct (pages st !! kpfn sn) as [kp|] eqn:Ekp; [|discriminate].
  cbn [bind] in H.
  destruct (bool_decide (mapping kp = MapKsm (Some node))) eqn:Em;
    cbn [andb] in H.
  - destruct (Z.eqb_spec (_count kp) 0) as [Hz|Hz]; cbn [negb] in H.
    + inv_bind H. discriminate.
    + injection H as <- <-. apply bool_decide_eq_true in Em.
      split; [exists sn, kp; auto|]. exists kp. auto.
  - inv_bind H. discriminate.
Qed.

Lemma check_collision_err st item hv err st' :
  check_collision st item hv = Ok (err, st') ->
  err = MERGE_ERR_COLLI \/ err = MERGE_ERR_CHANGED.
Proof.
  unfold Engine.check_collision. intros H. inv_bind H.
  destruct (negb (hash_max a =? 0)).
  - inv_bind H. inv_bind H. injection H as <- _.
    destruct (hash_max a =? a1.1); auto.
  - inv_bind H. inv_bind H. injection H as <- _.
    destruct (a1.1 =? hv); auto.
Qed.

(** A merge into a KSM page other than the page of the item succeeds only
    after [memcmp] found the two frames equal. *)
Lemma merge_with_ksm_page_compares st item x k hv st2 :
  items st !! item = Some x -> item_page x <> k ->
  try_to_merge_with_ksm_page st item (Some k) hv = Ok (0, st2) ->
  exists p kp, pages st !! item_page x = Some p /\ pages st !! k = Some kp /\
               memcmp (content p) (content kp) = false.
Proof.
  intros Hx Hne. unfold Engine.try_to_merge_with_ksm_page, get_item.
  rewrite Hx. cbn [bind].
  unfold MERGE_ERR_PGERR.
  destruct (ksm_test_exit h (slot x)); [discriminate|].
  rewrite bool_decide_eq_false_2 by congruence.
  unfold get_page_of.
  destruct (pages st !! item_page x) as [p|] eqn:Ep; [|discriminate].
  destruct (pages st !! k) as [kp|] eqn:Ek; [|discriminate].
  cbn [bind].
  destruct (negb (PageAnon p) || negb (PageKsm kp)); [discriminate|].
  destruct (negb (trylock_page h (item_page x))); [discriminate|].
  destruct (write_protect_page h (item_page x)); [|discriminate].
  unfold pages_identical, memcmp_pages, get_page_of.
  rewrite Ep, Ek. cbn [bind fst snd].
  intros H. exists p, kp. split; [reflexivity|]. split; [reflexivity|].
  destruct (Engine.memcmp PAGE_SHIFT (content p) (content kp)) eqn:Ec;
    [|reflexivity].
  cbn [negb] in H. apply check_collision_err in H.
  unfold MERGE_ERR_COLLI, MERGE_ERR_CHANGED in H. lia.
Qed.

(** *** A stale stable node *)

(** What the loops of [remove_node_from_stable_tree] leave alone. *)
Definition stable_frame (st st' : state) : Prop :=
  root_stable_tree st' = root_stable_tree st /\
  stable_nodes st' = stable_nodes st /\
  forall i, is_Some (items st !! i) -> is_Some (items st' !! i).

Lemma stable_frame_refl st : stable_frame st st.
Proof. split; [reflexivity|]. split; [reflexivity|]. auto. Qed.

Lemma stable_frame_trans st st1 st2 :
  stable_frame st st1 -> stable_frame st1 st2 -> stable_frame st st2.
Proof.
  intros (H1 & H2 & H3) (H4 & H5 & H6).
  split; [congruence|]. split; [congruence|]. auto.
Qed.

(** The loops run to their end when the items they visit are there. *)
Lemma unshare_items_run l : forall st,
  (forall i, i ∈ l -> is_Some (items st !! i)) ->
  exists st', foldl (unshare_item PAGE_SHIFT) (Ok st) l = Ok st' /\
              stable_frame st st'.
Proof.
  induction l as [|i l IH]; intros st Hl.
  - exists st. split; [reflexivity|apply stable_frame_refl].
  - cbn [foldl]. destruct (Hl i) as [x Hx]; [left|].
    assert (E : exists st1, unshare_item PAGE_SHIFT (Ok st) i = Ok st1 /\
                            stable_frame st st1).
    { unfold unshare_item, get_item. cbn [bind]. cbn [items set_counters].
      rewrite Hx. cbn [bind]. eexists. split; [reflexivity|].
      split; [reflexivity|]. split; [reflexivity|].
      intros j Hj. cbn. destruct (decide (j = i)) as [->|Hne].
      - rewrite lookup_insert_eq. eauto.
      - rewrite lookup_insert_ne by congruence. exact Hj. }
    destruct E as (st1 & E & Hf1). rewrite E.
    destruct (IH st1) as (st' & Hrun & Hf).
    { intros j Hj. apply Hf1. apply Hl. right. exact Hj. }
    exists st'. split; [exact Hrun|].
    apply (stable_frame_trans st st1); assumption.
Qed.

Lemma unshare_nodes_run l : forall st,
  (forall nv i, nv ∈ l -> i ∈ rmap_hlist nv -> is_Some (items st !! i)) ->
  exists st', foldl (unshare_node_vma PAGE_SHIFT) (Ok st) l = Ok st' /\
              stable_frame st st'.
Proof.
  induction l as [|nv l IH]; intros st Hl.
  - exists st. split; [reflexivity|apply stable_frame_refl].
  - cbn [foldl]. unfold unshare_node_vma at 2.
    destruct (unshare_items_run (rmap_hlist nv) st) as (st1 & E & Hf1).
    { intros i Hi. apply (Hl nv); [left|exact Hi]. }
    rewrite E. destruct (IH st1) as (st' & Hrun & Hf).
    { intros nv' i Hnv Hi. apply Hf1. apply (Hl nv'); [right|]; assumption. }
    exists st'. split; [exact Hrun|].
    apply (stable_frame_trans st st1); assumption.
Qed.

(** The removal of a stable node that hangs under a tree node of the
    stable tree: it runs to its end, the node is freed and no sub-tree
    under the hash value holds it any more. *)
Lemma remove_node_run st node sn tn :
  stable_nodes st !! node = Some sn ->
  sn_tree_node sn = Some (hash tn) ->
  find_tree_node (root_stable_tree st) (hash tn) = Some tn ->
  (forall nv i, nv ∈ hlist sn -> i ∈ rmap_hlist nv ->
                is_Some (items st !! i)) ->
  exists st',
    remove_node_from_stable_tree PAGE_SHIFT st node true true = Ok st' /\
    stable_nodes st' !! node = None /\
    forall tn', find_tree_node (root_stable_tree st') (hash tn) = Some tn' ->
                node ∉ rb_elements (sub_root tn').
Proof.
  intros Hsn Htree Hfind Hitems.
  unfold remove_node_from_stable_tree, get_stable_node.
  rewrite Hsn. cbn [bind].
  destruct (negb (bool_decide (hlist sn = []))).
  - destruct (unshare_nodes_run (hlist sn) st Hitems)
      as (st0 & E & Hroot & Hnodes & _).
    rewrite E. cbn [bind]. rewrite Htree. unfold get_stable_tree_node.
    cbn [root_stable_tree set_counters]. rewrite Hroot, Hfind. cbn [bind].
    destruct (RB_EMPTY_ROOT _ && true); cbn [bind]; eexists;
      (split; [reflexivity|]);
      (split; [cbn; rewrite Hnodes; apply lookup_delete_eq|]);
      intros tn' Hf'; cbn in Hf'; rewrite ?Hroot in Hf'.
    + destruct (erased_tree_node_gone _ _ _ Hf').
    + exact (erased_node_gone _ _ _ _ _ Hfind Hf').
  - cbn [bind]. rewrite Htree. unfold get_stable_tree_node.
    rewrite Hfind. cbn [bind].
    destruct (RB_EMPTY_ROOT _ && true); cbn [bind]; eexists;
      (split; [reflexivity|]); (split; [cbn; apply lookup_delete_eq|]);
      intros tn' Hf'; cbn in Hf'.
    + destruct (erased_tree_node_gone _ _ _ Hf').
    + exact (erased_node_gone _ _ _ _ _ Hfind Hf').
Qed.

(** The keyhole check read on the records of the stable node and of its
    page. *)
Lemma keyhole_check st node sn kp :
  stable_nodes st !! node = Some sn -> pages st !! kpfn sn = Some kp ->
  (keyhole st node (kpfn sn) <->
   bool_decide (mapping kp = MapKsm (Some node)) && negb (_count kp =? 0)
   = true).
Proof.
  intros Hsn Hkp. split.
  - intros (sn' & kp' & Hsn' & Hk & Hkp' & Hmap & Hcnt).
    assert (sn' = sn) by congruence. subst sn'.
    assert (kp' = kp) by congruence. subst kp'.
    apply andb_true_iff. split; [apply bool_decide_eq_true; exact Hmap|].
    apply negb_true_iff, Z.eqb_neq. exact Hcnt.
  - intros H. apply andb_true_iff in H as [Hmap Hcnt].
    apply bool_decide_eq_true in Hmap.
    apply negb_true_iff, Z.eqb_neq in Hcnt.
    exists sn, kp. auto.
Qed.

(** C4, as amended.  When the first-level descent of [stable_tree_search]
    ends on a tree node with [count = 1], the search is the keyhole check
    of the stable node at the root of its sub-tree, and no content is
    compared.  If the page of the node points back at the node and is
    still referenced, the search reports the page and takes one reference
    on it, changing nothing else; the [memcmp] is made afterwards, by
    [try_to_merge_with_ksm_page]: the merge into the reported page
    succeeds only if the two frames are equal.  If the keyhole check fails,
    the search returns none and the stale node is removed: it is freed and
    the sub-tree under the hash value holds it no more.  A page is reported
    only when the check passed. *)
Theorem stable_hit_compared_at_merge st rmap_item x pg hash_val tn node sn kp :
  items st !! rmap_item = Some x ->
  pages st !! item_page x = Some pg ->
  page_stable_node pg = None ->
  find_tree_node (root_stable_tree st) hash_val = Some tn ->
  count tn = 1 ->
  rb_root_entry (sub_root tn) = Some node ->
  stable_nodes st !! node = Some sn ->
  pages st !! kpfn sn = Some kp ->
  (keyhole st node (kpfn sn) ->
   let st1 := put_page_of st (kpfn sn)
                (mkPage (content kp) (mapping kp) (_count kp + 1)) in
   stable_tree_search st rmap_item hash_val = Ok (Some (kpfn sn), st1) /\
   forall st2,
     try_to_merge_with_ksm_page st1 rmap_item (Some (kpfn sn)) hash_val
     = Ok (0, st2) ->
     memcmp (content pg) (content kp) = false) /\
  (~ keyhole st node (kpfn sn) ->
   sn_tree_node sn = Some hash_val ->
   (forall nv i, nv ∈ hlist sn -> i ∈ rmap_hlist nv ->
                 is_Some (items st !! i)) ->
   exists st',
     stable_tree_search st rmap_item hash_val = Ok (None, st') /\
     remove_node_from_stable_tree PAGE_SHIFT st node true true = Ok st' /\
     stable_nodes st' !! node = None /\
     forall tn', find_tree_node (root_stable_tree st') hash_val = Some tn' ->
                 node ∉ rb_elements (sub_root tn')) /\
  (forall k st1,
     stable_tree_search st rmap_item hash_val = Ok (Some k, st1) ->
     k = kpfn sn /\ keyhole st node (kpfn sn)).
Proof.
  intros Hx Hpg Hnot Hf Hcount Hroot Hsn Hkp.
  assert (Hsearch : stable_tree_search st rmap_item hash_val
                    = get_ksm_page st node true true).
  { unfold Engine.stable_tree_search, get_item, get_page_of.
    rewrite Hx. cbn [bind]. rewrite Hpg. cbn [bind].
    rewrite Hnot, Hf, Hcount, Hroot. reflexivity. }
  rewrite Hsearch. unfold Engine.get_ksm_page, get_stable_node, get_page_of.
  rewrite Hsn. cbn [bind]. rewrite Hkp. cbn [bind].
  pose proof (keyhole_check st node sn kp Hsn Hkp) as Hcheck.
  split; [|split].
  - intros Hkey. pose proof Hkey as Hc. apply Hcheck in Hc. rewrite Hc.
    cbv zeta. split; [reflexivity|]. intros st2 Hmerge.
    destruct Hkey as (sn' & kp' & Hsn' & _ & Hkp' & Hmap & _).
    assert (sn' = sn) by congruence. subst sn'.
    assert (kp' = kp) by congruence. subst kp'.
    assert (Hne : item_page x <> kpfn sn).
    { intros E. rewrite E in Hpg.
      assert (pg = kp) by congruence. subst pg.
      unfold page_stable_node in Hnot. rewrite Hmap in Hnot. discriminate. }
    apply (merge_with_ksm_page_compares _ rmap_item x (kpfn sn)) in Hmerge;
      [|exact Hx|exact Hne].
    destruct Hmerge as (p & kp1 & Hp & Hkp1 & Hcmp).
    cbn in Hp, Hkp1.
    rewrite lookup_insert_ne in Hp by congruence.
    rewrite lookup_insert_eq in Hkp1. injection Hkp1 as <-.
    assert (p = pg) by congruence. subst p. exact Hcmp.
  - intros Hkey Htree Hitems.
    destruct (bool_decide (mapping kp = MapKsm (Some node))
              && negb (_count kp =? 0)) eqn:Ec.
    { exfalso. apply Hkey. apply Hcheck. reflexivity. }
    pose proof (find_tree_node_hash _ _ _ Hf) as Hh. subst hash_val.
    destruct (remove_node_run st node sn tn Hsn Htree Hf Hitems)
      as (st' & Hrun & Hgone & Hsub).
    exists st'. rewrite Hrun. cbn [bind]. auto.
  - intros k st1 Hhit.
    destruct (bool_decide (mapping kp = MapKsm (Some node))
              && negb (_count kp =? 0)) eqn:Ec.
    + injection Hhit as <- _. split; [reflexivity|].
      apply Hcheck. reflexivity.
    + apply bind_Ok in Hhit as (st0 & _ & Hhit). discriminate.
Qed.

(** *** The cost of a collision *)

(** [try_to_merge_two_pages] answers [MERGE_ERR_COLLI] when the frames
    differ and their sampled hashes are equal; [rshash_neg] has then grown
    by [memcmp_cost + hash_strength * 2]. *)
Lemma merge_two_pages_collision st item tree_item hv st' :
  try_to_merge_two_pages st item tree_item hv = Ok (MERGE_ERR_COLLI, st') ->
  rshash_pos st' = rshash_pos st /\
  rshash_neg st' =
    u64 (rshash_neg st + u64 (memcmp_cost st + u64 (hash_strength st * 2))) /\
  exists x tx p tp,
    items st !! item = Some x /\ items st !! tree_item = Some tx /\
    pages st !! item_page x = Some p /\ pages st !! item_page tx = Some tp /\
    memcmp (content p) (content tp) = true.
Proof.
  unfold Engine.try_to_merge_two_pages, get_item, get_page_of.
  unfold MERGE_ERR_COLLI, MERGE_ERR_PGERR, MERGE_ERR_CHANGED.
  destruct (items st !! item) as [x|] eqn:Ex; [|discriminate].
  destruct (items st !! tree_item) as [tx|] eqn:Etx; [|discriminate].
  cbn [bind].
  destruct (bool_decide (item_page x = item_page tx)) eqn:Esame;
    [discriminate|].
  apply bool_decide_eq_false in Esame.
  destruct (pages st !! item_page x) as [p|] eqn:Ep; [|discriminate].
  destruct (pages st !! item_page tx) as [tp|] eqn:Etp; [|discriminate].
  cbn [bind].
  destruct (negb (PageAnon p) || negb (PageAnon tp)); [discriminate|].
  destruct (negb (trylock_page h (item_page x))); [discriminate|].
  destruct (negb (write_protect_page h (item_page x))); [discriminate|].
  unfold set_page_stable_node, get_page_of. rewrite Ep. cbn [bind].
  set (st1 := put_page_of st (item_page x) _).
  assert (Hrestore : forall e s s', 
    (if restore_ksm_page_pte h (item_page x)
     then do p0 <- match pages s !! item_page x with
                   | Some x0 => Ok x0
                   | None => OutOfBounds
                   end ;;
          Ok (e, put_page_of s (item_page x)
                   (mkPage (content p0) (mapping p) (_count p0)))
     else Ok (e, s)) = Ok (2, s') ->
    e = 2 /\ rshash_pos s' = rshash_pos s /\ rshash_neg s' = rshash_neg s).
  { intros e s s' H. destruct (restore_ksm_page_pte h (item_page x)).
    - inv_bind H. injection H as -> <-. auto.
    - injection H as -> <-. auto. }
  destruct (negb (trylock_page h (item_page tx))).
  { intros H. apply Hrestore in H as [H _]. discriminate. }
  destruct (negb (write_protect_page h (item_page tx))).
  { intros H. apply Hrestore in H as [H _]. discriminate. }
  unfold pages_identical, memcmp_pages, get_page_of.
  assert (Ep1 : pages st1 !! item_page x
                = Some (mkPage (content p) (MapKsm None) (_count p))).
  { subst st1. cbn. apply lookup_insert_eq. }
  assert (Etp1 : pages st1 !! item_page tx = Some tp).
  { subst st1. cbn. rewrite lookup_insert_ne by congruence. exact Etp. }
  rewrite Ep1, Etp1. cbn [bind fst snd content].
  destruct (Engine.memcmp PAGE_SHIFT (content p) (content tp)) eqn:Ec;
    cbn [negb].
  - unfold Engine.page_hash, get_page_of. rewrite Ep1. cbn [bind fst snd].
    rewrite Etp1. cbn [bind fst snd]. 
    match goal with |- context [if ?c then _ else _] => destruct c end.
    + intros H. apply Hrestore in H as (_ & Hpos & Hneg).
      rewrite Hpos, Hneg. cbn.
      split; [reflexivity|]. split; [reflexivity|].
      exists x, tx, p, tp. auto.
    + intros H. apply Hrestore in H as [H _]. discriminate.
  - destruct (replace_page h (item_page tx) (item_page x)).
    + intros H. inv_bind H. discriminate.
    + intros H. apply Hrestore in H as [H _]. discriminate.
Qed.

End WithPageSize.

(** C7, counterexample to the claim as stated: with the unstable tree
    empty there is no terminal match for item 4, yet on a host that cannot
    allocate a tree node the call returns none with nothing installed. *)
Lemma unstable_insert_nomem :
  is_Some (items Examples.engine0 !! 4%nat) /\
  no_terminal_match Examples.page_shift Examples.sample_order
    Examples.engine0 4 Examples.hash_a1 /\
  unstable_tree_search_insert Examples.page_shift Examples.sample_order
    Examples.host_nomem Examples.engine0 4%nat Examples.hash_a1
  = Ok (None, Examples.engine0) /\
  ~ installed Examples.engine0 Examples.engine0 4 Examples.hash_a1.
Proof.
  split; [eexists; reflexivity|].
  split; [exact I|]. split; [reflexivity|].
  intros [(x & Hx & Hflag & _) _].
  vm_compute in Hx. injection Hx as <-. vm_compute in Hflag. discriminate.
Qed.

(** The call of the theorem on a host that can allocate, for item 5 after
    item 4 was scanned: the tree node of their hash value is there, with
    [count = 0], and item 5 becomes the second item under it, to the right
    of item 4. *)
Lemma unstable_insert_installs_witness :
  exists st',
    unstable_tree_search_insert Examples.page_shift Examples.sample_order
      Examples.host_ok Examples.engine_a 5%nat Examples.hash_a1
    = Ok (None, st') /\
    installed Examples.engine_a st' 5 Examples.hash_a1.
Proof.
  apply (unstable_insert_installs Examples.page_shift Examples.sample_order
           Examples.host_ok Examples.engine_a 5%nat Examples.hash_a1).
  - eexists. vm_compute. reflexivity.
  - unfold no_terminal_match.
    replace (find_tree_node (root_unstable_tree Examples.engine_a)
               Examples.hash_a1)
      with (Some (mkTreeNode Examples.hash_a1 0 (Node Leaf 4%nat Leaf)))
      by (vm_compute; reflexivity).
    split; [discriminate|]. split; [discriminate|].
    eexists. split; vm_compute; reflexivity.
  - left. reflexivity.
Defined.

(** C4, counterexample to the claim as stated: the hash of frame 7 at
    strength 1 hits the tree node of stable node 0, whose [count] is 1;
    the search reports frame 9, with a reference taken, although the two
    frames differ. *)
Lemma stable_search_hit_unverified :
  let st := Examples.engine_stable in
  (item_page <$> items st !! 4%nat) = Some 7%nat /\
  (content <$> pages st !! 7%nat) = Some Examples.frame_a /\
  (content <$> pages st !! 9%nat) = Some Examples.frame_b /\
  page_hash Examples.page_shift Examples.sample_order st 7
    (hash_strength st) false = Ok (Examples.hash_a1, st) /\
  (count <$> find_tree_node (root_stable_tree st) Examples.hash_a1)
  = Some 1 /\
  (exists st',
     stable_tree_search Examples.page_shift Examples.sample_order st 4
       Examples.hash_a1 = Ok (Some 9%nat, st') /\
     (_count <$> pages st' !! 9%nat) = Some 2) /\
  memcmp Examples.page_shift Examples.frame_a Examples.frame_b = true.
Proof.
  cbv zeta. do 5 (split; [vm_compute; reflexivity|]).
  split; [|vm_compute; reflexivity].
  eexists. split; vm_compute; reflexivity.
Qed.

(** The theorem at a search that is followed by a merge, where frame 9
    holds the words of frame 7, and at a search that finds frame 9 freed:
    stable node 0 is removed with the tree node of its hash value. *)
Lemma stable_hit_compared_at_merge_witness :
  (let st := Examples.engine_same in
   let st1 := put_page_of st 9 (mkPage Examples.frame_a (MapKsm (Some 0%nat)) 2) in
   stable_tree_search Examples.page_shift Examples.sample_order st 4
     Examples.hash_a1 = Ok (Some 9%nat, st1) /\
   forall st2,
     try_to_merge_with_ksm_page Examples.page_shift Examples.sample_order
       Examples.host_ok st1 4 (Some 9%nat) Examples.hash_a1 = Ok (0, st2) ->
     memcmp Examples.page_shift Examples.frame_a Examples.frame_a = false) /\
  (let st := Examples.engine_stale in
   exists st',
     stable_tree_search Examples.page_shift Examples.sample_order st 4
       Examples.hash_a1 = Ok (None, st') /\
     remove_node_from_stable_tree Examples.page_shift st 0 true true
     = Ok st' /\
     stable_nodes st' !! 0%nat = None /\
     forall tn', find_tree_node (root_stable_tree st') Examples.hash_a1
                 = Some tn' ->
                 0%nat ∉ rb_elements (sub_root tn')).
Proof.
  split.
  - apply (stable_hit_compared_at_merge Examples.page_shift
             Examples.sample_order Examples.host_ok Examples.engine_same 4%nat
             (mkItem 1 4096 7 0 0 0 (0, 0)%nat)
             (mkPage Examples.frame_a (MapAnon 1) 1) Examples.hash_a1
             (mkTreeNode Examples.hash_a1 1 (Node Leaf 0%nat Leaf)) 0%nat
             (mkStableNode 9 0 (Some Examples.hash_a1)
                [mkNodeVma 3 1 [6%nat]])
             (mkPage Examples.frame_a (MapKsm (Some 0%nat)) 1));
      try reflexivity.
    eexists _, _. repeat split; try reflexivity. cbn. lia.
  - apply (stable_hit_compared_at_merge Examples.page_shift
             Examples.sample_order Examples.host_ok Examples.engine_stale
             4%nat (mkItem 1 4096 7 0 0 0 (0, 0)%nat)
             (mkPage Examples.frame_a (MapAnon 1) 1) Examples.hash_a1
             (mkTreeNode Examples.hash_a1 1 (Node Leaf 0%nat Leaf)) 0%nat
             (mkStableNode 9 0 (Some Examples.hash_a1)
                [mkNodeVma 3 1 [6%nat]])
             (mkPage Examples.frame_a MapNull 0));
      try reflexivity.
    + intros (sn & kp & Hsn & _ & Hkp & Hmap & _).
      vm_compute in Hsn. injection Hsn as <-.
      vm_compute in Hkp. injection Hkp as <-. discriminate Hmap.
    + intros nv i Hnv Hi. apply list_elem_of_singleton in Hnv as ->.
      apply list_elem_of_singleton in Hi as ->. eexists. reflexivity.
Defined.

(** C6, the scenario on the code.  Frames 7 and 8 have the same hash at
    strength 1, differ under [memcmp] and have different hashes of full
    strength.  Item 4 is scanned from empty trees:
    [unstable_tree_search_insert] allocates the tree node of the hash value
    and links the item under it without counting it, so [count] stays 0,
    whereas every insertion into the stable tree counts.  The scan of
    item 5 therefore fails the test [count == 1] that leads to
    [get_page_out] and on to the [memcmp] of [try_to_merge_two_pages]: it
    descends by [hash_max] and links item 5 beside item 4, whose [hash_max]
    was never computed.  Nothing is merged, [count] is still 0, and
    [rshash_neg] has grown by [HASH_STRENGTH_MAX - 1], without the
    [memcmp_cost].  Were the item counted ([count = 1]), the same scan would
    compare the frames: [rshash_neg] then holds the [memcmp_cost], two
    sampled hashes and the two [hash_max]. *)
Lemma collision_scenario_cost :
  let scan :=
    cmp_and_merge_page Examples.page_shift Examples.sample_order
      Examples.host_ok in
  let hash_of p strength :=
    page_hash Examples.page_shift Examples.sample_order Examples.engine0 p
      strength false in
  let count_at st :=
    count <$> find_tree_node (root_unstable_tree st) Examples.hash_a1 in
  hash_strength Examples.engine0 = 1 /\
  hash_of 7%nat 1 = Ok (Examples.hash_a1, Examples.engine0) /\
  hash_of 8%nat 1 = Ok (Examples.hash_a1, Examples.engine0) /\
  memcmp Examples.page_shift Examples.frame_a Examples.frame_b = true /\
  hash_of 7%nat (HASH_STRENGTH_MAX Examples.page_shift)
  <> hash_of 8%nat (HASH_STRENGTH_MAX Examples.page_shift) /\
  scan Examples.engine0 4%nat = Ok Examples.engine_a /\
  scan Examples.engine_a 5%nat = Ok Examples.engine_ab /\
  unstable_items Examples.engine_ab Examples.hash_a1 = [4; 5]%nat /\
  ksm_pages_shared Examples.engine_ab = 0 /\
  ksm_pages_sharing Examples.engine_ab = 0 /\
  rshash_neg Examples.engine_ab - rshash_neg Examples.engine0
  = HASH_STRENGTH_MAX Examples.page_shift - 1 /\
  rshash_neg Examples.engine_ab - rshash_neg Examples.engine0
  <> memcmp_cost Examples.engine0
     + (HASH_STRENGTH_MAX Examples.page_shift - 1) /\
  count_at Examples.engine_a = Some 0 /\
  count_at Examples.engine_ab = Some 0 /\
  (hash_max <$> items Examples.engine_ab !! 4%nat) = Some 0 /\
  exists st,
    scan Examples.engine_counted 5%nat = Ok st /\
    unstable_items st Examples.hash_a1 = [4; 5]%nat /\
    rshash_neg st - rshash_neg Examples.engine_counted
    = memcmp_cost Examples.engine0 + 2 * 1
      + 2 * (HASH_STRENGTH_MAX Examples.page_shift - 1).
Proof.
  cbv zeta. do 4 (split; [vm_compute; reflexivity|]).
  split; [vm_compute; intros H; discriminate H|].
  do 6 (split; [vm_compute; reflexivity|]).
  split; [vm_compute; intros H; discriminate H|].
  do 3 (split; [vm_compute; reflexivity|]).
  eexists. split; [vm_compute; reflexivity|].
  split; vm_compute; reflexivity.
Qed.

End EngineFacts.

Module CostFacts.
Import Engine.

Lemma same_hash_refl st : same_hash st st.
Proof. split; reflexivity. Qed.

Ltac same_hash_done :=
  repeat match goal with
         | H : same_hash _ _ |- _ => destruct H
         end;
  repeat match goal with
         | |- context [if ?c then _ else _] => destruct c
         end;
  split; cbn in *; congruence.

Ltac frame f := unfold f; intros H; repeat run_step; same_hash_done.

Lemma unshare_item_passes PAGE_SHIFT :
  passes_errors (unshare_item PAGE_SHIFT).
Proof.
  intros x r Hr s. destruct r as [a| | |]; cbn; try discriminate.
  exfalso. apply (Hr a). reflexivity.
Qed.

Lemma unshare_node_vma_passes PAGE_SHIFT :
  passes_errors (unshare_node_vma PAGE_SHIFT).
Proof.
  intros nv r Hr s. unfold unshare_node_vma.
  apply foldl_error; [apply unshare_item_passes|exact Hr].
Qed.

Section WithPageSize.

Variable PAGE_SHIFT : Z.
Variable random_nums : Z -> Z.
Variable h : host.

Lemma put_page_same st p st' : put_page st p = Ok st' -> same_hash st st'.
Proof. frame put_page. Qed.

Lemma get_page_same st p st' : get_page st p = Ok st' -> same_hash st st'.
Proof. frame get_page. Qed.

Lemma set_page_stable_node_same st p n st' :
  set_page_stable_node st p n = Ok st' -> same_hash st st'.
Proof. frame set_page_stable_node. Qed.

Lemma replace_page_counts_same st p k st' :
  replace_page_counts st p k = Ok st' -> same_hash st st'.
Proof.
  unfold replace_page_counts. intros H. inv_bind H.
  apply get_page_same in E. apply put_page_same in H. same_hash_done.
Qed.

Lemma unshare_loop_same l st st' :
  foldl (unshare_item PAGE_SHIFT) (Ok st) l = Ok st' -> same_hash st st'.
Proof.
  apply (foldl_result_keeps (unshare_item PAGE_SHIFT) (same_hash st) l).
  - apply unshare_item_passes.
  - intros x s s' _ Hs H. unfold unshare_item in H. cbn [bind] in H.
    repeat run_step; same_hash_done.
  - apply same_hash_refl.
Qed.

Lemma remove_node_from_stable_tree_same st node u r st' :
  remove_node_from_stable_tree PAGE_SHIFT st node u r = Ok st' ->
  same_hash st st'.
Proof.
  unfold remove_node_from_stable_tree. intros H.
  inv_bind H. inv_bind H. inv_bind H.
  assert (H0 : same_hash st a0).
  { clear E1 H. destruct (negb (bool_decide (hlist a = []))).
    - apply bind_Ok in E0 as (st2 & Eloop & E0).
      assert (same_hash st st2).
      { revert Eloop.
        apply (foldl_result_keeps (unshare_node_vma PAGE_SHIFT)
                 (same_hash st) (hlist a)).
        - apply unshare_node_vma_passes.
        - intros nv s s' _ Hs Hrun. apply unshare_loop_same in Hrun.
          same_hash_done.
        - apply same_hash_refl. }
      repeat run_step; same_hash_done.
    - repeat run_step; apply same_hash_refl. }
  assert (H1 : same_hash a0 a1).
  { clear E0 H0. repeat run_step; same_hash_done. }
  repeat run_step; same_hash_done.
Qed.

Lemma get_ksm_page_same st node u r res :
  get_ksm_page PAGE_SHIFT st node u r = Ok res -> same_hash st res.2.
Proof.
  unfold get_ksm_page. intros H. inv_bind H. inv_bind H.
  destruct (bool_decide _ && _).
  - repeat run_step; same_hash_done.
  - inv_bind H. apply remove_node_from_stable_tree_same in E1.
    repeat run_step; exact E1.
Qed.

Lemma remove_rmap_item_from_tree_same st item st' :
  remove_rmap_item_from_tree PAGE_SHIFT st item = Ok st' -> same_hash st st'.
Proof.
  unfold remove_rmap_item_from_tree. intros H. inv_bind H.
  destruct (in_stable_tree a).
  - destruct (head a) as [node area]. inv_bind H.
    apply get_ksm_page_same in E0. destruct a0 as [pg st1]. cbn in E0.
    destruct pg as [pg|]; [|repeat run_step; exact E0].
    inv_bind H. inv_bind H. apply put_page_same in E2.
    repeat run_step; same_hash_done.
  - repeat run_step; same_hash_done.
Qed.

Lemma page_hash_max_same st p hv res :
  page_hash_max PAGE_SHIFT random_nums st p hv = Ok res ->
  same_hash st res.2.
Proof. frame page_hash_max. Qed.

Lemma rmap_item_hash_max_same st item hv res :
  rmap_item_hash_max PAGE_SHIFT random_nums st item hv = Ok res ->
  same_hash st res.2.
Proof.
  unfold rmap_item_hash_max. intros H. inv_bind H.
  destruct (hash_max a =? 0).
  - inv_bind H. apply page_hash_max_same in E0. destruct a0.
    repeat run_step; exact E0.
  - repeat run_step; apply same_hash_refl.
Qed.

Lemma page_hash_same st p s res :
  page_hash PAGE_SHIFT random_nums st p s false = Ok res ->
  same_hash st res.2.
Proof. frame page_hash. Qed.

Lemma memcmp_pages_same st p1 p2 c res :
  memcmp_pages PAGE_SHIFT st p1 p2 c = Ok res -> same_hash st res.2.
Proof. unfold memcmp_pages. intros H. repeat run_step; destruct c; same_hash_done. Qed.

Lemma pages_identical_same st p1 p2 res :
  pages_identical PAGE_SHIFT st p1 p2 = Ok res -> same_hash st res.2.
Proof.
  unfold pages_identical. intros H. inv_bind H.
  apply memcmp_pages_same in E. repeat run_step; exact E.
Qed.

Lemma check_collision_same st item hv res :
  check_collision PAGE_SHIFT random_nums st item hv = Ok res ->
  same_hash st res.2.
Proof.
  unfold check_collision. intros H. inv_bind H.
  destruct (negb (hash_max a =? 0)).
  - inv_bind H. inv_bind H. apply page_hash_max_same in E1.
    repeat run_step; same_hash_done.
  - inv_bind H. inv_bind H. apply page_hash_same in E1.
    repeat run_step; same_hash_done.
Qed.

Lemma stable_tree_search_same st item hv res :
  stable_tree_search PAGE_SHIFT random_nums st item hv = Ok res ->
  same_hash st res.2.
Proof.
  unfold stable_tree_search. intros H. inv_bind H. inv_bind H.
  destruct (page_stable_node a0).
  - inv_bind H. apply get_page_same in E1. repeat run_step; exact E1.
  - destruct (find_tree_node (root_stable_tree st) hv) as [tn|];
      [|repeat run_step; apply same_hash_refl].
    destruct (count tn =? 1).
    + destruct (rb_root_entry (sub_root tn)); [|discriminate].
      apply get_ksm_page_same in H. exact H.
    + inv_bind H. inv_bind H. apply rmap_item_hash_max_same in E2.
      destruct a2 as [hm st1].
      destruct (sub_find (stable_key st1) (sub_root tn) hm).
      * apply get_ksm_page_same in H. same_hash_done.
      * repeat run_step; exact E2.
Qed.

Lemma try_to_merge_with_ksm_page_same st item kpage hv res :
  try_to_merge_with_ksm_page PAGE_SHIFT random_nums h st item kpage hv
  = Ok res ->
  same_hash st res.2.
Proof.
  unfold try_to_merge_with_ksm_page. intros H. inv_bind H.
  destruct (ksm_test_exit h (slot a)); [repeat run_step; apply same_hash_refl|].
  destruct (bool_decide (Some (item_page a) = kpage));
    [repeat run_step; apply same_hash_refl|].
  inv_bind H. inv_bind H.
  destruct (negb (PageAnon a0) || negb a1);
    [repeat run_step; apply same_hash_refl|].
  destruct (negb (trylock_page h (item_page a)));
    [repeat run_step; apply same_hash_refl|].
  destruct (write_protect_page h (item_page a));
    [|repeat run_step; apply same_hash_refl].
  destruct kpage as [k|].
  - inv_bind H. apply pages_identical_same in E2. destruct a2 as [same st1].
    destruct same.
    + destruct (replace_page h (item_page a) k).
      * inv_bind H. apply replace_page_counts_same in E3.
        repeat run_step; same_hash_done.
      * repeat run_step; exact E2.
    + apply check_collision_same in H. same_hash_done.
  - inv_bind H. apply set_page_stable_node_same in E2.
    repeat run_step; exact E2.
Qed.

Lemma stable_tree_append_same ok st item node st' :
  stable_tree_append ok st item node = Ok st' -> same_hash st st'.
Proof.
  unfold stable_tree_append. intros H. inv_bind H. inv_bind H. inv_bind H.
  destruct a1 as [st1 l].
  assert (same_hash st st1).
  { clear H. destruct (bool_decide (hlist a0 = [])).
    - repeat run_step; same_hash_done.
    - destruct (split_ge _ _) as [before rest].
      repeat run_step; same_hash_done. }
  repeat run_step; same_hash_done.
Qed.

Lemma get_tree_rmap_item_page_same st item res :
  get_tree_rmap_item_page PAGE_SHIFT h st item = Ok res ->
  same_hash st res.2.
Proof.
  unfold get_tree_rmap_item_page. intros H.
  destruct (_ =? - EINVAL).
  - inv_bind H. apply remove_rmap_item_from_tree_same in E.
    repeat run_step; exact E.
  - destruct (_ =? 0).
    + inv_bind H. inv_bind H. apply get_page_same in E0.
      repeat run_step; exact E0.
    + repeat run_step; apply same_hash_refl.
Qed.

Lemma get_page_out_same st item titem res :
  get_page_out PAGE_SHIFT h st item titem = Ok res -> same_hash st res.2.
Proof.
  unfold get_page_out. intros H. inv_bind H. inv_bind H.
  destruct (bool_decide _); [repeat run_step; apply same_hash_refl|].
  inv_bind H. apply get_tree_rmap_item_page_same in E1.
  destruct (negb _); repeat run_step; exact E1.
Qed.

Lemma install_same st item tn sub res :
  install st item tn sub = Ok res -> same_hash st res.2.
Proof. frame install. Qed.

Lemma unstable_tree_search_insert_same st item hv res :
  unstable_tree_search_insert PAGE_SHIFT random_nums h st item hv = Ok res ->
  same_hash st res.2.
Proof.
  unfold unstable_tree_search_insert. intros H.
  destruct (find_tree_node (root_unstable_tree st) hv) as [tn|].
  - destruct (count tn =? 1).
    + destruct (rb_root_entry (sub_root tn)); [|discriminate].
      apply get_page_out_same in H. exact H.
    + inv_bind H. inv_bind H. apply rmap_item_hash_max_same in E0.
      destruct a0 as [hm st1].
      destruct (sub_descend _ _ _ _).
      * apply get_page_out_same in H. same_hash_done.
      * apply install_same in H. same_hash_done.
  - destruct (alloc_tree_node_ok h).
    + apply install_same in H. same_hash_done.
    + repeat run_step; apply same_hash_refl.
Qed.


Lemma try_to_merge_two_pages_same st item titem hv res :
  try_to_merge_two_pages PAGE_SHIFT random_nums h st item titem hv = Ok res ->
  same_hash st res.2.
Proof.
  unfold try_to_merge_two_pages. intros H. inv_bind H. inv_bind H.
  destruct (bool_decide _); [repeat run_step; apply same_hash_refl|].
  inv_bind H. inv_bind H.
  destruct (_ || _); [repeat run_step; apply same_hash_refl|].
  destruct (negb (trylock_page h (item_page a)));
    [repeat run_step; apply same_hash_refl|].
  destruct (negb (write_protect_page h (item_page a)));
    [repeat run_step; apply same_hash_refl|].
  inv_bind H. apply set_page_stable_node_same in E3.
  destruct (negb (trylock_page h (item_page a0)));
    [repeat run_step; same_hash_done|].
  destruct (negb (write_protect_page h (item_page a0)));
    [repeat run_step; same_hash_done|].
  inv_bind H. apply pages_identical_same in E4. destruct a4 as [same st1].
  destruct same.
  - destruct (replace_page h (item_page a0) (item_page a)).
    + inv_bind H. apply replace_page_counts_same in E5.
      repeat run_step; same_hash_done.
    + repeat run_step; same_hash_done.
  - inv_bind H. inv_bind H.
    apply page_hash_same in E5. apply page_hash_same in E6.
    repeat run_step; same_hash_done.
Qed.

Lemma try_merge_with_stable_same st i1 i2 old tp res :
  try_merge_with_stable h st i1 i2 old tp = Ok res -> same_hash st res.2.
Proof.
  unfold try_merge_with_stable. intros H.
  destruct (bool_decide _); [repeat run_step; apply same_hash_refl|].
  inv_bind H.
  destruct (_ || _); [repeat run_step; apply same_hash_refl|].
  destruct (merge_with_stable h i1 i2) as [s1 s2].
  destruct (negb s1); [repeat run_step; apply same_hash_refl|].
  inv_bind H. apply replace_page_counts_same in E0.
  destruct (negb s2); [repeat run_step; exact E0|].
  inv_bind H. apply replace_page_counts_same in E1.
  repeat run_step; same_hash_done.
Qed.

Lemma stable_node_hash_max_same st node pg hv st' :
  stable_node_hash_max PAGE_SHIFT random_nums st node pg hv = Ok st' ->
  same_hash st st'.
Proof.
  unfold stable_node_hash_max. intros H. inv_bind H.
  destruct (sn_hash_max a =? 0).
  - inv_bind H. apply page_hash_max_same in E0. destruct a0.
    repeat run_step; same_hash_done.
  - repeat run_step; apply same_hash_refl.
Qed.

Lemma new_stable_node_same st hv k hm res :
  new_stable_node h st hv k hm = Ok res -> same_hash st res.2.
Proof.
  unfold new_stable_node. intros H. destruct (alloc_stable_node_ok h).
  - inv_bind H. apply set_page_stable_node_same in E.
    repeat run_step; same_hash_done.
  - repeat run_step; apply same_hash_refl.
Qed.

Lemma link_stable_node_same st hv k hm link res :
  link_stable_node h st hv k hm link = Ok res -> same_hash st res.2.
Proof.
  unfold link_stable_node. intros H. inv_bind H.
  apply new_stable_node_same in E. destruct a as [n st1].
  destruct n; repeat run_step; same_hash_done.
Qed.

Lemma first_level_insert_same st tnh item titem k hv res :
  first_level_insert PAGE_SHIFT random_nums h st tnh item titem k hv = Ok res ->
  same_hash st res.2.
Proof.
  unfold first_level_insert. intros H. inv_bind H.
  destruct (rb_root_entry (sub_root a)) as [sn|]; [|discriminate].
  inv_bind H. apply get_ksm_page_same in E0. destruct a0 as [tp st1].
  destruct tp as [tp|].
  - inv_bind H. apply memcmp_pages_same in E1. destruct a0 as [cmp st2].
    destruct (negb cmp).
    + inv_bind H. apply try_merge_with_stable_same in E2.
      destruct a0 as [[s1 s2] st3]. inv_bind H. apply put_page_same in E3.
      destruct (_ && _); repeat run_step; same_hash_done.
    + inv_bind H. apply put_page_same in E2. inv_bind H.
      apply stable_node_hash_max_same in E3. inv_bind H.
      apply rmap_item_hash_max_same in E4. destruct a2 as [hm st5].
      destruct (_ <? 0).
      * apply link_stable_node_same in H. same_hash_done.
      * destruct (_ >? 0).
        -- apply link_stable_node_same in H. same_hash_done.
        -- repeat run_step; same_hash_done.
  - apply link_stable_node_same in H. same_hash_done.
Qed.

Lemma stable_subtree_insert_same fuel st tnh item titem k hv res :
  stable_subtree_insert PAGE_SHIFT random_nums h fuel st tnh item titem k hv
  = Ok res ->
  same_hash st res.2.
Proof.
  revert st. induction fuel as [|fuel IH]; intros st H; cbn in H.
  all: inv_bind H; inv_bind H; inv_bind H.
  all: apply rmap_item_hash_max_same in E1; destruct a1 as [hm st1].
  all: destruct (sub_descend _ _ _ _) as [sn|sub];
    [|apply link_stable_node_same in H; same_hash_done].
  all: inv_bind H; apply get_ksm_page_same in E2; destruct a1 as [tp st2].
  all: destruct tp as [tp|].
  1,3: inv_bind H; apply memcmp_pages_same in E3; destruct a1 as [cmp st3];
    destruct (negb cmp);
    [ inv_bind H; apply try_merge_with_stable_same in E4;
      destruct a1 as [[s1 s2] st4]; inv_bind H; apply put_page_same in E5;
      destruct (_ && _); repeat run_step; same_hash_done
    | inv_bind H; apply put_page_same in E4; repeat run_step; same_hash_done ].
  all: inv_bind H; destruct (negb _);
    [|apply link_stable_node_same in H; same_hash_done].
  - discriminate.
  - apply IH in H. same_hash_done.
Qed.

Lemma stable_tree_insert_same st k hv item titem res :
  stable_tree_insert PAGE_SHIFT random_nums h st k hv item titem = Ok res ->
  same_hash st res.2.
Proof.
  unfold stable_tree_insert. intros H.
  destruct (find_tree_node (root_stable_tree st) hv) as [tn|].
  - destruct (count tn =? 1).
    + apply first_level_insert_same in H. exact H.
    + apply stable_subtree_insert_same in H. exact H.
  - destruct (alloc_tree_node_ok h);
      [|repeat run_step; apply same_hash_refl].
    inv_bind H. apply new_stable_node_same in E. destruct a as [n st1].
    destruct n; repeat run_step; same_hash_done.
Qed.


(** [page_hash] with the cost accounted: the words not read are credited
    to [rshash_pos], whatever the page. *)
Lemma page_hash_credit st p strength v st1 :
  page_hash PAGE_SHIFT random_nums st p strength true = Ok (v, st1) ->
  rshash_pos st1
  = u64 (rshash_pos st + u64 (HASH_STRENGTH_FULL PAGE_SHIFT - strength)) /\
  hash_strength st1 = hash_strength st /\
  exists pg, pages st !! p = Some pg /\
    v = Hash.random_sample_hash (HASH_STRENGTH_FULL PAGE_SHIFT) random_nums
          (content pg) (u32 strength).
Proof.
  unfold page_hash, get_page_of. intros H.
  destruct (pages st !! p) as [pg|]; [|discriminate]. cbn [bind] in H.
  inv_bind H. injection H as <- <-. cbn. eauto.
Qed.

(** C5, as amended.  A call of [cmp_and_merge_page] that completes has
    credited [rshash_pos] with the words that the sampled hash of the page
    did not read, [HASH_STRENGTH_FULL - hash_strength], once: when the hash
    was computed, before either tree was searched, and whether the hash
    value was then found in a tree or not.  Nothing else in the call
    changes [rshash_pos]. *)
Theorem scan_credits_pos st rmap_item st' :
  cmp_and_merge_page PAGE_SHIFT random_nums h st rmap_item = Ok st' ->
  rshash_pos st'
  = u64 (rshash_pos st
         + u64 (HASH_STRENGTH_FULL PAGE_SHIFT - hash_strength st)).
Proof.
  unfold cmp_and_merge_page. intros H.
  apply bind_Ok in H as (st0 & Hremove & H).
  apply remove_rmap_item_from_tree_same in Hremove.
  apply bind_Ok in H as (x & _ & H).
  apply bind_Ok in H as ([hash_val st1] & Hhash & H).
  apply page_hash_credit in Hhash as (Hpos & Hstrength & _).
  (* the rest of the call leaves [rshash_pos] alone *)
  assert (Hrest : same_hash st1 st').
  { apply bind_Ok in H as ([kpage st2] & Hsearch & H).
    apply stable_tree_search_same in Hsearch. cbn [snd] in Hsearch.
    apply bind_Ok in H as ([done st3] & Hstable & H).
    assert (H3 : same_hash st1 st3).
    { clear H. destruct kpage as [k|].
      2:{ injection Hstable as _ <-. same_hash_done. }
      apply bind_Ok in Hstable as ([err st4] & Hmerge & Hstable).
      apply try_to_merge_with_ksm_page_same in Hmerge. cbn [snd] in Hmerge.
      destruct (err =? 0).
      - apply bind_Ok in Hstable as (kp & _ & Hstable).
        apply bind_Ok in Hstable as (st5 & Happend & Hstable).
        apply bind_Ok in Hstable as (st6 & Hput & Hstable).
        apply put_page_same in Hput.
        destruct (page_stable_node kp); [|discriminate].
        apply stable_tree_append_same in Happend.
        injection Hstable as _ <-. same_hash_done.
      - apply bind_Ok in Hstable as (st5 & Hput & Hstable).
        apply put_page_same in Hput.
        apply bind_Ok in Hstable as (x1 & _ & Hstable).
        injection Hstable as _ <-. same_hash_done. }
    clear Hsearch Hstable. destruct done.
    { injection H as <-. exact H3. }
    apply bind_Ok in H as ([titem st4] & Hinsert & H).
    apply unstable_tree_search_insert_same in Hinsert. cbn [snd] in Hinsert.
    destruct titem as [titem|].
    2:{ injection H as <-. same_hash_done. }
    apply bind_Ok in H as ([err st5] & Hmerge & H).
    apply try_to_merge_two_pages_same in Hmerge. cbn [snd] in Hmerge.
    apply bind_Ok in H as (st6 & Hpublish & H).
    apply bind_Ok in H as (tx & _ & H). apply put_page_same in H.
    assert (H6 : same_hash st5 st6).
    { clear H. destruct (err =? 0).
      - apply bind_Ok in Hpublish as (st7 & Hremove2 & Hpublish).
        apply remove_rmap_item_from_tree_same in Hremove2.
        apply bind_Ok in Hpublish
          as ([[[snode success1] success2] st8] & Hstins & Hpublish).
        apply stable_tree_insert_same in Hstins. cbn [snd] in Hstins.
        apply bind_Ok in Hpublish as (st9 & Happend1 & Happend2).
        assert (same_hash st8 st9).
        { destruct success1.
          - destruct snode; [|discriminate].
            apply stable_tree_append_same in Happend1. exact Happend1.
          - unfold break_cow in Happend1. injection Happend1 as <-.
            apply same_hash_refl. }
        assert (same_hash st9 st6).
        { destruct success2.
          - destruct snode; [|discriminate].
            apply stable_tree_append_same in Happend2. exact Happend2.
          - unfold break_cow in Happend2. injection Happend2 as <-.
            apply same_hash_refl. }
        same_hash_done.
      - destruct (err =? MERGE_ERR_COLLI).
        2:{ injection Hpublish as <-. apply same_hash_refl. }
        apply bind_Ok in Hpublish as (tx1 & _ & Hpublish).
        apply bind_Ok in Hpublish as (tn & _ & Hpublish).
        apply bind_Ok in Hpublish as (st7 & Htree & Hpublish).
        assert (same_hash st5 st7).
        { destruct (count tn =? 1).
          - apply bind_Ok in Htree as (r & Hmax & Htree).
            apply rmap_item_hash_max_same in Hmax.
            injection Htree as <-. exact Hmax.
          - apply bind_Ok in Htree as (u & _ & Htree).
            injection Htree as <-. apply same_hash_refl. }
        clear Htree.
        apply bind_Ok in Hpublish as ([hm st8] & Hmax & Hpublish).
        apply rmap_item_hash_max_same in Hmax. cbn [snd] in Hmax.
        cbv zeta in Hpublish.
        destruct (hash_cmp hm (item_key st8 titem) =? 0).
        + injection Hpublish as <-. same_hash_done.
        + apply bind_Ok in Hpublish as (x2 & _ & Hpublish).
          apply bind_Ok in Hpublish as (tn2 & _ & Hpublish).
          injection Hpublish as <-. same_hash_done. }
    same_hash_done. }
  destruct Hrest as [Hrest _]. destruct Hremove as [Hr1 Hr2].
  cbn in Hrest. rewrite Hrest, Hpos. congruence.
Qed.

End WithPageSize.

(** C5, counterexample to the claim as stated: the hash of frame 7 is in
    neither tree when item 4 is scanned, nothing is merged, and
    [rshash_pos] is credited all the same. *)
Lemma pos_credited_without_match :
  let st := Examples.engine0 in
  page_hash Examples.page_shift Examples.sample_order st 7
    (hash_strength st) false = Ok (Examples.hash_a1, st) /\
  find_tree_node (root_stable_tree st) Examples.hash_a1 = None /\
  find_tree_node (root_unstable_tree st) Examples.hash_a1 = None /\
  cmp_and_merge_page Examples.page_shift Examples.sample_order
    Examples.host_ok st 4 = Ok Examples.engine_a /\
  ksm_pages_shared Examples.engine_a = 0 /\
  ksm_pages_sharing Examples.engine_a = 0 /\
  rshash_pos Examples.engine_a
  = rshash_pos st
    + (HASH_STRENGTH_FULL Examples.page_shift - hash_strength st) /\
  HASH_STRENGTH_FULL Examples.page_shift - hash_strength st = 1023.
Proof.
  cbv zeta. do 7 (split; [vm_compute; reflexivity|]).
  vm_compute. reflexivity.
Qed.

(** The theorem for the same scan. *)
Lemma scan_credits_pos_witness :
  rshash_pos Examples.engine_a
  = u64 (rshash_pos Examples.engine0
         + u64 (HASH_STRENGTH_FULL Examples.page_shift
                - hash_strength Examples.engine0)).
Proof.
  apply (scan_credits_pos Examples.page_shift Examples.sample_order
           Examples.host_ok Examples.engine0 4%nat Examples.engine_a).
  vm_compute. reflexivity.
Defined.

End CostFacts.

Module GraphFacts.
Import Engine.

(** *** Counting the flagged items *)

Lemma stable_items_insert_fresh m i y :
  m !! i = None ->
  stable_items (<[i := y]> m) = (stable_items m + flag_weight y)%nat.
Proof.
  intros Hi. unfold stable_items, flag_weight.
  destruct (in_stable_tree y) eqn:Ey.
  - rewrite map_filter_insert_True by exact Ey.
    rewrite map_size_insert_None; [lia|].
    apply map_lookup_filter_None. left. exact Hi.
  - rewrite map_filter_insert_False by (cbn; congruence).
    rewrite delete_id by exact Hi. lia.
Qed.

Lemma stable_items_insert m i x y :
  m !! i = Some x ->
  (stable_items (<[i := y]> m) + flag_weight x
   = stable_items m + flag_weight y)%nat.
Proof.
  intros Hi.
  rewrite <- (insert_delete_id m i x Hi) at 2.
  rewrite <- (insert_delete_eq m i y).
  rewrite !stable_items_insert_fresh by apply lookup_delete_eq.
  lia.
Qed.


(** *** The stable graph *)

Lemma entries_cons nv l :
  entries (nv :: l) = ((fun i => (key nv, i)) <$> rmap_hlist nv) ++ entries l.
Proof. reflexivity. Qed.

Lemma entries_app l1 l2 : entries (l1 ++ l2) = entries l1 ++ entries l2.
Proof. unfold entries. apply bind_app. Qed.

Lemma listed_cons nv l : listed (nv :: l) = rmap_hlist nv ++ listed l.
Proof.
  unfold listed. rewrite entries_cons, fmap_app. f_equal.
  rewrite <- list_fmap_compose. apply list_fmap_id.
Qed.

Lemma elem_of_entries l k i :
  (k, i) ∈ entries l <-> exists nv, nv ∈ l /\ key nv = k /\ i ∈ rmap_hlist nv.
Proof.
  unfold entries. rewrite list_elem_of_bind. split.
  - intros (nv & Hi & Hnv). apply list_elem_of_fmap in Hi as (j & E & Hj).
    injection E as -> ->. eauto.
  - intros (nv & Hnv & <- & Hi). exists nv. split; [|exact Hnv].
    apply list_elem_of_fmap. eauto.
Qed.

Lemma elem_of_listed l i :
  i ∈ listed l <-> exists k, (k, i) ∈ entries l.
Proof.
  unfold listed. rewrite list_elem_of_fmap. split.
  - intros ([k j] & -> & H). eauto.
  - intros (k & H). exists (k, i). auto.
Qed.

(** The two loops of [remove_node_from_stable_tree] visit the listed
    items in order. *)
Lemma unshare_loops PAGE_SHIFT l acc :
  foldl (unshare_node_vma PAGE_SHIFT) acc l
  = foldl (unshare_item PAGE_SHIFT) acc (listed l).
Proof.
  revert acc. induction l as [|nv l IH]; intros acc; [reflexivity|].
  rewrite listed_cons, foldl_app. cbn [foldl]. rewrite IH. reflexivity.
Qed.

Ltac u64_lia := unfold u64 in *; Z.div_mod_to_equations; lia.

Section WithPageSize.

Variable PAGE_SHIFT : Z.
Hypothesis PAGE_SHIFT_ge : 2 <= PAGE_SHIFT.

(** [address &= PAGE_MASK] clears [STABLE_FLAG]: the flags live below the
    page offset. *)
Lemma mask_clears_stable a :
  Z.land (Z.land a (PAGE_MASK PAGE_SHIFT)) STABLE_FLAG = 0.
Proof.
  unfold PAGE_MASK, PAGE_SIZE, STABLE_FLAG.
  apply Z.bits_inj'. intros n Hn. rewrite !Z.land_spec, Z.bits_0.
  destruct (Z.eq_dec n 1) as [->|Hne].
  - rewrite Z.lnot_spec by lia.
    rewrite Z.sub_1_r, <- Z.ones_equiv, Z.ones_spec_low by lia.
    cbn [negb]. rewrite andb_false_r. reflexivity.
  - replace (Z.testbit 2 n) with false; [apply andb_false_r|].
    destruct (Z.eq_dec n 0) as [->|Hn0]; [reflexivity|].
    symmetry. apply (Z.bits_above_log2 2 n); cbn; lia.
Qed.

Lemma masked_unflagged x :
  in_stable_tree
    (set_address x (Z.land (address x) (PAGE_MASK PAGE_SHIFT))) = false.
Proof.
  unfold in_stable_tree. cbn. rewrite mask_clears_stable. reflexivity.
Qed.

Lemma masked_unflagged_0 x :
  in_stable_tree
    (set_hash_max
       (set_address x (Z.land (address x) (PAGE_MASK PAGE_SHIFT))) 0)
  = false.
Proof.
  unfold in_stable_tree. cbn. rewrite mask_clears_stable. reflexivity.
Qed.

Lemma flagged_set a : Z.land (Z.lor a STABLE_FLAG) STABLE_FLAG = STABLE_FLAG.
Proof.
  unfold STABLE_FLAG.
  apply Z.bits_inj'. intros n Hn.
  rewrite Z.land_spec, Z.lor_spec.
  destruct (Z.eq_dec n 1) as [->|Hne].
  - cbn. rewrite orb_true_r. reflexivity.
  - replace (Z.testbit 2 n) with false; [apply andb_false_r|].
    destruct (Z.eq_dec n 0) as [->|Hn0]; [reflexivity|].
    symmetry. apply (Z.bits_above_log2 2 n); cbn; lia.
Qed.

(** *** Removing a stable node *)

Lemma unshare_item_spec st i st' :
  unshare_item PAGE_SHIFT (Ok st) i = Ok st' ->
  exists x, items st !! i = Some x /\
    items st'
    = <[i := set_address x (Z.land (address x) (PAGE_MASK PAGE_SHIFT))]>
        (items st) /\
    stable_nodes st' = stable_nodes st /\
    ksm_pages_shared st' = ksm_pages_shared st /\
    ksm_pages_sharing st' = u64 (ksm_pages_sharing st - 1).
Proof.
  unfold unshare_item, get_item. cbn [bind].
  cbn. destruct (items st !! i) as [x|]; [|discriminate].
  cbn. intros H. injection H as <-. exists x. auto.
Qed.

Lemma unshare_loop_spec l st st' :
  NoDup l ->
  (forall i, i ∈ l ->
     exists x, items st !! i = Some x /\ in_stable_tree x = true) ->
  foldl (unshare_item PAGE_SHIFT) (Ok st) l = Ok st' ->
  stable_nodes st' = stable_nodes st /\
  ksm_pages_shared st' = ksm_pages_shared st /\
  u64 (ksm_pages_sharing st')
  = u64 (ksm_pages_sharing st - Z.of_nat (length l)) /\
  (stable_items (items st') + length l = stable_items (items st))%nat /\
  (forall j, j ∉ l -> items st' !! j = items st !! j) /\
  (forall j, j ∈ l ->
     exists y, items st' !! j = Some y /\ in_stable_tree y = false).
Proof.
  revert st. induction l as [|i l IH]; intros st Hnd Hfl H.
  - cbn in H. injection H as <-. cbn.
    rewrite Z.sub_0_r. repeat split; auto.
    intros j Hj. apply elem_of_nil in Hj. contradiction.
  - cbn [foldl] in H.
    destruct (unshare_item PAGE_SHIFT (Ok st) i) as [st1| | |] eqn:E.
    2-4: exfalso; revert H; apply foldl_error;
      [apply CostFacts.unshare_item_passes|discriminate].
    apply unshare_item_spec in E as (x & Hx & Hit & Hsn & Hsh & Hsg).
    apply NoDup_cons in Hnd as [Hni Hnd].
    destruct (Hfl i) as (x0 & Hx0 & Hfx); [left|].
    assert (x0 = x) by congruence. subst x0.
    destruct (IH st1 Hnd) as (H1 & H2 & H3 & H4 & H5 & H6); [|exact H|].
    { intros j Hj. destruct (Hfl j) as (y & Hy & Hfy); [right; exact Hj|].
      exists y. split; [|exact Hfy]. rewrite Hit.
      rewrite lookup_insert_ne; [exact Hy|]. intros ->. contradiction. }
    split; [congruence|]. split; [congruence|]. split; [|split; [|split]].
    + rewrite H3, Hsg. cbn [length]. u64_lia.
    + pose proof (stable_items_insert (items st) i x
                    (set_address x
                       (Z.land (address x) (PAGE_MASK PAGE_SHIFT))) Hx) as Hc.
      unfold flag_weight in Hc. rewrite masked_unflagged, Hfx in Hc.
      rewrite <- Hit in Hc. cbn [length]. lia.
    + intros j Hj. apply not_elem_of_cons in Hj as [Hji Hj].
      rewrite (H5 j Hj), Hit. apply lookup_insert_ne. congruence.
    + intros j Hj. apply elem_of_cons in Hj as [->|Hj]; [|apply H6, Hj].
      rewrite (H5 i Hni), Hit, lookup_insert_eq.
      eexists. split; [reflexivity|apply masked_unflagged].
Qed.


Lemma same_graph_inv st st' :
  same_graph st st' -> graph_ok st /\ counters_ok st ->
  graph_ok st' /\ counters_ok st'.
Proof.
  intros (Hi & Hn & Hs & Hg) [[H1 H2 H3] Hc]. split.
  - split.
    + intros n nd. rewrite Hn. apply H1.
    + intros n nd k i. rewrite Hn, Hi. apply H2.
    + intros i x. rewrite Hn, Hi. apply H3.
  - unfold counters_ok. rewrite Hi, Hs, Hg. exact Hc.
Qed.

(** What [remove_node_from_stable_tree] does to the graph: the node is
    gone, its items have lost the flag and are no longer counted. *)
Lemma remove_node_from_stable_tree_spec st node unlink_rb remove_tree_node st' :
  graph_ok st ->
  remove_node_from_stable_tree PAGE_SHIFT st node unlink_rb remove_tree_node
  = Ok st' ->
  exists nd,
    stable_nodes st !! node = Some nd /\
    stable_nodes st' = delete node (stable_nodes st) /\
    u64 (ksm_pages_shared st' + ksm_pages_sharing st')
    = u64 (ksm_pages_shared st + ksm_pages_sharing st
           - Z.of_nat (length (listed (hlist nd)))) /\
    (stable_items (items st') + length (listed (hlist nd))
     = stable_items (items st))%nat /\
    (forall j, j ∉ listed (hlist nd) -> items st' !! j = items st !! j) /\
    (forall j, j ∈ listed (hlist nd) ->
       exists y, items st' !! j = Some y /\ in_stable_tree y = false).
Proof.
  intros Hg H.
  unfold remove_node_from_stable_tree, get_stable_node in H.
  destruct (stable_nodes st !! node) as [nd|] eqn:End; [|discriminate].
  cbn [bind] in H.
  apply bind_Ok in H as (st1 & E1 & H).
  apply bind_Ok in H as (st2 & E2 & H). injection H as <-.
  set (l := listed (hlist nd)).
  assert (A1 : stable_nodes st1 = stable_nodes st /\
               u64 (ksm_pages_shared st1 + ksm_pages_sharing st1)
               = u64 (ksm_pages_shared st + ksm_pages_sharing st
                      - Z.of_nat (length l)) /\
               (stable_items (items st1) + length l
                = stable_items (items st))%nat /\
               (forall j, j ∉ l -> items st1 !! j = items st !! j) /\
               (forall j, j ∈ l ->
                  exists y, items st1 !! j = Some y /\
                            in_stable_tree y = false)).
  { clear E2. destruct (bool_decide (hlist nd = [])) eqn:Eh; cbn [negb] in E1.
    - injection E1 as <-. apply bool_decide_eq_true in Eh.
      subst l. rewrite Eh. cbn. rewrite Z.sub_0_r. repeat split; auto.
      intros j Hj. apply elem_of_nil in Hj. contradiction.
    - apply bind_Ok in E1 as (st0 & E0 & E1). injection E1 as <-.
      rewrite unshare_loops in E0.
      apply unshare_loop_spec in E0 as (H1 & H2 & H3 & H4 & H5 & H6).
      + cbn. fold l in H3, H4, H5, H6. repeat split; auto. u64_lia.
      + apply (listed_once st Hg node nd End).
      + intros i Hi. apply elem_of_listed in Hi as [k Hk].
        destruct (listed_flagged st Hg node nd k i End Hk) as (x & ? & ? & _).
        eauto. }
  assert (A2 : same_graph st1 st2).
  { clear E1 A1. destruct (sn_tree_node nd) as [hv|].
    - destruct unlink_rb.
      + apply bind_Ok in E2 as (tn & _ & E2).
        destruct (_ && _); injection E2 as <-; repeat split.
      + injection E2 as <-. repeat split.
    - injection E2 as <-. repeat split. }
  destruct A1 as (B1 & B2 & B3 & B4 & B5).
  destruct A2 as (C1 & C2 & C3 & C4).
  exists nd. cbn. rewrite C1, C2, C3, C4, B1. auto 10.
Qed.

Lemma remove_node_from_stable_tree_inv st node unlink_rb remove_tree_node st' :
  graph_ok st /\ counters_ok st ->
  remove_node_from_stable_tree PAGE_SHIFT st node unlink_rb remove_tree_node
  = Ok st' ->
  graph_ok st' /\ counters_ok st'.
Proof.
  intros [Hg Hc] H.
  apply remove_node_from_stable_tree_spec in H
    as (nd & End & Hn & Hsum & Hcount & Hout & Hin); [|exact Hg].
  assert (Hkeep : forall n nd' k i,
            n <> node -> stable_nodes st !! n = Some nd' ->
            (k, i) ∈ entries (hlist nd') -> i ∉ listed (hlist nd)).
  { intros n nd' k i Hne Hnd' Hk Hi.
    apply elem_of_listed in Hi as [k' Hk'].
    destruct (listed_flagged st Hg n nd' k i Hnd' Hk) as (x & Hx & _ & Hh).
    destruct (listed_flagged st Hg node nd k' i End Hk')
      as (x' & Hx' & _ & Hh').
    assert (x' = x) by congruence. subst x'. congruence. }
  split.
  - split.
    + intros n nd'. rewrite Hn. intros Hnd'.
      apply lookup_delete_Some in Hnd' as [_ Hnd'].
      apply (listed_once st Hg n nd' Hnd').
    + intros n nd' k i. rewrite Hn. intros Hnd' Hk.
      apply lookup_delete_Some in Hnd' as [Hne Hnd'].
      rewrite (Hout i (Hkeep n nd' k i (not_eq_sym Hne) Hnd' Hk)).
      apply (listed_flagged st Hg n nd' k i Hnd' Hk).
    + intros i x Hx Hfx.
      destruct (decide (i ∈ listed (hlist nd))) as [Hi|Hi].
      { destruct (Hin i Hi) as (y & Hy & Hfy). congruence. }
      rewrite (Hout i Hi) in Hx.
      destruct (flagged_listed st Hg i x Hx Hfx) as (nd' & Hnd' & Hk).
      exists nd'. split; [|exact Hk]. rewrite Hn.
      apply lookup_delete_Some. split; [|exact Hnd'].
      intros E. rewrite <- E in Hnd'. assert (nd' = nd) by congruence.
      subst nd'. apply Hi. apply elem_of_listed. eauto.
  - unfold counters_ok in *. rewrite Hsum. u64_lia.
Qed.

Lemma get_ksm_page_inv st node unlink_rb remove_tree_node res :
  graph_ok st /\ counters_ok st ->
  get_ksm_page PAGE_SHIFT st node unlink_rb remove_tree_node = Ok res ->
  (graph_ok res.2 /\ counters_ok res.2) /\
  (is_Some res.1 -> same_graph st res.2) /\
  (res.1 = None ->
   remove_node_from_stable_tree PAGE_SHIFT st node unlink_rb remove_tree_node
   = Ok res.2).
Proof.
  intros Hinv H. unfold get_ksm_page in H.
  inv_bind H. inv_bind H.
  destruct (bool_decide _ && _).
  - injection H as <-. cbn [fst snd].
    assert (same_graph st (put_page_of st (kpfn a)
              (mkPage (content a0) (mapping a0) (_count a0 + 1))))
      by (repeat split).
    split; [|split; [auto|discriminate]].
    apply (same_graph_inv st); assumption.
  - inv_bind H. injection H as <-. cbn [fst snd].
    split; [|split; [intros [? ?]; discriminate|auto]].
    apply (remove_node_from_stable_tree_inv st node unlink_rb
             remove_tree_node); assumption.
Qed.

(** *** Removing an rmap item *)

Lemma filter_entries_of (k area i : nat) (l : list nat) :
  filter (fun e => e <> (area, i)) ((fun j => (k, j)) <$> l)
  = (fun j => (k, j))
      <$> (if decide (k = area) then filter (fun j => j <> i) l else l).
Proof.
  induction l as [|j l IH]; [destruct (decide (k = area)); reflexivity|].
  rewrite fmap_cons, filter_cons, IH.
  destruct (decide (k = area)) as [->|Hk].
  - rewrite filter_cons.
    destruct (decide (j = i)) as [->|Hj].
    + rewrite decide_False by (intros H; apply H; reflexivity).
      rewrite decide_False by (intros H; apply H; reflexivity).
      reflexivity.
    + rewrite decide_True by congruence.
      rewrite decide_True by congruence. reflexivity.
  - rewrite decide_True by congruence. reflexivity.
Qed.

(** [unlink_item] takes the entry of the item in its area away, and
    nothing else. *)
Lemma entries_unlink_item l area i :
  entries (unlink_item l area i)
  = filter (fun e => e <> (area, i)) (entries l).
Proof.
  induction l as [|nv l IH]; [reflexivity|].
  rewrite entries_cons, filter_app, filter_entries_of, <- IH.
  unfold unlink_item. cbn [omap list_omap].
  destruct (decide (key nv = area)) as [Hk|Hk].
  - destruct (bool_decide (filter (fun i0 => i0 <> i) (rmap_hlist nv) = []))
      eqn:Eh.
    + apply bool_decide_eq_true in Eh. rewrite Eh. reflexivity.
    + rewrite entries_cons. reflexivity.
  - rewrite entries_cons. reflexivity.
Qed.

(** An item without the flag may change, without it, as it likes. *)
Lemma unflagged_update_inv st st' item x y :
  graph_ok st /\ counters_ok st ->
  items st !! item = Some x ->
  in_stable_tree x = false -> in_stable_tree y = false ->
  items st' = <[item := y]> (items st) ->
  stable_nodes st' = stable_nodes st ->
  ksm_pages_shared st' = ksm_pages_shared st ->
  ksm_pages_sharing st' = ksm_pages_sharing st ->
  graph_ok st' /\ counters_ok st'.
Proof.
  intros [Hg Hc] Hx Hfx Hfy Hi Hn Hs1 Hs2. split.
  - split.
    + intros n nd. rewrite Hn. apply (listed_once st Hg).
    + intros n nd k i. rewrite Hn, Hi. intros Hnd Hk.
      destruct (listed_flagged st Hg n nd k i Hnd Hk) as (z & Hz & Hfz & Hhz).
      exists z. split; [|auto].
      rewrite lookup_insert_ne; [exact Hz|].
      intros <-. congruence.
    + intros i z. rewrite Hn, Hi. intros Hz Hfz.
      apply lookup_insert_Some in Hz as [[<- <-]|[Hne Hz]]; [congruence|].
      apply (flagged_listed st Hg i z Hz Hfz).
  - unfold counters_ok in *. rewrite Hi, Hs1, Hs2, Hc.
    pose proof (stable_items_insert (items st) item x y Hx) as Hw.
    unfold flag_weight in Hw. rewrite Hfx, Hfy in Hw.
    f_equal. lia.
Qed.

Lemma remove_rmap_item_from_tree_inv st item st' :
  graph_ok st /\ counters_ok st ->
  remove_rmap_item_from_tree PAGE_SHIFT st item = Ok st' ->
  (graph_ok st' /\ counters_ok st') /\
  exists y, items st' !! item = Some y /\ in_stable_tree y = false.
Proof.
  intros Hinv H. unfold remove_rmap_item_from_tree, get_item in H.
  destruct (items st !! item) as [x|] eqn:Ex; [|discriminate].
  cbn [bind] in H.
  assert (Hmask : in_stable_tree
                    (set_hash_max
                       (set_address x
                          (Z.land (address x) (PAGE_MASK PAGE_SHIFT))) 0)
                  = false) by apply masked_unflagged_0.
  destruct (in_stable_tree x) eqn:Efx.
  - (* a stable item *)
    destruct (head x) as [node area] eqn:Ehead.
    apply bind_Ok in H as ([pg st1] & Eget & H).
    apply get_ksm_page_inv in Eget as (Hinv1 & Hsame & Hstale);
      [|exact Hinv].
    cbn [fst snd] in Hinv1, Hsame, Hstale.
    destruct Hinv as [Hg Hc].
    destruct pg as [pg|].
    2:{ (* the page is gone, and the stable node with it *)
      injection H as <-. split; [exact Hinv1|].
      apply remove_node_from_stable_tree_spec in Hstale
        as (nd & End & _ & _ & _ & _ & Hin); [|exact Hg|reflexivity].
      apply Hin.
      destruct (flagged_listed st Hg item x Ex Efx) as (nd' & Hnd' & Hk).
      rewrite Ehead in Hnd', Hk. cbn [fst snd] in Hnd', Hk.
      assert (nd' = nd) by congruence. subst nd'.
      apply elem_of_listed. eauto. }
    destruct Hsame as (S1 & S2 & S3 & S4); [eauto|].
    unfold get_stable_node in H.
    destruct (stable_nodes st1 !! node) as [nd|] eqn:End; [|discriminate].
    cbn [bind] in H.
    apply bind_Ok in H as (st2 & Eput & H).
    unfold put_page in Eput. apply bind_Ok in Eput as (p & _ & Eput).
    injection Eput as <-.
    unfold get_item in H.
    match type of H with
    | context [items ?s !! item] =>
        replace (items s !! item) with (Some x) in H
    end.
    2:{ destruct (bool_decide _); cbn; rewrite S1; symmetry; exact Ex. }
    cbn [bind] in H. injection H as <-.
    rewrite S2 in End.
    set (l := unlink_item (hlist nd) area item).
    assert (Hold : forall n nd' k i,
              stable_nodes st !! n = Some nd' ->
              (k, i) ∈ entries (hlist nd') ->
              (n, k, i) <> (node, area, item) ->
              exists y, <[item := set_hash_max
                            (set_address x
                               (Z.land (address x)
                                  (PAGE_MASK PAGE_SHIFT))) 0]>
                          (items st) !! i = Some y /\
                        in_stable_tree y = true /\ head y = (n, k)).
    { intros n0 nd0 k0 i0 Hn0 Hk0 Hne.
      destruct (listed_flagged st Hg n0 nd0 k0 i0 Hn0 Hk0)
        as (y & Hy & Hfy & Hhy).
      exists y. split; [|auto].
      rewrite lookup_insert_ne; [exact Hy|].
      intros <-. assert (y = x) by congruence. subst y. congruence. }
    split; [split|].
    + split.
      * intros n nd'.
        destruct (bool_decide (l = [])); cbn; rewrite S2; intros Hn.
        all: apply lookup_insert_Some in Hn as [[<- <-]|[Hne Hn]];
          [|apply (listed_once st Hg n nd' Hn)].
        all: cbn; unfold listed; fold l; subst l;
          rewrite entries_unlink_item.
        all: apply (sublist_NoDup _ (listed (hlist nd)));
          [apply (listed_once st Hg node nd End)|].
        all: apply fmap_sublist, sublist_filter.
      * intros n nd' k i.
        destruct (bool_decide (l = [])); cbn; rewrite S1, S2; intros Hn Hk.
        all: apply lookup_insert_Some in Hn as [[<- <-]|[Hne Hn]].
        all: try (apply (Hold n nd' k i Hn Hk); congruence).
        all: cbn in Hk; fold l in Hk; subst l;
          rewrite entries_unlink_item in Hk;
          apply list_elem_of_filter in Hk as [Hne Hk].
        all: apply (Hold node nd k i End Hk); congruence.
      * intros i y.
        assert (Hnew : forall i y,
                  <[item := set_hash_max
                      (set_address x
                         (Z.land (address x) (PAGE_MASK PAGE_SHIFT))) 0]>
                    (items st) !! i = Some y ->
                  in_stable_tree y = true ->
                  exists nd',
                    <[node := mkStableNode (kpfn nd) (sn_hash_max nd)
                                (sn_tree_node nd) l]>
                      (stable_nodes st) !! (head y).1 = Some nd' /\
                    ((head y).2, i) ∈ entries (hlist nd')).
        { intros i0 y0 Hy Hfy.
          apply lookup_insert_Some in Hy as [[<- <-]|[Hne Hy]];
            [congruence|].
          destruct (flagged_listed st Hg i0 y0 Hy Hfy) as (nd' & Hnd' & Hk).
          destruct (decide ((head y0).1 = node)) as [E|E].
          - rewrite E in *. assert (nd' = nd) by congruence. subst nd'.
            rewrite lookup_insert_eq. eexists. split; [reflexivity|].
            cbn. subst l. rewrite entries_unlink_item.
            apply list_elem_of_filter. split; [congruence|exact Hk].
          - rewrite lookup_insert_ne by congruence. eauto. }
        destruct (bool_decide (l = [])); cbn; rewrite S1, S2;
          apply Hnew.
    + unfold counters_ok in *.
      pose proof (stable_items_insert (items st) item x
                    (set_hash_max
                       (set_address x
                          (Z.land (address x) (PAGE_MASK PAGE_SHIFT))) 0)
                    Ex) as Hw.
      unfold flag_weight in Hw. rewrite Efx, masked_unflagged_0 in Hw.
      destruct (bool_decide (l = [])); cbn; rewrite S1, S3, S4.
      all: u64_lia.
    + eexists. split; [|exact Hmask].
      destruct (bool_decide (l = [])); cbn; apply lookup_insert_eq.
  - (* an unstable item, or one in no tree *)
    destruct (in_unstable_tree x).
    + apply bind_Ok in H as (st1 & E1 & H). injection H as <-.
      assert (Hs : same_graph st st1).
      { destruct (append_round x =? ksm_scan_round st).
        - apply bind_Ok in E1 as (tn & _ & E1).
          destruct (RB_EMPTY_ROOT _); injection E1 as <-; repeat split.
        - injection E1 as <-. repeat split. }
      destruct Hs as (S1 & S2 & S3 & S4). split.
      * apply (unflagged_update_inv st _ item x _ Hinv Ex Efx Hmask); cbn;
          congruence.
      * eexists. split; [cbn; apply lookup_insert_eq|exact Hmask].
    + injection H as <-. split.
      * apply (unflagged_update_inv st _ item x _ Hinv Ex Efx Hmask);
          reflexivity.
      * eexists. split; [cbn; apply lookup_insert_eq|exact Hmask].
Qed.

(** *** Appending an rmap item *)

Lemma split_ge_app k l before rest :
  split_ge k l = (before, rest) ->
  l = before ++ match rest with
                | Some (nv, after) => nv :: after
                | None => []
                end.
Proof.
  revert before. induction l as [|nv l IH]; intros before H; cbn in H.
  - injection H as <- <-. reflexivity.
  - destruct (k <=? key nv)%nat.
    + injection H as <- <-. reflexivity.
    + destruct (split_ge k l) as [b r]. injection H as <- <-.
      cbn. f_equal. apply IH. reflexivity.
Qed.

Lemma stable_tree_append_inv alloc_ok st item node x st' :
  graph_ok st /\ counters_ok st ->
  items st !! item = Some x ->
  in_stable_tree x = false ->
  stable_tree_append alloc_ok st item node = Ok st' ->
  graph_ok st' /\ counters_ok st'.
Proof.
  intros [Hg Hc] Hx Hfx H. unfold stable_tree_append, get_item in H.
  rewrite Hx in H. cbn [bind] in H.
  set (x' := mkItem (slot x) (Z.lor (address x) STABLE_FLAG) (item_page x)
               (hash_max x) (ksm_scan_round st) (tree_node_of x)
               (node, slot x)) in H.
  set (st0 := put_item st item x') in H.
  unfold get_stable_node in H.
  change (stable_nodes st0) with (stable_nodes st) in H.
  destruct (stable_nodes st !! node) as [nd|] eqn:End; [|discriminate].
  cbn [bind] in H.
  apply bind_Ok in H as ([st1 l'] & Er & H). injection H as <-.
  assert (A : items st1 = items st0 /\
              stable_nodes st1 = stable_nodes st0 /\
              u64 (ksm_pages_shared st1 + ksm_pages_sharing st1)
              = u64 (ksm_pages_shared st + ksm_pages_sharing st + 1) /\
              entries l' ≡ₚ (slot x, item) :: entries (hlist nd)).
  { destruct (bool_decide (hlist nd = [])) eqn:Eh.
    - apply bool_decide_eq_true in Eh.
      apply bind_Ok in Er as (u & _ & Er). injection Er as <- <-.
      rewrite Eh. cbn. repeat split; auto. u64_lia.
    - destruct (split_ge (slot x) (hlist nd)) as [before rest] eqn:Es.
      apply split_ge_app in Es. rewrite Es.
      destruct rest as [[nv after]|].
      + apply bind_Ok in Er as (t & _ & Er).
        destruct (decide (key nv = slot x)) as [Hk|Hk].
        * apply bind_Ok in Er as (t' & _ & Er). injection Er as <- <-.
          cbn. repeat split; [u64_lia|].
          rewrite !entries_app, !entries_cons. cbn. rewrite Hk.
          symmetry. apply Permutation_middle.
        * apply bind_Ok in Er as (u & _ & Er).
          apply bind_Ok in Er as (t' & _ & Er). injection Er as <- <-.
          cbn. repeat split; [u64_lia|].
          rewrite !entries_app, !entries_cons. cbn.
          symmetry. apply Permutation_middle.
      + apply bind_Ok in Er as (t & _ & Er).
        apply bind_Ok in Er as (u & _ & Er). injection Er as <- <-.
        cbn. repeat split; [u64_lia|].
        rewrite !entries_app, !entries_cons. cbn.
        symmetry. apply Permutation_middle. }
  destruct A as (A1 & A2 & A3 & A4).
  assert (Hfx' : in_stable_tree x' = true).
  { unfold in_stable_tree. cbn. rewrite flagged_set. reflexivity. }
  assert (Hother : forall n nd0 k i,
            stable_nodes st !! n = Some nd0 -> (k, i) ∈ entries (hlist nd0) ->
            exists y, <[item := x']> (items st) !! i = Some y /\
                      in_stable_tree y = true /\ head y = (n, k)).
  { intros n nd0 k i Hn Hk.
    destruct (listed_flagged st Hg n nd0 k i Hn Hk) as (y & Hy & Hfy & Hhy).
    exists y. split; [|auto]. rewrite lookup_insert_ne; [exact Hy|].
    intros <-. congruence. }
  split.
  - split.
    + intros n nd0. cbn. rewrite A2. cbn. intros Hn.
      apply lookup_insert_Some in Hn as [[<- <-]|[Hne Hn]];
        [|apply (listed_once st Hg n nd0 Hn)].
      cbn. unfold listed. rewrite A4. cbn. apply NoDup_cons. split.
      * intros Hi. apply elem_of_listed in Hi as [k Hk].
        destruct (listed_flagged st Hg node nd k item End Hk)
          as (y & Hy & Hfy & _).
        congruence.
      * apply (listed_once st Hg node nd End).
    + intros n nd0 k i. cbn. rewrite A1, A2. cbn. intros Hn Hk.
      apply lookup_insert_Some in Hn as [[<- <-]|[Hne Hn]];
        [|apply (Hother n nd0 k i Hn Hk)].
      cbn in Hk. rewrite A4 in Hk.
      apply elem_of_cons in Hk as [E|Hk];
        [|apply (Hother node nd k i End Hk)].
      injection E as -> ->. exists x'.
      rewrite lookup_insert_eq. auto.
    + intros i y. cbn. rewrite A1, A2. cbn. intros Hy Hfy.
      apply lookup_insert_Some in Hy as [[<- <-]|[Hne Hy]].
      * cbn. rewrite lookup_insert_eq. eexists. split; [reflexivity|].
        cbn. rewrite A4. left.
      * destruct (flagged_listed st Hg i y Hy Hfy) as (nd' & Hnd' & Hk).
        destruct (decide ((head y).1 = node)) as [E|E].
        -- rewrite E in *. assert (nd' = nd) by congruence. subst nd'.
           rewrite lookup_insert_eq. eexists. split; [reflexivity|].
           cbn. rewrite A4. right. exact Hk.
        -- rewrite lookup_insert_ne by congruence. eauto.
  - unfold counters_ok in *. cbn. rewrite A1, A3. cbn.
    pose proof (stable_items_insert (items st) item x x' Hx) as Hw.
    unfold flag_weight in Hw. rewrite Hfx, Hfx' in Hw.
    u64_lia.
Qed.


(** *** Any sequence of appends and removals *)

Lemma graph_step_inv st st' :
  graph_step PAGE_SHIFT st st' -> graph_ok st /\ counters_ok st ->
  graph_ok st' /\ counters_ok st'.
Proof.
  intros Hstep Hinv. destruct Hstep as
    [ok st i n x st' Hx Hfx H | st i st' H | st n u r st' H
    | st n u r pg st' H].
  - apply (stable_tree_append_inv ok st i n x st' Hinv Hx Hfx H).
  - apply (remove_rmap_item_from_tree_inv st i st' Hinv H).
  - apply (remove_node_from_stable_tree_inv st n u r st' Hinv H).
  - apply (get_ksm_page_inv st n u r (pg, st') Hinv H).
Qed.

Lemma graph_steps_inv st st' :
  rtc (graph_step PAGE_SHIFT) st st' -> graph_ok st /\ counters_ok st ->
  graph_ok st' /\ counters_ok st'.
Proof.
  induction 1 as [st|st st1 st' Hstep _ IH]; intros Hinv; [exact Hinv|].
  apply IH. apply (graph_step_inv st st1 Hstep Hinv).
Qed.

(** The removal makes the item fit for an append: rescanning an item is
    two steps. *)
Lemma rescan_steps alloc_ok st rmap_item node st1 st' :
  graph_ok st /\ counters_ok st ->
  remove_rmap_item_from_tree PAGE_SHIFT st rmap_item = Ok st1 ->
  stable_tree_append alloc_ok st1 rmap_item node = Ok st' ->
  rtc (graph_step PAGE_SHIFT) st st'.
Proof.
  intros Hinv H1 H2.
  destruct (remove_rmap_item_from_tree_inv st rmap_item st1 Hinv H1)
    as [_ (y & Hy & Hfy)].
  eapply rtc_l; [apply (step_remove_item _ _ _ _ H1)|].
  eapply rtc_l; [apply (step_append _ _ _ _ _ _ _ Hy Hfy H2)|].
  apply rtc_refl.
Qed.

(** A graph in which nothing hangs under the stable nodes, no item is
    flagged and nothing is counted. *)
Lemma graph_ok_fresh st :
  (forall n nd, stable_nodes st !! n = Some nd -> hlist nd = []) ->
  (forall i x, items st !! i = Some x -> in_stable_tree x = false) ->
  ksm_pages_shared st = 0 -> ksm_pages_sharing st = 0 ->
  graph_ok st /\ counters_ok st.
Proof.
  intros Hn Hi Hs1 Hs2. split.
  - split.
    + intros n nd Hnd. rewrite (Hn n nd Hnd). apply NoDup_nil_2.
    + intros n nd k i Hnd Hk. rewrite (Hn n nd Hnd) in Hk.
      apply elem_of_nil in Hk. contradiction.
    + intros i x Hx Hfx. rewrite (Hi i x Hx) in Hfx. discriminate.
  - unfold counters_ok, stable_items. rewrite Hs1, Hs2.
    rewrite map_empty_filter_2; [reflexivity|].
    intros i x Hx. cbn. rewrite (Hi i x Hx). discriminate.
Qed.

(** C3.  From a state in which the listed items are the flagged ones and
    the two counters add up to their number, every sequence of
    [stable_tree_append], [remove_rmap_item_from_tree],
    [remove_node_from_stable_tree] and [get_ksm_page] leads to a state in
    which [ksm_pages_shared + ksm_pages_sharing], as [unsigned long]s, is
    the number of rmap items whose address carries [STABLE_FLAG]. *)
Theorem stable_counters_count_flags st st' :
  graph_ok st -> counters_ok st ->
  rtc (graph_step PAGE_SHIFT) st st' ->
  u64 (ksm_pages_shared st' + ksm_pages_sharing st')
  = u64 (Z.of_nat (stable_items (items st'))).
Proof.
  intros Hg Hc Hrun.
  destruct (graph_steps_inv st st' Hrun (conj Hg Hc)) as [_ H]. exact H.
Qed.

End WithPageSize.

(** The theorem for two appends and a removal under a stable node that
    was just published: one item is left, and counted. *)
Lemma stable_counters_count_flags_witness :
  exists st',
    Examples.graph_run = Ok st' /\
    stable_items (items st') = 1%nat /\
    u64 (ksm_pages_shared st' + ksm_pages_sharing st')
    = u64 (Z.of_nat (stable_items (items st'))).
Proof.
  eexists. split; [vm_compute; reflexivity|].
  split; [vm_compute; reflexivity|].
  assert (Hstart : graph_ok Examples.engine_pub
                   /\ counters_ok Examples.engine_pub).
  { apply graph_ok_fresh; [| |reflexivity|reflexivity].
    - intros n nd H. unfold Examples.engine_pub in H. cbn [stable_nodes] in H.
      apply lookup_insert_Some in H as [[_ <-]|[_ H]]; [reflexivity|].
      rewrite lookup_empty in H. discriminate.
    - intros i x H. unfold Examples.engine_pub in H. cbn [items] in H.
      apply lookup_insert_Some in H as [[_ <-]|[_ H]]; [reflexivity|].
      apply lookup_insert_Some in H as [[_ <-]|[_ H]]; [reflexivity|].
      rewrite lookup_empty in H. discriminate. }
  apply (stable_counters_count_flags Examples.page_shift
           ltac:(vm_compute; discriminate) Examples.engine_pub);
    [exact (proj1 Hstart)|exact (proj2 Hstart)|].
  eapply rtc_l.
  { eapply (step_append Examples.page_shift true Examples.engine_pub 6 0);
      [reflexivity|reflexivity|vm_compute; reflexivity]. }
  eapply rtc_l.
  { eapply (step_append Examples.page_shift true _ 4 0);
      [vm_compute; reflexivity|reflexivity|vm_compute; reflexivity]. }
  eapply rtc_l.
  { eapply (step_remove_item Examples.page_shift _ 6).
    vm_compute. reflexivity. }
  apply rtc_refl.
Defined.

End GraphFacts.

(** ** The concrete states are well formed *)

Module ExamplesFacts.
Import Examples.

Lemma tab12_wf_counted : InterTabFacts.wf tab12 /\ InterTabFacts.counted tab12.
Proof.
  unfold tab12.
  destruct (InterTab.observe InterTab.init [(1, 2); (1, 2); (1, 2)]%nat)
    as [t| | |] eqn:E; cbn [from_ok];
    try (split; [apply InterTabFacts.init_wf|apply InterTabFacts.init_counted]).
  apply (InterTabFacts.observe_keeps InterTab.init _ t
           InterTabFacts.init_wf InterTabFacts.init_counted E).
Qed.

Lemma ladder12_quota rx :
  Ladder.pages rx = 200 \/ Ladder.pages rx = 20000 ->
  LadderFacts.quota_everywhere ladder12 rx.
Proof.
  intros Hp ratio Hr. unfold LadderFacts.ratios in Hr. cbn in Hr.
  unfold Ladder.get_vma_random_scan_num.
  rewrite !elem_of_cons in Hr.
  destruct Hr as [->|[->|[->|[->|Hr]]]]; [| | | |inversion Hr];
    destruct Hp as [-> | ->]; vm_compute; discriminate.
Qed.

Lemma ladder12_ok : LadderFacts.ladder_ok ladder12.
Proof.
  intros j r Hj.
  destruct j as [|[|[|[|j]]]]; cbn in Hj; try discriminate;
    injection Hj as <-; (split; [|split; [|split]]); cbn;
    try (apply NoDup_nil_2); try (intros x Hx; inversion Hx; fail);
    try reflexivity; try (left; reflexivity).
  - apply NoDup_cons. split; [|apply NoDup_singleton].
    intros H. apply list_elem_of_singleton in H. discriminate.
  - intros x Hx. apply elem_of_cons in Hx as [->|Hx].
    + exists area1. split; reflexivity.
    + apply list_elem_of_singleton in Hx as ->. exists area2.
      split; reflexivity.
  - right. exists 1%nat. split; [reflexivity|left].
Qed.

Lemma ladder12_listed : LadderFacts.on_ladder ladder12 1.
Proof.
  exists 1%nat, (Ladder.mkRung 5 [1; 2]%nat (Ladder.PSlot 1) 2 0 false 0).
  split; [reflexivity|left].
Qed.

End ExamplesFacts.

(** ** The properties on the concrete states *)

Module Witnesses.
Import Examples.

(** With thrash filtering at 10%, the ratio of area 1, which merged no
    page, divides by zero. *)
Lemma cal_dedup_ratio_needs_pages_merged_witness :
  Ladder.cal_dedup_ratio ladder_thrash 1 = DivByZero.
Proof.
  refine (proj2
    (proj1 (LadderFacts.cal_dedup_ratio_needs_pages_merged ladder_thrash 1
              (Ladder.mkSlot 200 100 0 0 0 0 1 8 true false) _ _) _ _) 6 _).
  - reflexivity.
  - cbn. lia.
  - cbn. lia.
  - reflexivity.
  - vm_compute. reflexivity.
Defined.

(** Area 1, above the mean of the round, goes from the list of the second
    rung to the list of the third; here for the lower bound of the ladder
    as well. *)
Lemma round_update_ladder_moves_witness :
  exists st1 mean st',
    Ladder.round_ratios ladder12 = Ok (st1, mean) /\
    Ladder.round_update_ladder ladder12 = Ok st' /\
    LadderFacts.only_on ladder12 1 1 /\
    exists rec', Ladder.slots st' !! 1%nat = Some rec' /\
      (mean < 6 -> Ladder.rung rec' = Z.min (1 + 1) (4 - 1)) /\
      (6 < mean -> Ladder.rung rec' = Z.max (1 - 1) 0) /\
      LadderFacts.only_on st' 1 (Ladder.rung rec') /\
      LadderFacts.ladder_ok st'.
Proof.
  eexists _, _, _. split; [vm_compute; reflexivity|].
  split; [vm_compute; reflexivity|].
  refine (LadderFacts.round_update_ladder_moves ladder12 _ _ _ 0 1
            (Ladder.mkSlot 200 100 0 3 0 6 1 8 true false) _ _ _ _ _ _ _ _ _).
  - apply ExamplesFacts.tab12_wf_counted.
  - cbn. lia.
  - apply ExamplesFacts.ladder12_ok.
  - apply ExamplesFacts.ladder12_listed.
  - vm_compute. reflexivity.
  - vm_compute. reflexivity.
  - vm_compute. reflexivity.
  - vm_compute. reflexivity.
  - apply ExamplesFacts.ladder12_quota. left. reflexivity.
Defined.

(** The round of areas 1 and 2 ends with an empty unstable tree and a zero
    table. *)
Lemma round_end_clean_witness :
  exists l' e' nodes,
    Scan.round_finished_block ladder12 engine1 = Ok (l', e', nodes) /\
    Engine.root_unstable_tree e' = Engine.Leaf /\
    nodes = [] /\
    Engine.intertab e' = Ladder.tab l' /\
    forall offset, 0 <= offset < InterTab.inter_vma_table_len ->
      InterTab.inter_read (Ladder.tab l') offset = Ok 0.
Proof.
  eexists _, _, _. split; [vm_compute; reflexivity|].
  refine (ScanFacts.round_end_clean ladder12 _ engine1 _ _ _ _ _).
  - apply ExamplesFacts.tab12_wf_counted.
  - apply ExamplesFacts.tab12_wf_counted.
  - vm_compute. reflexivity.
Defined.

End Witnesses.

(** ** The tuning of the hash strength *)

Module RshashFacts.
Import Rshash.

Lemma div64_u64_Ok a b : b <> 0 -> div64_u64 a b = Ok (a / b).
Proof.
  intros Hb. unfold div64_u64.
  destruct (Z.eqb_spec b 0); [contradiction|reflexivity].
Qed.

Lemma shiftl_1_small delta :
  0 <= delta <= HASH_STRENGTH_DELTA_MAX -> 1 <= Z.shiftl 1 delta <= 32.
Proof.
  unfold HASH_STRENGTH_DELTA_MAX. intros H. rewrite Z.shiftl_1_l.
  assert (E : delta = 0 \/ delta = 1 \/ delta = 2 \/ delta = 3 \/ delta = 4
              \/ delta = 5) by lia.
  destruct E as [->|[->|[->|[->|[->| ->]]]]]; cbn; lia.
Qed.

(** What no function of the tuning writes. *)
Local Abbreviation same_clock g g' :=
  (ksm_pages_scanned g' = ksm_pages_scanned g /\
   ksm_pages_scanned_last g' = ksm_pages_scanned_last g).

Lemma get_current_neg_ratio_Ok g :
  exists v, get_current_neg_ratio g = Ok v.
Proof.
  unfold get_current_neg_ratio.
  destruct (Z.eqb_spec (rshash_pos g) 0) as [Hz|Hz]; cbn [orb]; [eauto|].
  destruct (rshash_neg g >? rshash_pos g); [eauto|].
  rewrite div64_u64_Ok by exact Hz. eauto.
Qed.

Lemma get_current_benefit_Ok g :
  scanned_since g -> exists v, get_current_benefit g = Ok v.
Proof.
  intros (Hs & Hl & Hne). unfold get_current_benefit.
  destruct (rshash_neg g >? rshash_pos g); [eauto|].
  rewrite div64_u64_Ok; [eauto|].
  unfold u64. intros E.
  apply Z.mod_divide in E; [|lia]. destruct E as [k E].
  assert (k = 0) by nia. lia.
Qed.

(** C-level fact: at [out] the answer is [STILL]. *)
Lemma judge_rshash_direction_spec g d g' :
  judge_rshash_direction g = Ok (d, g') ->
  d <> GO_UP /\
  same_clock g g' /\
  hash_strength g' = hash_strength g /\
  hash_strength_delta g' = hash_strength_delta g /\
  rshash_state g' = rshash_state g.
Proof.
  unfold judge_rshash_direction. intros H.
  apply bind_Ok in H as (ratio & _ & H).
  repeat match type of H with
         | (if ?c then _ else _) = Ok _ => destruct c
         | bind _ _ = Ok _ =>
             let v := fresh "v" in apply bind_Ok in H as (v & _ & H)
         end.
  all: injection H as <- <-; cbn; repeat split; discriminate.
Qed.

Lemma judge_rshash_direction_Ok g :
  scanned_since g -> exists r, judge_rshash_direction g = Ok r.
Proof.
  intros Hs. unfold judge_rshash_direction.
  destruct (get_current_neg_ratio_Ok g) as [ratio ->]. cbn [bind].
  destruct (ratio =? 0).
  { destruct (_ >? 2); eauto. }
  destruct (ratio >? 90); [eauto|].
  destruct (_ =? 3); [eauto|].
  destruct (get_current_benefit_Ok (set_neg_cont_zero g 0)) as [b Hb];
    [exact Hs|].
  rewrite Hb. cbn [bind].
  change (stable_benefit (rshash_state (set_neg_cont_zero g 0)))
    with (stable_benefit (rshash_state g)).
  destruct (Z.eqb_spec (stable_benefit (rshash_state g)) 0) as [Hz|Hz];
    [eauto|].
  rewrite div64_u64_Ok by exact Hz. cbn [bind].
  destruct (_ >? 50); [|eauto].
  destruct (_ >? 2); eauto.
Qed.

Lemma scanned_since_clock g g' :
  same_clock g g' -> scanned_since g -> scanned_since g'.
Proof. unfold scanned_since. intros [-> ->] H. exact H. Qed.

Lemma dec_hash_strength_clock g delta :
  scanned_since g -> scanned_since (dec_hash_strength g delta).
Proof.
  apply scanned_since_clock. unfold dec_hash_strength.
  destruct (_ <=? _); split; reflexivity.
Qed.

Lemma inc_hash_strength_delta_clock g :
  scanned_since g -> scanned_since (inc_hash_strength_delta g).
Proof.
  apply scanned_since_clock. unfold inc_hash_strength_delta. cbv zeta.
  destruct (_ >? _); split; reflexivity.
Qed.

Lemma dec_hash_strength_machine g delta :
  rshash_state (dec_hash_strength g delta) = rshash_state g.
Proof. unfold dec_hash_strength. destruct (_ <=? _); reflexivity. Qed.

Lemma inc_hash_strength_delta_machine g :
  rshash_state (inc_hash_strength_delta g) = rshash_state g.
Proof.
  unfold inc_hash_strength_delta. cbv zeta. destruct (_ >? _); reflexivity.
Qed.

Lemma try_window_Ok g turn_benefit set_turn :
  scanned_since g ->
  exists g', try_window g turn_benefit set_turn = Ok g' /\ scanned_since g'.
Proof.
  intros Hs. unfold try_window. cbv zeta.
  match goal with
  | |- context [get_current_benefit ?g0] =>
      destruct (get_current_benefit_Ok g0) as [b ->]; [exact Hs|]
  end.
  cbn [bind].
  repeat match goal with
         | |- context [if ?c then Ok _ else _] => destruct c
         end.
  all: eexists; split; [reflexivity|exact Hs].
Qed.

(** X5.  [get_current_neg_ratio] answers a percentage: the guard keeps the
    division defined and, with [rshash_neg <= rshash_pos], the quotient at
    most 100 even when [100 * rshash_neg] wraps. *)
Theorem get_current_neg_ratio_percent g :
  0 <= rshash_pos g -> 0 <= rshash_neg g ->
  exists v, get_current_neg_ratio g = Ok v /\ 0 <= v <= 100.
Proof.
  intros Hp Hn. unfold get_current_neg_ratio.
  destruct (Z.eqb_spec (rshash_pos g) 0) as [Hz|Hz]; cbn [orb].
  { exists 100. split; [reflexivity|lia]. }
  destruct (Z.gtb_spec (rshash_neg g) (rshash_pos g)) as [Hgt|Hle].
  { exists 100. split; [reflexivity|lia]. }
  rewrite div64_u64_Ok by exact Hz. eexists. split; [reflexivity|].
  assert (Hu : 0 <= u64 (100 * rshash_neg g) <= 100 * rshash_neg g).
  { unfold u64. split; [apply Z.mod_pos_bound; lia|].
    apply Z.mod_le; lia. }
  split; [apply Z.div_pos; lia|].
  apply Z.div_le_upper_bound; [lia|]. nia.
Qed.

Section WithPage.

Variable HASH_STRENGTH_FULL : Z.
Hypothesis HASH_STRENGTH_FULL_range : 16 <= HASH_STRENGTH_FULL < 2 ^ 32.

Local Abbreviation HASH_STRENGTH_MAX :=
  (Hash.HASH_STRENGTH_MAX HASH_STRENGTH_FULL).
Local Abbreviation inc_hash_strength := (inc_hash_strength HASH_STRENGTH_FULL).
Local Abbreviation rshash_adjust := (rshash_adjust HASH_STRENGTH_FULL).
Local Abbreviation round_end_adjust :=
  (round_end_adjust HASH_STRENGTH_FULL).
Local Abbreviation tuning_step := (tuning_step HASH_STRENGTH_FULL).
Local Abbreviation initial := (initial HASH_STRENGTH_FULL).
Local Abbreviation points_ok := (points_ok HASH_STRENGTH_FULL).
Local Abbreviation strength_ok := (strength_ok HASH_STRENGTH_FULL).

Lemma HASH_STRENGTH_MAX_range : 26 <= HASH_STRENGTH_MAX < 2 ^ 63.
Proof. unfold Hash.HASH_STRENGTH_MAX. lia. Qed.

Lemma inc_hash_strength_clock g delta :
  scanned_since g -> scanned_since (inc_hash_strength g delta).
Proof.
  apply scanned_since_clock. unfold Rshash.inc_hash_strength. cbv zeta.
  destruct (_ >? _); split; reflexivity.
Qed.

Lemma inc_hash_strength_machine g delta :
  rshash_state (inc_hash_strength g delta) = rshash_state g.
Proof.
  unfold Rshash.inc_hash_strength. cbv zeta. destruct (_ >? _); reflexivity.
Qed.

Lemma inc_hash_strength_spec g delta :
  1 <= hash_strength g <= HASH_STRENGTH_MAX ->
  0 <= delta <= HASH_STRENGTH_DELTA_MAX ->
  let g' := inc_hash_strength g delta in
  hash_strength g <= hash_strength g' <= HASH_STRENGTH_MAX /\
  g' = set_hash_strength g (hash_strength g').
Proof.
  intros Hs Hd. pose proof (shiftl_1_small delta Hd) as Hc.
  pose proof HASH_STRENGTH_MAX_range as Hmax.
  unfold Rshash.inc_hash_strength. cbn.
  assert (E : u64 (hash_strength g + Z.shiftl 1 delta)
              = hash_strength g + Z.shiftl 1 delta).
  { apply u64_small. lia. }
  rewrite E.
  destruct (Z.gtb_spec (hash_strength g + Z.shiftl 1 delta) HASH_STRENGTH_MAX);
    cbn; (split; [lia|reflexivity]).
Qed.

Lemma dec_hash_strength_spec g delta :
  1 <= hash_strength g <= HASH_STRENGTH_MAX ->
  0 <= delta <= HASH_STRENGTH_DELTA_MAX ->
  let g' := dec_hash_strength g delta in
  1 <= hash_strength g' <= hash_strength g /\
  g' = set_hash_strength g (hash_strength g').
Proof.
  intros Hs Hd. pose proof (shiftl_1_small delta Hd) as Hc.
  pose proof HASH_STRENGTH_MAX_range as Hmax.
  unfold dec_hash_strength.
  rewrite (u64_small (Z.shiftl 1 delta + 1)) by lia.
  destruct (Z.leb_spec (hash_strength g) (Z.shiftl 1 delta + 1)); cbn.
  - split; [lia|reflexivity].
  - rewrite u64_small by lia. split; [lia|reflexivity].
Qed.

Lemma inc_hash_strength_delta_spec g :
  0 <= hash_strength_delta g <= HASH_STRENGTH_DELTA_MAX ->
  let g' := inc_hash_strength_delta g in
  0 <= hash_strength_delta g' <= HASH_STRENGTH_DELTA_MAX /\
  g' = set_hash_strength_delta g (hash_strength_delta g').
Proof.
  unfold HASH_STRENGTH_DELTA_MAX. intros Hd.
  unfold inc_hash_strength_delta, HASH_STRENGTH_DELTA_MAX. cbn.
  rewrite u64_small by lia.
  destruct (Z.gtb_spec (hash_strength_delta g + 1) 5); cbn;
    (split; [lia|reflexivity]).
Qed.

Lemma inc_hash_strength_ok g :
  strength_ok g ->
  strength_ok (inc_hash_strength g (hash_strength_delta g)) /\
  hash_strength g <= hash_strength (inc_hash_strength g (hash_strength_delta g)).
Proof.
  intros (Hs & Hd & Hp).
  destruct (inc_hash_strength_spec g (hash_strength_delta g) Hs Hd)
    as [Hb Heq].
  split; [|lia]. rewrite Heq. split; [cbn; lia|]. split; assumption.
Qed.

Lemma dec_hash_strength_ok g :
  strength_ok g ->
  strength_ok (dec_hash_strength g (hash_strength_delta g)) /\
  hash_strength (dec_hash_strength g (hash_strength_delta g))
  <= hash_strength g.
Proof.
  intros (Hs & Hd & Hp).
  destruct (dec_hash_strength_spec g (hash_strength_delta g) Hs Hd)
    as [Hb Heq].
  split; [|lia]. rewrite Heq. split; [cbn; lia|]. split; assumption.
Qed.

Lemma inc_hash_strength_delta_ok g :
  strength_ok g ->
  strength_ok (inc_hash_strength_delta g) /\
  hash_strength (inc_hash_strength_delta g) = hash_strength g.
Proof.
  intros (Hs & Hd & Hp).
  destruct (inc_hash_strength_delta_spec g Hd) as [Hb Heq].
  rewrite Heq. split; [|reflexivity].
  split; [exact Hs|]. split; [cbn; lia|exact Hp].
Qed.

Lemma set_hash_strength_delta_0_ok g :
  strength_ok g -> strength_ok (set_hash_strength_delta g 0).
Proof.
  intros (Hs & Hd & Hp). split; [exact Hs|]. split; [|exact Hp].
  cbn. unfold HASH_STRENGTH_DELTA_MAX. lia.
Qed.

Lemma set_machine_ok g m :
  strength_ok g -> (trying m -> points_ok m) -> strength_ok (set_machine g m).
Proof.
  intros (Hs & Hd & _) Hp. split; [exact Hs|]. split; [exact Hd|exact Hp].
Qed.

Lemma judge_rshash_direction_ok g d g' :
  strength_ok g -> judge_rshash_direction g = Ok (d, g') ->
  strength_ok g' /\ hash_strength g' = hash_strength g /\ d <> GO_UP /\
  rshash_state g' = rshash_state g.
Proof.
  intros Hok H. apply judge_rshash_direction_spec in H
    as (Hd & _ & Hs & Hdelta & Hm).
  split; [|auto]. unfold Rshash.strength_ok. rewrite Hs, Hdelta, Hm.
  exact Hok.
Qed.

(** The window of [RSHASH_TRYDOWN] and [RSHASH_TRYUP] keeps the strength
    and the state, and writes the strength to a turn point at most. *)
Lemma try_window_ok g g' turn_benefit set_turn :
  set_turn = set_turn_down \/ set_turn = set_turn_up ->
  strength_ok g -> points_ok (rshash_state g) ->
  try_window g turn_benefit set_turn = Ok g' ->
  strength_ok g' /\ points_ok (rshash_state g') /\
  hash_strength g' = hash_strength g /\
  state (rshash_state g') = state (rshash_state g).
Proof.
  intros Hset (Hs & Hd & _) (Hp1 & Hp2 & Hp3) H. unfold try_window in H.
  apply bind_Ok in H as (b & _ & H).
  assert (Hpts : points_ok (rshash_state g')).
  { repeat match type of H with
           | (if ?c then _ else _) = Ok _ => destruct c
           end.
    all: injection H as <-.
    all: destruct Hset as [-> | ->].
    all: cbn; destruct (_ =? 0); cbn; repeat split; cbn; lia. }
  assert (Hkeep : hash_strength g' = hash_strength g /\
                  hash_strength_delta g' = hash_strength_delta g /\
                  state (rshash_state g') = state (rshash_state g)).
  { repeat match type of H with
           | (if ?c then _ else _) = Ok _ => destruct c
           end.
    all: injection H as <-.
    all: destruct Hset as [-> | ->].
    all: cbn; destruct (_ =? 0); cbn; auto. }
  destruct Hkeep as (E1 & E2 & E3).
  split; [|auto]. split; [lia|]. split; [lia|]. intros _. exact Hpts.
Qed.

(** What a completed [rshash_adjust] keeps, and where it cannot raise the
    strength. *)
Lemma rshash_adjust_inv g g' r :
  strength_ok g -> rshash_adjust g = Ok (g', r) ->
  strength_ok g' /\
  (state (rshash_state g) = RSHASH_STILL ->
   hash_strength g' <= hash_strength g).
Proof.
  intros Hok H. unfold Rshash.rshash_adjust in H.
  destruct (ksm_pages_scanned g =? ksm_pages_scanned_last g).
  { injection H as <- <-. split; [exact Hok|lia]. }
  apply bind_Ok in H as (g1 & Hcase & H). injection H as <- _.
  assert (Hg1 : strength_ok g1 /\
                (state (rshash_state g) = RSHASH_STILL ->
                 hash_strength g1 <= hash_strength g)).
  { destruct (state (rshash_state g)) eqn:Estate.
    - (* RSHASH_STILL *)
      apply bind_Ok in Hcase as ([d g2] & Hjudge & Hcase).
      apply judge_rshash_direction_ok in Hjudge as (Hok2 & Hs2 & Hup & Hm2);
        [|exact Hok].
      assert (Estate2 : state (rshash_state g2) = RSHASH_STILL)
        by (rewrite Hm2; exact Estate).
      destruct d; [contradiction| | |].
      + (* GO_DOWN *)
        cbv zeta in Hcase.
        set (g3 := if bool_decide (pre_direct (rshash_state g2) = GO_UP)
                   then set_hash_strength_delta g2 0 else g2) in Hcase.
        assert (H3 : strength_ok g3 /\ hash_strength g3 = hash_strength g2
                     /\ rshash_state g3 = rshash_state g2).
        { subst g3. destruct (bool_decide _); [|auto].
          split; [apply set_hash_strength_delta_0_ok; exact Hok2|auto]. }
        destruct H3 as (Hok3 & Hs3 & Hm3).
        destruct (dec_hash_strength_ok g3 Hok3) as [Hok4 Hs4].
        destruct (inc_hash_strength_delta_ok _ Hok4) as [Hok5 Hs5].
        apply bind_Ok in Hcase as (b & _ & Hcase). injection Hcase as <-.
        split; [|intros _; cbn; lia].
        apply set_machine_ok; [exact Hok5|].
        intros Htry. exact (proj2 (proj2 Hok5) Htry).
      + (* OBSCURE *)
        apply bind_Ok in Hcase as (b1 & _ & Hcase).
        apply bind_Ok in Hcase as (b2 & _ & Hcase).
        cbv zeta in Hcase.
        match type of Hcase with
        | Ok (inc_hash_strength_delta (dec_hash_strength ?g0 _)) = _ =>
            assert (Hok3 : strength_ok g0)
        end.
        { destruct Hok2 as (Hs & Hd & Hp). split; [exact Hs|].
          split; [exact Hd|]. intros _. repeat split; cbn; lia. }
        destruct (dec_hash_strength_ok _ Hok3) as [Hok4 Hs4].
        destruct (inc_hash_strength_delta_ok _ Hok4) as [Hok5 Hs5].
        injection Hcase as <-. split; [exact Hok5|].
        intros _. cbn in Hs4, Hs5 |- *. lia.
      + (* STILL *)
        injection Hcase as <-. split; [exact Hok2|]. intros _. lia.
    - (* RSHASH_TRYUP *)
      split; [|discriminate].
      assert (Hpts : points_ok (rshash_state g)).
      { apply Hok. right. exact Estate. }
      apply bind_Ok in Hcase as (g2 & Hwin & Hcase).
      apply try_window_ok in Hwin as (Hok2 & Hpts2 & Hs2 & Est2);
        [|auto|exact Hok|exact Hpts].
      apply bind_Ok in Hcase as ([turn g3] & Hturn & Hcase).
      assert (Hok3 : strength_ok g3 /\ rshash_state g3 = rshash_state g2).
      { destruct (_ >=? 3).
        - injection Hturn as _ <-. auto.
        - apply bind_Ok in Hturn as ([d g4] & Hjudge & Hturn).
          injection Hturn as _ <-.
          apply judge_rshash_direction_ok in Hjudge as (Hj & _ & _ & Hm);
            [auto|exact Hok2]. }
      destruct Hok3 as [Hok3 Hm3]. rewrite <- Hm3 in Hpts2.
      destruct turn.
      + injection Hcase as <-.
        destruct Hok3 as (Hs & Hd & _). destruct Hpts2 as (Hp1 & Hp2 & Hp3).
        split; [|split; [exact Hd|]].
        * cbn. destruct (_ >? _); assumption.
        * intros [Hst|Hst]; discriminate Hst.
      + injection Hcase as <-.
        destruct (inc_hash_strength_ok g3 Hok3) as [Hok4 _].
        apply (inc_hash_strength_delta_ok _ Hok4).
    - (* RSHASH_TRYDOWN *)
      split; [|discriminate].
      assert (Hpts : points_ok (rshash_state g)).
      { apply Hok. left. exact Estate. }
      apply bind_Ok in Hcase as (g2 & Hwin & Hcase).
      apply try_window_ok in Hwin as (Hok2 & Hpts2 & Hs2 & Est2);
        [|auto|exact Hok|exact Hpts].
      apply bind_Ok in Hcase as ([turn g3] & Hturn & Hcase).
      assert (Hok3 : strength_ok g3 /\ rshash_state g3 = rshash_state g2).
      { destruct (_ >=? 3).
        - injection Hturn as _ <-. auto.
        - apply bind_Ok in Hturn as ([d g4] & Hjudge & Hturn).
          injection Hturn as _ <-.
          apply judge_rshash_direction_ok in Hjudge as (Hj & _ & _ & Hm);
            [auto|exact Hok2]. }
      destruct Hok3 as [Hok3 Hm3]. rewrite <- Hm3 in Hpts2.
      destruct turn.
      + injection Hcase as <-. cbv zeta.
        assert (Hok4 : strength_ok
                  (set_hash_strength_delta
                     (set_hash_strength g3 (stable_point (rshash_state g3)))
                     0)).
        { destruct Hok3 as (Hs & Hd & _). destruct Hpts2 as (Hp1 & Hp2 & Hp3).
          split; [exact Hp1|]. split; [|intros _; exact (conj Hp1 (conj Hp2 Hp3))].
          cbn. unfold HASH_STRENGTH_DELTA_MAX. lia. }
        destruct (inc_hash_strength_ok _ Hok4) as [Hok5 _].
        destruct (inc_hash_strength_delta_ok _ Hok5) as [Hok6 _].
        apply set_hash_strength_delta_0_ok.
        apply set_machine_ok; [exact Hok6|].
        intros _.
        rewrite inc_hash_strength_delta_machine, inc_hash_strength_machine.
        exact Hpts2.
      + injection Hcase as <-.
        destruct (dec_hash_strength_ok g3 Hok3) as [Hok4 _].
        apply (inc_hash_strength_delta_ok _ Hok4).
    - (* RSHASH_NEW *)
      split; [|discriminate].
      apply bind_Ok in Hcase as (b & _ & Hcase). injection Hcase as <-.
      apply set_hash_strength_delta_0_ok.
      apply set_machine_ok; [exact Hok|].
      intros [Hst|Hst]; discriminate Hst.
    - (* RSHASH_PRE_STILL *)
      split; [|discriminate].
      apply bind_Ok in Hcase as (b & _ & Hcase). injection Hcase as <-.
      apply set_hash_strength_delta_0_ok.
      apply set_machine_ok; [exact Hok|].
      intros [Hst|Hst]; discriminate Hst. }
  destruct Hg1 as [(Hs & Hd & Hp) Hle]. split; [|exact Hle].
  split; [exact Hs|]. split; [exact Hd|exact Hp].
Qed.

Lemma initial_ok : strength_ok initial.
Proof.
  split; [|split].
  - cbn. rewrite Z.shiftr_div_pow2 by lia. unfold Hash.HASH_STRENGTH_MAX.
    change (2 ^ 4) with 16. 
    pose proof (Z.div_le_lower_bound HASH_STRENGTH_FULL 16 1).
    pose proof (Z.div_le_upper_bound HASH_STRENGTH_FULL 16 HASH_STRENGTH_FULL).
    lia.
  - cbn. unfold HASH_STRENGTH_DELTA_MAX. lia.
  - intros [Hst|Hst]; discriminate Hst.
Qed.

Lemma tuning_step_ok g g' :
  tuning_step g g' -> strength_ok g -> strength_ok g'.
Proof.
  intros Hstep Hok. destruct Hstep as [g pos neg scanned round|g g' r Hend].
  - exact Hok.
  - unfold Rshash.round_end_adjust in Hend.
    apply bind_Ok in Hend as ([g1 r1] & Hadj & Hend).
    injection Hend as <- _.
    apply rshash_adjust_inv in Hadj as [Hok1 _]; [exact Hok1|exact Hok].
Qed.

Lemma tuning_steps_ok g g' :
  rtc tuning_step g g' -> strength_ok g -> strength_ok g'.
Proof.
  induction 1 as [g|g g1 g2 Hstep _ IH]; [auto|].
  intros Hok. apply IH. exact (tuning_step_ok _ _ Hstep Hok).
Qed.

(** X3.  [rshash_adjust] has a result as soon as the two counters of
    scanned pages are 64-bit values.  It never divides by zero: the
    benefit is divided by the pages scanned since the last adjustment,
    which is not zero past the first test, and the change of benefit by a
    stable benefit that was tested. *)
Theorem rshash_adjust_completes g :
  0 <= ksm_pages_scanned g < 2 ^ 64 ->
  0 <= ksm_pages_scanned_last g < 2 ^ 64 ->
  exists r, rshash_adjust g = Ok r.
Proof.
  intros Hsc Hla. unfold Rshash.rshash_adjust.
  destruct (Z.eqb_spec (ksm_pages_scanned g) (ksm_pages_scanned_last g))
    as [Heq|Hne]; [eauto|].
  assert (Hs : scanned_since g) by (repeat split; auto; lia).
  match goal with
  | |- exists r, bind ?m _ = Ok r => assert (Hm : exists g1, m = Ok g1)
  end.
  2:{ destruct Hm as [g1 ->]. cbn [bind]. eauto. }
  destruct (state (rshash_state g)).
  - (* RSHASH_STILL *)
    destruct (judge_rshash_direction_Ok g Hs) as [[d g2] Hj]. rewrite Hj.
    cbn [bind].
    apply judge_rshash_direction_spec in Hj as (Hup & Hclock & _).
    apply (scanned_since_clock g g2 Hclock) in Hs.
    destruct d; [contradiction| | |].
    + cbv zeta.
      match goal with
      | |- context [get_current_benefit ?g0] =>
          destruct (get_current_benefit_Ok g0) as [b ->]
      end.
      * apply inc_hash_strength_delta_clock, dec_hash_strength_clock.
        destruct (bool_decide _); exact Hs.
      * cbn [bind]. eauto.
    + destruct (get_current_benefit_Ok g2 Hs) as [b ->]. cbn [bind]. eauto.
    + eauto.
  - (* RSHASH_TRYUP *)
    destruct (try_window_Ok g turn_benefit_up set_turn_up Hs)
      as (g2 & -> & Hs2).
    cbn [bind].
    destruct (_ >=? 3); cbn [bind].
    + eauto.
    + destruct (judge_rshash_direction_Ok g2 Hs2) as [[d g3] ->].
      cbn [bind]. destruct (bool_decide _); eauto.
  - (* RSHASH_TRYDOWN *)
    destruct (try_window_Ok g turn_benefit_down set_turn_down Hs)
      as (g2 & -> & Hs2).
    cbn [bind].
    destruct (_ >=? 3); cbn [bind].
    + eauto.
    + destruct (judge_rshash_direction_Ok g2 Hs2) as [[d g3] ->].
      cbn [bind]. destruct (bool_decide _); eauto.
  - destruct (get_current_benefit_Ok g Hs) as [b ->]. cbn [bind]. eauto.
  - destruct (get_current_benefit_Ok g Hs) as [b ->]. cbn [bind]. eauto.
Qed.

(** X1.  [judge_rshash_direction] never answers [GO_UP]: the places that
    store [GO_UP] or [OBSCURE] in [ret] jump to [out], which answers
    [STILL]. *)
Theorem judge_never_goes_up g d g' :
  judge_rshash_direction g = Ok (d, g') -> d <> GO_UP.
Proof. intros H. apply judge_rshash_direction_spec in H. apply H. Qed.

(** X2.  From the state of a loaded module, whatever the scan writes to its
    counters and however many rounds end, [hash_strength] stays in
    [1, HASH_STRENGTH_MAX] and [hash_strength_delta] in
    [0, HASH_STRENGTH_DELTA_MAX]. *)
Theorem strength_stays_in_range g :
  rtc tuning_step initial g ->
  1 <= hash_strength g <= HASH_STRENGTH_MAX /\
  0 <= hash_strength_delta g <= HASH_STRENGTH_DELTA_MAX.
Proof.
  intros Hrun. destruct (tuning_steps_ok _ _ Hrun initial_ok) as (Hs & Hd & _).
  split; assumption.
Qed.

(** X4.  In the state [RSHASH_STILL] an adjustment never raises the
    strength: the case [GO_UP] of the switch is not reached. *)
Theorem still_never_raises g g' r :
  strength_ok g -> state (rshash_state g) = RSHASH_STILL ->
  rshash_adjust g = Ok (g', r) ->
  hash_strength g' <= hash_strength g.
Proof.
  intros Hok Hstill H. apply rshash_adjust_inv in H as [_ Hle]; auto.
Qed.

(** X6.  The end of a round leaves [ksm_pages_scanned_last] equal to
    [ksm_pages_scanned], so that a second end with no page scanned in
    between changes nothing and asks for no new hash of the stable tree. *)
Theorem round_end_twice g g' r :
  round_end_adjust g = Ok (g', r) -> round_end_adjust g' = Ok (g', None).
Proof.
  unfold Rshash.round_end_adjust. intros H.
  apply bind_Ok in H as ([g1 r1] & _ & H). injection H as <- _.
  unfold Rshash.rshash_adjust. cbn -[Z.eqb]. rewrite Z.eqb_refl.
  reflexivity.
Qed.

End WithPage.

Lemma sample_range : 16 <= 1024 < 2 ^ 32.
Proof. lia. Qed.

Lemma sample_still_ok : strength_ok 1024 sample_still.
Proof.
  split; [|split].
  - vm_compute. split; discriminate.
  - vm_compute. split; discriminate.
  - intros [H|H]; discriminate H.
Qed.

Lemma judge_never_goes_up_witness :
  judge_rshash_direction sample_still
  = Ok (GO_DOWN, set_neg_cont_zero sample_still 3) /\
  GO_DOWN <> GO_UP.
Proof.
  assert (H : judge_rshash_direction sample_still
              = Ok (GO_DOWN, set_neg_cont_zero sample_still 3))
    by (vm_compute; reflexivity).
  split; [exact H|]. exact (judge_never_goes_up _ _ _ H).
Defined.

Lemma strength_stays_in_range_witness :
  rtc (tuning_step 1024) (initial 1024) sample_next /\
  1 <= hash_strength sample_next <= Hash.HASH_STRENGTH_MAX 1024 /\
  0 <= hash_strength_delta sample_next <= HASH_STRENGTH_DELTA_MAX.
Proof.
  assert (Hrun : rtc (tuning_step 1024) (initial 1024) sample_next).
  { apply rtc_l with sample; [apply step_scan|].
    apply rtc_l with sample_next; [|apply rtc_refl].
    apply step_round_end with None. vm_compute. reflexivity. }
  split; [exact Hrun|].
  exact (strength_stays_in_range 1024 sample_range sample_next Hrun).
Defined.

Lemma rshash_adjust_completes_witness :
  exists r, rshash_adjust 1024 sample = Ok r.
Proof.
  apply (rshash_adjust_completes 1024 sample); cbn; lia.
Defined.

Lemma still_never_raises_witness :
  rshash_adjust 1024 sample_still
  = Ok (from_adjust sample_still, Some 64) /\
  hash_strength (from_adjust sample_still) <= hash_strength sample_still.
Proof.
  assert (H : rshash_adjust 1024 sample_still
              = Ok (from_adjust sample_still, Some 64))
    by (vm_compute; reflexivity).
  split; [exact H|].
  exact (still_never_raises 1024 sample_range sample_still _ _
           sample_still_ok eq_refl H).
Defined.

Lemma round_end_twice_witness :
  round_end_adjust 1024 sample_next = Ok (sample_next, None).
Proof.
  apply (round_end_twice 1024 sample sample_next None).
  vm_compute. reflexivity.
Defined.

Lemma get_current_neg_ratio_percent_witness :
  exists v, get_current_neg_ratio sample = Ok v /\ 0 <= v <= 100.
Proof.
  apply (get_current_neg_ratio_percent sample); cbn; lia.
Defined.

End RshashFacts.

(** ** Re-hashing in both directions *)

Module DeltaHashFacts.
Import Hash.

(** The two xor-shifts of the reverse step are undone by the xor-shift of
    the mixing step. *)
Lemma xorshift_undo h :
  0 <= h < 2 ^ 32 ->
  let c := Z.lxor h (Z.shiftr h 12) in
  let x := Z.lxor c (Z.shiftr c 24) in
  Z.lxor x (Z.shiftr x 12) = h.
Proof.
  intros Hh c x. subst x c.
  rewrite !Z.shiftr_lxor, !Z.shiftr_shiftr by lia.
  change (12 + 12) with 24. change (12 + 24) with 36.
  change (24 + 12) with 36. change (36 + 12) with 48.
  assert (H48 : Z.shiftr h 48 = 0).
  { rewrite Z.shiftr_div_pow2 by lia. apply Z.div_small. lia. }
  assert (H36 : Z.shiftr h 36 = 0).
  { rewrite Z.shiftr_div_pow2 by lia. apply Z.div_small. lia. }
  rewrite ?H48, ?H36, ?Z.lxor_0_r.
  generalize (Z.shiftr h 12) (Z.shiftr h 24). intros s t.
  apply Z.bits_inj'. intros n _. rewrite !Z.lxor_spec.
  destruct (Z.testbit h n), (Z.testbit s n), (Z.testbit t n); reflexivity.
Qed.

(** Multiplying by [(1 - 2^8) * (1 + 2^16)] is undone by [1 + 2^8]. *)
Lemma mulshift_undo b :
  0 <= b < 2 ^ 32 ->
  let x := u32 (b - u32 (Z.shiftl b 8)) in
  let y := u32 (x + u32 (Z.shiftl x 16)) in
  u32 (y + u32 (Z.shiftl y 8)) = b.
Proof.
  intros Hb x y. subst y x. unfold u32.
  rewrite !Z.shiftl_mul_pow2 by lia.
  rewrite Zminus_mod_idemp_r.
  rewrite !Zplus_mod_idemp_r.
  set (x := (b - b * 2 ^ 8) mod 2 ^ 32).
  set (y := (x + x * 2 ^ 16) mod 2 ^ 32).
  replace (y + y * 2 ^ 8) with (y * 257) by lia.
  subst y. rewrite Zmult_mod_idemp_l.
  replace ((x + x * 2 ^ 16) * 257) with (x * 16843009) by lia.
  subst x. rewrite Zmult_mod_idemp_l.
  replace ((b - b * 2 ^ 8) * 16843009) with (b + (- b) * 2 ^ 32) by lia.
  rewrite Z.mod_add by lia. apply Z.mod_small. exact Hb.
Qed.

Section WithPage.

Variable HASH_STRENGTH_FULL : Z.
Variable random_nums : Z -> Z.
Variable key : Z -> Z.

Local Abbreviation hash_up := (hash_up random_nums key).
Local Abbreviation hash_down := (hash_down random_nums key).
Local Abbreviation up_loop := (up_loop random_nums key).
Local Abbreviation down_loop := (down_loop random_nums key).
Local Abbreviation HASH_FROM_TO := (HASH_FROM_TO random_nums key).
Local Abbreviation HASH_FROM_DOWN_TO := (HASH_FROM_DOWN_TO random_nums key).
Local Abbreviation delta_hash := (delta_hash HASH_STRENGTH_FULL random_nums key).

Lemma hash_down_range index h : 0 <= hash_down index h < 2 ^ 32.
Proof. unfold Hash.hash_down. cbv zeta. apply u32_range. Qed.

Lemma hash_up_down index h :
  0 <= h < 2 ^ 32 -> hash_up index (hash_down index h) = h.
Proof.
  intros Hh. unfold Hash.hash_down, Hash.hash_up, shiftl, shiftr. cbv zeta.
  change (12 * 2) with 24. change (8 * 2) with 16.
  set (c := Z.lxor h (Z.shiftr h 12)).
  assert (Hc : 0 <= c < 2 ^ 32).
  { apply lxor_u32_range; [exact Hh|apply shiftr_u32_range; lia]. }
  set (b := Z.lxor c (Z.shiftr c 24)).
  assert (Hb : 0 <= b < 2 ^ 32).
  { apply lxor_u32_range; [exact Hc|apply shiftr_u32_range; lia]. }
  set (x := u32 (b - u32 (Z.shiftl b 8))).
  set (y := u32 (x + u32 (Z.shiftl x 16))).
  assert (Hy : 0 <= y < 2 ^ 32) by apply u32_range.
  assert (E : u32 (u32 (y - key (random_nums index))
                   + key (random_nums index)) = y).
  { unfold u32. rewrite Zplus_mod_idemp_l.
    replace (y - key (random_nums index) + key (random_nums index))
      with y by lia.
    apply Z.mod_small. exact Hy. }
  rewrite E. subst y x. rewrite (mulshift_undo b Hb).
  subst b c. apply (xorshift_undo h Hh).
Qed.

Lemma down_loop_range n : forall index h,
  0 <= h < 2 ^ 32 -> 0 <= down_loop n index h < 2 ^ 32.
Proof.
  induction n as [|n IH]; intros index h Hh; cbn; [exact Hh|].
  apply IH. apply hash_down_range.
Qed.

Lemma down_loop_snoc n index h :
  down_loop (S n) index h = hash_down (index - Z.of_nat n) (down_loop n index h).
Proof.
  replace (S n) with (n + 1)%nat by lia. rewrite HashFacts.down_loop_app.
  reflexivity.
Qed.

Lemma up_down_loop n : forall index h,
  0 <= h < 2 ^ 32 ->
  up_loop n (index - Z.of_nat n + 1) (down_loop n index h) = h.
Proof.
  induction n as [|n IH]; intros index h Hh; [reflexivity|].
  rewrite down_loop_snoc. rewrite HashFacts.up_loop_S.
  replace (index - Z.of_nat (S n) + 1) with (index - Z.of_nat n) by lia.
  rewrite hash_up_down by (apply down_loop_range; exact Hh).
  replace (index - Z.of_nat n + 1) with (index - Z.of_nat n + 1) by lia.
  apply IH. exact Hh.
Qed.

Lemma HASH_FROM_TO_undo a b h :
  a <= b -> 0 <= h < 2 ^ 32 ->
  HASH_FROM_TO a b (HASH_FROM_DOWN_TO b a h) = h.
Proof.
  intros H Hh. unfold Hash.HASH_FROM_DOWN_TO, Hash.HASH_FROM_TO.
  replace a with (b - 1 - Z.of_nat (Z.to_nat (b - a)) + 1) at 2 by lia.
  apply up_down_loop. exact Hh.
Qed.

Lemma HASH_FROM_DOWN_TO_range from to h :
  0 <= h < 2 ^ 32 -> 0 <= HASH_FROM_DOWN_TO from to h < 2 ^ 32.
Proof. apply down_loop_range. Qed.

Lemma HASH_FROM_DOWN_TO_nil a b h : a <= b -> HASH_FROM_DOWN_TO a b h = h.
Proof.
  intros H. unfold Hash.HASH_FROM_DOWN_TO.
  replace (Z.to_nat (a - b)) with 0%nat by lia. reflexivity.
Qed.

(** X7.  [delta_hash] loses nothing: re-hashing a 32-bit value from one
    strength to another and back gives the value again, whether the first
    step extends or reduces the sample and on either side of
    [HASH_STRENGTH_FULL]. *)
Theorem delta_hash_round_trip (from to h : Z) :
  0 <= h < 2 ^ 32 ->
  delta_hash to from (delta_hash from to h) = h.
Proof.
  intros Hh. unfold Hash.delta_hash. cbv zeta.
  destruct (Z.gtb_spec to from) as [Hup|Hdown].
  - (* extended, then reduced *)
    destruct (Z.gtb_spec from to) as [?|_]; [lia|].
    destruct (Z.geb_spec from HASH_STRENGTH_FULL) as [Hff|Hff].
    + destruct (Z.leb_spec to HASH_STRENGTH_FULL) as [?|_]; [lia|].
      apply HashFacts.HASH_FROM_DOWN_TO_undo; [lia|exact Hh].
    + destruct (Z.leb_spec to HASH_STRENGTH_FULL) as [Htf|Htf].
      * apply HashFacts.HASH_FROM_DOWN_TO_undo; [lia|exact Hh].
      * rewrite HashFacts.HASH_FROM_DOWN_TO_undo
          by (try lia; apply HashFacts.HASH_FROM_TO_range; exact Hh).
        apply HashFacts.HASH_FROM_DOWN_TO_undo; [lia|exact Hh].
  - (* reduced, then extended *)
    destruct (Z.gtb_spec from to) as [Hlt|Heq].
    + destruct (Z.leb_spec from HASH_STRENGTH_FULL) as [Hff|Hff].
      * destruct (Z.geb_spec to HASH_STRENGTH_FULL) as [?|_]; [lia|].
        destruct (Z.leb_spec from HASH_STRENGTH_FULL) as [_|?]; [|lia].
        apply HASH_FROM_TO_undo; [lia|exact Hh].
      * destruct (Z.geb_spec to HASH_STRENGTH_FULL) as [Htf|Htf].
        -- apply HASH_FROM_TO_undo; [lia|exact Hh].
        -- destruct (Z.leb_spec from HASH_STRENGTH_FULL) as [?|_]; [lia|].
           rewrite HASH_FROM_TO_undo
             by (try lia; apply HASH_FROM_DOWN_TO_range; exact Hh).
           apply HASH_FROM_TO_undo; [lia|exact Hh].
    + (* the same strength: no step either way *)
      assert (to = from) as -> by lia.
      assert (E : (if from <=? HASH_STRENGTH_FULL
                   then HASH_FROM_DOWN_TO from from h
                   else if from >=? HASH_STRENGTH_FULL
                        then HASH_FROM_DOWN_TO (from - HASH_STRENGTH_FULL)
                               (from - HASH_STRENGTH_FULL) h
                        else HASH_FROM_DOWN_TO HASH_STRENGTH_FULL from
                               (HASH_FROM_DOWN_TO (from - HASH_STRENGTH_FULL)
                                  0 h)) = h).
      { destruct (Z.leb_spec from HASH_STRENGTH_FULL) as [Hff|Hff].
        - apply HASH_FROM_DOWN_TO_nil. lia.
        - destruct (Z.geb_spec from HASH_STRENGTH_FULL) as [_|?]; [|lia].
          apply HASH_FROM_DOWN_TO_nil. lia. }
      rewrite E. exact E.
Qed.

End WithPage.

(** What [HASH_FROM_TO] reads of the page: the low 32 bits of the words
    at the sampled positions. *)
Lemma up_loop_reads random_nums key1 key2 n : forall index h,
  (forall i, index <= i < index + Z.of_nat n ->
             u32 (key1 (random_nums i)) = u32 (key2 (random_nums i))) ->
  up_loop random_nums key1 n index h = up_loop random_nums key2 n index h.
Proof.
  induction n as [|n IH]; intros index h Hsame; [reflexivity|].
  cbn [up_loop].
  assert (E : hash_up random_nums key1 index h
              = hash_up random_nums key2 index h).
  { unfold hash_up. cbv zeta.
    assert (E : u32 (h + key1 (random_nums index))
                = u32 (h + key2 (random_nums index))).
    { pose proof (Hsame index ltac:(lia)) as E. unfold u32 in *.
      rewrite <- (Zplus_mod_idemp_r (key1 _)), E, Zplus_mod_idemp_r.
      reflexivity. }
    rewrite E. reflexivity. }
  rewrite E. apply IH. intros i Hi. apply Hsame. lia.
Qed.

Lemma random_sample_hash_reads HASH_STRENGTH_FULL random_nums key1 key2 s :
  10 <= HASH_STRENGTH_FULL ->
  s <= HASH_STRENGTH_MAX HASH_STRENGTH_FULL ->
  (forall i, 0 <= i < s -> i < HASH_STRENGTH_FULL ->
             u32 (key1 (random_nums i)) = u32 (key2 (random_nums i))) ->
  random_sample_hash HASH_STRENGTH_FULL random_nums key1 s
  = random_sample_hash HASH_STRENGTH_FULL random_nums key2 s.
Proof.
  intros HF Hs Hsame. unfold HASH_STRENGTH_MAX in Hs.
  unfold random_sample_hash, HASH_FROM_TO. cbv zeta.
  destruct (Z.gtb_spec s HASH_STRENGTH_FULL) as [Hgt|Hle].
  - rewrite (up_loop_reads random_nums key1 key2
               (Z.to_nat (HASH_STRENGTH_FULL - 0))).
    2:{ intros i Hi. apply Hsame; lia. }
    apply up_loop_reads. intros i Hi. apply Hsame; lia.
  - apply up_loop_reads. intros i Hi. apply Hsame; lia.
Qed.

(** X8.  The hash at a strength [s] up to [HASH_STRENGTH_MAX] reads the
    page at the [s] first sampled positions only (all of them from
    [HASH_STRENGTH_FULL] on): two pages that hold the same words there have
    the same hash, whatever they hold elsewhere. *)
Theorem random_sample_hash_reads_sample HASH_STRENGTH_FULL random_nums
    key1 key2 (s : Z) :
  10 <= HASH_STRENGTH_FULL ->
  s <= HASH_STRENGTH_MAX HASH_STRENGTH_FULL ->
  (forall i, 0 <= i < s -> i < HASH_STRENGTH_FULL ->
             key1 (random_nums i) = key2 (random_nums i)) ->
  random_sample_hash HASH_STRENGTH_FULL random_nums key1 s
  = random_sample_hash HASH_STRENGTH_FULL random_nums key2 s.
Proof.
  intros HF Hs Hsame. apply random_sample_hash_reads; [exact HF|exact Hs|].
  intros i Hi Hlt. rewrite (Hsame i Hi Hlt). reflexivity.
Qed.

Lemma delta_hash_round_trip_witness :
  delta_hash 1024 (fun i => (i * 37 + 5) mod 1024)
    (fun p => u32 (p * 2654435761)) 1030 4
    (delta_hash 1024 (fun i => (i * 37 + 5) mod 1024)
       (fun p => u32 (p * 2654435761)) 4 1030 12345)
  = 12345.
Proof.
  apply (delta_hash_round_trip 1024 (fun i => (i * 37 + 5) mod 1024)
           (fun p => u32 (p * 2654435761)) 4 1030 12345); lia.
Defined.

Lemma random_sample_hash_reads_sample_witness :
  random_sample_hash 1024 (fun i => i) (fun p => p) 8
  = random_sample_hash 1024 (fun i => i) (fun p => if p <? 8 then p else 0) 8.
Proof.
  apply (random_sample_hash_reads_sample 1024 (fun i => i) (fun p => p)
           (fun p => if p <? 8 then p else 0) 8);
    [lia|unfold HASH_STRENGTH_MAX; lia|].
  intros i Hi _. cbv beta. destruct (Z.ltb_spec i 8); [reflexivity|lia].
Defined.

End DeltaHashFacts.

(** ** The counters of pairs of areas *)

Module PairFacts.
Import InterTab InterTabFacts.

(** Twice the triangular number. *)
Lemma triangle_twice a :
  0 <= a -> 2 * Z.quot (a * (a + 1)) 2 = a * (a + 1).
Proof.
  intros Ha. rewrite Z.quot_div_nonneg by nia.
  assert (E : exists k, a * (a + 1) = 2 * k).
  { destruct (Z.Even_or_Odd a) as [[k ->]|[k ->]].
    - exists (k * (2 * k + 1)). ring.
    - exists ((2 * k + 1) * (k + 1)). ring. }
  destruct E as [k ->]. rewrite (Z.mul_comm 2 k), Z.div_mul by lia. lia.
Qed.

Lemma triangle_inj a b a' b' :
  0 <= b <= a -> 0 <= b' <= a' ->
  Z.quot (a * (a + 1)) 2 + b = Z.quot (a' * (a' + 1)) 2 + b' ->
  a = a' /\ b = b'.
Proof.
  intros Hb Hb' E.
  pose proof (triangle_twice a ltac:(lia)) as T.
  pose proof (triangle_twice a' ltac:(lia)) as T'.
  assert (a = a') by nia. subst a'. split; [reflexivity|lia].
Qed.

Lemma intertab_vma_offset_inj i j i' j' :
  0 <= i -> 0 <= j -> 0 <= i' -> 0 <= j' ->
  intertab_vma_offset i j = intertab_vma_offset i' j' ->
  (i = i' /\ j = j') \/ (i = j' /\ j = i').
Proof.
  intros Hi Hj Hi' Hj'. unfold intertab_vma_offset.
  destruct (Z.ltb_spec i j), (Z.ltb_spec i' j'); intros E;
    apply triangle_inj in E; lia.
Qed.

(** The index of a tracked area names it. *)
Lemma wf_index_inj st s1 s2 :
  wf st -> slot_ksm_index st s1 <> -1 ->
  slot_ksm_index st s2 <> -1 ->
  slot_ksm_index st s1 = slot_ksm_index st s2 -> s1 = s2.
Proof.
  intros W H1 H2 E.
  destruct (wf_idx _ W s1 H1) as (n1 & E1 & T1).
  destruct (wf_idx _ W s2 H2) as (n2 & E2 & T2).
  assert (n1 = n2) by lia. subst n2. congruence.
Qed.

(** X9.  In a well-formed table two pairs of tracked areas count in the
    same entry of [ksm_inter_vma_table] only if they are the same pair, in
    either order. *)
Theorem pairs_have_own_counter st (s1 s2 s3 s4 : nat) :
  wf st ->
  slot_ksm_index st s1 <> -1 -> slot_ksm_index st s2 <> -1 ->
  slot_ksm_index st s3 <> -1 -> slot_ksm_index st s4 <> -1 ->
  intertab_vma_offset (slot_ksm_index st s1) (slot_ksm_index st s2)
  = intertab_vma_offset (slot_ksm_index st s3) (slot_ksm_index st s4) ->
  (s1 = s3 /\ s2 = s4) \/ (s1 = s4 /\ s2 = s3).
Proof.
  intros W H1 H2 H3 H4 E.
  pose proof (wf_index_range st s1 W H1).
  pose proof (wf_index_range st s2 W H2).
  pose proof (wf_index_range st s3 W H3).
  pose proof (wf_index_range st s4 W H4).
  apply intertab_vma_offset_inj in E as [[E1 E2]|[E1 E2]]; try lia.
  - left. split; apply (wf_index_inj st); assumption.
  - right. split; apply (wf_index_inj st); assumption.
Qed.

(** What a completed [inc_vma_intertab_pair] has done: both areas have an
    index, and one counter went up by one. *)
Lemma inc_vma_intertab_pair_spec st s1 s2 st' :
  wf st -> inc_vma_intertab_pair st s1 s2 = Ok st' ->
  wf st' /\
  slot_ksm_index st' s1 <> -1 /\ slot_ksm_index st' s2 <> -1 /\
  let offset := intertab_vma_offset (slot_ksm_index st' s1)
                                    (slot_ksm_index st' s2) in
  let v := default 0 (ksm_inter_vma_table st !! offset) in
  0 <= offset < inter_vma_table_len /\
  u32 (v + 1) <> 0 /\
  ksm_inter_vma_table st' = <[offset := u32 (v + 1)]> (ksm_inter_vma_table st).
Proof.
  intros W H. unfold inc_vma_intertab_pair in H.
  apply bind_Ok in H as (st1 & H1 & H).
  pose proof (ensure_entered_safe st s1 W) as S1. rewrite H1 in S1.
  destruct S1 as (W1 & Hn1 & _).
  assert (T1 : ksm_inter_vma_table st1 = ksm_inter_vma_table st).
  { destruct (_ =? -1) in H1; [|injection H1 as <-; reflexivity].
    destruct (enter_inter_vma_table_eq st s1 W) as (i & _ & _ & E).
    rewrite E in H1. destruct (_ >? 2047); [discriminate|].
    injection H1 as <-. reflexivity. }
  apply bind_Ok in H as (st2 & H2 & H).
  pose proof (ensure_entered_safe st1 s2 W1) as S2. rewrite H2 in S2.
  destruct S2 as (W2 & Hn2 & Hk2).
  assert (T2 : ksm_inter_vma_table st2 = ksm_inter_vma_table st1).
  { destruct (_ =? -1) in H2; [|injection H2 as <-; reflexivity].
    destruct (enter_inter_vma_table_eq st1 s2 W1) as (i & _ & _ & E).
    rewrite E in H2. destruct (_ >? 2047); [discriminate|].
    injection H2 as <-. reflexivity. }
  apply Hk2 in Hn1.
  pose proof (wf_index_range st2 s1 W2 Hn1) as R1.
  pose proof (wf_index_range st2 s2 W2 Hn2) as R2.
  pose proof (wf_end _ W2) as He.
  set (offset := intertab_vma_offset _ _) in H.
  assert (Ho : 0 <= offset < inter_vma_table_len)
    by (apply intertab_vma_offset_range; lia).
  rewrite (inter_read_ok st2 offset Ho) in H. cbn [bind] in H.
  destruct (inter_write_ok st2 offset
              (u32 (default 0 (ksm_inter_vma_table st2 !! offset) + 1)) Ho)
    as (st3 & E3 & Ht & Hend & Hidx & Hi).
  rewrite E3 in H. cbn [bind] in H.
  rewrite (inter_read_ok st3 offset Ho) in H. cbn [bind] in H.
  rewrite Hi, lookup_insert_eq in H. cbn [default from_option id] in H.
  revert H.
  destruct (Z.eqb_spec
              (u32 (default 0 (ksm_inter_vma_table st2 !! offset) + 1)) 0)
    as [Hz|Hz]; [discriminate|].
  cbn [BUG_ON bind]. intros H. injection H as <-.
  assert (Hsame : forall s, slot_ksm_index st3 s = slot_ksm_index st2 s).
  { intros s. unfold slot_ksm_index. rewrite Hidx. reflexivity. }
  split; [apply (wf_same_table st2); assumption|].
  rewrite !Hsame. split; [exact Hn1|]. split; [exact Hn2|].
  fold offset. cbv zeta. rewrite <- T1, <- T2.
  split; [exact Ho|]. split; [exact Hz|exact Hi].
Qed.

(** X10.  [dec_vma_intertab_pair] undoes [inc_vma_intertab_pair]: after
    the two calls on the same pair every counter reads as before the first
    one, and the areas keep the indices that the first call gave them. *)
Theorem dec_undoes_inc st (s1 s2 : nat) st1 :
  wf st ->
  (forall offset v, ksm_inter_vma_table st !! offset = Some v ->
                    0 <= v < 2 ^ 32) ->
  inc_vma_intertab_pair st s1 s2 = Ok st1 ->
  exists st2,
    dec_vma_intertab_pair st1 s1 s2 = Ok st2 /\
    (forall offset, default 0 (ksm_inter_vma_table st2 !! offset)
                    = default 0 (ksm_inter_vma_table st !! offset)) /\
    ksm_vma_table st2 = ksm_vma_table st1 /\
    ksm_index st2 = ksm_index st1 /\
    ksm_vma_table_num st2 = ksm_vma_table_num st1 /\
    ksm_vma_table_index_end st2 = ksm_vma_table_index_end st1.
Proof.
  intros W Hu32 H.
  apply inc_vma_intertab_pair_spec in H as (W1 & Hn1 & Hn2 & H); [|exact W].
  cbv zeta in H. destruct H as (Ho & Hnz & Hi).
  set (offset := intertab_vma_offset _ _) in *.
  set (v := default 0 (ksm_inter_vma_table st !! offset)) in *.
  assert (Hv : 0 <= v < 2 ^ 32).
  { subst v. destruct (ksm_inter_vma_table st !! offset) as [v|] eqn:E.
    - exact (Hu32 _ _ E).
    - cbn. lia. }
  assert (Hv1 : u32 (v + 1) = v + 1).
  { destruct (Z.eq_dec v (2 ^ 32 - 1)) as [E|E].
    - exfalso. apply Hnz. rewrite E. reflexivity.
    - apply u32_small. lia. }
  unfold dec_vma_intertab_pair.
  destruct (Z.eqb_spec (slot_ksm_index st1 s1) (-1)); [contradiction|].
  destruct (Z.eqb_spec (slot_ksm_index st1 s2) (-1)); [contradiction|].
  cbn [orb BUG_ON bind]. fold offset.
  rewrite (inter_read_ok st1 offset Ho). cbn [bind].
  rewrite Hi, lookup_insert_eq. cbn [default from_option id].
  destruct (Z.eqb_spec (u32 (v + 1)) 0); [contradiction|].
  cbn [BUG_ON bind].
  destruct (inter_write_ok st1 offset (u32 (u32 (v + 1) - 1)) Ho)
    as (st2 & Ew & Ht & Hend & Hidx & Hi2).
  rewrite Ew. exists st2. split; [reflexivity|]. split.
  - intros o. rewrite Hi2, Hi, Hv1.
    replace (v + 1 - 1) with v by lia. rewrite (u32_small v Hv).
    destruct (decide (offset = o)) as [<-|Hne].
    + rewrite lookup_insert_eq. reflexivity.
    + rewrite !lookup_insert_ne by exact Hne. reflexivity.
  - split; [exact Ht|]. split; [exact Hidx|].
    split; [|exact Hend].
    unfold inter_write in Ew. destruct (_ && _); [|discriminate].
    injection Ew as <-. reflexivity.
Qed.

(** A loop of [ksm_intertab_clear] inside the table. *)
Lemma clear_entries_Ok index idxs : forall st,
  (forall i, i ∈ idxs ->
     0 <= intertab_vma_offset index i < inter_vma_table_len) ->
  exists st', clear_entries st index idxs = Ok st'.
Proof.
  unfold clear_entries.
  induction idxs as [|i idxs IH] using rev_ind; intros st Hin.
  - eexists. reflexivity.
  - rewrite foldl_app. cbn [foldl].
    destruct (IH st) as [st1 ->].
    { intros j Hj. apply Hin. apply elem_of_app. left. exact Hj. }
    cbn [bind].
    destruct (inter_write_ok st1 (intertab_vma_offset index i) 0)
      as (st2 & -> & _).
    { apply Hin. apply elem_of_app. right. apply list_elem_of_singleton.
      reflexivity. }
    eexists. reflexivity.
Qed.

Lemma clear_entries_keeps index idxs : forall st st',
  clear_entries st index idxs = Ok st' ->
  forall offset,
    (forall i, i ∈ idxs -> offset <> intertab_vma_offset index i) ->
    default 0 (ksm_inter_vma_table st' !! offset)
    = default 0 (ksm_inter_vma_table st !! offset).
Proof.
  unfold clear_entries.
  induction idxs as [|i idxs IH] using rev_ind; intros st st' H offset Hno.
  - cbn in H. injection H as <-. reflexivity.
  - rewrite foldl_app in H. cbn [foldl] in H.
    apply bind_Ok in H as (st1 & H1 & H).
    unfold inter_write in H. destruct (_ && _); [|discriminate].
    injection H as <-. cbn.
    rewrite lookup_insert_ne.
    + apply (IH st st1 H1). intros j Hj. apply Hno.
      apply elem_of_app. left. exact Hj.
    + intros E. apply (Hno i); [|symmetry; exact E].
      apply elem_of_app. right. apply list_elem_of_singleton. reflexivity.
Qed.

(** X11.  For a tracked area of a well-formed table [ksm_intertab_clear]
    stays inside [ksm_inter_vma_table] and leaves zero in the counter of
    every pair that the area makes with an index in use, itself included;
    the other counters and the area table are as before. *)
Theorem ksm_intertab_clear_zeroes st (slot : nat) :
  wf st -> slot_ksm_index st slot <> -1 ->
  exists st',
    ksm_intertab_clear st slot = Ok st' /\
    ksm_vma_table st' = ksm_vma_table st /\
    ksm_index st' = ksm_index st /\
    (forall i, 0 <= i < ksm_vma_table_index_end st ->
       default 0 (ksm_inter_vma_table st'
                    !! intertab_vma_offset (slot_ksm_index st slot) i) = 0) /\
    (forall offset,
       (forall i, 0 <= i < ksm_vma_table_index_end st ->
          offset <> intertab_vma_offset (slot_ksm_index st slot) i) ->
       default 0 (ksm_inter_vma_table st' !! offset)
       = default 0 (ksm_inter_vma_table st !! offset)).
Proof.
  intros W Hn. pose proof (wf_index_range st slot W Hn) as R.
  pose proof (wf_end _ W) as He.
  assert (Hrun : exists st', ksm_intertab_clear st slot = Ok st').
  { unfold ksm_intertab_clear.
    destruct (clear_entries_Ok (slot_ksm_index st slot)
                (seqZ 0 (slot_ksm_index st slot + 1)) st) as [st1 E1].
    { intros i Hi. apply elem_of_seqZ in Hi.
      apply intertab_vma_offset_range; lia. }
    rewrite E1. cbn [bind].
    pose proof (clear_entries_spec _ _ _ _ E1) as (_ & _ & He1 & _).
    apply clear_entries_Ok. intros i Hi. apply elem_of_seqZ in Hi.
    apply intertab_vma_offset_range; lia. }
  destruct Hrun as [st' Hrun]. exists st'. split; [exact Hrun|].
  pose proof (ksm_intertab_clear_spec st slot st' Hrun ltac:(lia))
    as (Ht & _ & _ & Hi & Hc).
  split; [exact Ht|]. split; [exact Hi|]. split.
  - intros i Hrange.
    destruct (Z.eq_dec
                (default 0 (ksm_inter_vma_table st'
                   !! intertab_vma_offset (slot_ksm_index st slot) i)) 0)
      as [E|E]; [exact E|].
    destruct (Hc _ E) as [_ Hno]. exfalso. exact (Hno i Hrange eq_refl).
  - intros offset Hother.
    unfold ksm_intertab_clear in Hrun.
    apply bind_Ok in Hrun as (st1 & H1 & H2).
    rewrite (clear_entries_keeps _ _ _ _ H2 offset).
    + apply (clear_entries_keeps _ _ _ _ H1 offset).
      intros i Hin. apply elem_of_seqZ in Hin. apply Hother. lia.
    + pose proof (clear_entries_spec _ _ _ _ H1) as (_ & _ & He1 & _).
      intros i Hin. apply elem_of_seqZ in Hin. apply Hother. lia.
Qed.

(** Areas 1 and 2 of [tab12], in both orders. *)
Lemma pairs_have_own_counter_witness :
  (1 = 2 /\ 2 = 1)%nat \/ (1 = 1 /\ 2 = 2)%nat.
Proof.
  apply (pairs_have_own_counter Examples.tab12 1 2 2 1
           (proj1 ExamplesFacts.tab12_wf_counted)).
  - vm_compute. discriminate.
  - vm_compute. discriminate.
  - vm_compute. discriminate.
  - vm_compute. discriminate.
  - vm_compute. reflexivity.
Defined.

(** A fourth page that areas 1 and 2 share, and its loss. *)
Lemma dec_undoes_inc_witness :
  exists st2,
    dec_vma_intertab_pair
      (Examples.from_ok Examples.tab12
         (inc_vma_intertab_pair Examples.tab12 1 2)) 1 2 = Ok st2 /\
    (forall offset, default 0 (ksm_inter_vma_table st2 !! offset)
                    = default 0 (ksm_inter_vma_table Examples.tab12
                                   !! offset)) /\
    ksm_vma_table st2
    = ksm_vma_table (Examples.from_ok Examples.tab12
                       (inc_vma_intertab_pair Examples.tab12 1 2)) /\
    ksm_index st2
    = ksm_index (Examples.from_ok Examples.tab12
                   (inc_vma_intertab_pair Examples.tab12 1 2)) /\
    ksm_vma_table_num st2
    = ksm_vma_table_num (Examples.from_ok Examples.tab12
                           (inc_vma_intertab_pair Examples.tab12 1 2)) /\
    ksm_vma_table_index_end st2
    = ksm_vma_table_index_end
        (Examples.from_ok Examples.tab12
           (inc_vma_intertab_pair Examples.tab12 1 2)).
Proof.
  apply (dec_undoes_inc Examples.tab12 1 2 _
           (proj1 ExamplesFacts.tab12_wf_counted)).
  - intros offset v H. vm_compute in H.
    destruct offset as [|[p|p|]|p]; try discriminate H.
    all: try (destruct p; discriminate H).
    injection H as <-. lia.
  - vm_compute. reflexivity.
Defined.

(** Area 1 of [tab12] leaves. *)
Lemma ksm_intertab_clear_zeroes_witness :
  exists st',
    ksm_intertab_clear Examples.tab12 1 = Ok st' /\
    ksm_vma_table st' = ksm_vma_table Examples.tab12 /\
    ksm_index st' = ksm_index Examples.tab12 /\
    (forall i, 0 <= i < ksm_vma_table_index_end Examples.tab12 ->
       default 0 (ksm_inter_vma_table st'
                    !! intertab_vma_offset
                         (slot_ksm_index Examples.tab12 1) i) = 0) /\
    (forall offset,
       (forall i, 0 <= i < ksm_vma_table_index_end Examples.tab12 ->
          offset <> intertab_vma_offset (slot_ksm_index Examples.tab12 1) i) ->
       default 0 (ksm_inter_vma_table st' !! offset)
       = default 0 (ksm_inter_vma_table Examples.tab12 !! offset)).
Proof.
  apply (ksm_intertab_clear_zeroes Examples.tab12 1
           (proj1 ExamplesFacts.tab12_wf_counted)).
  vm_compute. discriminate.
Defined.

End PairFacts.

(** ** The table of sampled positions is a permutation *)

Module SamplingFacts.
Import Sampling.

(** A [for (i = lo; i < lo + n; i++)] loop that has a result. *)
Lemma foldl_seqZ_total {T : Type} (step : result T -> Z -> result T)
    (P : Z -> T -> Prop) (lo : Z) (n : nat) :
  (forall k s, lo <= k < lo + Z.of_nat n -> P k s ->
               exists s', step (Ok s) k = Ok s' /\ P (k + 1) s') ->
  forall s, P lo s ->
    exists s', foldl step (Ok s) (seqZ lo (Z.of_nat n)) = Ok s' /\
               P (lo + Z.of_nat n) s'.
Proof.
  intros Hstep s Hs.
  assert (H : forall m : nat, (m <= n)%nat ->
            exists s', foldl step (Ok s) (seqZ lo (Z.of_nat m)) = Ok s' /\
                       P (lo + Z.of_nat m) s').
  { induction m as [|m IH]; intros Hm.
    - exists s. split; [reflexivity|]. rewrite Z.add_0_r. exact Hs.
    - rewrite seqZ_S, foldl_app. cbn [foldl].
      destruct (IH ltac:(lia)) as (s1 & -> & H1).
      destruct (Hstep (lo + Z.of_nat m) s1 ltac:(lia) H1) as (s2 & -> & H2).
      exists s2. split; [reflexivity|].
      replace (lo + Z.of_nat (S m)) with (lo + Z.of_nat m + 1) by lia.
      exact H2. }
  apply H. lia.
Qed.

Section WithPage.

Variable HASH_STRENGTH_FULL : Z.
Variable random32 : Z -> Z.
Hypothesis HASH_STRENGTH_FULL_range : 0 <= HASH_STRENGTH_FULL < 2 ^ 32.

Local Abbreviation nums_read := (nums_read HASH_STRENGTH_FULL).
Local Abbreviation nums_write := (nums_write HASH_STRENGTH_FULL).
Local Abbreviation fill_step := (fill_step HASH_STRENGTH_FULL).
Local Abbreviation swap_step := (swap_step HASH_STRENGTH_FULL random32).
Local Abbreviation init_random_sampling :=
  (init_random_sampling HASH_STRENGTH_FULL random32).

Lemma nums_read_Ok nums i v :
  0 <= i < HASH_STRENGTH_FULL -> nums !! Z.to_nat i = Some v ->
  nums_read nums i = Ok v.
Proof.
  intros Hi E. unfold Sampling.nums_read. rewrite E.
  destruct (Z.leb_spec 0 i); [|lia].
  destruct (Z.ltb_spec i HASH_STRENGTH_FULL); [|lia]. reflexivity.
Qed.

Lemma nums_write_Ok nums i v :
  0 <= i < HASH_STRENGTH_FULL -> length nums = Z.to_nat HASH_STRENGTH_FULL ->
  nums_write nums i v = Ok (<[Z.to_nat i := u32 v]> nums).
Proof.
  intros Hi Hl. unfold Sampling.nums_write.
  destruct (Z.leb_spec 0 i); [|lia].
  destruct (Z.ltb_spec i HASH_STRENGTH_FULL); [|lia].
  destruct (Z.ltb_spec i (Z.of_nat (length nums))); [|lia]. reflexivity.
Qed.

(** The first loop writes the identity over what the page held. *)
Lemma fill_loop page :
  length page = Z.to_nat HASH_STRENGTH_FULL ->
  foldl fill_step (Ok page) (seqZ 0 HASH_STRENGTH_FULL)
  = Ok (seqZ 0 HASH_STRENGTH_FULL).
Proof.
  intros Hl.
  pose (P := fun (k : Z) (nums : list Z) =>
               length nums = Z.to_nat HASH_STRENGTH_FULL /\
               forall j : nat, Z.of_nat j < k ->
                               nums !! j = Some (Z.of_nat j)).
  destruct (foldl_seqZ_total fill_step P 0 (Z.to_nat HASH_STRENGTH_FULL))
    with (s := page) as (nums & E & Hlen & Hpre).
  - intros k nums Hk [Hlen Hpre]. cbn [Sampling.fill_step bind].
    rewrite (nums_write_Ok nums k k) by (try lia; exact Hlen).
    eexists. split; [reflexivity|].
    split; [rewrite length_insert; exact Hlen|].
    intros j Hj. destruct (decide (j = Z.to_nat k)) as [->|Hne].
    + rewrite list_lookup_insert_eq by lia.
      rewrite u32_small by lia. f_equal. lia.
    + rewrite list_lookup_insert_ne by lia. apply Hpre. lia.
  - split; [exact Hl|]. intros j Hj. lia.
  - rewrite Z2Nat.id in E, Hpre by lia. rewrite E. f_equal.
    apply list_eq. intros j.
    destruct (Z.lt_ge_cases (Z.of_nat j) HASH_STRENGTH_FULL) as [Hlt|Hge].
    + rewrite (Hpre j) by lia. rewrite lookup_seqZ_lt by lia. f_equal.
    + rewrite lookup_seqZ_ge by lia. apply lookup_ge_None. lia.
Qed.

(** An entry of a permutation of the positions is a position. *)
Lemma permutation_entry nums (j : nat) v :
  nums ≡ₚ seqZ 0 HASH_STRENGTH_FULL -> nums !! j = Some v ->
  0 <= v < HASH_STRENGTH_FULL.
Proof.
  intros Hp E. apply list_elem_of_lookup_2 in E. rewrite Hp in E.
  apply elem_of_seqZ in E. lia.
Qed.

(** One swap keeps the table a permutation. *)
Lemma swap_step_permutation nums i :
  0 <= i < HASH_STRENGTH_FULL ->
  nums ≡ₚ seqZ 0 HASH_STRENGTH_FULL ->
  exists nums', swap_step (Ok nums) i = Ok nums' /\
                nums' ≡ₚ seqZ 0 HASH_STRENGTH_FULL.
Proof.
  intros Hi Hp.
  assert (Hlen : length nums = Z.to_nat HASH_STRENGTH_FULL).
  { rewrite Hp, length_seqZ. reflexivity. }
  cbn [Sampling.swap_step bind]. cbv zeta.
  rewrite (u64_small (HASH_STRENGTH_FULL - i)) by lia.
  destruct (Z.eqb_spec (HASH_STRENGTH_FULL - i) 0) as [?|_]; [lia|].
  cbn [bind].
  set (swap_index := u32 (random32 i) mod (HASH_STRENGTH_FULL - i)).
  assert (Hs : 0 <= swap_index < HASH_STRENGTH_FULL - i).
  { apply Z.mod_pos_bound. lia. }
  destruct (lookup_lt_is_Some_2 nums (Z.to_nat i) ltac:(lia)) as [x Ex].
  destruct (lookup_lt_is_Some_2 nums (Z.to_nat swap_index) ltac:(lia))
    as [y Ey].
  pose proof (permutation_entry nums _ x Hp Ex) as Hx.
  pose proof (permutation_entry nums _ y Hp Ey) as Hy.
  rewrite (nums_read_Ok nums i x) by (try lia; exact Ex). cbn [bind].
  rewrite (nums_read_Ok nums swap_index y) by (try lia; exact Ey).
  cbn [bind].
  rewrite (nums_write_Ok nums i y) by (try lia; exact Hlen). cbn [bind].
  rewrite nums_write_Ok by (try lia; rewrite length_insert; exact Hlen).
  rewrite (u32_small x), (u32_small y) by lia.
  eexists. split; [reflexivity|].
  etrans; [|exact Hp]. apply Permutation_insert_swap; assumption.
Qed.

(** X12.  When [kmalloc] gives a page, [init_random_sampling] stays inside
    it and leaves in [random_nums] a permutation of the word positions of
    a page, whatever [random32] draws and whatever the page held: every
    position is sampled once at the full strength, and every entry is a
    position of the page. *)
Theorem init_random_sampling_permutation (page : list Z) (m : Rshash.machine) :
  length page = Z.to_nat HASH_STRENGTH_FULL ->
  exists nums m',
    init_random_sampling (Some page) m = Ok (Some (nums, m')) /\
    Rshash.state m' = Rshash.RSHASH_NEW /\
    nums ≡ₚ seqZ 0 HASH_STRENGTH_FULL /\
    forall i, 0 <= i < HASH_STRENGTH_FULL ->
              0 <= as_table nums i < HASH_STRENGTH_FULL.
Proof.
  intros Hl. unfold Sampling.init_random_sampling.
  rewrite (fill_loop page Hl). cbn [bind].
  destruct (foldl_seqZ_total swap_step
              (fun _ nums => nums ≡ₚ seqZ 0 HASH_STRENGTH_FULL) 0
              (Z.to_nat HASH_STRENGTH_FULL))
    with (s := seqZ 0 HASH_STRENGTH_FULL) as (nums & E & Hp).
  - intros k nums Hk Hp. apply swap_step_permutation; [lia|exact Hp].
  - reflexivity.
  - rewrite Z2Nat.id in E by lia. rewrite E. cbn [bind].
    eexists _, _. split; [reflexivity|]. split; [reflexivity|].
    split; [exact Hp|].
    intros i Hi. unfold as_table.
    assert (Hlen : length nums = Z.to_nat HASH_STRENGTH_FULL).
    { rewrite Hp, length_seqZ. reflexivity. }
    destruct (lookup_lt_is_Some_2 nums (Z.to_nat i) ltac:(lia)) as [x Ex].
    rewrite Ex. cbn. exact (permutation_entry nums _ x Hp Ex).
Qed.

End WithPage.

(** A page of eight words and a generator that counts by seven. *)
Lemma init_random_sampling_permutation_witness :
  exists nums m',
    init_random_sampling 8 (fun i => 7 * i + 3) (Some (replicate 8 99))
      (Rshash.rshash_state Rshash.sample)
    = Ok (Some (nums, m')) /\
    Rshash.state m' = Rshash.RSHASH_NEW /\
    nums ≡ₚ seqZ 0 8 /\
    forall i, 0 <= i < 8 -> 0 <= as_table nums i < 8.
Proof.
  apply (init_random_sampling_permutation 8 (fun i => 7 * i + 3));
    [lia|reflexivity].
Defined.

End SamplingFacts.

(** ** More on the merge engine *)

Module MergeFacts.
Import Engine.

Section WithPageSize.

Variable PAGE_SHIFT : Z.
Variable random_nums : Z -> Z.
Variable h : host.

Local Abbreviation page_hash := (page_hash PAGE_SHIFT random_nums).
Local Abbreviation pages_identical := (pages_identical PAGE_SHIFT).
Local Abbreviation rmap_item_hash_max :=
  (rmap_item_hash_max PAGE_SHIFT random_nums).
Local Abbreviation get_ksm_page := (get_ksm_page PAGE_SHIFT).
Local Abbreviation try_to_merge_two_pages :=
  (try_to_merge_two_pages PAGE_SHIFT random_nums h).
Local Abbreviation FULL := (HASH_STRENGTH_FULL PAGE_SHIFT).
Local Abbreviation MAX := (HASH_STRENGTH_MAX PAGE_SHIFT).

(** X13.  [rmap_item_hash_max] never answers 0, the value that stands for
    "not computed", and it computes once: asked again in the state it
    leaves, for whatever hash, it gives the same answer and changes
    nothing, so that the cost of the full hash is charged once. *)
Theorem rmap_item_hash_max_cached st item hv hv' v st' :
  rmap_item_hash_max st item hv = Ok (v, st') ->
  v <> 0 /\ rmap_item_hash_max st' item hv' = Ok (v, st').
Proof.
  intros H.
  apply EngineFacts.rmap_item_hash_max_spec in H
    as (x & Hx & [[Hnz E]|(Hz & Hnz & E)]); cbn [fst snd] in *.
  - injection E as -> ->. split; [exact Hnz|].
    unfold Engine.rmap_item_hash_max, get_item. rewrite Hx. cbn [bind].
    destruct (Z.eqb_spec (hash_max x) 0); [contradiction|reflexivity].
  - split; [exact Hnz|]. subst st'.
    unfold Engine.rmap_item_hash_max, get_item. cbn [items put_item set_items].
    rewrite lookup_insert_eq. cbn [bind hash_max set_hash_max].
    destruct (Z.eqb_spec v 0); [contradiction|reflexivity].
Qed.

(** X14.  The two outcomes of [get_ksm_page].  It answers the page of the
    stable node exactly when the page points back at the node and is
    still referenced, and then takes one reference and changes nothing
    else; otherwise it answers no page and the stable node is gone. *)
Theorem get_ksm_page_outcome st node unlink_rb remove_tree_node pg st' :
  get_ksm_page st node unlink_rb remove_tree_node = Ok (pg, st') ->
  match pg with
  | Some k =>
      keyhole st node k /\
      exists kp, pages st !! k = Some kp /\
        st' = put_page_of st k
                (mkPage (content kp) (mapping kp) (_count kp + 1))
  | None =>
      (forall k, ~ keyhole st node k) /\
      stable_nodes st' !! node = None
  end.
Proof.
  intros H. destruct pg as [k|].
  - exact (EngineFacts.get_ksm_page_hit PAGE_SHIFT st node unlink_rb
             remove_tree_node k st' H).
  - unfold Engine.get_ksm_page, get_stable_node, get_page_of in H.
    destruct (stable_nodes st !! node) as [sn|] eqn:Esn; [|discriminate].
    cbn [bind] in H.
    destruct (pages st !! kpfn sn) as [kp|] eqn:Ekp; [|discriminate].
    cbn [bind] in H.
    destruct (bool_decide (mapping kp = MapKsm (Some node))
              && negb (_count kp =? 0)) eqn:Ec; [discriminate|].
    split.
    + intros k (sn' & kp' & Hsn' & Hk & Hkp' & Hmap & Hcnt).
      assert (sn' = sn) by congruence. subst sn' k.
      assert (kp' = kp) by congruence. subst kp'.
      apply andb_false_iff in Ec as [Ec|Ec].
      * apply bool_decide_eq_false in Ec. contradiction.
      * apply negb_false_iff, Z.eqb_eq in Ec. contradiction.
    + apply bind_Ok in H as (st1 & E & H). injection H as <-.
      unfold remove_node_from_stable_tree in E.
      apply bind_Ok in E as (sn1 & _ & E).
      apply bind_Ok in E as (st2 & _ & E).
      apply bind_Ok in E as (st3 & _ & E). injection E as <-.
      cbn. apply lookup_delete_eq.
Qed.

(** X15.  [try_to_merge_two_pages] answers 0 only after [memcmp] found the
    two frames equal, word for word, and [replace_page] succeeded: two
    pages that differ are never merged, whatever their hashes. *)
Theorem merge_two_pages_compares st item tree_item hv st' :
  try_to_merge_two_pages st item tree_item hv = Ok (0, st') ->
  exists x tx p tp,
    items st !! item = Some x /\ items st !! tree_item = Some tx /\
    pages st !! item_page x = Some p /\ pages st !! item_page tx = Some tp /\
    (forall i, 0 <= i < FULL -> u32 (content p i) = u32 (content tp i)) /\
    replace_page h (item_page tx) (item_page x) = true.
Proof.
  unfold Engine.try_to_merge_two_pages, get_item, get_page_of.
  unfold MERGE_ERR_COLLI, MERGE_ERR_PGERR, MERGE_ERR_CHANGED.
  destruct (items st !! item) as [x|] eqn:Ex; [|discriminate].
  destruct (items st !! tree_item) as [tx|] eqn:Etx; [|discriminate].
  cbn [bind].
  destruct (bool_decide (item_page x = item_page tx)) eqn:Esame;
    [discriminate|].
  apply bool_decide_eq_false in Esame.
  destruct (pages st !! item_page x) as [p|] eqn:Ep; [|discriminate].
  destruct (pages st !! item_page tx) as [tp|] eqn:Etp; [|discriminate].
  cbn [bind].
  destruct (negb (PageAnon p) || negb (PageAnon tp)); [discriminate|].
  destruct (negb (trylock_page h (item_page x))); [discriminate|].
  destruct (negb (write_protect_page h (item_page x))); [discriminate|].
  unfold set_page_stable_node, get_page_of. rewrite Ep. cbn [bind].
  set (st1 := put_page_of st (item_page x) _).
  assert (Hrestore : forall e s s',
    e <> 0 ->
    (if restore_ksm_page_pte h (item_page x)
     then do p0 <- match pages s !! item_page x with
                   | Some x0 => Ok x0
                   | None => OutOfBounds
                   end ;;
          Ok (e, put_page_of s (item_page x)
                   (mkPage (content p0) (mapping p) (_count p0)))
     else Ok (e, s)) = Ok (0, s') -> False).
  { intros e s s' He H. destruct (restore_ksm_page_pte h (item_page x)).
    - apply bind_Ok in H as (p0 & _ & H). injection H as E _. contradiction.
    - injection H as E _. contradiction. }
  destruct (negb (trylock_page h (item_page tx))).
  { intros H. exfalso. exact (Hrestore 1 _ _ ltac:(lia) H). }
  destruct (negb (write_protect_page h (item_page tx))).
  { intros H. exfalso. exact (Hrestore 1 _ _ ltac:(lia) H). }
  unfold Engine.pages_identical, memcmp_pages, get_page_of.
  assert (E1 : pages st1 !! item_page x
               = Some (mkPage (content p) (MapKsm None) (_count p))).
  { subst st1. cbn. apply lookup_insert_eq. }
  assert (E2 : pages st1 !! item_page tx = Some tp).
  { subst st1. cbn. rewrite lookup_insert_ne by exact Esame. exact Etp. }
  rewrite E1, E2. cbn [bind fst snd content negb].
  destruct (Engine.memcmp PAGE_SHIFT (content p) (content tp)) eqn:Ec;
    cbn [negb].
  - (* the frames differ: the answer is an error *)
    intros H. exfalso.
    apply bind_Ok in H as (r1 & _ & H). apply bind_Ok in H as (r2 & _ & H).
    destruct (r1.1 =? r2.1).
    + exact (Hrestore 2 _ _ ltac:(lia) H).
    + exact (Hrestore 3 _ _ ltac:(lia) H).
  - destruct (replace_page h (item_page tx) (item_page x)) eqn:Er.
    + intros _. exists x, tx, p, tp.
      split; [reflexivity|]. split; [reflexivity|].
      split; [exact Ep|]. split; [exact Etp|]. split; [|exact Er].
      unfold Engine.memcmp in Ec. apply negb_false_iff in Ec.
      rewrite forallb_forall in Ec. intros i Hi.
      apply Z.eqb_eq. apply Ec. apply list_elem_of_In, elem_of_seqZ. lia.
    + intros H. exfalso. exact (Hrestore 1 _ _ ltac:(lia) H).
Qed.

(** X16.  The hash never hides a duplicate.  With a table of sampled
    positions that stays inside the page, two pages that
    [pages_identical] finds equal have the same [page_hash] at every
    strength up to [HASH_STRENGTH_MAX]. *)
Theorem identical_pages_hash_alike st p1 p2 s st1 v1 st2 v2 st3 :
  6 <= PAGE_SHIFT <= 32 ->
  (forall i, 0 <= i < FULL -> 0 <= random_nums i < FULL) ->
  0 <= s <= MAX ->
  pages_identical st p1 p2 = Ok (true, st1) ->
  page_hash st p1 s false = Ok (v1, st2) ->
  page_hash st p2 s false = Ok (v2, st3) ->
  v1 = v2.
Proof.
  intros HP Htab Hs Hid H1 H2.
  assert (HF : 16 <= FULL <= 2 ^ 30).
  { unfold HASH_STRENGTH_FULL, PAGE_SIZE.
    assert (2 ^ 6 <= 2 ^ PAGE_SHIFT) by (apply Z.pow_le_mono_r; lia).
    assert (2 ^ PAGE_SHIFT <= 2 ^ 32) by (apply Z.pow_le_mono_r; lia).
    split.
    - apply Z.div_le_lower_bound; lia.
    - apply Z.div_le_upper_bound; lia. }
  unfold Engine.pages_identical, memcmp_pages, get_page_of in Hid.
  unfold Engine.page_hash, get_page_of in H1, H2.
  destruct (pages st !! p1) as [pg1|]; [|discriminate].
  destruct (pages st !! p2) as [pg2|]; [|discriminate].
  cbn [bind fst snd] in Hid, H1, H2.
  injection Hid as Hc _. injection H1 as <- _. injection H2 as <- _.
  apply negb_true_iff in Hc. unfold Engine.memcmp in Hc.
  apply negb_false_iff in Hc. rewrite forallb_forall in Hc.
  assert (Hu : u32 s = s).
  { apply u32_small. unfold HASH_STRENGTH_MAX in Hs. lia. }
  rewrite Hu.
  apply DeltaHashFacts.random_sample_hash_reads; [lia|exact (proj2 Hs)|].
  intros i Hi Hlt. apply Z.eqb_eq. apply Hc.
  apply list_elem_of_In, elem_of_seqZ.
  pose proof (Htab i ltac:(lia)). lia.
Qed.

End WithPageSize.

(** Item 4 of [engine0] has no full hash yet. *)
Lemma rmap_item_hash_max_cached_witness :
  exists v st',
    rmap_item_hash_max Examples.page_shift Examples.sample_order
      Examples.engine0 4 Examples.hash_a1 = Ok (v, st') /\
    v <> 0 /\
    rmap_item_hash_max Examples.page_shift Examples.sample_order st' 4 0
    = Ok (v, st').
Proof.
  eexists _, _. split; [vm_compute; reflexivity|].
  apply (rmap_item_hash_max_cached Examples.page_shift Examples.sample_order
           Examples.engine0 4 Examples.hash_a1 0).
  vm_compute. reflexivity.
Defined.

(** The stable node of [engine_same] and its page. *)
Lemma get_ksm_page_outcome_witness :
  keyhole Examples.engine_same 0 9 /\
  exists kp, pages Examples.engine_same !! 9%nat = Some kp /\
    Twins.after Examples.engine_same
      (get_ksm_page Examples.page_shift Examples.engine_same 0 true true)
    = put_page_of Examples.engine_same 9
        (mkPage (content kp) (mapping kp) (_count kp + 1)).
Proof.
  apply (get_ksm_page_outcome Examples.page_shift Examples.engine_same 0
           true true (Some 9%nat)).
  vm_compute. reflexivity.
Defined.

(** The two items of [engine_twins] map frames with the same words. *)
Lemma merge_two_pages_compares_witness :
  exists x tx p tp,
    items Twins.engine_twins !! 4%nat = Some x /\
    items Twins.engine_twins !! 5%nat = Some tx /\
    pages Twins.engine_twins !! item_page x = Some p /\
    pages Twins.engine_twins !! item_page tx = Some tp /\
    (forall i, 0 <= i < HASH_STRENGTH_FULL Examples.page_shift ->
               u32 (content p i) = u32 (content tp i)) /\
    replace_page Examples.host_ok (item_page tx) (item_page x) = true.
Proof.
  apply (merge_two_pages_compares Examples.page_shift Examples.sample_order
           Examples.host_ok Twins.engine_twins 4 5 Examples.hash_a1
           (Twins.after Twins.engine_twins
              (try_to_merge_two_pages Examples.page_shift
                 Examples.sample_order Examples.host_ok Twins.engine_twins
                 4 5 Examples.hash_a1))).
  vm_compute. reflexivity.
Defined.

(** The two frames of [engine_twins] at strength 1. *)
Lemma identical_pages_hash_alike_witness :
  page_hash Examples.page_shift Examples.sample_order Twins.engine_twins
    7 1 false = Ok (Examples.hash_a1, Twins.engine_twins) /\
  page_hash Examples.page_shift Examples.sample_order Twins.engine_twins
    8 1 false = Ok (Examples.hash_a1, Twins.engine_twins) /\
  Examples.hash_a1 = Examples.hash_a1.
Proof.
  split; [vm_compute; reflexivity|]. split; [vm_compute; reflexivity|].
  apply (identical_pages_hash_alike Examples.page_shift Examples.sample_order
           Twins.engine_twins 7 8 1 Twins.engine_twins
           Examples.hash_a1 Twins.engine_twins
           Examples.hash_a1 Twins.engine_twins).
  - unfold Examples.page_shift. lia.
  - intros i Hi. exact Hi.
  - vm_compute. split; discriminate.
  - vm_compute. reflexivity.
  - vm_compute. reflexivity.
  - vm_compute. reflexivity.
Defined.

End MergeFacts.

(** ** The stable graph has no dangling item *)

Module StableGraphFacts.
Import Engine.

Section WithPageSize.

Variable PAGE_SHIFT : Z.
Hypothesis PAGE_SHIFT_ge : 2 <= PAGE_SHIFT.

(** X17.  From a state in which the listed items are the flagged ones,
    every sequence of [stable_tree_append],
    [remove_rmap_item_from_tree], [remove_node_from_stable_tree] and
    [get_ksm_page] leads to a state in which every rmap item that carries
    [STABLE_FLAG] points, by [head], at a stable node that is still there
    and lists it, and every item listed under a stable node exists,
    carries the flag and points back: no item is left pointing at a freed
    node. *)
Theorem flagged_items_have_live_nodes st st' :
  graph_ok st -> counters_ok st ->
  rtc (graph_step PAGE_SHIFT) st st' ->
  (forall i x, items st' !! i = Some x -> in_stable_tree x = true ->
     exists sn, stable_nodes st' !! (head x).1 = Some sn /\
                i ∈ listed (hlist sn)) /\
  (forall n sn i, stable_nodes st' !! n = Some sn -> i ∈ listed (hlist sn) ->
     exists x, items st' !! i = Some x /\ in_stable_tree x = true /\
               (head x).1 = n).
Proof.
  intros Hg Hc Hrun.
  destruct (GraphFacts.graph_steps_inv PAGE_SHIFT PAGE_SHIFT_ge st st' Hrun
              (conj Hg Hc)) as [Hg' _].
  split.
  - intros i x Hx Hfx.
    destruct (flagged_listed st' Hg' i x Hx Hfx) as (sn & Hsn & Hk).
    exists sn. split; [exact Hsn|]. apply GraphFacts.elem_of_listed. eauto.
  - intros n sn i Hsn Hi. apply GraphFacts.elem_of_listed in Hi as [k Hk].
    destruct (listed_flagged st' Hg' n sn k i Hsn Hk) as (x & Hx & Hfx & Hh).
    exists x. split; [exact Hx|]. split; [exact Hfx|]. rewrite Hh. reflexivity.
Qed.

(** X18.  After [remove_rmap_item_from_tree] the item carries no
    [STABLE_FLAG] and no stable node lists it, whether its page was still
    there or the whole node went with it. *)
Theorem removed_item_is_unlisted st item st' :
  graph_ok st -> counters_ok st ->
  remove_rmap_item_from_tree PAGE_SHIFT st item = Ok st' ->
  (exists y, items st' !! item = Some y /\ in_stable_tree y = false) /\
  (forall n sn, stable_nodes st' !! n = Some sn -> item ∉ listed (hlist sn)).
Proof.
  intros Hg Hc H.
  destruct (GraphFacts.remove_rmap_item_from_tree_inv PAGE_SHIFT
              PAGE_SHIFT_ge st item st' (conj Hg Hc) H)
    as [[Hg' _] (y & Hy & Hfy)].
  split; [eauto|].
  intros n sn Hsn Hi. apply GraphFacts.elem_of_listed in Hi as [k Hk].
  destruct (listed_flagged st' Hg' n sn k item Hsn Hk) as (x & Hx & Hfx & _).
  congruence.
Qed.

End WithPageSize.

Lemma engine_pub_ok :
  graph_ok Examples.engine_pub /\ counters_ok Examples.engine_pub.
Proof.
  apply GraphFacts.graph_ok_fresh; [| |reflexivity|reflexivity].
  - intros n nd H. unfold Examples.engine_pub in H. cbn [stable_nodes] in H.
    apply lookup_insert_Some in H as [[_ <-]|[_ H]]; [reflexivity|].
    rewrite lookup_empty in H. discriminate.
  - intros i x H. unfold Examples.engine_pub in H. cbn [items] in H.
    apply lookup_insert_Some in H as [[_ <-]|[_ H]]; [reflexivity|].
    apply lookup_insert_Some in H as [[_ <-]|[_ H]]; [reflexivity|].
    rewrite lookup_empty in H. discriminate.
Qed.

Lemma page_shift_ge : 2 <= Examples.page_shift.
Proof. unfold Examples.page_shift. lia. Qed.

Lemma engine_two_run :
  rtc (graph_step Examples.page_shift) Examples.engine_pub Twins.engine_two.
Proof.
  eapply rtc_l.
  { eapply (step_append Examples.page_shift true Examples.engine_pub 6 0);
      [reflexivity|reflexivity|vm_compute; reflexivity]. }
  eapply rtc_l.
  { eapply (step_append Examples.page_shift true _ 4 0 _ Twins.engine_two);
      [vm_compute; reflexivity|reflexivity|vm_compute; reflexivity]. }
  apply rtc_refl.
Qed.

Lemma engine_two_ok :
  graph_ok Twins.engine_two /\ counters_ok Twins.engine_two.
Proof.
  exact (GraphFacts.graph_steps_inv Examples.page_shift page_shift_ge _ _
           engine_two_run engine_pub_ok).
Qed.

(** Items 6 and 4 were appended to a stable node that was just
    published. *)
Lemma flagged_items_have_live_nodes_witness :
  (forall i x, items Twins.engine_two !! i = Some x ->
     in_stable_tree x = true ->
     exists sn, stable_nodes Twins.engine_two !! (head x).1 = Some sn /\
                i ∈ listed (hlist sn)) /\
  (forall n sn i, stable_nodes Twins.engine_two !! n = Some sn ->
     i ∈ listed (hlist sn) ->
     exists x, items Twins.engine_two !! i = Some x /\
               in_stable_tree x = true /\ (head x).1 = n).
Proof.
  exact (flagged_items_have_live_nodes Examples.page_shift page_shift_ge
           Examples.engine_pub Twins.engine_two
           (proj1 engine_pub_ok) (proj2 engine_pub_ok) engine_two_run).
Defined.

(** Item 6 leaves the node, item 4 stays. *)
Lemma removed_item_is_unlisted_witness :
  exists st',
    remove_rmap_item_from_tree Examples.page_shift Twins.engine_two 6
    = Ok st' /\
    (exists y, items st' !! 6%nat = Some y /\ in_stable_tree y = false) /\
    (forall n sn, stable_nodes st' !! n = Some sn ->
                  6%nat ∉ listed (hlist sn)).
Proof.
  eexists. split; [vm_compute; reflexivity|].
  apply (removed_item_is_unlisted Examples.page_shift page_shift_ge
           Twins.engine_two 6);
    [exact (proj1 engine_two_ok)|exact (proj2 engine_two_ok)|].
  vm_compute. reflexivity.
Defined.

End StableGraphFacts.

(** ** A round starts with clean counters *)

Module RoundResetFacts.
Import Ladder LadderFacts.

(** The counters of the round of an area are as the fourth loop of
    [round_update_ladder] leaves them. *)
Definition slot_reset (st : state) (x : nat) : Prop :=
  exists rx, slots st !! x = Some rx /\
    pages_merged rx = 0 /\ pages_cowed rx = 0 /\
    slot_scanned rx = false /\ fully_scanned rx = false /\
    last_scanned rx = pages_scanned rx.

(** A rung whose round has not started, with no area fully scanned and
    every area reset. *)
Definition rung_reset (st : state) (k : nat) : Prop :=
  exists r, ksm_scan_ladder st !! k = Some r /\
    round_finished r = false /\ fully_scanned_slots r = 0 /\
    forall x, x ∈ vma_list r -> slot_reset st x.

(** What the reset of one area does. *)
Lemma reset_step_spec k st y st' :
  reset_step k (Ok st) y = Ok st' ->
  slot_reset st' y /\
  (forall x, slot_reset st x -> slot_reset st' x) /\
  length (ksm_scan_ladder st') = length (ksm_scan_ladder st) /\
  (forall j, j <> Z.to_nat k ->
             ksm_scan_ladder st' !! j = ksm_scan_ladder st !! j) /\
  (forall r, ksm_scan_ladder st !! Z.to_nat k = Some r ->
     exists r', ksm_scan_ladder st' !! Z.to_nat k = Some r' /\
                vma_list r' = vma_list r /\
                round_finished r' = round_finished r).
Proof.
  unfold reset_step. cbn [bind]. intros H.
  apply bind_Ok in H as (ry & Hry & H). apply get_slot_inv in Hry.
  apply bind_Ok in H as (st1 & Hst1 & H).
  apply bind_Ok in H as (_ & _ & H). injection H as <-.
  set (ry' := mkSlot (pages ry) (pages_scanned ry) (pages_scanned ry) 0 0
                (dedup_ratio ry) (rung ry) (pages_to_scan ry) false false)
    in Hst1.
  assert (Es : slots st1 = <[y := ry']> (slots st)).
  { destruct (fully_scanned ry).
    - apply bind_Ok in Hst1 as (r & _ & Hst1). injection Hst1 as <-.
      reflexivity.
    - injection Hst1 as <-. reflexivity. }
  split; [|split].
  - exists ry'. rewrite Es, lookup_insert_eq. repeat split.
  - intros x (rx & Hx & Hreset).
    destruct (decide (x = y)) as [->|Hne].
    + exists ry'. rewrite Es, lookup_insert_eq. repeat split.
    + exists rx. rewrite Es, lookup_insert_ne by congruence.
      split; [exact Hx|exact Hreset].
  - destruct (fully_scanned ry).
    + apply bind_Ok in Hst1 as (r & Hr & Hst1). injection Hst1 as <-.
      apply get_rung_inv in Hr as [Hk Hr]. cbn in Hr.
      split; [cbn; apply length_insert|]. split.
      * intros j Hj. cbn. apply list_lookup_insert_ne. congruence.
      * intros r0 Hr0. cbn in Hr0 |- *.
        assert (r0 = r) by congruence. subst r0.
        eexists. split.
        { apply list_lookup_insert_eq. apply lookup_lt_Some in Hr. exact Hr. }
        split; reflexivity.
    + injection Hst1 as <-. cbn.
      split; [reflexivity|]. split; [reflexivity|]. eauto.
Qed.

Lemma reset_list_spec k l : forall st st',
  foldl (reset_step k) (Ok st) l = Ok st' ->
  (forall x, x ∈ l -> slot_reset st' x) /\
  (forall x, slot_reset st x -> slot_reset st' x) /\
  length (ksm_scan_ladder st') = length (ksm_scan_ladder st) /\
  (forall j, j <> Z.to_nat k ->
             ksm_scan_ladder st' !! j = ksm_scan_ladder st !! j) /\
  (forall r, ksm_scan_ladder st !! Z.to_nat k = Some r ->
     exists r', ksm_scan_ladder st' !! Z.to_nat k = Some r' /\
                vma_list r' = vma_list r /\
                round_finished r' = round_finished r).
Proof.
  induction l as [|y l IH] using rev_ind; intros st st' H.
  - cbn in H. injection H as <-.
    split; [intros x Hx; apply elem_of_nil in Hx; contradiction|].
    split; [auto|]. split; [reflexivity|]. split; [auto|]. eauto.
  - rewrite foldl_app in H. cbn [foldl] in H.
    destruct (foldl (reset_step k) (Ok st) l) as [st1| | |] eqn:E1;
      try discriminate H.
    destruct (IH st st1 E1) as (A1 & A2 & A3 & A4 & A5).
    apply reset_step_spec in H as (B1 & B2 & B3 & B4 & B5).
    split; [|split; [|split; [|split]]].
    + intros x Hx. apply elem_of_app in Hx as [Hx|Hx].
      * apply B2, A1. exact Hx.
      * apply list_elem_of_singleton in Hx as ->. exact B1.
    + intros x Hx. apply B2, A2. exact Hx.
    + congruence.
    + intros j Hj. rewrite (B4 j Hj). apply A4. exact Hj.
    + intros r Hr. destruct (A5 r Hr) as (r1 & Hr1 & L1 & F1).
      destruct (B5 r1 Hr1) as (r2 & Hr2 & L2 & F2).
      exists r2. split; [exact Hr2|]. split; congruence.
Qed.

(** What the reset of one rung does. *)
Lemma reset_rung_spec st k st' :
  reset_rung (Ok st) k = Ok st' ->
  0 <= k /\ rung_reset st' (Z.to_nat k) /\
  (forall x, slot_reset st x -> slot_reset st' x) /\
  length (ksm_scan_ladder st') = length (ksm_scan_ladder st) /\
  (forall j, j <> Z.to_nat k ->
             ksm_scan_ladder st' !! j = ksm_scan_ladder st !! j).
Proof.
  unfold reset_rung. cbn [bind]. intros H.
  apply bind_Ok in H as (r & Hr & H). apply get_rung_inv in Hr as [Hk Hr].
  apply bind_Ok in H as (st1 & Hloop & H).
  apply bind_Ok in H as (r' & Hr' & H). apply get_rung_inv in Hr' as [_ Hr'].
  apply bind_Ok in H as (u & Hbug & H). injection H as <-.
  apply reset_list_spec in Hloop as (A1 & A2 & A3 & A4 & A5).
  rewrite put_rung_length in A3.
  destruct (A5 (mkRung (scan_ratio r) (vma_list r) (current_scan r)
                  (vma_num r) (fully_scanned_slots r) false
                  (rung_pages_to_scan r)))
    as (r1 & Hr1 & L1 & F1).
  { cbn. apply list_lookup_insert_eq. apply lookup_lt_Some in Hr. exact Hr. }
  assert (r1 = r') by congruence. subst r1.
  split; [exact Hk|]. split; [|split; [|split]].
  - exists r'. split; [exact Hr'|]. split; [exact F1|]. split.
    + unfold BUG_ON in Hbug.
      destruct (Z.eqb_spec (fully_scanned_slots r') 0) as [E|E];
        [exact E|discriminate].
    + intros x Hx. apply A1. cbn in L1. rewrite <- L1. exact Hx.
  - intros x Hx. apply A2. destruct Hx as (rx & Hx & Hreset).
    exists rx. split; [exact Hx|exact Hreset].
  - exact A3.
  - intros j Hj. rewrite (A4 j Hj). cbn.
    apply list_lookup_insert_ne. congruence.
Qed.

Lemma rung_reset_kept st st' (j : nat) :
  (forall x, slot_reset st x -> slot_reset st' x) ->
  ksm_scan_ladder st' !! j = ksm_scan_ladder st !! j ->
  rung_reset st j -> rung_reset st' j.
Proof.
  intros Hs Hl (r & Hr & F & S & Hall).
  exists r. rewrite Hl. split; [exact Hr|]. split; [exact F|].
  split; [exact S|]. intros x Hx. apply Hs, Hall. exact Hx.
Qed.

(** The fourth loop. *)
Lemma reset_loop_spec st st' :
  foldl reset_rung (Ok st) (seqZ 0 (ksm_scan_ladder_size st)) = Ok st' ->
  length (ksm_scan_ladder st') = length (ksm_scan_ladder st) /\
  forall j : nat, (j < length (ksm_scan_ladder st))%nat -> rung_reset st' j.
Proof.
  intros H.
  pose (P := fun (k : Z) (s : state) =>
               length (ksm_scan_ladder s) = length (ksm_scan_ladder st) /\
               forall j : nat, Z.of_nat j < k -> rung_reset s j).
  assert (HP : P (0 + ksm_scan_ladder_size st) st').
  { apply (foldl_seqZ_inv reset_rung P 0 (ksm_scan_ladder_size st)
             (bind_passes_errors _)) with (s := st);
      [|unfold ksm_scan_ladder_size; lia| |exact H].
    - intros k s s' Hk [Hlen Hdone] E.
      apply reset_rung_spec in E as (_ & B1 & B2 & B3 & B4).
      split; [congruence|]. intros j Hj.
      destruct (decide (j = Z.to_nat k)) as [->|Hne]; [exact B1|].
      apply (rung_reset_kept s s' j B2 (B4 j Hne)). apply Hdone. lia.
    - split; [reflexivity|]. intros j Hj. lia. }
  destruct HP as [Hlen Hdone]. split; [exact Hlen|].
  intros j Hj. apply Hdone. unfold ksm_scan_ladder_size. lia.
Qed.

(** X19.  When [round_update_ladder] completes, every rung has
    [round_finished = 0] and no fully scanned area, and every area on a
    rung starts the round with [pages_merged = 0], [pages_cowed = 0],
    [slot_scanned = 0], [fully_scanned = 0] and
    [last_scanned = pages_scanned]. *)
Theorem round_starts_clean st st' (k : nat) (r : scan_rung) :
  round_update_ladder st = Ok st' ->
  ksm_scan_ladder st' !! k = Some r ->
  round_finished r = false /\ fully_scanned_slots r = 0 /\
  forall x, x ∈ vma_list r ->
    exists rx, slots st' !! x = Some rx /\
      pages_merged rx = 0 /\ pages_cowed rx = 0 /\
      slot_scanned rx = false /\ fully_scanned rx = false /\
      last_scanned rx = pages_scanned rx.
Proof.
  unfold round_update_ladder. intros H Hr.
  apply bind_Ok in H as ([st1 threshold] & _ & H).
  apply bind_Ok in H as (st2 & _ & H).
  apply bind_Ok in H as (st3 & _ & H).
  apply bind_Ok in H as (_ & _ & H).
  apply reset_loop_spec in H as [Hlen Hdone].
  destruct (Hdone k) as (r' & Hr' & F & S & Hall).
  { rewrite <- Hlen. apply lookup_lt_Some in Hr. exact Hr. }
  assert (r' = r) by congruence. subst r'.
  split; [exact F|]. split; [exact S|]. exact Hall.
Qed.

(** The round of areas 1 and 2: area 1 ends on the third rung. *)
Lemma round_starts_clean_witness :
  exists st' r,
    round_update_ladder Examples.ladder12 = Ok st' /\
    ksm_scan_ladder st' !! 2%nat = Some r /\
    vma_list r = [1%nat] /\
    round_finished r = false /\ fully_scanned_slots r = 0 /\
    forall x, x ∈ vma_list r ->
      exists rx, slots st' !! x = Some rx /\
        pages_merged rx = 0 /\ pages_cowed rx = 0 /\
        slot_scanned rx = false /\ fully_scanned rx = false /\
        last_scanned rx = pages_scanned rx.
Proof.
  eexists _, _. split; [vm_compute; reflexivity|].
  split; [vm_compute; reflexivity|]. split; [reflexivity|].
  apply (round_starts_clean Examples.ladder12 _ 2 _);
    vm_compute; reflexivity.
Defined.

End RoundResetFacts.

(** ** Entries of the rmap list lie inside the pages of their pool *)

Module RmapListFacts.
Import RmapList.

Lemma lnot_1_u64 : u64 (Z.lnot 1) = 2 ^ 64 - 2.
Proof. reflexivity. Qed.

Section WithPageSize.

Variable PAGE_SHIFT : Z.
Hypothesis PAGE_SHIFT_range : 3 <= PAGE_SHIFT < 64.

Local Abbreviation PAGE_SIZE := (Engine.PAGE_SIZE PAGE_SHIFT).
Local Abbreviation PAGE_MASK := (Engine.PAGE_MASK PAGE_SHIFT).
Local Abbreviation get_rmap_addr := (get_rmap_addr PAGE_SHIFT).
Local Abbreviation offset_in_page := (offset_in_page PAGE_SHIFT).
Local Abbreviation get_pool_index := (get_pool_index PAGE_SHIFT).
Local Abbreviation index_page_offset := (index_page_offset PAGE_SHIFT).
Local Abbreviation pool_entry_boundary := (pool_entry_boundary PAGE_SHIFT).

Lemma PAGE_SIZE_pos : 8 <= PAGE_SIZE < 2 ^ 64.
Proof.
  unfold Engine.PAGE_SIZE.
  assert (2 ^ 3 <= 2 ^ PAGE_SHIFT) by (apply Z.pow_le_mono_r; lia).
  assert (2 ^ PAGE_SHIFT < 2 ^ 64) by (apply Z.pow_lt_mono_r; lia).
  lia.
Qed.

(** [~PAGE_MASK], as an [unsigned long], is [PAGE_SIZE - 1]. *)
Lemma lnot_PAGE_MASK : u64 (Z.lnot PAGE_MASK) = PAGE_SIZE - 1.
Proof.
  unfold Engine.PAGE_MASK. rewrite Z.lnot_involutive.
  apply u64_small. pose proof PAGE_SIZE_pos. lia.
Qed.

Lemma offset_in_page_mod p : 0 <= p -> offset_in_page p = p mod PAGE_SIZE.
Proof.
  intros Hp. unfold RmapList.offset_in_page. rewrite lnot_PAGE_MASK.
  unfold Engine.PAGE_SIZE. rewrite Z.sub_1_r, <- Z.ones_equiv.
  apply Z.land_ones. lia.
Qed.

(** X20.  For an index whose byte offset fits an [unsigned long],
    [get_pool_index] and [index_page_offset] split the byte offset
    [8 * index] of the entry into the page of the pool and the place in
    that page; the entry ends inside the page, and the page is one of the
    [pool_size] pages of the area, or the call is a [BUG()]. *)
Theorem pool_entry_in_page (pool_size index : Z) :
  0 <= index < 2 ^ 61 ->
  match get_pool_index pool_size index with
  | Ok pool_index =>
      0 <= pool_index < pool_size /\
      pool_index * PAGE_SIZE + index_page_offset index = entry_size * index /\
      0 <= index_page_offset index /\
      index_page_offset index + entry_size <= PAGE_SIZE
  | Bug => pool_size * PAGE_SIZE <= entry_size * index
  | _ => False
  end.
Proof.
  intros Hi. pose proof PAGE_SIZE_pos as HP.
  unfold RmapList.get_pool_index, RmapList.index_page_offset, entry_size.
  cbv zeta. rewrite (u64_small (8 * index)) by lia.
  rewrite offset_in_page_mod by lia.
  rewrite Z.shiftr_div_pow2 by lia. fold PAGE_SIZE.
  pose proof (Z.div_mod (8 * index) PAGE_SIZE ltac:(lia)) as Hdm.
  pose proof (Z.mod_pos_bound (8 * index) PAGE_SIZE ltac:(lia)) as Hm.
  assert (Hq : 0 <= 8 * index / PAGE_SIZE) by (apply Z.div_pos; lia).
  destruct (Z.geb_spec (8 * index / PAGE_SIZE) pool_size) as [Hge|Hlt].
  - nia.
  - split; [lia|]. split; [lia|]. split; [lia|].
    (* the offset is a multiple of 8 in a page that is one too *)
    assert (H8 : exists k, PAGE_SIZE = 8 * k).
    { exists (2 ^ (PAGE_SHIFT - 3)). unfold Engine.PAGE_SIZE.
      replace PAGE_SHIFT with (3 + (PAGE_SHIFT - 3)) at 1 by lia.
      rewrite Z.pow_add_r by lia. reflexivity. }
    destruct H8 as [k Hk].
    assert (Hmul : exists j, (8 * index) mod PAGE_SIZE = 8 * j).
    { exists (index - k * (8 * index / PAGE_SIZE)). rewrite Hk in *. lia. }
    destruct Hmul as [j Hj]. rewrite Hj in *. rewrite Hk in *. lia.
Qed.

(** [get_rmap_addr] is the start of the page of the address. *)
Lemma get_rmap_addr_page (x : Engine.rmap_item) :
  get_rmap_addr x = Engine.address x / PAGE_SIZE * PAGE_SIZE.
Proof.
  unfold RmapList.get_rmap_addr, Engine.PAGE_MASK, Engine.PAGE_SIZE.
  rewrite Z.sub_1_r, <- Z.ones_equiv, <- Z.ldiff_land.
  rewrite Z.ldiff_ones_r by lia.
  rewrite Z.shiftl_mul_pow2, Z.shiftr_div_pow2 by lia. reflexivity.
Qed.

(** X21.  The address that [free_entry_item] stores in an entry,
    [get_rmap_addr] of the item tagged by [set_is_addr], is read as an
    address by [is_addr] and given back unchanged by [get_clean_addr]:
    neither the tag nor the flags of the item reach it, and it is the
    address of the item less its offset in the page. *)
Theorem tagged_address_round_trip (x : Engine.rmap_item) :
  0 <= Engine.address x < 2 ^ 64 ->
  is_addr (set_is_addr (get_rmap_addr x)) <> 0 /\
  get_clean_addr (set_is_addr (get_rmap_addr x)) = get_rmap_addr x /\
  get_rmap_addr x
  = Engine.address x - offset_in_page (Engine.address x).
Proof.
  intros Ha. pose proof PAGE_SIZE_pos as HP.
  pose proof (get_rmap_addr_page x) as Hpage.
  pose proof (Z.div_mod (Engine.address x) PAGE_SIZE ltac:(lia)) as Hdm.
  pose proof (Z.mod_pos_bound (Engine.address x) PAGE_SIZE ltac:(lia)) as Hm.
  assert (Hq : 0 <= Engine.address x / PAGE_SIZE) by (apply Z.div_pos; lia).
  set (a := get_rmap_addr x) in *.
  assert (Hrange : 0 <= a < 2 ^ 64) by nia.
  assert (Hbit : Z.testbit a 0 = false).
  { rewrite Hpage. unfold Engine.PAGE_SIZE.
    rewrite <- Z.shiftl_mul_pow2 by lia. apply Z.shiftl_spec_low. lia. }
  unfold is_addr, set_is_addr, get_clean_addr, IS_ADDR_FLAG.
  split; [|split].
  - rewrite EngineFacts.lor_flag_1. discriminate.
  - rewrite lnot_1_u64. change (2 ^ 64 - 2) with (Z.shiftl (Z.ones 63) 1).
    apply Z.bits_inj'. intros n Hn.
    rewrite Z.land_spec, Z.lor_spec.
    destruct (Z.eq_dec n 0) as [->|Hne].
    + rewrite Hbit. reflexivity.
    + rewrite Z.shiftl_spec by lia.
      replace (Z.testbit 1 n) with false.
      2:{ symmetry. apply (Z.bits_above_log2 1 n); cbn; lia. }
      rewrite orb_false_r.
      destruct (Z.lt_ge_cases (n - 1) 63) as [Hlt|Hge].
      * rewrite Z.ones_spec_low by lia. apply andb_true_r.
      * rewrite Z.ones_spec_high by lia. rewrite andb_false_r.
        destruct (Z.eq_dec a 0) as [->|Hnz]; [rewrite Z.bits_0; reflexivity|].
        assert (2 ^ 64 <= 2 ^ n) by (apply Z.pow_le_mono_r; lia).
        symmetry. apply Z.bits_above_log2; [lia|].
        apply Z.log2_lt_pow2; lia.
  - rewrite offset_in_page_mod by lia. lia.
Qed.

End WithPageSize.

(** The entry 1000 of an area with two pool pages of 4096 bytes. *)
Lemma pool_entry_in_page_witness :
  get_pool_index 12 2 1000 = Ok 1 /\
  1 * Engine.PAGE_SIZE 12 + index_page_offset 12 1000 = entry_size * 1000 /\
  index_page_offset 12 1000 + entry_size <= Engine.PAGE_SIZE 12.
Proof.
  pose proof (pool_entry_in_page 12 ltac:(lia) 2 1000 ltac:(lia)) as H.
  change (get_pool_index 12 2 1000) with (Ok (A := Z) 1) in H.
  split; [reflexivity|]. split; apply H.
Defined.

(** An item of the second page of its area, in the stable tree. *)
Lemma tagged_address_round_trip_witness :
  get_clean_addr
    (set_is_addr
       (get_rmap_addr 12 (Engine.mkItem 1 4098 7 0 0 0 (0, 0)%nat)))
  = 4096.
Proof.
  pose proof (tagged_address_round_trip 12 ltac:(lia)
                (Engine.mkItem 1 4098 7 0 0 0 (0, 0)%nat)
                ltac:(cbn; lia)) as (_ & H & _).
  rewrite H. reflexivity.
Defined.

End RmapListFacts.

(** ** A published page is found *)

Module PublishFacts.
Import Engine.

Section WithPageSize.

Variable PAGE_SHIFT : Z.
Variable random_nums : Z -> Z.
Variable h : host.

Local Abbreviation stable_tree_insert :=
  (stable_tree_insert PAGE_SHIFT random_nums h).
Local Abbreviation stable_tree_search :=
  (stable_tree_search PAGE_SHIFT random_nums).

(** What [stable_tree_insert] leaves when the hash had no tree node: a new
    stable node for the page, alone under a new tree node, and the page
    pointing at it. *)
Lemma stable_tree_insert_new st kpage hv item titem n s1 s2 st' :
  find_tree_node (root_stable_tree st) hv = None ->
  stable_tree_insert st kpage hv item titem = Ok (Some n, s1, s2, st') ->
  stable_nodes st !! n = None /\
  s1 = true /\ s2 = true /\
  find_tree_node (root_stable_tree st') hv
  = Some (mkTreeNode hv 1 (Node Leaf n Leaf)) /\
  stable_nodes st' !! n = Some (mkStableNode kpage 0 (Some hv) []) /\
  items st' = items st /\
  exists kp, pages st !! kpage = Some kp /\
    pages st'
    = <[kpage := mkPage (content kp) (MapKsm (Some n)) (_count kp)]>
        (pages st).
Proof.
  intros Hnone H. unfold Engine.stable_tree_insert in H. rewrite Hnone in H.
  destruct (alloc_tree_node_ok h); [|discriminate].
  unfold new_stable_node in H.
  destruct (alloc_stable_node_ok h); [|discriminate].
  cbn [bind] in H.
  unfold set_page_stable_node, get_page_of in H.
  cbn [pages put_stable_node set_stable_nodes] in H.
  destruct (pages st !! kpage) as [kp|] eqn:Ekp; [|discriminate].
  cbn [bind] in H. injection H as <- <- <- <-.
  split.
  { apply not_elem_of_dom. apply is_fresh. }
  split; [reflexivity|]. split; [reflexivity|]. split.
  { cbn.
    apply (EngineFacts.find_link_tree_node (root_stable_tree st)
             (mkTreeNode hv 1 (Node Leaf (fresh (dom (stable_nodes st)))
                                 Leaf))).
    exact Hnone. }
  split; [cbn; apply lookup_insert_eq|]. split; [reflexivity|].
  exists kp. split; [reflexivity|]. reflexivity.
Qed.

(** X22.  Insert, then search.  When [stable_tree_insert] has published a
    page under a hash that had no tree node, [stable_tree_search] with
    that hash, for an item whose own page is not a KSM page, answers the
    published page, as long as the page is still referenced. *)
Theorem published_page_is_found st kpage hv item titem n s1 s2 st'
    (item2 : nat) x pg kp :
  find_tree_node (root_stable_tree st) hv = None ->
  stable_tree_insert st kpage hv item titem = Ok (Some n, s1, s2, st') ->
  items st' !! item2 = Some x ->
  pages st' !! item_page x = Some pg ->
  page_stable_node pg = None ->
  pages st' !! kpage = Some kp -> _count kp <> 0 ->
  stable_tree_search st' item2 hv
  = Ok (Some kpage,
        put_page_of st' kpage
          (mkPage (content kp) (mapping kp) (_count kp + 1))).
Proof.
  intros Hnone Hins Hx Hpg Hplain Hkp Hcount.
  destruct (stable_tree_insert_new st kpage hv item titem n s1 s2 st'
              Hnone Hins)
    as (_ & _ & _ & Hfind & Hnode & _ & kp0 & Hkp0 & Hpages).
  assert (Hmap : mapping kp = MapKsm (Some n)).
  { rewrite Hpages, lookup_insert_eq in Hkp. injection Hkp as <-.
    reflexivity. }
  unfold Engine.stable_tree_search, get_item, get_page_of.
  rewrite Hx. cbn [bind]. rewrite Hpg. cbn [bind]. rewrite Hplain.
  rewrite Hfind. cbn [count sub_root rb_root_entry].
  change (1 =? 1) with true. cbn match.
  unfold get_ksm_page, get_stable_node, get_page_of.
  rewrite Hnode. cbn [bind kpfn]. rewrite Hkp. cbn [bind].
  rewrite bool_decide_eq_true_2 by exact Hmap.
  destruct (Z.eqb_spec (_count kp) 0); [contradiction|].
  reflexivity.
Qed.

End WithPageSize.

(** Frame 7 of [engine0] is published under its hash, and the search for
    item 5 finds it. *)
Lemma published_page_is_found_witness :
  exists st' kp,
    pages st' !! 7%nat = Some kp /\
    stable_tree_search Examples.page_shift Examples.sample_order st' 5
      Examples.hash_a1
    = Ok (Some 7%nat,
          put_page_of st' 7
            (mkPage (content kp) (mapping kp) (_count kp + 1))).
Proof.
  eexists _, _. split; [|
  eapply (published_page_is_found Examples.page_shift Examples.sample_order
            Examples.host_ok Examples.engine0 7 Examples.hash_a1 4 5
            _ _ _ _ 5);
    [reflexivity|vm_compute; reflexivity|vm_compute; reflexivity
    |vm_compute; reflexivity|reflexivity| |]].
  - vm_compute. reflexivity.
  - vm_compute. reflexivity.
  - vm_compute. discriminate.
Defined.

End PublishFacts.
